(* ===== verification/_CoqProject ===== *)
-Q . S2P
Prelude.v
Crates.v
Reference.v
RefSnow.v
AntiReplay.v
Types.v
Text.v
Timestamp.v
Message.v
XChaCha.v
RateLimiter.v
Cookie.v
Router.v
Peer.v
PeerTransport.v
PeerSessions.v
PeerTotal.v
PeerHandshake.v
Display.v
Timer.v
Udp.v
World.v
PeerServer.v
ServerInvariant.v
ServerFrame.v
ServerBehaviour.v
EndToEnd.v
Burst.v
Config.v
ConfigText.v
System.v
Cryptokey.v
ServerTimers.v
NoPanic.v
Files.v
Service.v
Daemon.v
ProcessTotal.v
Crossing.v
Findings.v
RefChaCha.v
Tests.v
