(* ===== verification/Prelude.v ===== *)
(** * A verification of wireguard-rs

    wireguard-rs is a userspace WireGuard: a single-threaded reactor that moves
    IP packets between a tunnel device and UDP, sealed under sessions that two
    peers agree on in a handshake.  This library models the program's logic as
    executable functions, one definition per function of the source, and proves
    what makes them correct.  File names below are those of the repository's
    directory src/.

    ** How the code is read

    A Rust function that can fail returns a value of [res]: [Ok], [Err] (the
    `failure::Error`), [Panic] (an index out of range, an `unwrap` of an error,
    an `unreachable!`), or [Starved] (see below).  A method with `&mut self` is
    a computation in the state monad [M]: it returns the state it leaves behind
    also when it fails, so early returns with `?` keep the changes made before
    them, as in the source.  Machine integers are [Z] with their width written
    out where the code depends on it ([wrap32], [wrap64], the masks of the
    anti-replay ring); buffers are lists of bytes with slicing that panics out
    of range.  An `Rc<RefCell<Peer>>` is an address in a heap, whose cells are not
    freed; whether a `Weak` can be upgraded is an argument, as are clocks and
    random bytes.  The clock does not move within one poll.

    Third-party crates are parameters: Crates.v has a class of operations and a
    class of documented laws for each (byteorder, blake2-rfc, subtle,
    x25519-dalek, chacha20-poly1305-aead, rips-packets, treebitmap, snow, hex;
    notify is in Service.v, base64 in Display.v).  Theorems take the laws they
    use as hypotheses.  Reference.v and RefSnow.v give executable instances that
    satisfy all laws; the concrete runs evaluate them.  RefChaCha.v is ChaCha20-Poly1305 as RFC
    8439 defines it, as an instance of the AEAD crate.

    What the operating system does is an argument too: the results of system
    calls, the order in which events arrive, the clocks.  The file system is a
    map from paths to nodes (Files.v), in which any call can be refused and
    other processes make changes.

    ** The parts, and where they are

    - Prelude.v (this file): the monads, their rules ([wp], [keeps], [yields]),
      the tactics [run_ok], [keeps_run], [wg_len] and [by_decide], the hint
      database [wg], integers, bytes, slices, time.
    - AntiReplay.v (anti_replay.rs): the ring of 64 words; refined by [Window],
      a set of numbers and their maximum.
    - Timestamp.v (consts.rs, timestamp.rs), Types.v (types.rs, `Endpoint` of
      udp/mod.rs, `UtunPacket` of interface/mod.rs), Message.v (message.rs).
    - Text.v: the parts of the standard library the text protocol uses (UTF-8,
      splitting, integers, IP and socket addresses), with their round trips.
    - XChaCha.v (xchacha20poly1305.rs): the unrolled permutation, equal to the
      quarter-round description; sealing and opening.
    - RateLimiter.v (ratelimiter.rs), Cookie.v (cookie.rs), Timer.v (timer.rs).
    - Router.v (ip_packet.rs, router.rs): longest-prefix routing, refined by
      [Routes], a finite map from prefixes to peers.
    - Peer.v (noise.rs, peer.rs): sessions, handshakes, transport packets.  Its
      theorems are in PeerTransport.v (what is sent and accepted),
      PeerSessions.v (slots, indices and windows under every operation),
      PeerTotal.v (no operation panics) and PeerHandshake.v (two peers).
    - World.v (`State` of interface/mod.rs and the fields of `PeerServer`) and
      PeerServer.v (interface/peer_server.rs): every handler of the server and
      its poll.  The theorems are in ServerInvariant.v (the session table),
      ServerFrame.v (what a poll never touches), ServerBehaviour.v,
      ServerTimers.v (keepalives, retries, wiping), EndToEnd.v (two servers and
      the handshake between them) and Burst.v (two servers with a session).
    - Display.v (types.rs, peer.rs, udp/mod.rs): `Display` and `Debug`.
    - Udp.v (udp/mod.rs, udp/frame.rs): what the sockets and the sink do with
      the datagrams the server hands over.
    - Config.v (interface/config.rs): `handle_update`, the `set` command.
      ConfigText.v: the text protocol around it.
    - System.v: what can happen to the server as a step relation over the
      parts.  NoPanic.v: when a step of it panics.  Cryptokey.v: which packets
      go to a peer and come from it, over the router, the keys and the server.
    - Files.v: the parts of std::path and std::fs that are used.  Service.v
      (interface/config.rs, interface/grim_reaper.rs): the socket of the
      configuration service, its poll and its drop, and the thread that watches
      the socket.
    - Daemon.v (interface/mod.rs, main.rs): connections, the joined future, the
      turns of the reactor, `Interface::start`, and `main`.  ProcessTotal.v:
      which of its inputs panic.  Crossing.v: two processes.
    - Tests.v: the unit tests and benchmarks of the source as programs over the
      model.
    - Findings.v: behaviour that looks unintended, as lemmas and runs.

    The peer server calls the router, the cookie validator, the rate limiter,
    the timers and the peers; the configuration service and the server share
    `State` and talk through a channel; a peer calls the handshake of snow, the
    anti-replay window and the cookie generator.  `Interface::start` polls the
    server, the service and the two directions of the tunnel as one future.  The
    models call each other the same way.

    ** What is shown

    - End to end: bytes that one process reads from its tunnel device come out
      at the device of the other after the five turns that read them, carry the
      handshake and carry them.
    - Transport: over a session a burst of packets of any length goes through
      one poll of each server, unchanged and in order; no packet is accepted
      twice; the format of packets and the limits on a session's messages and
      age.
    - Handshake: two peers with matching keys complete it and end with a linked
      pair of sessions; a replayed initiation is refused; an initiation is
      repeated only after REKEY-TIMEOUT.
    - Timers: a peer never has two passive keepalive timers; a keepalive is sent
      exactly when one is due; a peer without a session gets at most
      MAX-HANDSHAKE-ATTEMPTS retries; wiping forgets all sessions of a peer.
    - Tables: in every state the system reaches, every route leads to a
      configured peer that lists it, the keys match, and the limit on peers
      holds (masks of allowed IPs fit their addresses; treebitmap is documented
      for these only).  The session table is exact: `index_map` has every
      session of a configured peer as that peer's, and mentions configured peers
      only.  There is one exception: an invalid handshake response drops the
      pending session and leaves its index in the table; when the peer is removed
      later, the entry stays, for a peer that is not configured, and every packet
      for it is refused.  The exact table is therefore shown for runs in which
      no peer with such an index is removed, and an update is shown to keep it
      if and only if it removes none.
    - Routing: only an authenticated packet whose source the peer owns reaches
      the tunnel, and a packet from the tunnel goes to the owner of its
      destination only.
    - Panics: in every state the system reaches, no configuration command panics,
      and a poll, with datagrams that are not empty and a clock after 1970, only
      when it handles a new private key and the port cannot be bound or its mark
      not set.  For a started interface this is the only cause of a panic too,
      when each configuration connection sends one well-formed command at most
      and packets of the tunnel have a byte after their header.
    - Process: the server of a started interface takes only the steps of the
      system; the socket file is there while it runs and gone when it returns; a
      signal or the removal of the socket ends it in the next turn, and no input
      that a handler rejects does.
    - Components: refinement of the anti-replay ring and of the router to
      abstract tables, equality of the unrolled permutation with its
      description, the rate bound of the limiter, exactness and safety of the
      parser, the cookie exchange, delivery of timers.
    - Edges: what is handed to the UDP channel leaves in order and once, and all
      of it when the sockets let it; replies leave from where the datagram
      arrived, unless the system refuses that; what the `get` command prints,
      `set` reads back, unless a peer has an IPv6 endpoint, which it refuses.
    - Tests: lemmas that run the unit tests of the source on the model: the
      vectors of wireguard-go, the bursts of the rate limiter and the runs of
      the anti-replay window.
    - Behaviour that looks unintended is stated as lemmas, in Findings.v and
      beside the code it is about: a forged packet spends its nonce, whole
      seconds earn nothing in the rate limiter, a refused response drops the
      handshake and leaves its index behind, a failed send ends the UDP sink
      for good, the second command on a configuration connection panics, the
      cookie reply to an initiation cannot be opened.

    ** Bounds

    No theorem bounds the length of a run, a queue or a stream.  `hchacha20`
    runs its loop with fuel 11, one more than its ten iterations; the theorem
    that equates it with the description shows the fuel is enough.  The loop of
    `unused_index` draws random numbers until one is free: the model is given
    the list of draws, and is [Starved] at its end; it is not when the draws
    have more different values than the table has entries.  A configuration
    connection is served with fuel one above the length of its buffer; each
    command shortens it, and more fuel changes nothing ([serve_fuel]).

    ** What is not modelled

    lib.rs and error.rs, which hold declarations; the parsing of arguments,
    logging and the text that main.rs prints; the crates that daemonise, watch
    files, deliver signals and connect the tunnel device, of which the results
    are arguments; when tasks are woken (a turn of the reactor polls the joined
    future, and nothing is said about how soon); symbolic links and `..` in
    paths; the order of a hash map (the peers of a `get` reply come in any order,
    an argument); the size of the timer channel (its senders wait); the messages
    that are logged (`trace_packet` included) and the raw file descriptor of a
    socket. *)

From Stdlib Require Export ZArith Lia.
From stdpp Require Export prelude gmap strings fin_maps numbers.
From stdpp Require Export list.

#[export] Set Default Goal Selector "!".
Open Scope Z_scope.

(* ------------------------------------------------------------------ *)
(** ** Results *)

(** [res A] is what a Rust function can do in this model: return
    [Ok a], return an error ([Err], the `failure::Error` with its
    message), panic ([Panic]: an index out of range, an `unwrap` of
    `None`, an `unreachable!`), or be [Starved]: a loop that consumes a
    stream of random draws came to the end of the draws supplied. *)
Inductive res (A : Type) : Type :=
| Ok (a : A)
| Err (e : string)
| Panic (why : string)
| Starved.
Arguments Ok {A} a.
Arguments Err {A} e.
Arguments Panic {A} why.
Arguments Starved {A}.

Declare Scope wg_scope.
Delimit Scope wg_scope with wg.
Open Scope wg_scope.

Definition bind_res {A B} (m : res A) (k : A → res B) : res B :=
  match m with
  | Ok a => k a
  | Err e => Err e
  | Panic w => Panic w
  | Starved => Starved
  end.

Notation "'let?' x ':=' m 'in' k" := (bind_res m (fun x => k))
  (at level 10, x name, m at level 150, k at level 200) : wg_scope.
Notation "'let?' ' p ':=' m 'in' k" := (bind_res m (fun x => match x with p => k end))
  (at level 10, p strict pattern, m at level 150, k at level 200) : wg_scope.

(** `ensure!(b, e)`, `o.ok_or_else(|| e)`, `o.unwrap()`. *)
Definition ensure (b : bool) (e : string) : res unit := if b then Ok tt else Err e.
Definition ok_or {A} (o : option A) (e : string) : res A :=
  match o with Some a => Ok a | None => Err e end.
Definition unwrap {A} (o : option A) : res A :=
  match o with Some a => Ok a | None => Panic "unwrap on None" end.

(** The value of a successful run, or [d]. *)
Definition ok_get {A} (d : A) (r : res A) : A := match r with Ok a => a | _ => d end.
Definition is_ok {A} (r : res A) : bool := match r with Ok _ => true | _ => false end.
Definition is_err {A} (r : res A) : bool := match r with Err _ => true | _ => false end.
Definition is_panic {A} (r : res A) : bool := match r with Panic _ => true | _ => false end.

Lemma bind_res_Ok {A B} (m : res A) (k : A → res B) b :
  bind_res m k = Ok b ↔ ∃ a, m = Ok a ∧ k a = Ok b.
Proof. destruct m; simpl; split; [eauto|by intros (? & [= <-] & ?)|..]; by intros (? & ? & ?) || done. Qed.

Lemma ensure_Ok b e u : ensure b e = Ok u ↔ b = true.
Proof. by destruct b, u. Qed.

Lemma ok_or_Ok {A} (o : option A) e a : ok_or o e = Ok a ↔ o = Some a.
Proof. destruct o; simpl; naive_solver. Qed.

#[export] Instance Ok_inj A : Inj (=) (=) (@Ok A).
Proof. by intros ?? [=]. Qed.

(* ------------------------------------------------------------------ *)
(** ** Stateful computations

    A handler that takes `&mut self` and returns a [res] is a function
    from the state to the new state and the result.  The state changes
    made before an error or a panic stay. *)
Definition M (W A : Type) : Type := W → W * res A.

Definition retM {W A} (a : A) : M W A := fun w => (w, Ok a).
Definition liftM {W A} (r : res A) : M W A := fun w => (w, r).
Definition errM {W A} (e : string) : M W A := fun w => (w, Err e).
Definition getM {W A} (f : W → A) : M W A := fun w => (w, Ok (f w)).
Definition modM {W} (f : W → W) : M W unit := fun w => (f w, Ok tt).
Definition bindM {W A B} (m : M W A) (k : A → M W B) : M W B := fun w =>
  match m w with
  | (w', Ok a) => k a w'
  | (w', Err e) => (w', Err e)
  | (w', Panic p) => (w', Panic p)
  | (w', Starved) => (w', Starved)
  end.
(** `let _ = m` / `.map_err(..)`: the error is dropped, a panic is not. *)
Definition ignoreM {W A} (m : M W A) : M W unit := fun w =>
  match m w with
  | (w', Ok _) | (w', Err _) => (w', Ok tt)
  | (w', Panic p) => (w', Panic p)
  | (w', Starved) => (w', Starved)
  end.

Notation "'let!' x ':=' m 'in' k" := (bindM m (fun x => k))
  (at level 10, x name, m at level 150, k at level 200) : wg_scope.
Notation "'let!' ' p ':=' m 'in' k" := (bindM m (fun x => match x with p => k end))
  (at level 10, p strict pattern, m at level 150, k at level 200) : wg_scope.
Notation "m ';;!' k" := (bindM m (fun _ => k))
  (at level 199, k at level 200, right associativity) : wg_scope.

(** Proves a closed decidable proposition by evaluation. *)
Ltac by_decide := refine (bool_decide_unpack _ _); vm_compute; exact I.

(** Inversion of a computation: [m >>= k] ran to an [Ok] exactly when [m] did
    and then [k] did. *)
Lemma bindM_Ok {W A B} (m : M W A) (k : A → M W B) w w' b :
  bindM m k w = (w', Ok b) ↔ ∃ w1 a, m w = (w1, Ok a) ∧ k a w1 = (w', Ok b).
Proof.
  unfold bindM. destruct (m w) as [w1 [a|e|p|]]; split;
    [eauto|by intros (? & ? & [= <- <-] & ?)|..]; by intros (? & ? & ? & ?) || done.
Qed.
Lemma liftM_Ok {W A} (r : res A) (w w' : W) a : liftM r w = (w', Ok a) ↔ w = w' ∧ r = Ok a.
Proof. unfold liftM. naive_solver. Qed.
Lemma retM_Ok {W A} (a a' : A) (w w' : W) : retM a w = (w', Ok a') ↔ w = w' ∧ a = a'.
Proof. unfold retM. naive_solver. Qed.
Lemma getM_Ok {W A} (f : W → A) (w w' : W) a : getM f w = (w', Ok a) ↔ w = w' ∧ f w = a.
Proof. unfold getM. naive_solver. Qed.
Lemma modM_Ok {W} (f : W → W) (w w' : W) u : modM f w = (w', Ok u) ↔ f w = w'.
Proof. unfold modM. destruct u. naive_solver. Qed.
Lemma bindM_run {W A B} (m : M W A) (k : A → M W B) w w' a :
  m w = (w', Ok a) → bindM m k w = k a w'.
Proof. unfold bindM. by intros ->. Qed.
Lemma bindM_err {W A B} (m : M W A) (k : A → M W B) w w' e :
  m w = (w', Err e) → bindM m k w = (w', Err e).
Proof. unfold bindM. by intros ->. Qed.
Lemma liftM_run {W A} (r : res A) (w : W) a : r = Ok a → liftM r w = (w, Ok a).
Proof. by intros ->. Qed.
Lemma ensure_run {W} b e (w : W) : b = true → liftM (ensure b e) w = (w, Ok tt).
Proof. by intros ->. Qed.
Lemma ensure_fail {W} b e (w : W) : b = false → liftM (ensure b e) w = (w, Err e).
Proof. by intros ->. Qed.
(** A run that a Boolean test shows to succeed, with its value. *)
Lemma run_ok_get {W A} (d : A) (p : W * res A) : is_ok p.2 = true → p = (p.1, Ok (ok_get d p.2)).
Proof. by destruct p as [w [a|e|q|]]. Qed.

Lemma pair_eq_inv {A B} (a a' : A) (b b' : B) : (a, b) = (a', b') → a = a' ∧ b = b'.
Proof. by intros [= <- <-]. Qed.

(** Breaks a successful run into its steps. *)
Ltac run_ok :=
  repeat match goal with
    | H : bindM _ _ _ = (_, Ok _) |- _ => apply bindM_Ok in H as (? & ? & ? & ?)
    | H : liftM _ _ = (_, Ok _) |- _ => apply liftM_Ok in H as [<- ?]
    | H : retM _ _ = (_, Ok _) |- _ =>
        apply retM_Ok in H; first [destruct H as [<- <-] | destruct H as [<- H]; apply pair_eq_inv in H as [? ?]; subst]
    | H : getM _ _ = (_, Ok _) |- _ => apply getM_Ok in H as [<- <-]; cbv beta delta [id] in *
    | H : modM _ _ = (_, Ok _) |- _ => apply modM_Ok in H as <-
    | H : ensure _ _ = Ok _ |- _ => apply ensure_Ok in H
    | H : ok_or _ _ = Ok _ |- _ => apply ok_or_Ok in H
    | H : bind_res _ _ = Ok _ |- _ => apply bind_res_Ok in H as (? & ? & ?)
    | H : match ?x with (_, _) => _ end = (_, Ok _) |- _ => destruct x as [? ?] eqn:?
    | H : match ?x with (_, _) => _ end _ = (_, Ok _) |- _ => destruct x as [? ?] eqn:?
    | H : (_, _) = (_, Ok _) |- _ => apply pair_eq_inv in H as [? ?]; subst
    | H : Ok _ = Ok _ |- _ => apply (inj Ok) in H
    end.

(** Any run: a step that fails ends it. *)
Lemma bindM_inv {W A B} (m : M W A) (k : A → M W B) w w' r :
  bindM m k w = (w', r) →
  (∃ w1 a, m w = (w1, Ok a) ∧ k a w1 = (w', r)) ∨
  (is_ok r = false ∧ is_ok (m w).2 = false ∧ (m w).1 = w').
Proof. unfold bindM. destruct (m w) as [w1 [a|e|p|]]; [eauto|..]; intros [= <- <-]; by right. Qed.

(** [wp m Q w]: running [m] from [w] ends in a state and a result
    that satisfy [Q], whatever the result is. *)
Definition wp {W A} (m : M W A) (Q : W → res A → Prop) (w : W) : Prop :=
  Q (m w).1 (m w).2.

Section wp_rules.
Context {W : Type}.

Lemma wp_ret {A} (a : A) Q (w : W) : Q w (Ok a) → wp (retM a) Q w.
Proof. done. Qed.
Lemma wp_lift {A} (r : res A) Q (w : W) : Q w r → wp (liftM r) Q w.
Proof. done. Qed.
Lemma wp_err {A} e Q (w : W) : Q w (@Err A e) → wp (errM e) Q w.
Proof. done. Qed.
Lemma wp_get {A} (f : W → A) Q (w : W) : Q w (Ok (f w)) → wp (getM f) Q w.
Proof. done. Qed.
Lemma wp_mod (f : W → W) Q (w : W) : Q (f w) (Ok tt) → wp (modM f) Q w.
Proof. done. Qed.
Lemma wp_bind {A B} (m : M W A) (k : A → M W B) Q (w : W) :
  wp m (fun w' r =>
          match r with
          | Ok a => wp (k a) Q w'
          | Err e => Q w' (Err e)
          | Panic p => Q w' (Panic p)
          | Starved => Q w' Starved
          end) w →
  wp (bindM m k) Q w.
Proof. unfold wp, bindM. destruct (m w) as [w' [a|e|p|]]; simpl; auto. Qed.
Lemma wp_mono {A} (m : M W A) (Q Q' : W → res A → Prop) (w : W) :
  wp m Q w → (∀ w' r, Q w' r → Q' w' r) → wp m Q' w.
Proof. unfold wp. auto. Qed.
Lemma wp_ignore {A} (m : M W A) (Q : W → res unit → Prop) (w : W) :
  wp m (fun w' r => match r with
                    | Ok _ | Err _ => Q w' (Ok tt)
                    | Panic p => Q w' (Panic p)
                    | Starved => Q w' Starved
                    end) w →
  wp (ignoreM m) Q w.
Proof. unfold wp, ignoreM. destruct (m w) as [w' [a|e|p|]]; simpl; auto. Qed.
End wp_rules.

(** [keeps I m]: [m] preserves the invariant [I] on every outcome. *)
Definition keeps {W A} (I : W → Prop) (m : M W A) : Prop :=
  ∀ w, I w → I (m w).1.

Section keeps_rules.
Context {W : Type} (I : W → Prop).

Lemma keeps_wp {A} (m : M W A) w : keeps I m → I w → wp m (fun w' _ => I w') w.
Proof. intros H ?. by apply H. Qed.
Lemma keeps_ret {A} (a : A) : keeps I (retM a).
Proof. by intros w. Qed.
Lemma keeps_lift {A} (r : res A) : keeps I (liftM r).
Proof. by intros w. Qed.
Lemma keeps_err {A} e : keeps I (errM (A:=A) e).
Proof. by intros w. Qed.
Lemma keeps_get {A} (f : W → A) : keeps I (getM f).
Proof. by intros w. Qed.
Lemma keeps_mod (f : W → W) : (∀ w, I w → I (f w)) → keeps I (modM f).
Proof. intros H w. apply H. Qed.
Lemma keeps_bind {A B} (m : M W A) (k : A → M W B) :
  keeps I m → (∀ a, keeps I (k a)) → keeps I (bindM m k).
Proof.
  intros Hm Hk w Hw. unfold bindM. specialize (Hm w Hw).
  destruct (m w) as [w' [a|e|p|]]; simpl in *; auto. by apply Hk.
Qed.
Lemma keeps_ignore {A} (m : M W A) : keeps I m → keeps I (ignoreM m).
Proof.
  intros Hm w Hw. unfold ignoreM. specialize (Hm w Hw).
  destruct (m w) as [w' [a|e|p|]]; done.
Qed.
End keeps_rules.

(** [yields I phi m]: [m] preserves [I], and what it returns satisfies [phi]. *)
Definition yields {W A} (I : W → Prop) (phi : A → Prop) (m : M W A) : Prop :=
  ∀ w, I w → I (m w).1 ∧ ∀ a, (m w).2 = Ok a → phi a.

Section yields_rules.
Context {W : Type} (I : W → Prop).

Lemma yields_keeps {A} (phi : A → Prop) (m : M W A) : yields I phi m → keeps I m.
Proof. intros H w Hw. by apply H. Qed.
Lemma keeps_yields {A} (m : M W A) : keeps I m → yields I (fun _ => True) m.
Proof. intros H w Hw. split; [by apply H|done]. Qed.
Lemma yields_lift {A} (phi : A → Prop) (r : res A) : (∀ a, r = Ok a → phi a) → yields I phi (liftM r).
Proof. intros H w Hw. split; [done|]. apply H. Qed.
Lemma yields_get {A} (phi : A → Prop) (f : W → A) : (∀ w, I w → phi (f w)) → yields I phi (getM f).
Proof. intros H w Hw. split; [done|]. intros a [= <-]. by apply H. Qed.
Lemma keeps_bind_yields {A B} (phi : A → Prop) (m : M W A) (k : A → M W B) :
  yields I phi m → (∀ a, phi a → keeps I (k a)) → keeps I (bindM m k).
Proof.
  intros Hm Hk w Hw. destruct (Hm w Hw) as [H1 H2]. unfold bindM.
  destruct (m w) as [w' [a|e|p|]]; simpl in *; auto. apply Hk; auto.
Qed.
Lemma yields_ret {A} (phi : A → Prop) (a : A) : phi a → yields I phi (retM a).
Proof. intros Ha w Hw. split; [done|]. by intros a' [= <-]. Qed.
Lemma yields_bind {A B} (phi : A → Prop) (psi : B → Prop) (m : M W A) (k : A → M W B) :
  yields I phi m → (∀ a, phi a → yields I psi (k a)) → yields I psi (bindM m k).
Proof.
  intros Hm Hk w Hw. destruct (Hm w Hw) as [H1 H2]. unfold bindM.
  destruct (m w) as [w' [a|e|p|]]; simpl in *; [|done..]. by apply Hk; [apply H2|].
Qed.
Lemma yields_any {A B} (psi : B → Prop) (m : M W A) (k : A → M W B) :
  keeps I m → (∀ a, yields I psi (k a)) → yields I psi (bindM m k).
Proof. intros Hm Hk. by eapply yields_bind; [apply keeps_yields|]. Qed.
End yields_rules.

(** One structural step of a [keeps] goal. *)
Ltac keeps_step :=
  lazymatch goal with
  | |- keeps _ (match ?x with _ => _ end) => destruct x
  | |- keeps _ (retM _) => apply keeps_ret
  | |- keeps _ (liftM _) => apply keeps_lift
  | |- keeps _ (errM _) => apply keeps_err
  | |- keeps _ (getM _) => apply keeps_get
  | |- keeps _ (bindM _ _) => apply keeps_bind; [|intros ?]
  | |- keeps _ (ignoreM _) => apply keeps_ignore
  | |- keeps _ (modM _) => apply keeps_mod; intros ? ?
  | |- keeps _ (let _ := _ in _) => cbv zeta
  end.
Ltac keeps_run := repeat keeps_step; try done.

(** [calm phi r]: the result is not a panic, and satisfies [phi] if it is a
    value; [safe I phi m]: from a state in [I], [m] ends in one, calmly. *)
Definition calm {A} (phi : A → Prop) (r : res A) : Prop :=
  match r with Ok a => phi a | Panic _ => False | _ => True end.
Definition safe {W A} (I : W → Prop) (phi : A → Prop) (m : M W A) : Prop :=
  ∀ w, I w → I (m w).1 ∧ calm phi (m w).2.

Section safe_rules.
Context {W : Type} (I : W → Prop).

Lemma calm_eq {A} (r : res A) : is_panic r = false → calm (fun a => r = Ok a) r.
Proof. by destruct r. Qed.
Lemma calm_no_panic {A} (phi : A → Prop) (r : res A) : calm phi r → is_panic r = false.
Proof. by destruct r. Qed.
Lemma calm_mono {A} (phi psi : A → Prop) (r : res A) : calm phi r → (∀ a, phi a → psi a) → calm psi r.
Proof. destruct r; simpl; auto. Qed.
Lemma calm_bind {A B} (phi : A → Prop) (psi : B → Prop) (r : res A) (k : A → res B) :
  calm phi r → (∀ a, phi a → calm psi (k a)) → calm psi (bind_res r k).
Proof. destruct r; simpl; auto. Qed.
Lemma calm_bind_eq {A B} (psi : B → Prop) (r : res A) (k : A → res B) :
  is_panic r = false → (∀ a, r = Ok a → calm psi (k a)) → calm psi (bind_res r k).
Proof. destruct r; simpl; auto. done. Qed.

Lemma safe_ret {A} (phi : A → Prop) (a : A) : phi a → safe I phi (retM a).
Proof. by intros ? w ?. Qed.
Lemma safe_err {A} (phi : A → Prop) e : safe I phi (errM (A:=A) e).
Proof. by intros w ?. Qed.
Lemma safe_lift {A} (phi : A → Prop) (r : res A) : calm phi r → safe I phi (liftM r).
Proof. by intros ? w ?. Qed.
Lemma safe_get {A} (f : W → A) (phi : A → Prop) : (∀ w, I w → phi (f w)) → safe I phi (getM f).
Proof. intros H w Hw. split; [done|]. by apply H. Qed.
Lemma safe_mod (phi : unit → Prop) (f : W → W) : (∀ w, I w → I (f w)) → phi tt → safe I phi (modM f).
Proof. intros H ? w Hw. split; [by apply H|done]. Qed.
Lemma safe_mono {A} (phi psi : A → Prop) (m : M W A) : safe I phi m → (∀ a, phi a → psi a) → safe I psi m.
Proof. intros H Hi w Hw. destruct (H w Hw). split; [done|]. by eapply calm_mono. Qed.
Lemma safe_bind {A B} (phi : A → Prop) (psi : B → Prop) (m : M W A) (k : A → M W B) :
  safe I phi m → (∀ a, phi a → safe I psi (k a)) → safe I psi (bindM m k).
Proof.
  intros Hm Hk w Hw. destruct (Hm w Hw) as [H1 H2]. unfold bindM.
  destruct (m w) as [w' [a|e|p|]]; simpl in *; try done. by apply Hk.
Qed.
Lemma safe_bind_any {A B} (psi : B → Prop) (m : M W A) (k : A → M W B) :
  safe I (fun _ => True) m → (∀ a, safe I psi (k a)) → safe I psi (bindM m k).
Proof. intros Hm Hk. eapply safe_bind; [done|]. intros a _. apply Hk. Qed.
Lemma safe_bind_get {A B} (psi : B → Prop) (f : W → A) (k : A → M W B) :
  (∀ w, I w → safe I psi (k (f w))) → safe I psi (bindM (getM f) k).
Proof. intros H w Hw. by apply (H w Hw w). Qed.
Lemma safe_bind_lift {A B} (psi : B → Prop) (r : res A) (k : A → M W B) :
  is_panic r = false → (∀ a, r = Ok a → safe I psi (k a)) → safe I psi (bindM (liftM r) k).
Proof. intros Hr. apply safe_bind, safe_lift, calm_eq, Hr. Qed.
Lemma safe_bind_ok {A B} (psi : B → Prop) (r : res A) a (k : A → M W B) :
  r = Ok a → safe I psi (k a) → safe I psi (bindM (liftM r) k).
Proof. intros -> H. exact H. Qed.
Lemma safe_ignore {A} (phi : A → Prop) (m : M W A) : safe I phi m → safe I (fun _ => True) (ignoreM m).
Proof. intros H w Hw. destruct (H w Hw) as [H1 H2]. unfold ignoreM. by destruct (m w) as [w' [a|e|p|]]. Qed.
Lemma safe_keeps {A} (phi : A → Prop) (m : M W A) : safe I phi m → keeps I m.
Proof. intros H w Hw. by apply H. Qed.
End safe_rules.

Lemma ensure_no_panic b e : is_panic (ensure b e) = false.
Proof. by destruct b. Qed.
Lemma ok_or_no_panic {A} (o : option A) e : is_panic (ok_or o e) = false.
Proof. by destruct o. Qed.

Create HintDb wg.
#[export] Hint Resolve safe_ret safe_err safe_lift ensure_no_panic ok_or_no_panic : wg.
#[export] Hint Resolve keeps_ret keeps_lift keeps_err keeps_get keeps_bind keeps_ignore : wg.
#[export] Hint Resolve wp_ret wp_lift wp_err wp_get wp_mod : wg.

(** ** Maps *)

Lemma foldl_delete_lookup {A} (l : list Z) : ∀ (m : gmap Z A) i,
  foldl (fun m i => delete i m) m l !! i = if decide (i ∈ l) then None else m !! i.
Proof.
  induction l as [|x l IH]; intros m i; simpl; [done|]. rewrite IH.
  destruct (decide (i ∈ l)), (decide (i ∈ x :: l)); try done; [set_solver| |].
  - assert (i = x) as -> by set_solver. apply lookup_delete_eq.
  - apply lookup_delete_ne. set_solver.
Qed.

(* ------------------------------------------------------------------ *)
(** ** Machine integers *)

Definition is_u8 (z : Z) : Prop := 0 ≤ z < 2 ^ 8.
Definition is_u16 (z : Z) : Prop := 0 ≤ z < 2 ^ 16.
Definition is_u32 (z : Z) : Prop := 0 ≤ z < 2 ^ 32.
Definition is_u64 (z : Z) : Prop := 0 ≤ z < 2 ^ 64.

#[export] Instance is_u8_dec z : Decision (is_u8 z).
Proof. unfold is_u8. apply _. Defined.
#[export] Instance is_u16_dec z : Decision (is_u16 z).
Proof. unfold is_u16. apply _. Defined.
#[export] Instance is_u32_dec z : Decision (is_u32 z).
Proof. unfold is_u32. apply _. Defined.
#[export] Instance is_u64_dec z : Decision (is_u64 z).
Proof. unfold is_u64. apply _. Defined.

(** Arithmetic of a release build: it wraps. *)
Definition wrap16 (z : Z) : Z := z mod 2 ^ 16.
Definition wrap32 (z : Z) : Z := z mod 2 ^ 32.
Definition wrap64 (z : Z) : Z := z mod 2 ^ 64.

Lemma wrap32_u32 z : is_u32 (wrap32 z).
Proof. apply Z.mod_pos_bound. lia. Qed.
Lemma wrap64_u64 z : is_u64 (wrap64 z).
Proof. apply Z.mod_pos_bound. lia. Qed.
Lemma wrap64_id z : is_u64 z → wrap64 z = z.
Proof. apply Z.mod_small. Qed.
Lemma wrap32_id z : is_u32 z → wrap32 z = z.
Proof. apply Z.mod_small. Qed.
#[export] Hint Resolve wrap32_u32 wrap64_u64 : wg.

(* ------------------------------------------------------------------ *)
(** ** Byte buffers

    A `&[u8]`, `Vec<u8>` or `[u8; n]` is a list of integers; [is_bytes]
    says that each is a byte.  Slicing out of range panics. *)
Abbreviation bytes := (list Z) (only parsing).
Definition is_bytes (b : bytes) : Prop := Forall is_u8 b.
Definition zeros (n : nat) : bytes := replicate n 0.

#[export] Instance is_bytes_dec b : Decision (is_bytes b).
Proof. unfold is_bytes. apply _. Defined.

(** The bytes of a string literal `b"..."`. *)
Definition str_bytes (s : string) : bytes :=
  (fun c => Z.of_N (Ascii.N_of_ascii c)) <$> String.list_ascii_of_string s.

(** `b[i]` (on bytes and on the words of an array), `&b[lo..hi]`, `&b[lo..]`. *)
Definition index_get (i : nat) (b : bytes) : res Z :=
  match b !! i with Some x => Ok x | None => Panic "index out of bounds" end.
Definition slice (lo hi : nat) (b : bytes) : res bytes :=
  if bool_decide ((lo ≤ hi)%nat ∧ (hi ≤ length b)%nat)
  then Ok (take (hi - lo) (drop lo b)) else Panic "slice out of range".
Definition slice_from (lo : nat) (b : bytes) : res bytes := slice lo (length b) b.

(** [overlay lo d b]: the buffer [b] with [d] written from offset [lo]. *)
Definition overlay (lo : nat) (d b : bytes) : bytes :=
  take lo b ++ d ++ drop (lo + length d) b.

(** `b[lo..hi].copy_from_slice(d)`. *)
Definition copy_into (lo hi : nat) (d b : bytes) : res bytes :=
  if bool_decide ((lo ≤ hi)%nat ∧ (hi ≤ length b)%nat ∧ length d = (hi - lo)%nat)
  then Ok (overlay lo d b) else Panic "copy_from_slice".

(** `b[i] = x`. *)
Definition index_set (i : nat) (x : Z) (b : bytes) : res bytes :=
  if bool_decide ((i < length b)%nat) then Ok (<[i:=x]> b) else Panic "index out of bounds".

(** `f(&mut b[lo..hi])`: [f] rewrites the slice in place. *)
Definition with_slice (lo hi : nat) (f : bytes → res bytes) (b : bytes) : res bytes :=
  let? s := slice lo hi b in
  let? s' := f s in
  Ok (take lo b ++ s' ++ drop hi b).
Definition with_slice_from (lo : nat) (f : bytes → res bytes) (b : bytes) : res bytes :=
  with_slice lo (length b) f b.

Lemma slice_Ok lo hi (b : bytes) :
  (lo ≤ hi)%nat → (hi ≤ length b)%nat → slice lo hi b = Ok (take (hi - lo) (drop lo b)).
Proof. intros. unfold slice. by rewrite bool_decide_eq_true_2. Qed.

Lemma slice_from_Ok lo (b : bytes) :
  (lo ≤ length b)%nat → slice_from lo b = Ok (drop lo b).
Proof.
  intros. unfold slice_from. rewrite slice_Ok by lia.
  by rewrite take_ge by (rewrite length_drop; lia).
Qed.

Lemma length_slice lo hi (b s : bytes) : slice lo hi b = Ok s → length s = (hi - lo)%nat.
Proof.
  unfold slice. case_bool_decide; [|done]. intros [= <-].
  rewrite length_take, length_drop. lia.
Qed.

Lemma length_overlay lo d (b : bytes) :
  (lo + length d ≤ length b)%nat → length (overlay lo d b) = length b.
Proof.
  intros. unfold overlay. rewrite !length_app, length_take, length_drop. lia.
Qed.

Lemma overlay_read lo d (b : bytes) :
  (lo + length d ≤ length b)%nat → take (length d) (drop lo (overlay lo d b)) = d.
Proof.
  intros. unfold overlay. rewrite drop_app_length' by (rewrite length_take; lia).
  apply take_app_length.
Qed.

Lemma overlay_read_before lo d (b : bytes) lo' n :
  (lo' + n ≤ lo)%nat → (lo ≤ length b)%nat →
  take n (drop lo' (overlay lo d b)) = take n (drop lo' b).
Proof.
  intros. unfold overlay. rewrite drop_app_le by (rewrite length_take; lia).
  rewrite take_app_le by (rewrite length_drop, length_take; lia).
  rewrite skipn_firstn_comm, take_take. f_equal. lia.
Qed.

Lemma overlay_read_after lo d (b : bytes) lo' n :
  (lo + length d ≤ lo')%nat → (lo + length d ≤ length b)%nat →
  take n (drop lo' (overlay lo d b)) = take n (drop lo' b).
Proof.
  intros. unfold overlay. rewrite drop_app_ge by (rewrite length_take; lia).
  rewrite drop_app_ge by (rewrite length_take; lia).
  rewrite drop_drop, length_take. do 2 f_equal. lia.
Qed.

(** Overwriting the middle field of a buffer. *)
Lemma overlay_app3 (h o d t : bytes) n :
  n = length h → length d = length o → overlay n d (h ++ o ++ t) = h ++ d ++ t.
Proof.
  intros -> Hd. unfold overlay. rewrite take_app_length. do 2 f_equal.
  rewrite app_assoc. apply drop_app_length'. rewrite length_app. lia.
Qed.

Lemma take_overlay_app (h d z : bytes) n :
  n = length h → take (n + length d) (overlay n d (h ++ z)) = h ++ d.
Proof.
  intros ->. unfold overlay. rewrite take_app_length, app_assoc, <-length_app.
  apply take_app_length.
Qed.

(** A write of [d] at the front of a sub-slice is an overlay. *)
Lemma with_slice_write lo hi f d (b : bytes) :
  (lo + length d ≤ hi)%nat → (hi ≤ length b)%nat →
  (∀ s, length s = (hi - lo)%nat → f s = Ok (d ++ drop (length d) s)) →
  with_slice lo hi f b = Ok (overlay lo d b).
Proof.
  intros H1 H2 Hf. unfold with_slice. rewrite slice_Ok by lia. simpl.
  rewrite Hf by (rewrite length_take, length_drop; lia). simpl. f_equal.
  unfold overlay. rewrite <-!app_assoc. do 2 f_equal.
  rewrite skipn_firstn_comm, drop_drop.
  replace (drop hi b) with (drop (hi - lo - length d) (drop (lo + length d) b))
    by (rewrite drop_drop; f_equal; lia).
  by rewrite take_drop.
Qed.

Lemma copy_into_Ok lo hi d (b : bytes) :
  (lo ≤ hi)%nat → (hi ≤ length b)%nat → length d = (hi - lo)%nat →
  copy_into lo hi d b = Ok (overlay lo d b).
Proof. intros. unfold copy_into. by rewrite bool_decide_eq_true_2. Qed.

Lemma index_get_Ok (b : bytes) (i : nat) : (i < length b)%nat → index_get i b = Ok (b !!! i).
Proof. intros H. unfold index_get. by rewrite list_lookup_lookup_total_lt. Qed.
Lemma index_set_Ok (b : bytes) (i : nat) x : (i < length b)%nat → index_set i x b = Ok (<[i:=x]> b).
Proof. intros H. unfold index_set. by rewrite bool_decide_eq_true_2. Qed.

Lemma is_bytes_zeros n : is_bytes (zeros n).
Proof. apply Forall_replicate. unfold is_u8. lia. Qed.
Lemma length_zeros n : length (zeros n) = n.
Proof. apply length_replicate. Qed.

(** The integer a byte string encodes, least significant byte first, and
    its inverse. *)
Fixpoint le_combine (b : bytes) : Z :=
  match b with [] => 0 | x :: b' => x + 256 * le_combine b' end.
Fixpoint le_split (n : nat) (z : Z) : bytes :=
  match n with O => [] | S n' => z mod 256 :: le_split n' (z / 256) end.
Definition be_combine (b : bytes) : Z := le_combine (rev b).
Definition be_split (n : nat) (z : Z) : bytes := rev (le_split n z).

Lemma length_le_split n z : length (le_split n z) = n.
Proof. revert z. induction n; intros z; simpl; auto. Qed.
Lemma length_be_split n z : length (be_split n z) = n.
Proof. unfold be_split. by rewrite length_rev, length_le_split. Qed.

Lemma is_bytes_le_split n z : is_bytes (le_split n z).
Proof.
  revert z. induction n as [|n IH]; intros z; simpl; constructor; [|apply IH].
  unfold is_u8. pose proof (Z.mod_pos_bound z 256). lia.
Qed.

Lemma le_combine_split n z : 0 ≤ z < 256 ^ Z.of_nat n → le_combine (le_split n z) = z.
Proof.
  revert z. induction n as [|n IH]; intros z Hz; simpl.
  - change (256 ^ Z.of_nat 0) with 1 in Hz. lia.
  - rewrite Nat2Z.inj_succ, Z.pow_succ_r in Hz by lia.
    rewrite IH; [pose proof (Z.div_mod z 256); lia|].
    split; [apply Z.div_pos; lia|]. apply Z.div_lt_upper_bound; lia.
Qed.

Lemma le_combine_bound b : is_bytes b → 0 ≤ le_combine b < 256 ^ Z.of_nat (length b).
Proof.
  induction 1 as [|x b Hx _ IH]; cbn [length le_combine]; [lia|].
  unfold is_u8 in Hx. rewrite Nat2Z.inj_succ, Z.pow_succ_r by lia. lia.
Qed.

Lemma le_split_combine b : is_bytes b → le_split (length b) (le_combine b) = b.
Proof.
  induction 1 as [|x b Hx _ IH]; simpl; [done|]. unfold is_u8 in Hx.
  rewrite (Z.mul_comm 256), Z.mod_add, Z.mod_small, Z.div_add, Z.div_small by lia.
  by rewrite Z.add_0_l, IH.
Qed.

Lemma le_split_inj n a b :
  0 ≤ a < 256 ^ Z.of_nat n → 0 ≤ b < 256 ^ Z.of_nat n → le_split n a = le_split n b → a = b.
Proof. intros Ha Hb H. rewrite <-(le_combine_split n a), <-(le_combine_split n b) by done. by rewrite H. Qed.

Lemma le_combine_app a b :
  le_combine (a ++ b) = le_combine a + 256 ^ Z.of_nat (length a) * le_combine b.
Proof.
  induction a as [|x a IH]; cbn [app le_combine length]; [lia|].
  rewrite IH, Nat2Z.inj_succ, Z.pow_succ_r by lia. lia.
Qed.

Lemma be_combine_app a b :
  be_combine (a ++ b) = be_combine a * 256 ^ Z.of_nat (length b) + be_combine b.
Proof. unfold be_combine. rewrite rev_app_distr, le_combine_app, length_rev. lia. Qed.

Lemma be_combine_cons x b : be_combine (x :: b) = x * 256 ^ Z.of_nat (length b) + be_combine b.
Proof. change (x :: b) with ([x] ++ b). rewrite be_combine_app. unfold be_combine. simpl. lia. Qed.

Lemma be_combine_split n z : 0 ≤ z < 256 ^ Z.of_nat n → be_combine (be_split n z) = z.
Proof. intros. unfold be_combine, be_split. rewrite rev_involutive. by apply le_combine_split. Qed.

Lemma is_bytes_be_split n z : is_bytes (be_split n z).
Proof. apply List.Forall_rev, is_bytes_le_split. Qed.

Lemma be_combine_bound b : is_bytes b → 0 ≤ be_combine b < 256 ^ Z.of_nat (length b).
Proof.
  intros Hb. unfold be_combine. rewrite <-length_rev. by apply le_combine_bound, List.Forall_rev.
Qed.

(** The comparison `<` of byte arrays and slices: lexicographic. *)
Fixpoint lex_lt (a b : bytes) : bool :=
  match a, b with
  | x :: a', y :: b' => if x <? y then true else if y <? x then false else lex_lt a' b'
  | [], _ :: _ => true
  | _, [] => false
  end.

Lemma lex_lt_irrefl a : lex_lt a a = false.
Proof. induction a as [|x a IH]; simpl; [done|]. by rewrite Z.ltb_irrefl. Qed.

Lemma lex_lt_trans a : ∀ b c, lex_lt a b = true → lex_lt b c = true → lex_lt a c = true.
Proof.
  induction a as [|x a IH]; intros [|y b] [|z c]; simpl; try done.
  destruct (Z.ltb_spec x y), (Z.ltb_spec y z), (Z.ltb_spec x z); try done; try lia;
    destruct (Z.ltb_spec y x), (Z.ltb_spec z y), (Z.ltb_spec z x); try done; try lia. apply IH.
Qed.

(** On byte strings of the same length it is the order of the big-endian
    integers. *)
Lemma lex_lt_be_combine a : ∀ b,
  is_bytes a → is_bytes b → length a = length b →
  lex_lt a b = (be_combine a <? be_combine b).
Proof.
  induction a as [|x a IH]; intros [|y b] Ha Hb Hl; try done. cbn [lex_lt].
  apply Forall_cons_1 in Ha as [Hx Ha]. apply Forall_cons_1 in Hb as [Hy Hb].
  injection Hl as Hl. rewrite !be_combine_cons, <-Hl.
  pose proof (be_combine_bound a Ha). pose proof (be_combine_bound b Hb) as Hbb.
  rewrite <-Hl in Hbb. unfold is_u8 in *.
  destruct (Z.ltb_spec x y); [symmetry; apply Z.ltb_lt; nia|].
  destruct (Z.ltb_spec y x); [symmetry; apply Z.ltb_ge; nia|].
  assert (x = y) as -> by lia. rewrite IH by done.
  destruct (Z.ltb_spec (be_combine a) (be_combine b));
    symmetry; [apply Z.ltb_lt|apply Z.ltb_ge]; lia.
Qed.

Create Rewrite HintDb wg_len.
#[export] Hint Rewrite length_le_split length_be_split length_zeros : wg_len.

(** ** Time

    An `Instant` or a `Duration` is a number of nanoseconds. *)
Abbreviation Instant := Z (only parsing).
Abbreviation Duration := Z (only parsing).
Definition NANOS : Z := 1000000000.
Definition secs (n : Z) : Duration := n * NANOS.
Definition millis (n : Z) : Duration := n * 1000000.
(** `Duration::as_secs`, `Duration::subsec_nanos`. *)
Definition as_secs (d : Duration) : Z := d / NANOS.
Definition subsec_nanos (d : Duration) : Z := d mod NANOS.
(** `Duration::new(s, n)`: nanoseconds past a second carry over. *)
Definition duration_new (s n : Z) : Duration := secs s + n.
