(* ===== verification/Crates.v ===== *)
(** * The crates the program calls

    One type class per third-party crate, with the operations the program
    uses, and one with the documented laws the theorems rely on.  No body is
    given here: every model takes the crates as parameters.  Executable
    instances, used to evaluate the models, are in Reference.v. *)

From S2P Require Import Prelude.

(* ------------------------------------------------------------------ *)
(** ** byteorder *)

(** Reads take the front of the buffer; writes return the buffer with its
    front overwritten. *)
Class ByteOrder := {
  le_read_u32 : bytes → res Z;
  le_read_u64 : bytes → res Z;
  le_write_u32 : Z → bytes → res bytes;
  le_write_u64 : Z → bytes → res bytes;
  be_write_i64 : Z → bytes → res bytes;
  be_write_i32 : Z → bytes → res bytes;
}.

Class ByteOrderLaws (BO : ByteOrder) : Prop := {
  le_read_u32_ok b : (4 ≤ length b)%nat → le_read_u32 b = Ok (le_combine (take 4 b));
  le_read_u64_ok b : (8 ≤ length b)%nat → le_read_u64 b = Ok (le_combine (take 8 b));
  le_write_u32_ok n b :
    is_u32 n → (4 ≤ length b)%nat → le_write_u32 n b = Ok (le_split 4 n ++ drop 4 b);
  le_write_u64_ok n b :
    is_u64 n → (8 ≤ length b)%nat → le_write_u64 n b = Ok (le_split 8 n ++ drop 8 b);
  be_write_i64_ok n b :
    0 ≤ n < 2 ^ 63 → (8 ≤ length b)%nat → be_write_i64 n b = Ok (be_split 8 n ++ drop 8 b);
  be_write_i32_ok n b :
    0 ≤ n < 2 ^ 31 → (4 ≤ length b)%nat → be_write_i32 n b = Ok (be_split 4 n ++ drop 4 b);
}.

(* ------------------------------------------------------------------ *)
(** ** blake2-rfc, subtle, x25519-dalek *)

(** `blake2s(nn, key, data).as_bytes()`. *)
Class Blake2 := { blake2s : nat → bytes → bytes → bytes }.

Class Blake2Laws (B : Blake2) : Prop := {
  length_blake2s n k d : (0 < n ≤ 32)%nat → (length k ≤ 32)%nat → length (blake2s n k d) = n;
  blake2s_bytes n k d : is_bytes (blake2s n k d);
}.

(** `a.ct_eq(b).unwrap_u8()`. *)
Class Subtle := { ct_eq : bytes → bytes → Z }.

Class SubtleLaws (S : Subtle) : Prop := {
  ct_eq_spec a b : length a = length b → ct_eq a b = 1 ↔ a = b;
}.

(** `x25519::generate_public(k).as_bytes()`. *)
Class X25519 := { generate_public : bytes → bytes }.

(* ------------------------------------------------------------------ *)
(** ** chacha20-poly1305-aead *)

(** [aead_encrypt key nonce aad input] is what is written to the output and the
    tag; [aead_decrypt key nonce aad input tag] is what is written. *)
Class Aead := {
  aead_encrypt : bytes → bytes → bytes → bytes → res (bytes * bytes);
  aead_decrypt : bytes → bytes → bytes → bytes → bytes → res bytes;
}.

Class AeadLaws (A : Aead) : Prop := {
  aead_encrypt_ok k n aad pt :
    length k = 32%nat → length n = 12%nat →
    ∃ ct tag, aead_encrypt k n aad pt = Ok (ct, tag) ∧
              length ct = length pt ∧ length tag = 16%nat;
  aead_decrypt_encrypt k n aad pt ct tag :
    aead_encrypt k n aad pt = Ok (ct, tag) → aead_decrypt k n aad ct tag = Ok pt;
  aead_decrypt_cases k n aad ct tag :
    length k = 32%nat → length n = 12%nat →
    (∃ pt, aead_decrypt k n aad ct tag = Ok pt ∧ length pt = length ct) ∨ is_err (aead_decrypt k n aad ct tag) = true;
}.

(* ------------------------------------------------------------------ *)
(** ** rips-packets *)

(** `Ipv4Packet::new(p).is_some()` and the accessors of the packet. *)
Class Rips := {
  ipv4_valid : bytes → bool;
  ipv4_source : bytes → Z;
  ipv4_destination : bytes → Z;
  ipv4_total_length : bytes → Z;
  ipv6_valid : bytes → bool;
  ipv6_source : bytes → Z;
  ipv6_destination : bytes → Z;
  ipv6_payload_length : bytes → Z;
}.

Class RipsLaws (R : Rips) : Prop := {
  ipv4_valid_spec p : ipv4_valid p = true ↔ (20 ≤ length p)%nat;
  ipv6_valid_spec p : ipv6_valid p = true ↔ (40 ≤ length p)%nat;
  ipv4_total_length_u16 p : is_bytes p → is_u16 (ipv4_total_length p);
  ipv6_payload_length_u16 p : is_bytes p → is_u16 (ipv6_payload_length p);
}.

(* ------------------------------------------------------------------ *)
(** ** treebitmap *)

(** `IpLookupTable<A, V>` for addresses of [w] bits (32 or 128). *)
Class Treebitmap := {
  lut : Type → Type;
  lut_new : ∀ {V} (w : Z), lut V;
  lut_insert : ∀ {V} (w : Z), Z → Z → V → lut V → lut V;
  lut_remove : ∀ {V} (w : Z), Z → Z → lut V → lut V;
  lut_longest_match : ∀ {V} (w : Z), Z → lut V → option (Z * Z * V);
}.

(** The prefix of length [len] of the [w]-bit address [ip]. *)
Definition prefix_of (w ip len : Z) : Z * Z := (ip / 2 ^ (w - len), len).

(** Seen through [lut_view], the table is a map from prefixes, and the longest
    match is the entry with the longest prefix of the address. *)
Class TreebitmapLaws (T : Treebitmap) := {
  lut_view : ∀ {V}, Z → lut V → gmap (Z * Z) V;
  lut_view_new V w : lut_view w (lut_new (V:=V) w) = ∅;
  lut_view_insert V w ip len (v : V) m :
    0 ≤ len ≤ w → lut_view w (lut_insert w ip len v m) = <[prefix_of w ip len := v]> (lut_view w m);
  lut_view_remove V w ip len (m : lut V) :
    0 ≤ len ≤ w → lut_view w (lut_remove w ip len m) = delete (prefix_of w ip len) (lut_view w m);
  lut_match_some V w ip (m : lut V) p len v :
    0 ≤ w → lut_longest_match w ip m = Some (p, len, v) →
    0 ≤ len ≤ w ∧ lut_view w m !! prefix_of w ip len = Some v ∧
    ∀ len', len < len' ≤ w → lut_view w m !! prefix_of w ip len' = None;
  lut_match_none V w ip (m : lut V) :
    lut_longest_match w ip m = None →
    ∀ len, 0 ≤ len ≤ w → lut_view w m !! prefix_of w ip len = None;
}.

(* ------------------------------------------------------------------ *)
(** ** snow *)

(** What the program sets on a `NoiseBuilder`. *)
Record NoiseBuilder := {
  nb_params : string;
  nb_local_private_key : bytes;
  nb_prologue : string;
  nb_remote_public_key : option bytes;
  nb_psk : option (Z * bytes);
}.

(** `snow::Session`.  The calls that take `&mut self` return the session they
    leave behind, also when they fail; [snow_write_message s p cap] and
    [snow_read_message s m cap] return the bytes written to a buffer of [cap]
    bytes. *)
Class Snow := {
  noise : Type;
  snow_build_initiator : NoiseBuilder → res noise;
  snow_build_responder : NoiseBuilder → res noise;
  snow_set_psk : noise → Z → bytes → noise * res unit;
  snow_write_message : noise → bytes → nat → noise * res bytes;
  snow_read_message : noise → bytes → nat → noise * res bytes;
  snow_into_transport_mode : noise → res noise;
  snow_is_handshake_finished : noise → bool;
  snow_sending_nonce : noise → res Z;
  snow_set_receiving_nonce : noise → Z → noise * res unit;
  snow_get_remote_static : noise → option bytes;
}.

(** A written or read message fits the buffer, and a transport message is its
    payload and a 16-byte tag. *)
Class SnowLaws (S : Snow) : Prop := {
  snow_write_fits s p cap s' m : snow_write_message s p cap = (s', Ok m) → (length m ≤ cap)%nat;
  snow_read_fits s m cap s' p : snow_read_message s m cap = (s', Ok p) → (length p ≤ cap)%nat;
  snow_write_transport_length s p cap s' m :
    snow_is_handshake_finished s = true → snow_write_message s p cap = (s', Ok m) →
    length m = (length p + 16)%nat;
  snow_sending_nonce_u64 s n : snow_sending_nonce s = Ok n → is_u64 n;
  snow_write_no_panic s p cap w : (snow_write_message s p cap).2 ≠ Panic w;
  snow_read_no_panic s m cap w : (snow_read_message s m cap).2 ≠ Panic w;
}.

(** Transport messages: [snow_opens s r] says that [r] holds the receiving key
    of the sending key of [s].  It does not depend on the nonces, so it stays
    when either side moves on; what [s] writes under the nonce [n], any such
    [r] reads once its nonce is set to [n] (`Session::set_receiving_nonce`, for
    lossy transports).  Receiving leaves the sending nonce alone.  A Noise
    message has at most 65535 bytes and the nonce
    2^64 - 1 is reserved. *)
Class SnowChannel (S : Snow) := {
  snow_opens : noise → noise → Prop;
  snow_opens_finished s r :
    snow_opens s r → snow_is_handshake_finished s = true ∧ snow_is_handshake_finished r = true;
  snow_opens_write s r p cap s' x : snow_opens s r → snow_write_message s p cap = (s', x) → snow_opens s' r;
  snow_opens_set_nonce s r n r' x : snow_opens s r → snow_set_receiving_nonce r n = (r', x) → snow_opens s r';
  snow_opens_read s r m cap r' x : snow_opens s r → snow_read_message r m cap = (r', x) → snow_opens s r';
  snow_channel_write s r n p cap :
    snow_opens s r → snow_sending_nonce s = Ok n → n < 2 ^ 64 - 1 →
    (length p + 16 ≤ cap)%nat → Z.of_nat (length p) + 16 ≤ 65535 →
    ∃ s' m, snow_write_message s p cap = (s', Ok m) ∧ snow_sending_nonce s' = Ok (n + 1);
  snow_channel_read s r n p cap s' m cap' :
    snow_opens s r → snow_sending_nonce s = Ok n → snow_write_message s p cap = (s', Ok m) →
    (length p ≤ cap')%nat →
    ∃ r1 r2, snow_set_receiving_nonce r n = (r1, Ok tt) ∧ snow_read_message r1 m cap' = (r2, Ok p);
  snow_set_nonce_sending s r n :
    snow_opens s r → snow_sending_nonce (snow_set_receiving_nonce r n).1 = snow_sending_nonce r;
  snow_read_sending s r m cap :
    snow_opens s r → snow_sending_nonce (snow_read_message r m cap).1 = snow_sending_nonce r;
}.

(** The pattern IKpsk2: the initiator knows the responder's static key and the
    psk; the responder learns the initiator's static key from the first
    message and sets the psk before the second.  Afterwards each side opens
    what the other seals, and both count from zero. *)
Class SnowIK (S : Snow) (C : SnowChannel S) (X : X25519) : Prop := {
  snow_ik bi br k payload cap1 cap2 cap3 :
    nb_params bi = nb_params br → nb_prologue bi = nb_prologue br →
    length (nb_local_private_key bi) = 32%nat → length (nb_local_private_key br) = 32%nat →
    nb_remote_public_key bi = Some (generate_public (nb_local_private_key br)) →
    nb_psk bi = Some (2, k) → length k = 32%nat →
    (length payload + 96 ≤ cap1)%nat → Z.of_nat (length payload) + 96 ≤ 65535 →
    (length payload ≤ cap2)%nat → (48 ≤ cap3)%nat →
    ∃ i0 i1 i2 it r0 r1 r2 r3 rt m1 m2,
      snow_build_initiator bi = Ok i0 ∧ snow_write_message i0 payload cap1 = (i1, Ok m1) ∧
      length m1 = (length payload + 96)%nat ∧
      snow_build_responder br = Ok r0 ∧ snow_read_message r0 m1 cap2 = (r1, Ok payload) ∧
      snow_get_remote_static r1 = Some (generate_public (nb_local_private_key bi)) ∧
      snow_set_psk r1 2 k = (r2, Ok tt) ∧ snow_write_message r2 [] cap3 = (r3, Ok m2) ∧
      length m2 = 48%nat ∧ snow_into_transport_mode r3 = Ok rt ∧
      snow_read_message i1 m2 0 = (i2, Ok []) ∧ snow_into_transport_mode i2 = Ok it ∧
      snow_opens it rt ∧ snow_opens rt it ∧
      snow_sending_nonce it = Ok 0 ∧ snow_sending_nonce rt = Ok 0;
}.

(** Failures of a session are errors, for keys of 32 bytes.  [snow_transport]
    says that a session is in transport mode: it gets there by
    `into_transport_mode` only, stays there, and has a sending nonce.  An IK
    initiator is not finished after its first message, and a responder that
    read the first message knows the initiator's static key. *)
Class SnowTotal (S : Snow) := {
  snow_transport : noise → Prop;
  snow_transport_mode s s' : snow_into_transport_mode s = Ok s' → snow_transport s';
  snow_transport_write s p cap : snow_transport s → snow_transport (snow_write_message s p cap).1;
  snow_transport_read s m cap : snow_transport s → snow_transport (snow_read_message s m cap).1;
  snow_transport_set_nonce s n : snow_transport s → snow_transport (snow_set_receiving_nonce s n).1;
  snow_transport_nonce s : snow_transport s → ∃ n, snow_sending_nonce s = Ok n;
  snow_initiator_unfinished b s p cap :
    snow_build_initiator b = Ok s → snow_is_handshake_finished (snow_write_message s p cap).1 = false;
  snow_responder_static b s m cap s' p :
    snow_build_responder b = Ok s → snow_read_message s m cap = (s', Ok p) → snow_get_remote_static s' ≠ None;
  snow_build_initiator_total b k loc psk :
    length (nb_local_private_key b) = 32%nat → nb_remote_public_key b = Some k → length k = 32%nat →
    nb_psk b = Some (loc, psk) → length psk = 32%nat → is_panic (snow_build_initiator b) = false;
  snow_build_responder_total b :
    length (nb_local_private_key b) = 32%nat → is_panic (snow_build_responder b) = false;
  snow_set_psk_total s loc psk : length psk = 32%nat → is_panic (snow_set_psk s loc psk).2 = false;
  snow_into_transport_total s : is_panic (snow_into_transport_mode s) = false;
  snow_sending_nonce_total s : is_panic (snow_sending_nonce s) = false;
  snow_set_nonce_total s n : is_panic (snow_set_receiving_nonce s n).2 = false;
}.

(* ------------------------------------------------------------------ *)
(** ** hex *)

(** `hex::encode(b)` and `<[u8; 32]>::from_hex(s)`. *)
Class Hex := { hex_encode : bytes → bytes; from_hex32 : bytes → res bytes }.

(** Lower-case digits are printed; what was printed is read back; a text that
    is not 32 bytes in hexadecimal is an error. *)
Class HexLaws (H : Hex) : Prop := {
  hex_encode_chars b : is_bytes b → Forall (fun c => 48 ≤ c ≤ 57 ∨ 97 ≤ c ≤ 102) (hex_encode b);
  from_hex32_encode b : is_bytes b → length b = 32%nat → from_hex32 (hex_encode b) = Ok b;
  from_hex32_cases s :
    (∃ b, from_hex32 s = Ok b ∧ length b = 32%nat ∧ is_bytes b) ∨ is_err (from_hex32 s) = true;
}.
