(* ===== verification/Reference.v ===== *)
(** * Executable instances of the crates

    Small instances of the interfaces of Crates.v that satisfy their laws.
    They make the models executable and show that the laws can hold; the
    theorems do not depend on them.  byteorder, subtle, rips-packets and
    treebitmap are given their documented behaviour; the cryptographic ones
    are toys with the right lengths and round trips. *)

From S2P Require Import Prelude Crates.

(* ------------------------------------------------------------------ *)
(** ** byteorder *)

Definition guard_len {A} (n : nat) (b : bytes) (a : A) : res A :=
  if bool_decide ((n ≤ length b)%nat) then Ok a else Panic "buffer too short".

Lemma guard_len_Ok {A} n b (a : A) : (n ≤ length b)%nat → guard_len n b a = Ok a.
Proof. intros. unfold guard_len. by rewrite bool_decide_eq_true_2. Qed.

Definition refByteOrder : ByteOrder := {|
  le_read_u32 b := guard_len 4 b (le_combine (take 4 b));
  le_read_u64 b := guard_len 8 b (le_combine (take 8 b));
  le_write_u32 n b := guard_len 4 b (le_split 4 n ++ drop 4 b);
  le_write_u64 n b := guard_len 8 b (le_split 8 n ++ drop 8 b);
  be_write_i64 n b := guard_len 8 b (be_split 8 n ++ drop 8 b);
  be_write_i32 n b := guard_len 4 b (be_split 4 n ++ drop 4 b);
|}.

#[export] Instance refByteOrderLaws : ByteOrderLaws refByteOrder.
Proof. split; intros; by apply guard_len_Ok. Qed.

(* ------------------------------------------------------------------ *)
(** ** Hash, comparison, public keys *)

Definition toy_digest (d : bytes) : Z :=
  foldl (fun h b => h + b + 1) 1 d.

Definition refBlake2 : Blake2 := {|
  blake2s n k d := le_split n (toy_digest (k ++ [Z.of_nat (length k)] ++ d));
|}.

#[export] Instance refBlake2Laws : Blake2Laws refBlake2.
Proof. split; intros; [apply length_le_split|apply is_bytes_le_split]. Qed.

Definition refSubtle : Subtle := {| ct_eq a b := if decide (a = b) then 1 else 0 |}.

#[export] Instance refSubtleLaws : SubtleLaws refSubtle.
Proof. split. intros a b _. simpl. by case_decide. Qed.

Definition refX25519 : X25519 := {| generate_public k := (fun b => (b + 1) mod 256) <$> k |}.

(* ------------------------------------------------------------------ *)
(** ** AEAD *)

Definition toy_tag (k n aad pt : bytes) : bytes := le_split 16 (toy_digest (k ++ n ++ aad ++ pt)).

Definition refAead : Aead := {|
  aead_encrypt k n aad pt :=
    if bool_decide (length k = 32%nat ∧ length n = 12%nat)
    then Ok ((fun b => Z.lxor b 85) <$> pt, toy_tag k n aad pt) else Panic "key or nonce length";
  aead_decrypt k n aad ct tag :=
    if bool_decide (length k = 32%nat ∧ length n = 12%nat)
    then let pt := (fun b => Z.lxor b 85) <$> ct in
         if decide (toy_tag k n aad pt = tag) then Ok pt else Err "authentication failed"
    else Panic "key or nonce length";
|}.

Lemma toy_xor_twice (pt : bytes) : (fun b => Z.lxor b 85) <$> ((fun b => Z.lxor b 85) <$> pt) = pt.
Proof.
  rewrite <-list_fmap_compose. rewrite <-(list_fmap_id pt) at 2. apply list_fmap_ext.
  intros i x _. simpl. by rewrite Z.lxor_assoc, Z.lxor_nilpotent, Z.lxor_0_r.
Qed.

#[export] Instance refAeadLaws : AeadLaws refAead.
Proof.
  split; simpl.
  - intros k n aad pt Hk Hn. rewrite bool_decide_eq_true_2 by done.
    do 2 eexists. split; [done|]. split; [apply length_fmap|apply length_le_split].
  - intros k n aad pt ct tag. case_bool_decide; [|done]. intros [= <- <-].
    rewrite toy_xor_twice. by rewrite decide_True by done.
  - intros k n aad ct tag Hk Hn. rewrite bool_decide_eq_true_2 by done. case_decide; [left|by right].
    eexists. split; [done|apply length_fmap].
Qed.

(* ------------------------------------------------------------------ *)
(** ** IP headers *)

Definition be_field (lo n : nat) (p : bytes) : Z := be_combine (take n (drop lo p)).

Definition refRips : Rips := {|
  ipv4_valid p := bool_decide ((20 ≤ length p)%nat);
  ipv4_source p := be_field 12 4 p;
  ipv4_destination p := be_field 16 4 p;
  ipv4_total_length p := be_field 2 2 p;
  ipv6_valid p := bool_decide ((40 ≤ length p)%nat);
  ipv6_source p := be_field 8 16 p;
  ipv6_destination p := be_field 24 16 p;
  ipv6_payload_length p := be_field 4 2 p;
|}.

Lemma be_field_u16 lo p : is_bytes p → is_u16 (be_field lo 2 p).
Proof.
  intros Hp. unfold be_field, be_combine, is_u16.
  assert (is_bytes (rev (take 2 (drop lo p)))) as Hb.
  { by apply List.Forall_rev, Forall_take, Forall_drop. }
  pose proof (le_combine_bound _ Hb) as Hbd. rewrite length_rev, length_take in Hbd.
  split; [lia|]. eapply Z.lt_le_trans; [apply Hbd|].
  change (2 ^ 16) with (256 ^ 2). apply Z.pow_le_mono_r; lia.
Qed.

#[export] Instance refRipsLaws : RipsLaws refRips.
Proof.
  split; simpl; intros; [apply bool_decide_eq_true|apply bool_decide_eq_true|..];
    by apply be_field_u16.
Qed.

(* ------------------------------------------------------------------ *)
(** ** Longest-prefix table *)

(** Tries the prefixes of [ip] of length [n], [n - 1], ..., 0. *)
Fixpoint scan_prefixes {V} (w ip : Z) (n : nat) (m : gmap (Z * Z) V) : option (Z * Z * V) :=
  match m !! prefix_of w ip (Z.of_nat n) with
  | Some v => Some ((prefix_of w ip (Z.of_nat n)).1, Z.of_nat n, v)
  | None => match n with O => None | S n' => scan_prefixes w ip n' m end
  end.

Definition refTreebitmap : Treebitmap := {|
  lut V := gmap (Z * Z) V;
  lut_new V w := ∅;
  lut_insert V w ip len v m := <[prefix_of w ip len := v]> m;
  lut_remove V w ip len m := delete (prefix_of w ip len) m;
  lut_longest_match V w ip m := scan_prefixes w ip (Z.to_nat w) m;
|}.

Lemma scan_prefixes_some {V} (w ip : Z) (n : nat) (m : gmap (Z * Z) V) (p len : Z) (v : V) :
  scan_prefixes w ip n m = Some (p, len, v) →
  0 ≤ len ≤ Z.of_nat n ∧ m !! prefix_of w ip len = Some v ∧
  ∀ len', len < len' ≤ Z.of_nat n → m !! prefix_of w ip len' = None.
Proof.
  induction n as [|n IH]; cbn [scan_prefixes]; intros H;
    destruct (m !! prefix_of w ip (Z.of_nat _)) eqn:E in H; simplify_eq.
  - split_and!; [lia|lia|done|intros; exfalso; lia].
  - split_and!; [lia|lia|done|intros; exfalso; lia].
  - destruct (IH H) as (H1 & H2 & H3). split_and!; [lia|lia|done|].
    intros len' Hl. destruct (decide (len' = Z.of_nat (S n))) as [->|]; [done|]. apply H3. lia.
Qed.

Lemma scan_prefixes_none {V} (w ip : Z) (n : nat) (m : gmap (Z * Z) V) :
  scan_prefixes w ip n m = None → ∀ len, 0 ≤ len ≤ Z.of_nat n → m !! prefix_of w ip len = None.
Proof.
  induction n as [|n IH]; cbn [scan_prefixes]; intros H len Hl;
    destruct (m !! prefix_of w ip (Z.of_nat _)) eqn:E in H; simplify_eq.
  - by replace len with (Z.of_nat 0) by lia.
  - destruct (decide (len = Z.of_nat (S n))) as [->|]; [done|]. apply IH; [done|lia].
Qed.

#[export] Instance refTreebitmapLaws : TreebitmapLaws refTreebitmap.
Proof.
  refine {| lut_view V w m := (m : lut (Treebitmap:=refTreebitmap) V) |}; simpl; try done.
  - intros V w ip m p len v Hw H. apply scan_prefixes_some in H as (H1 & H2 & H3).
    by rewrite Z2Nat.id in * by lia.
  - intros V w ip m H len Hl. eapply scan_prefixes_none; [done|]. rewrite Z2Nat.id; lia.
Defined.
