(* ===== verification/RefSnow.v ===== *)
(** * An executable instance of snow

    A toy IKpsk2: the messages have the layout and the lengths of the real
    ones, the handshake passes the static key and the payload in the clear and
    every tag is a digest of the shared key, the nonce and the payload.  It
    satisfies the laws of Crates.v, so the models run and the laws can hold. *)

From S2P Require Import Prelude Crates Reference.

Section toy.
Existing Instance refX25519.

Record toy_noise := mkToy {
  tn_init : bool;
  tn_priv : bytes;
  tn_remote : option bytes;
  tn_psk : option bytes;
  tn_phase : nat;
  tn_transport : bool;
  tn_send : Z;
  tn_recv : Z;
}.

Definition toy_set_phase (k : nat) (n : toy_noise) : toy_noise :=
  mkToy (tn_init n) (tn_priv n) (tn_remote n) (tn_psk n) k (tn_transport n) (tn_send n) (tn_recv n).

(** The shared key: the two static keys in the order of the roles, the psk. *)
Definition toy_key (n : toy_noise) : bytes :=
  let mine := generate_public (tn_priv n) in
  let theirs := default [] (tn_remote n) in
  (if tn_init n then mine ++ theirs else theirs ++ mine) ++ default [] (tn_psk n).

(** A sealed payload: the bytes and the tag. *)
Definition toy_seal (key : bytes) (from_init : bool) (nonce : Z) (p : bytes) : bytes :=
  p ++ le_split 16 (toy_digest (key ++ [if from_init then 1 else 0; nonce] ++ p)).

Definition toy_open (key : bytes) (from_init : bool) (nonce : Z) (m : bytes) (cap : nat) : res bytes :=
  let p := take (length m - 16) m in
  if bool_decide ((16 ≤ length m)%nat ∧ (length p ≤ cap)%nat ∧ toy_seal key from_init nonce p = m)
  then Ok p else Err "decryption failed".

Definition toy_write (n : toy_noise) (p : bytes) (cap : nat) : toy_noise * res bytes :=
  if tn_transport n then
    if bool_decide ((length p + 16 ≤ cap)%nat ∧ Z.of_nat (length p) + 16 ≤ 65535 ∧ 0 ≤ tn_send n < 2 ^ 64 - 1)
    then (mkToy (tn_init n) (tn_priv n) (tn_remote n) (tn_psk n) (tn_phase n) true (tn_send n + 1) (tn_recv n),
          Ok (toy_seal (toy_key n) (tn_init n) (tn_send n) p))
    else (n, Err "input")
  else
    match tn_init n, tn_phase n with
    | true, 0%nat =>
        if bool_decide ((length p + 64 + length (tn_priv n) ≤ cap)%nat)
        then (toy_set_phase 1 n,
              Ok (zeros 32 ++ toy_seal (default [] (tn_remote n)) true 0 (generate_public (tn_priv n))
                    ++ toy_seal (default [] (tn_remote n)) true 1 p))
        else (n, Err "input")
    | false, 1%nat =>
        if bool_decide ((length p + 48 ≤ cap)%nat ∧ tn_psk n ≠ None)
        then (toy_set_phase 2 n, Ok (zeros 32 ++ toy_seal (toy_key n) false 0 p))
        else (n, Err "input")
    | _, _ => (n, Err "not your turn")
    end.

Definition toy_read (n : toy_noise) (m : bytes) (cap : nat) : toy_noise * res bytes :=
  if tn_transport n then (n, toy_open (toy_key n) (negb (tn_init n)) (tn_recv n) m cap)
  else
    match tn_init n, tn_phase n with
    | false, 0%nat =>
        let mine := generate_public (tn_priv n) in
        match toy_open mine true 0 (take 48 (drop 32 m)) 32, toy_open mine true 1 (drop 80 m) cap with
        | Ok s, Ok p =>
            (mkToy false (tn_priv n) (Some s) (tn_psk n) 1 false (tn_send n) (tn_recv n), Ok p)
        | _, _ => (n, Err "decryption failed")
        end
    | true, 1%nat =>
        match toy_open (toy_key n) false 0 (drop 32 m) cap with
        | Ok p => (toy_set_phase 2 n, Ok p)
        | _ => (n, Err "decryption failed")
        end
    | _, _ => (n, Err "not your turn")
    end.

Definition refSnow : Snow := {|
  noise := toy_noise;
  snow_build_initiator b :=
    match nb_remote_public_key b with
    | Some k => Ok (mkToy true (nb_local_private_key b) (Some k) (snd <$> nb_psk b) 0 false 0 0)
    | None => Err "prerequisite"
    end;
  snow_build_responder b :=
    Ok (mkToy false (nb_local_private_key b) (nb_remote_public_key b) (snd <$> nb_psk b) 0 false 0 0);
  snow_set_psk n loc k :=
    (mkToy (tn_init n) (tn_priv n) (tn_remote n) (Some k) (tn_phase n) (tn_transport n) (tn_send n) (tn_recv n), Ok tt);
  snow_write_message := toy_write;
  snow_read_message := toy_read;
  snow_into_transport_mode n :=
    if bool_decide (tn_phase n = 2%nat)
    then Ok (mkToy (tn_init n) (tn_priv n) (tn_remote n) (tn_psk n) 2 true 0 0)
    else Err "handshake not finished";
  snow_is_handshake_finished n := bool_decide (tn_phase n = 2%nat);
  snow_sending_nonce n :=
    if bool_decide (tn_transport n = true ∧ 0 ≤ tn_send n < 2 ^ 64) then Ok (tn_send n) else Err "state";
  snow_set_receiving_nonce n k :=
    if tn_transport n
    then (mkToy (tn_init n) (tn_priv n) (tn_remote n) (tn_psk n) (tn_phase n) true (tn_send n) k, Ok tt)
    else (n, Err "state");
  snow_get_remote_static := tn_remote;
|}.

Lemma length_toy_public k : length (generate_public k) = length k.
Proof. apply length_fmap. Qed.

Lemma length_toy_seal key d n p : length (toy_seal key d n p) = (length p + 16)%nat.
Proof. unfold toy_seal. by rewrite length_app, length_le_split. Qed.

Lemma toy_open_seal key d n p cap : (length p ≤ cap)%nat → toy_open key d n (toy_seal key d n p) cap = Ok p.
Proof.
  intros H. unfold toy_open. rewrite length_toy_seal, Nat.add_sub.
  assert (take (length p) (toy_seal key d n p) = p) as -> by apply take_app_length.
  rewrite bool_decide_eq_true_2; [done|]. split_and!; [lia|done|done].
Qed.

Lemma toy_open_fits key d n m cap p : toy_open key d n m cap = Ok p → (length p ≤ cap)%nat.
Proof. unfold toy_open. case_bool_decide; [|done]. intros [= <-]. tauto. Qed.

Lemma toy_write_spec n p cap n' m :
  toy_write n p cap = (n', Ok m) →
  (length m ≤ cap)%nat ∧
  (tn_transport n = true →
   m = toy_seal (toy_key n) (tn_init n) (tn_send n) p ∧ tn_send n' = tn_send n + 1 ∧ 0 ≤ tn_send n < 2 ^ 64 - 1) ∧
  (tn_transport n = false → tn_phase n ≠ 2%nat).
Proof.
  unfold toy_write. destruct n as [[] pr rem ps [|[|[]]] [] s r];
    cbn [tn_transport tn_init tn_phase tn_send tn_priv tn_remote];
    try case_bool_decide; try done; intros [<- <-%(inj Ok)]%pair_eq_inv;
    rewrite ?length_app, ?length_zeros, ?length_toy_seal, ?length_toy_public;
    (split; [lia|]); (split; [intros; try done; split_and!; try done; lia|done]).
Qed.

Lemma toy_write_keeps n p cap :
  let n' := (toy_write n p cap).1 in
  tn_transport n = true → toy_key n' = toy_key n ∧ tn_init n' = tn_init n ∧ tn_transport n' = true ∧ tn_phase n' = tn_phase n.
Proof. intros n' Ht. subst n'. unfold toy_write. rewrite Ht. by case_bool_decide. Qed.

Lemma toy_read_fits n m cap n' p : toy_read n m cap = (n', Ok p) → (length p ≤ cap)%nat.
Proof.
  unfold toy_read. destruct (tn_transport n); [intros [= _ H]; by eapply toy_open_fits|].
  destruct (tn_init n), (tn_phase n) as [|[|[]]]; try done;
    repeat match goal with |- context [toy_open ?a ?b ?c ?d ?e] =>
      destruct (toy_open a b c d e) eqn:?; try done end;
    intros [_ <-%(inj Ok)]%pair_eq_inv; eapply toy_open_fits; eassumption.
Qed.

#[export] Instance refSnowLaws : SnowLaws refSnow.
Proof.
  split.
  - intros s p cap s' m H. by apply toy_write_spec in H as [? _].
  - intros s m cap s' p H. by apply toy_read_fits in H.
  - intros s p cap s' m Hf%bool_decide_eq_true H. apply toy_write_spec in H as (_ & H1 & H2).
    destruct (tn_transport s); [|by destruct H2]. destruct H1 as (-> & _); [done|]. apply length_toy_seal.
  - intros s n. simpl. case_bool_decide; [|done]. intros [= <-]. unfold is_u64. lia.
  - intros s p cap w. simpl. unfold toy_write.
    destruct (tn_transport s), (tn_init s), (tn_phase s) as [|[|[]]]; try case_bool_decide; done.
  - intros s m cap w. simpl. unfold toy_read.
    assert (∀ a b c d e, toy_open a b c d e ≠ Panic w) as Ho by (intros; unfold toy_open; by case_bool_decide).
    destruct (tn_transport s); [apply Ho|].
    destruct (tn_init s), (tn_phase s) as [|[|[]]]; try done; simpl;
      repeat match goal with |- context [match toy_open ?a ?b ?c ?d ?e with _ => _ end] =>
        destruct (toy_open a b c d e) end; done.
Qed.

(** Same key, opposite roles, both in transport mode. *)
Definition toy_opens (s r : toy_noise) : Prop :=
  tn_transport s = true ∧ tn_transport r = true ∧ tn_phase s = 2%nat ∧ tn_phase r = 2%nat ∧
  tn_init s = negb (tn_init r) ∧ toy_key s = toy_key r.

#[export] Instance refSnowChannel : SnowChannel refSnow.
Proof.
  refine {| snow_opens := (toy_opens : noise (Snow:=refSnow) → noise (Snow:=refSnow) → Prop) |}.
  - intros s r (_ & _ & H1 & H2 & _). simpl. by rewrite H1, H2.
  - intros s r p cap s' x (H1 & H2 & H3 & H4 & H5 & H6) H. simpl in H.
    destruct (toy_write_keeps s p cap H1) as (Hk & Hi & Ht & Hp). rewrite H in *. simpl in *.
    split_and!; congruence.
  - intros s r n r' x (H1 & H2 & H3 & H4 & H5 & H6) H. simpl in H. rewrite H2 in H. injection H as <- _. done.
  - intros s r m cap r' x Ho H. simpl in H. unfold toy_read in H.
    destruct Ho as (H1 & H2 & H3). rewrite H2 in H. injection H as <- _. done.
  - intros s r n p cap (H1 & _) Hn Hlt Hc Hl. simpl in *. case_bool_decide as Hs; [|done].
    injection Hn as <-. unfold toy_write. rewrite H1, bool_decide_eq_true_2 by (split_and!; lia || done).
    do 2 eexists. split; [done|]. simpl. rewrite bool_decide_eq_true_2; [done|]. split; [done|lia].
  - intros s r n p cap s' m cap' (H1 & H2 & H3 & H4 & H5 & H6) Hn Hw Hc. simpl in *.
    case_bool_decide; [|done]. injection Hn as <-. apply toy_write_spec in Hw as (_ & Hw & _).
    destruct Hw as (-> & _); [done|]. rewrite H2. do 2 eexists. split; [done|]. unfold toy_read. simpl.
    f_equal. rewrite H6, H5. by apply toy_open_seal.
  - intros s r n (_ & H2 & _). simpl. by rewrite H2.
  - intros s r m cap (_ & H2 & _). simpl. unfold toy_read. rewrite H2. simpl. by rewrite H2.
Defined.

Lemma toy_first_message mine (h s p : bytes) cap :
  length h = 32%nat → length s = 32%nat → (length p ≤ cap)%nat →
  let m := h ++ toy_seal mine true 0 s ++ toy_seal mine true 1 p in
  toy_open mine true 0 (take 48 (drop 32 m)) 32 = Ok s ∧ toy_open mine true 1 (drop 80 m) cap = Ok p.
Proof.
  intros Hh Hs Hp m. unfold m. rewrite drop_app_length' by done.
  rewrite take_app_length' by (rewrite length_toy_seal; lia). split; [apply toy_open_seal; lia|].
  rewrite app_assoc, drop_app_length' by (rewrite length_app, length_toy_seal; lia).
  by apply toy_open_seal.
Qed.

#[export] Instance refSnowIK : SnowIK refSnow refSnowChannel refX25519.
Proof.
  split. intros bi br k payload cap1 cap2 cap3 _ _ Hbi Hbr Hrem Hpsk Hk Hc1 Hl Hc2 Hc3.
  assert (length (generate_public (nb_local_private_key bi)) = 32%nat) as Hpi by (by rewrite length_toy_public).
  destruct (toy_first_message (generate_public (nb_local_private_key br)) (zeros 32)
             (generate_public (nb_local_private_key bi)) payload cap2) as [Ho1 Ho2]; [done..|].
  do 11 eexists. split_and!.
  - simpl. rewrite Hrem. reflexivity.
  - unfold snow_write_message, refSnow, toy_write. cbn [tn_transport tn_init tn_phase tn_priv tn_remote from_option id].
    rewrite bool_decide_eq_true_2 by (rewrite Hbi; lia). reflexivity.
  - rewrite !length_app, !length_toy_seal, length_zeros, length_toy_public. lia.
  - done.
  - unfold snow_read_message, refSnow, toy_read. cbn [tn_transport tn_init tn_phase tn_priv]. rewrite Ho1, Ho2. reflexivity.
  - done.
  - done.
  - unfold snow_write_message, refSnow, toy_write. cbn [tn_transport tn_init tn_phase tn_psk].
    rewrite bool_decide_eq_true_2 by (split; [simpl; lia|done]). reflexivity.
  - done.
  - done.
  - unfold snow_read_message, refSnow, toy_read, toy_set_phase. cbn [tn_transport tn_init tn_phase].
    rewrite Hpsk. rewrite drop_app_length' by done. unfold toy_key. cbn [tn_init tn_priv tn_remote tn_psk].
    rewrite toy_open_seal by (simpl; lia). reflexivity.
  - done.
  - done.
  - done.
  - done.
  - done.
Qed.

#[export] Instance refSnowTotal : SnowTotal refSnow.
Proof.
  refine {| snow_transport := (fun n : toy_noise => tn_transport n = true ∧ 0 ≤ tn_send n < 2 ^ 64) : noise (Snow:=refSnow) → Prop |}.
  - intros s s'. simpl. case_bool_decide; [|done]. by intros [= <-].
  - intros s p cap [Ht Hs]. simpl. unfold toy_write. rewrite Ht. case_bool_decide; [|done]. simpl. split; [done|lia].
  - intros s m cap [Ht Hs]. simpl. unfold toy_read. by rewrite Ht.
  - intros s n [Ht Hs]. simpl. by rewrite Ht.
  - intros s [Ht Hs]. simpl. rewrite bool_decide_eq_true_2 by done. eauto.
  - intros b s p cap. simpl. destruct (nb_remote_public_key b); [|done]. intros [= <-].
    unfold toy_write. simpl. by destruct (bool_decide (_ ≤ _)%nat).
  - intros b s m cap s' p [= <-] H. simpl in *. unfold toy_read in H. simpl in H.
    repeat match type of H with context [match toy_open ?a ?b ?c ?d ?e with _ => _ end] => destruct (toy_open a b c d e) end;
      try done. by injection H as <- _.
  - intros b k loc psk _ Hk _ _ _. simpl. by rewrite Hk.
  - done.
  - done.
  - intros s. simpl. by case_bool_decide.
  - intros s. simpl. by case_bool_decide.
  - intros s n. simpl. by destruct (tn_transport s).
Defined.
End toy.
