(* ===== verification/AntiReplay.v ===== *)
(** * The anti-replay window (src/anti_replay.rs)

    [AntiReplay.t] is the Rust struct: a ring of 64 32-bit words and the
    highest sequence number accepted so far.  [Window] is the abstract
    specification (RFC 6479): a set of accepted numbers and their maximum.
    [refines] relates the two; every run of `update` from `AntiReplay::new`
    gives exactly the results of the specification. *)

From S2P Require Import Prelude.

Module AntiReplay.

Definition BITMAP_BITLEN : Z := 2048.
Definition SIZE_OF_INTEGER : Z := 32.
Definition BITMAP_LEN : Z := BITMAP_BITLEN / SIZE_OF_INTEGER.
Definition BITMAP_INDEX_MASK : Z := BITMAP_LEN - 1.
Definition REDUNDANT_BIT_SHIFTS : Z := 5.
Definition BITMAP_LOC_MASK : Z := SIZE_OF_INTEGER - 1.
Definition WINDOW_SIZE : Z := BITMAP_BITLEN - SIZE_OF_INTEGER.

Record t := mk { bitmap : list Z; last : Z }.

Definition new : t := mk (replicate (Z.to_nat BITMAP_LEN) 0) 0.

Definition check (self : t) (seq : Z) : res bool :=
  if last self <? seq then Ok true
  else if WINDOW_SIZE <? last self - seq then Ok false
  else
    let bit_location := Z.land seq BITMAP_LOC_MASK in
    let index := Z.land (Z.shiftr seq REDUNDANT_BIT_SHIFTS) BITMAP_INDEX_MASK in
    let? word := index_get (Z.to_nat index) (bitmap self) in
    Ok (Z.land word (wrap32 (Z.shiftl 1 bit_location)) =? 0).

(** The loop `for i in 0..diff`, from iteration [i] with [n] to go. *)
Fixpoint clear_blocks (index_cur i : Z) (n : nat) (bm : list Z) : res (list Z) :=
  match n with
  | O => Ok bm
  | S n' =>
      let real_index := Z.land (index_cur + i + 1) BITMAP_INDEX_MASK in
      let? bm' := index_set (Z.to_nat real_index) 0 bm in
      clear_blocks index_cur (i + 1) n' bm'
  end.

Definition update_store (self : t) (seq : Z) : res t :=
  let? checked := check self seq in
  if negb checked then Panic "debug_assert!(self.check(seq))"
  else
    let index := Z.shiftr seq REDUNDANT_BIT_SHIFTS in
    let? self :=
      if last self <? seq then
        let index_cur := Z.shiftr (last self) REDUNDANT_BIT_SHIFTS in
        let diff := index - index_cur in
        let? bm :=
          if BITMAP_LEN <=? diff then Ok (replicate (Z.to_nat BITMAP_LEN) 0)
          else clear_blocks index_cur 0 (Z.to_nat diff) (bitmap self) in
        Ok (mk bm seq)
      else Ok self in
    let index := Z.land index BITMAP_INDEX_MASK in
    let bit_location := Z.land seq BITMAP_LOC_MASK in
    let? word := index_get (Z.to_nat index) (bitmap self) in
    let? bm := index_set (Z.to_nat index)
                 (Z.lor word (wrap32 (Z.shiftl 1 bit_location))) (bitmap self) in
    Ok (mk bm (last self)).

Definition update (seq : Z) : M t unit := fun self =>
  match check self seq with
  | Ok true =>
      match update_store self seq with
      | Ok self' => (self', Ok tt)
      | Err e => (self, Err e)
      | Panic p => (self, Panic p)
      | Starved => (self, Starved)
      end
  | Ok false => (self, Err "replayed nonce")
  | Err e => (self, Err e)
  | Panic p => (self, Panic p)
  | Starved => (self, Starved)
  end.

(** A run of `update` over a sequence of numbers, with the result of each. *)
Fixpoint updates (seqs : list Z) (self : t) : t * list (res unit) :=
  match seqs with
  | [] => (self, [])
  | seq :: seqs' =>
      let '(self', r) := update seq self in
      let '(self'', rs) := updates seqs' self' in
      (self'', r :: rs)
  end.

End AntiReplay.

(** ** The abstract window *)
Module Window.

Record t := mk { highest : Z; seen : gset Z }.
Definition new : t := mk 0 ∅.

Definition fresh (w : t) (seq : Z) : bool :=
  (highest w <? seq)
  || ((highest w - seq <=? AntiReplay.WINDOW_SIZE) && negb (bool_decide (seq ∈ seen w))).

Definition accept (w : t) (seq : Z) : t := mk (Z.max (highest w) seq) ({[seq]} ∪ seen w).

Definition update (seq : Z) (w : t) : t * res unit :=
  if fresh w seq then (accept w seq, Ok tt) else (w, Err "replayed nonce").

Fixpoint updates (seqs : list Z) (w : t) : t * list (res unit) :=
  match seqs with
  | [] => (w, [])
  | seq :: seqs' =>
      let '(w', r) := update seq w in
      let '(w'', rs) := updates seqs' w' in
      (w'', r :: rs)
  end.

End Window.

(** ** Bits of the ring *)
Section ring.
Import AntiReplay.

(** The bit of the ring that stands for the number [n]. *)
Definition bit (bm : list Z) (n : Z) : bool :=
  Z.testbit (bm !!! Z.to_nat ((n / 32) mod 64)) (n mod 32).

Definition ring_wf (bm : list Z) : Prop := length bm = 64%nat ∧ Forall is_u32 bm.

Lemma loc_mask n : Z.land n BITMAP_LOC_MASK = n mod 32.
Proof. change BITMAP_LOC_MASK with (Z.ones 5). by rewrite Z.land_ones by lia. Qed.
Lemma index_mask n : Z.land n BITMAP_INDEX_MASK = n mod 64.
Proof. change BITMAP_INDEX_MASK with (Z.ones 6). by rewrite Z.land_ones by lia. Qed.
Lemma block_of n : Z.shiftr n REDUNDANT_BIT_SHIFTS = n / 32.
Proof. apply Z.shiftr_div_pow2. unfold REDUNDANT_BIT_SHIFTS. lia. Qed.

Lemma ring_index_lt z : (Z.to_nat (z mod 64) < 64)%nat.
Proof. pose proof (Z.mod_pos_bound z 64). lia. Qed.

Lemma one_shl_u32 n : wrap32 (Z.shiftl 1 (n mod 32)) = 2 ^ (n mod 32).
Proof.
  pose proof (Z.mod_pos_bound n 32).
  rewrite Z.shiftl_1_l. apply wrap32_id. split; [apply Z.pow_nonneg; lia|].
  apply Z.pow_lt_mono_r; lia.
Qed.

Lemma land_pow2_zero w k : 0 ≤ k → (Z.land w (2 ^ k) =? 0) = negb (Z.testbit w k).
Proof.
  intros Hk. destruct (Z.testbit w k) eqn:E; simpl.
  - apply Z.eqb_neq. intros H0. apply (f_equal (λ z, Z.testbit z k)) in H0.
    rewrite Z.land_spec, Z.pow2_bits_true, E, Z.bits_0 in H0 by done. done.
  - apply Z.eqb_eq, Z.bits_inj'. intros j Hj. rewrite Z.land_spec, Z.bits_0.
    destruct (decide (j = k)) as [->|Hne]; [by rewrite E|].
    rewrite Z.pow2_bits_false by done. apply andb_false_r.
Qed.

Lemma lor_pow2_u32 w k : is_u32 w → 0 ≤ k < 32 → is_u32 (Z.lor w (2 ^ k)).
Proof.
  intros [Hw0 Hw] Hk. unfold is_u32.
  assert (0 ≤ Z.lor w (2 ^ k)) by (apply Z.lor_nonneg; split; [done|apply Z.pow_nonneg; lia]).
  split; [done|]. apply Z.nle_gt. intros Hge.
  destruct (decide (Z.lor w (2 ^ k) = 0)) as [E|Hne]; [rewrite E in Hge; lia|].
  assert (32 ≤ Z.log2 (Z.lor w (2 ^ k))) as Hl by (by apply Z.log2_le_pow2; lia).
  rewrite Z.log2_lor in Hl by (done || apply Z.pow_nonneg; lia).
  rewrite Z.log2_pow2 in Hl by lia.
  destruct (decide (w = 0)) as [->|]; [change (Z.log2 0) with 0 in Hl; lia|].
  assert (Z.log2 w < 32) by (apply Z.log2_lt_pow2; lia). lia.
Qed.

Lemma check_ring ar seq :
  ring_wf (bitmap ar) →
  check ar seq = Ok ((last ar <? seq)
                     || ((last ar - seq <=? WINDOW_SIZE) && negb (bit (bitmap ar) seq))).
Proof.
  intros [Hlen _]. unfold check. destruct (Z.ltb_spec (last ar) seq); simpl; [done|].
  destruct (Z.ltb_spec WINDOW_SIZE (last ar - seq)).
  - by rewrite (proj2 (Z.leb_gt _ _)) by lia.
  - rewrite (proj2 (Z.leb_le _ _)) by lia. simpl.
    rewrite loc_mask, block_of, index_mask, one_shl_u32.
    rewrite index_get_Ok by (rewrite Hlen; apply ring_index_lt). simpl.
    rewrite land_pow2_zero by (apply Z.mod_pos_bound; lia). done.
Qed.

Lemma ring_mod_inj a b : Z.to_nat (a mod 64) = Z.to_nat (b mod 64) ↔ a mod 64 = b mod 64.
Proof.
  pose proof (Z.mod_pos_bound a 64). pose proof (Z.mod_pos_bound b 64). lia.
Qed.

Lemma bit_insert bm i v n :
  length bm = 64%nat →
  bit (<[Z.to_nat (i mod 64) := v]> bm) n =
    if decide ((n / 32) mod 64 = i mod 64) then Z.testbit v (n mod 32) else bit bm n.
Proof.
  intros Hlen. unfold bit. case_decide as Hd.
  - rewrite Hd, list_lookup_total_insert_eq; [done|]. rewrite Hlen. apply ring_index_lt.
  - rewrite list_lookup_total_insert_ne; [done|]. rewrite ring_mod_inj. done.
Qed.

Lemma ring_wf_insert bm (i : nat) v : ring_wf bm → is_u32 v → ring_wf (<[i := v]> bm).
Proof.
  intros [Hlen Hf] Hv. split; [by rewrite length_insert|]. by apply Forall_insert.
Qed.

(** The clearing loop succeeds and zeroes exactly the blocks it visits. *)
Lemma clear_blocks_spec cur n : ∀ i bm,
  ring_wf bm →
  ∃ bm', clear_blocks cur i n bm = Ok bm' ∧ ring_wf bm' ∧
    ∀ m, bit bm' m = true ↔
         bit bm m = true ∧
         ∀ j, i ≤ j < i + Z.of_nat n → (m / 32) mod 64 ≠ (cur + j + 1) mod 64.
Proof.
  induction n as [|n IH]; intros i bm Hwf; cbn [clear_blocks].
  - exists bm. split_and!; [done..|]. intros m. split; [|tauto].
    intros; split; [done|]. lia.
  - rewrite index_mask, index_set_Ok by (rewrite (proj1 Hwf); apply ring_index_lt). simpl.
    destruct (IH (i + 1) (<[Z.to_nat ((cur + i + 1) mod 64):=0]> bm)) as (bm' & -> & Hwf' & Hb).
    { apply ring_wf_insert; [done|]. unfold is_u32. lia. }
    exists bm'. split_and!; [done..|]. intros m.
    rewrite Hb, bit_insert by apply Hwf. case_decide as Hd.
    + rewrite Z.bits_0. split; [by intros [? _]|]. intros [_ H]. by destruct (H i); [lia|].
    + split; intros [Hbit H]; (split; [done|]); intros j Hj; [|apply H; lia].
      destruct (decide (j = i)) as [->|]; [done|]. apply H. lia.
Qed.
End ring.

(** ** Refinement *)
Section refinement.
Import AntiReplay.

Record refines (ar : t) (w : Window.t) : Prop := {
  refines_last : last ar = Window.highest w;
  refines_u64 : is_u64 (last ar);
  refines_ring : ring_wf (bitmap ar);
  refines_seen : ∀ n, n ∈ Window.seen w → 0 ≤ n ≤ last ar;
  refines_bit : ∀ n, 0 ≤ n → n / 32 ≤ last ar / 32 → last ar / 32 - n / 32 ≤ 63 →
                     bit (bitmap ar) n = true ↔ n ∈ Window.seen w;
}.

Lemma ring_wf_zero : ring_wf (replicate (Z.to_nat BITMAP_LEN) 0).
Proof. split; [done|]. apply Forall_replicate. unfold is_u32. lia. Qed.

Lemma bit_zero n : bit (replicate (Z.to_nat BITMAP_LEN) 0) n = false.
Proof.
  unfold bit. change (Z.to_nat BITMAP_LEN) with 64%nat.
  rewrite lookup_total_replicate_2 by apply ring_index_lt. apply Z.bits_0.
Qed.

Lemma refines_new : refines new Window.new.
Proof.
  split; simpl; [done|unfold is_u64; lia|apply ring_wf_zero|set_solver|].
  intros n _ _ _. rewrite bit_zero. set_solver.
Qed.

Lemma refines_check ar w seq :
  refines ar w → is_u64 seq → check ar seq = Ok (Window.fresh w seq).
Proof.
  intros [Hlast H64 Hwf Hseen Hbit] Hs. rewrite check_ring by done. unfold Window.fresh.
  rewrite <-Hlast. destruct (Z.ltb_spec (last ar) seq); simpl; [done|].
  destruct (Z.leb_spec (last ar - seq) WINDOW_SIZE) as [Hw|]; simpl; [|done].
  unfold WINDOW_SIZE, BITMAP_BITLEN, SIZE_OF_INTEGER, is_u64 in *.
  assert (bit (bitmap ar) seq = true ↔ seq ∈ Window.seen w) as Hb.
  { apply Hbit; Z.div_mod_to_equations; lia. }
  do 2 f_equal. apply eq_bool_prop_intro. rewrite bool_decide_spec. rewrite Is_true_true. done.
Qed.

(** Moving the window up to [seq]: the ring the code builds before it sets
    the new bit. *)
Lemma advance_spec ar w seq :
  refines ar w → is_u64 seq → last ar < seq →
  ∃ bm, (if BITMAP_LEN <=? seq / 32 - last ar / 32
         then Ok (replicate (Z.to_nat BITMAP_LEN) 0)
         else clear_blocks (last ar / 32) 0 (Z.to_nat (seq / 32 - last ar / 32)) (bitmap ar))
        = Ok bm ∧
    refines (mk bm seq) (Window.mk seq (Window.seen w)).
Proof.
  intros [Hlast H64 Hwf Hseen Hbit] Hs Hlt. unfold is_u64 in *.
  change BITMAP_LEN with 64. destruct (Z.leb_spec 64 (seq / 32 - last ar / 32)) as [Hd|Hd].
  - eexists. split; [done|]. split; simpl; [done|done|apply ring_wf_zero| |].
    + intros n Hn%Hseen. lia.
    + intros n Hn Hn1 Hn2. change 64 with BITMAP_LEN. rewrite bit_zero.
      split; [done|]. intros Hin%Hseen. Z.div_mod_to_equations. lia.
  - destruct (clear_blocks_spec (last ar / 32) (Z.to_nat (seq / 32 - last ar / 32)) 0 (bitmap ar))
      as (bm & -> & Hwf' & Hb); [done|].
    assert (last ar / 32 ≤ seq / 32) by (apply Z.div_le_mono; lia).
    eexists. split; [done|]. split; simpl; [done|done|done| |].
    + intros n Hn%Hseen. lia.
    + intros n Hn Hn1 Hn2. rewrite Hb. destruct (Z.le_gt_cases (n / 32) (last ar / 32)) as [Hle|Hgt].
      * rewrite <-Hbit by lia. split; [tauto|]. intros ?. split; [done|].
        intros j Hj Heq. rewrite Z2Nat.id in Hj by lia. Z.div_mod_to_equations. lia.
      * split.
        -- intros [_ H']. exfalso. apply (H' (n / 32 - last ar / 32 - 1)); [lia|]. f_equal. lia.
        -- intros Hin%Hseen. exfalso. Z.div_mod_to_equations. lia.
Qed.

(** Setting the bit of [seq], which is inside the window. *)
Lemma mark_spec bm hi seen seq :
  refines (mk bm hi) (Window.mk hi seen) → 0 ≤ seq ≤ hi → hi / 32 - seq / 32 ≤ 63 →
  refines (mk (<[Z.to_nat ((seq / 32) mod 64) :=
                 Z.lor (bm !!! Z.to_nat ((seq / 32) mod 64)) (2 ^ (seq mod 32))]> bm) hi)
          (Window.mk hi ({[seq]} ∪ seen)).
Proof.
  intros [Hlast H64 Hwf Hseen Hbit] Hs Hd; simpl in *.
  pose proof (Z.mod_pos_bound seq 32) as Hm32. split; simpl; [done|done| | |].
  - apply ring_wf_insert; [done|]. apply lor_pow2_u32; [|lia].
    eapply Forall_lookup_total_1; [apply Hwf|]. rewrite (proj1 Hwf). apply ring_index_lt.
  - intros n [->%elem_of_singleton|Hn%Hseen]%elem_of_union; lia.
  - intros n Hn Hn1 Hn2. rewrite bit_insert by apply Hwf.
    rewrite elem_of_union, elem_of_singleton, <-Hbit by lia. case_decide as Hblk.
    + assert (n / 32 = seq / 32) as Hb by (Z.div_mod_to_equations; lia).
      rewrite Z.lor_spec, orb_true_iff, <-Hblk. unfold bit.
      assert (Z.testbit (2 ^ (seq mod 32)) (n mod 32) = true ↔ n = seq); [|tauto].
      destruct (decide (n mod 32 = seq mod 32)) as [Heq|Hne].
      * rewrite Heq, Z.pow2_bits_true by lia. split; [|done]. Z.div_mod_to_equations. lia.
      * rewrite Z.pow2_bits_false by done. split; [done|]. intros ->. done.
    + split; [tauto|]. intros [->|?]; done.
Qed.

Lemma refines_update_fresh ar w seq :
  refines ar w → is_u64 seq → Window.fresh w seq = true →
  ∃ ar', update_store ar seq = Ok ar' ∧ refines ar' (Window.accept w seq).
Proof.
  intros Hr Hs Hf. unfold update_store. rewrite (refines_check _ w) by done. rewrite Hf.
  cbn [bind_res negb]. rewrite !block_of, loc_mask, index_mask, one_shl_u32.
  pose proof Hs as Hs'. unfold is_u64 in Hs'. pose proof (refines_last _ _ Hr) as Hl.
  unfold Window.accept. destruct (Z.ltb_spec (last ar) seq) as [Hlt|Hge].
  - destruct (advance_spec _ _ _ Hr Hs Hlt) as (bm & -> & Hr'). cbn [bind_res bitmap last].
    pose proof (proj1 (refines_ring _ _ Hr')) as Hlen. simpl in Hlen.
    rewrite index_get_Ok by (rewrite Hlen; apply ring_index_lt). cbn [bind_res].
    rewrite index_set_Ok by (rewrite Hlen; apply ring_index_lt). cbn [bind_res].
    eexists. split; [done|]. rewrite Z.max_r by lia. apply mark_spec; [done|lia..].
  - cbn [bind_res]. pose proof (proj1 (refines_ring _ _ Hr)) as Hlen.
    rewrite index_get_Ok by (rewrite Hlen; apply ring_index_lt). cbn [bind_res].
    rewrite index_set_Ok by (rewrite Hlen; apply ring_index_lt). cbn [bind_res].
    eexists. split; [done|]. rewrite Z.max_l, <-Hl by lia.
    destruct ar as [bm hi], w as [h sn]; simpl in *; subst h.
    apply mark_spec; [done|lia|]. unfold Window.fresh in Hf. simpl in Hf.
    rewrite (proj2 (Z.ltb_ge _ _)) in Hf by lia. apply andb_true_iff in Hf as [Hw _].
    unfold WINDOW_SIZE, BITMAP_BITLEN, SIZE_OF_INTEGER in Hw. apply Z.leb_le in Hw.
    Z.div_mod_to_equations. lia.
Qed.

Lemma refines_step ar w seq :
  refines ar w → is_u64 seq →
  refines (update seq ar).1 (Window.update seq w).1 ∧
  (update seq ar).2 = (Window.update seq w).2.
Proof.
  intros Hr Hs. unfold update, Window.update. rewrite (refines_check _ w) by done.
  destruct (Window.fresh w seq) eqn:Hf; simpl; [|done].
  destruct (refines_update_fresh _ _ _ Hr Hs Hf) as (ar' & -> & Hr'). done.
Qed.

Lemma refines_run seqs : ∀ ar w,
  refines ar w → Forall is_u64 seqs →
  refines (updates seqs ar).1 (Window.updates seqs w).1 ∧
  (updates seqs ar).2 = (Window.updates seqs w).2.
Proof.
  induction seqs as [|seq seqs IH]; intros ar w Hr Hall; simpl; [done|].
  inversion Hall as [|? ? Hs Hall']; subst.
  destruct (refines_step _ _ _ Hr Hs) as [Hr' He].
  destruct (update seq ar) as [ar' r], (Window.update seq w) as [w' r']; simpl in *.
  destruct (IH _ _ Hr' Hall') as [Hr'' He'].
  destruct (updates seqs ar'), (Window.updates seqs w'); simpl in *. by subst.
Qed.
End refinement.

(** A number that is not fresh stays so, and an accepted one is not fresh. *)
Lemma fresh_accepted w n : Window.fresh (Window.accept w n) n = false.
Proof.
  unfold Window.fresh, Window.accept. cbn [Window.highest Window.seen]. apply orb_false_iff. split.
  - apply Z.ltb_ge. lia.
  - rewrite bool_decide_eq_true_2 by set_solver. apply andb_false_r.
Qed.

Lemma fresh_update_stable w n m : Window.fresh w n = false → Window.fresh (Window.update m w).1 n = false.
Proof.
  intros Hf. unfold Window.update. destruct (Window.fresh w m); [|done].
  unfold Window.fresh, Window.accept in *. cbn [fst Window.highest Window.seen].
  apply orb_false_iff in Hf as [H1%Z.ltb_ge H2]. apply orb_false_iff. split; [apply Z.ltb_ge; lia|].
  apply andb_false_iff in H2 as [H2%Z.leb_gt|H2%negb_false_iff%bool_decide_eq_true]; apply andb_false_iff.
  - left. apply Z.leb_gt. lia.
  - right. apply negb_false_iff, bool_decide_eq_true. set_solver.
Qed.

(** ** What the window guarantees *)
Section guarantees.
Import AntiReplay.

(** The numbers of a run that were accepted. *)
Fixpoint accepted (seqs : list Z) (rs : list (res unit)) : list Z :=
  match seqs, rs with
  | seq :: seqs', Ok _ :: rs' => seq :: accepted seqs' rs'
  | _ :: seqs', _ :: rs' => accepted seqs' rs'
  | _, _ => []
  end.

(** The abstract window's set is the set of accepted numbers, and each was
    new when it was accepted. *)
Lemma window_accepted seqs : ∀ w,
  (∀ n, n ∈ Window.seen w → n ≤ Window.highest w) →
  let '(w', rs) := Window.updates seqs w in
  (∀ n, n ∈ Window.seen w' ↔ n ∈ Window.seen w ∨ n ∈ accepted seqs rs) ∧
  (∀ n, n ∈ accepted seqs rs → n ∉ Window.seen w) ∧
  NoDup (accepted seqs rs) ∧
  (∀ n, n ∈ Window.seen w' → n ≤ Window.highest w') ∧
  (Window.highest w' = Window.highest w ∨ Window.highest w' ∈ accepted seqs rs) ∧
  Window.highest w ≤ Window.highest w'.
Proof.
  induction seqs as [|seq seqs IH]; intros w Hw; simpl.
  { split_and!; [set_solver|set_solver|constructor|done|by left|lia]. }
  unfold Window.update. destruct (Window.fresh w seq) eqn:Hf.
  - assert (seq ∉ Window.seen w) as Hnew.
    { intros Hin. unfold Window.fresh in Hf. rewrite bool_decide_eq_true_2 in Hf by done.
      rewrite andb_false_r, orb_false_r in Hf. apply Z.ltb_lt in Hf.
      apply Hw in Hin. lia. }
    specialize (IH (Window.accept w seq)).
    destruct (Window.updates seqs (Window.accept w seq)) as [w' rs]. simpl in *.
    destruct IH as (H1 & H2 & H3 & H4 & H5 & H6).
    { intros n [->%elem_of_singleton|Hn%Hw]%elem_of_union; lia. }
    split_and!; [|set_solver| |done| |lia].
    + intros n. rewrite H1, elem_of_cons. set_solver.
    + constructor; [|done]. intros Hin%H2. set_solver.
    + destruct H5 as [->|H5]; [|set_solver].
      destruct (Z.max_spec (Window.highest w) seq) as [[_ ->]|[_ ->]]; [set_solver|by left].
  - specialize (IH w Hw). destruct (Window.updates seqs w) as [w' rs]. done.
Qed.

Lemma run_accepted seqs :
  Forall is_u64 seqs →
  let '(ar, rs) := updates seqs new in
  ∃ w, refines ar w ∧ NoDup (accepted seqs rs) ∧
       (∀ n, n ∈ Window.seen w ↔ n ∈ accepted seqs rs) ∧
       (Window.highest w = 0 ∨ Window.highest w ∈ accepted seqs rs).
Proof.
  intros Hall. destruct (refines_run seqs _ _ refines_new Hall) as [Hr He].
  pose proof (window_accepted seqs Window.new) as Hw.
  destruct (updates seqs new) as [ar rs], (Window.updates seqs Window.new) as [w rs'].
  simpl in *. subst rs'. destruct Hw as (H1 & _ & H3 & _ & H5 & _); [set_solver|].
  exists w. split_and!; [done..| |done]. intros n. rewrite H1. set_solver.
Qed.

(** C12.  Refinement: on every sequence of 64-bit numbers, `update` from
    `AntiReplay::new` returns what the abstract sliding window returns
    (accept, or the error "replayed nonce"), so it never panics, and the
    ring keeps representing the window. *)
Theorem anti_replay_refines_window seqs :
  Forall is_u64 seqs →
  (updates seqs new).2 = (Window.updates seqs Window.new).2 ∧
  refines (updates seqs new).1 (Window.updates seqs Window.new).1.
Proof. intros H. destruct (refines_run seqs _ _ refines_new H). done. Qed.

(** No replay: in any run of `update`, no sequence number is accepted
    twice. *)
Lemma anti_replay_no_replay seqs :
  Forall is_u64 seqs → NoDup (accepted seqs (updates seqs new).2).
Proof.
  intros H. pose proof (run_accepted seqs H) as Hw. destruct (updates seqs new).
  by destruct Hw as (w & _ & ? & _).
Qed.

(** C32.  Exact acceptance: after any run, `update` accepts a number exactly
    when it was not accepted before and no accepted number is more than
    `WINDOW_SIZE` ahead of it; in particular zero is accepted once, and a
    late packet inside the window is never lost. *)
Theorem anti_replay_accepts_iff seqs n :
  Forall is_u64 seqs → is_u64 n →
  let '(ar, rs) := updates seqs new in
  (update n ar).2 = Ok tt ↔
    n ∉ accepted seqs rs ∧ ∀ m, m ∈ accepted seqs rs → m - n ≤ WINDOW_SIZE.
Proof.
  intros Hall Hn. pose proof (run_accepted seqs Hall) as Hw.
  destruct (updates seqs new) as [ar rs]. destruct Hw as (w & Hr & _ & Hin & Hhi).
  destruct (refines_step _ _ _ Hr Hn) as [_ ->]. unfold Window.update.
  pose proof (refines_last _ _ Hr) as Hlast. pose proof (refines_seen _ _ Hr) as Hle.
  assert (0 ≤ WINDOW_SIZE) by done. unfold is_u64 in Hn.
  destruct (Window.fresh w n) eqn:Hf; unfold Window.fresh in Hf; simpl.
  - split; [intros _|done]. setoid_rewrite <-Hin. apply orb_true_iff in Hf as [Hf|Hf].
    + apply Z.ltb_lt in Hf. split; [intros ?%Hle; lia|]. intros m ?%Hle. lia.
    + apply andb_true_iff in Hf as [Hd%Z.leb_le Hs%negb_true_iff%bool_decide_eq_false].
      split; [done|]. intros m ?%Hle. lia.
  - split; [done|]. intros [Hnew Hwin]. exfalso. rewrite <-Hin in Hnew.
    apply orb_false_iff in Hf as [Hge%Z.ltb_ge Hf].
    rewrite (bool_decide_eq_false_2 _ Hnew), andb_true_r in Hf. apply Z.leb_gt in Hf.
    destruct Hhi as [H0|Hacc]; [lia|]. specialize (Hwin _ Hacc). lia.
Qed.

Lemma anti_replay_refines_window_witness :
  (updates [0; 5000; 4999; 0; 5000; 2984] new).2
    = (Window.updates [0; 5000; 4999; 0; 5000; 2984] Window.new).2 ∧
  refines (updates [0; 5000; 4999; 0; 5000; 2984] new).1
          (Window.updates [0; 5000; 4999; 0; 5000; 2984] Window.new).1.
Proof.
  apply anti_replay_refines_window. repeat constructor; done.
Defined.

Lemma anti_replay_accepts_iff_witness :
  (update 84 (updates [0; 2100] new).1).2 = Ok tt.
Proof.
  apply (anti_replay_accepts_iff [0; 2100] 84); [repeat constructor; done|done|].
  vm_compute accepted. split; [set_solver|]. unfold WINDOW_SIZE, BITMAP_BITLEN, SIZE_OF_INTEGER.
  set_solver by lia.
Defined.
End guarantees.
