(* ===== verification/Types.v ===== *)
(** * Addresses, endpoints and configuration records
    (src/types.rs, the `Endpoint` of src/udp/mod.rs, `UtunPacket` of
    src/interface/mod.rs) *)

From S2P Require Import Prelude.

(** `std::net::IpAddr`; an address is the integer of its octets. *)
Inductive IpAddr := IpV4 (a : Z) | IpV6 (a : Z).

#[export] Instance IpAddr_eq_dec : EqDecision IpAddr.
Proof. solve_decision. Defined.
#[export] Instance IpAddr_countable : Countable IpAddr.
Proof.
  apply (inj_countable' (fun ip => match ip with IpV4 a => inl a | IpV6 a => inr a end)
                        (fun s => match s with inl a => IpV4 a | inr a => IpV6 a end)).
  by intros [].
Defined.

Definition ip_octets (ip : IpAddr) : bytes :=
  match ip with IpV4 a => be_split 4 a | IpV6 a => be_split 16 a end.

(** `std::net::SocketAddr`: `V4` and `V6` by the kind of the address. *)
Record SocketAddr := mkSocketAddr { sock_ip : IpAddr; sock_port : Z }.

#[export] Instance SocketAddr_eq_dec : EqDecision SocketAddr.
Proof. solve_decision. Defined.

(** `libc::in_pktinfo` and `libc::in6_pktinfo`. *)
Record in_pktinfo := { ipi_ifindex : Z; ipi_spec_dst : Z; ipi_addr : Z }.
Record in6_pktinfo := { ipi6_addr : bytes; ipi6_ifindex : Z }.

#[export] Instance in_pktinfo_eq_dec : EqDecision in_pktinfo.
Proof. solve_decision. Defined.
#[export] Instance in6_pktinfo_eq_dec : EqDecision in6_pktinfo.
Proof. solve_decision. Defined.

Module Endpoint.
Inductive t :=
| V4 (addr : SocketAddr) (pktinfo : option in_pktinfo)
| V6 (addr : SocketAddr) (pktinfo : option in6_pktinfo).

#[export] Instance t_eq_dec : EqDecision t.
Proof. solve_decision. Defined.

Definition addr (e : t) : SocketAddr := match e with V4 sock _ => sock | V6 sock _ => sock end.
Definition to_cleared_pktinfo (e : t) : t :=
  match e with V4 sock _ => V4 sock None | V6 sock _ => V6 sock None end.
(** `Deref`: an endpoint is used as its socket address. *)
Definition deref (e : t) : SocketAddr := match e with V4 sock _ => sock | V6 sock _ => sock end.
Definition ip (e : t) : IpAddr := sock_ip (deref e).
Definition port (e : t) : Z := sock_port (deref e).
Definition from_socket_addr (a : SocketAddr) : t :=
  match sock_ip a with IpV4 _ => V4 a None | IpV6 _ => V6 a None end.
End Endpoint.

(** `PeerInfo`. *)
Record PeerInfo := {
  pub_key : bytes;
  psk : option bytes;
  endpoint : option Endpoint.t;
  allowed_ips : list (IpAddr * Z);
  keepalive : option Z;
}.

Definition PeerInfo_default : PeerInfo := {|
  pub_key := zeros 32; psk := None; endpoint := None; allowed_ips := []; keepalive := None;
|}.

Definition set_endpoint (e : option Endpoint.t) (i : PeerInfo) : PeerInfo := {|
  pub_key := pub_key i; psk := psk i; endpoint := e; allowed_ips := allowed_ips i;
  keepalive := keepalive i;
|}.

Definition persistent_keepalive (i : PeerInfo) : option Duration :=
  match keepalive i with
  | Some k => if 0 <? k then Some (secs k) else None
  | None => None
  end.

(** `InterfaceInfo`. *)
Record InterfaceInfo := {
  if_private_key : option bytes;
  if_pub_key : option bytes;
  if_listen_port : option Z;
  if_fwmark : option Z;
}.

Definition InterfaceInfo_default : InterfaceInfo := {|
  if_private_key := None; if_pub_key := None; if_listen_port := None; if_fwmark := None;
|}.

Module UtunPacket.
Inductive t := Inet4 (p : bytes) | Inet6 (p : bytes).

Definition payload (u : t) : bytes := match u with Inet4 p | Inet6 p => p end.

(** `UtunPacket::from(raw_packet)`. *)
Definition from (raw_packet : bytes) : res t :=
  let? b := index_get 0 raw_packet in
  if Z.shiftr b 4 =? 4 then Ok (Inet4 raw_packet)
  else if Z.shiftr b 4 =? 6 then Ok (Inet6 raw_packet)
  else Err "unrecognized IP version".

(** `VecUtunCodec::decode(buf)`: a 4-byte header, then the packet.  The trace
    line reads `buf[3]`, `match` reads `buf[4]`. *)
Definition decode (buf : bytes) : res t :=
  let? b := index_get 4 buf in
  let? p := slice_from 4 buf in
  if Z.shiftr b 4 =? 4 then Ok (Inet4 p)
  else if Z.shiftr b 4 =? 6 then Ok (Inet6 p)
  else Err "InvalidData".

(** `VecUtunCodec::encode(msg, buf)`: appends the message. *)
Definition encode (msg buf : bytes) : bytes := buf ++ msg.
End UtunPacket.
