(* ===== verification/Text.v ===== *)
(** * Text: numbers and addresses of the standard library

    The configuration protocol is text.  A string is the list of its bytes.
    This file models the parts of the standard library the protocol code uses:
    UTF-8 validation, `split`, `find`, printing and parsing of unsigned numbers,
    and `Display` and `FromStr` of `IpAddr` and `SocketAddr`, with the round
    trips the code relies on. *)

From S2P Require Import Prelude Types.

(** Characters. *)
Definition LF : Z := 10.
Definition PLUS : Z := 43.
Definition DOT : Z := 46.
Definition SLASH : Z := 47.
Definition COLON : Z := 58.
Definition EQUALS : Z := 61.
Definition LBRACK : Z := 91.
Definition RBRACK : Z := 93.

(* ------------------------------------------------------------------ *)
(** ** UTF-8 *)

(** The ranges of the bytes that must follow a leading byte. *)
Definition utf8_lead (x : Z) : option (list (Z * Z)) :=
  if (0 <=? x) && (x <=? 127) then Some []
  else if (194 <=? x) && (x <=? 223) then Some [(128, 191)]
  else if x =? 224 then Some [(160, 191); (128, 191)]
  else if x =? 237 then Some [(128, 159); (128, 191)]
  else if (225 <=? x) && (x <=? 239) then Some [(128, 191); (128, 191)]
  else if x =? 240 then Some [(144, 191); (128, 191); (128, 191)]
  else if (241 <=? x) && (x <=? 243) then Some [(128, 191); (128, 191); (128, 191)]
  else if x =? 244 then Some [(128, 143); (128, 191); (128, 191)]
  else None.

Fixpoint utf8_run (need : list (Z * Z)) (b : bytes) : bool :=
  match b with
  | [] => match need with [] => true | _ => false end
  | x :: b' =>
      match need with
      | (lo, hi) :: need' => (lo <=? x) && (x <=? hi) && utf8_run need' b'
      | [] => match utf8_lead x with Some need' => utf8_run need' b' | None => false end
      end
  end.

(** `String::from_utf8(b).is_ok()`. *)
Definition is_utf8 (b : bytes) : bool := utf8_run [] b.

Definition is_ascii (b : bytes) : Prop := Forall (fun c => 0 ≤ c ≤ 127) b.

Lemma ascii_utf8 b : is_ascii b → is_utf8 b = true.
Proof.
  unfold is_utf8. induction 1 as [|x b Hx _ IH]; [done|]. simpl. unfold utf8_lead.
  rewrite (proj2 (Z.leb_le 0 x)), (proj2 (Z.leb_le x 127)) by lia. done.
Qed.

(* ------------------------------------------------------------------ *)
(** ** Splitting *)

(** `s.split(c)`: at least one piece. *)
Fixpoint split_on (c : Z) (s : bytes) : list bytes :=
  match s with
  | [] => [[]]
  | x :: s' =>
      if x =? c then [] :: split_on c s'
      else match split_on c s' with
           | piece :: rest => (x :: piece) :: rest
           | [] => [[x]]
           end
  end.

(** The first two items of `s.split("\n\n")`: the text before the first
    separator and the text after it. *)
Fixpoint split_blank (s : bytes) : option (bytes * bytes) :=
  match s with
  | x :: s' =>
      match s' with
      | y :: rest =>
          if (x =? LF) && (y =? LF) then Some ([], rest)
          else prod_map (cons x) id <$> split_blank s'
      | [] => None
      end
  | [] => None
  end.

(** `s.find(c)` and `s.split_at`: the text before and from the first [c]. *)
Fixpoint split_find (c : Z) (s : bytes) : option (bytes * bytes) :=
  match s with
  | [] => None
  | x :: s' => if x =? c then Some ([], s) else prod_map (cons x) id <$> split_find c s'
  end.

Lemma split_on_none c s : c ∉ s → split_on c s = [s].
Proof.
  induction s as [|x s IH]; [done|]. intros [Hx Hs]%not_elem_of_cons. simpl.
  rewrite (proj2 (Z.eqb_neq x c)) by congruence. by rewrite IH.
Qed.

Lemma split_on_app c a s : c ∉ a → split_on c (a ++ c :: s) = a :: split_on c s.
Proof.
  induction a as [|x a IH]; simpl; [by rewrite Z.eqb_refl|]. intros [Hx Ha]%not_elem_of_cons.
  rewrite (proj2 (Z.eqb_neq x c)) by congruence. by rewrite IH.
Qed.

Lemma split_find_app c a s : c ∉ a → split_find c (a ++ c :: s) = Some (a, c :: s).
Proof.
  induction a as [|x a IH]; simpl; [by rewrite Z.eqb_refl|]. intros [Hx Ha]%not_elem_of_cons.
  rewrite (proj2 (Z.eqb_neq x c)) by congruence. by rewrite IH.
Qed.

(** Lines, each ended by a newline. *)
Fixpoint unlines (ls : list bytes) : bytes := match ls with [] => [] | l :: ls' => l ++ LF :: unlines ls' end.

Lemma split_on_unlines ls : Forall (fun l => LF ∉ l) ls → split_on LF (unlines ls) = ls ++ [[]].
Proof.
  induction 1 as [|l ls Hl _ IH]; [done|]. cbn [unlines]. rewrite split_on_app by done. by rewrite IH.
Qed.

(* ------------------------------------------------------------------ *)
(** ** Numbers *)

(** `char::to_digit`, as the parsers use it. *)
Definition digit_of (radix c : Z) : option Z :=
  let d := if (48 <=? c) && (c <=? 57) then Some (c - 48)
           else if (97 <=? c) && (c <=? 122) then Some (c - 97 + 10)
           else if (65 <=? c) && (c <=? 90) then Some (c - 65 + 10)
           else None in
  match d with Some d => if d <? radix then Some d else None | None => None end.

(** The character of a digit, in lower case. *)
Definition char_of (d : Z) : Z := if d <? 10 then 48 + d else 97 + (d - 10).

(** Printing in a radix without leading zeros; [fuel] digits at most. *)
Fixpoint digits (fuel : nat) (radix n : Z) : list Z :=
  match fuel with
  | O => []
  | S f => if n <? radix then [n] else digits f radix (n / radix) ++ [n mod radix]
  end.
Definition print_digits (fuel : nat) (radix n : Z) : bytes := char_of <$> digits fuel radix n.

(** `n.to_string()` of numbers up to 64 bits: at most twenty digits. *)
Definition to_string (n : Z) : bytes := print_digits 20 10 n.

(** `s.parse()` of an unsigned type with values up to [max]. *)
Fixpoint parse_go (max acc : Z) (s : bytes) : option Z :=
  match s with
  | [] => Some acc
  | c :: s' =>
      match digit_of 10 c with
      | Some d => let acc := acc * 10 + d in if max <? acc then None else parse_go max acc s'
      | None => None
      end
  end.

Definition parse_uint (max : Z) (s : bytes) : res Z :=
  let digits := match s with c :: s' => if c =? PLUS then s' else s | [] => s end in
  match digits with
  | [] => Err "cannot parse integer from empty string"
  | _ => match parse_go max 0 digits with Some n => Ok n | None => Err "invalid digit or number too large" end
  end.

(* ------------------------------------------------------------------ *)
(** ** Addresses *)

(** The parser of std: reads from the front; a parser that fails leaves the
    text where it was. *)
Definition parser (A : Type) : Type := bytes → option (A * bytes).

Definition read_given_char (c : Z) : parser unit := fun s =>
  match s with x :: s' => if x =? c then Some (tt, s') else None | [] => None end.

Fixpoint read_digits (radix : Z) (max_digits : nat) (upto : Z) (count : nat) (r : Z) (s : bytes) : option (Z * bytes) :=
  match s with
  | c :: s' =>
      match digit_of radix c with
      | Some d =>
          let r' := r * radix + d in
          if (max_digits <? S count)%nat || (upto <=? r') then None
          else read_digits radix max_digits upto (S count) r' s'
      | None => if (count =? 0)%nat then None else Some (r, s)
      end
  | [] => if (count =? 0)%nat then None else Some (r, [])
  end.

Definition read_number (radix : Z) (max_digits : nat) (upto : Z) : parser Z := read_digits radix max_digits upto 0 0.

Notation "'let&' ' p ':=' m 'in' k" := (match m with Some x => match x with p => k end | None => None end)
  (at level 10, p pattern, m at level 100, k at level 200).

Definition read_ipv4_addr : parser Z := fun s =>
  let& '(a, s) := read_number 10 3 256 s in
  let& '(_, s) := read_given_char DOT s in
  let& '(b, s) := read_number 10 3 256 s in
  let& '(_, s) := read_given_char DOT s in
  let& '(c, s) := read_number 10 3 256 s in
  let& '(_, s) := read_given_char DOT s in
  let& '(d, s) := read_number 10 3 256 s in
  Some (((a * 256 + b) * 256 + c) * 256 + d, s).

(** Groups of an IPv6 address, [n] at most, with colons between them; a dotted
    IPv4 address may stand for the last two.  Returns the groups and whether it
    ended in an IPv4 address. *)
Fixpoint read_groups (n : nat) (first : bool) (s : bytes) : list Z * bool * bytes :=
  match n with
  | O => ([], false, s)
  | S n' =>
      let after_colon {A} (p : parser A) : option (A * bytes) :=
        if first then p s else let& '(_, s) := read_given_char COLON s in p s in
      match (if (0 <? n')%nat then after_colon read_ipv4_addr else None) with
      | Some (a, s') => ([a / 65536; a mod 65536], true, s')
      | None =>
          match after_colon (read_number 16 4 65536) with
          | Some (g, s') => let '(gs, v4, s'') := read_groups n' false s' in (g :: gs, v4, s'')
          | None => ([], false, s)
          end
      end
  end.

(** The address of eight groups. *)
Definition of_segments (gs : list Z) : Z := foldl (fun a g => a * 65536 + g) 0 gs.

Definition read_ipv6_addr : parser Z := fun s =>
  let '(head, head_ipv4, s) := read_groups 8 true s in
  if (length head =? 8)%nat then Some (of_segments head, s)
  else if head_ipv4 then None
  else
    let& '(_, s) := read_given_char COLON s in
    let& '(_, s) := read_given_char COLON s in
    let '(tail, _, s) := read_groups (8 - length head) true s in
    Some (of_segments (head ++ replicate (8 - length head - length tail) 0 ++ tail), s).

Definition read_ip_addr : parser IpAddr := fun s =>
  match read_ipv4_addr s with
  | Some (a, s) => Some (IpV4 a, s)
  | None => let& '(a, s) := read_ipv6_addr s in Some (IpV6 a, s)
  end.

Definition read_socket_addr : parser SocketAddr := fun s =>
  match (let& '(a, s) := read_ipv4_addr s in
         let& '(_, s) := read_given_char COLON s in
         let& '(p, s) := read_number 10 5 65536 s in Some (mkSocketAddr (IpV4 a) p, s)) with
  | Some r => Some r
  | None =>
      let& '(_, s) := read_given_char LBRACK s in
      let& '(a, s) := read_ipv6_addr s in
      let& '(_, s) := read_given_char RBRACK s in
      let& '(_, s) := read_given_char COLON s in
      let& '(p, s) := read_number 10 5 65536 s in Some (mkSocketAddr (IpV6 a) p, s)
  end.

(** The whole text has to be read. *)
Definition parse_all {A} (p : parser A) (err : string) (s : bytes) : res A :=
  match p s with Some (a, []) => Ok a | _ => Err err end.

Definition parse_ip : bytes → res IpAddr := parse_all read_ip_addr "invalid IP address syntax".
Definition parse_socket_addr : bytes → res SocketAddr := parse_all read_socket_addr "invalid socket address syntax".

(** `Display` of `Ipv4Addr`. *)
Definition print_ipv4 (a : Z) : bytes :=
  to_string (a / 2 ^ 24 mod 256) ++ [DOT] ++ to_string (a / 2 ^ 16 mod 256) ++ [DOT] ++
  to_string (a / 2 ^ 8 mod 256) ++ [DOT] ++ to_string (a mod 256).

(** `Ipv6Addr::segments`. *)
Definition segments (a : Z) : list Z :=
  (fun i => a / 2 ^ (16 * i) mod 65536) <$> [7; 6; 5; 4; 3; 2; 1; 0].

(** The longest run of zeros among the groups, the first of that length: where
    it starts, and its length.  [i] is the position, [cur] the run that ends
    there. *)
Fixpoint find_zero_slice (i cur_at cur_len best_at best_len : nat) (gs : list Z) : nat * nat :=
  match gs with
  | [] => (best_at, best_len)
  | g :: gs' =>
      if g =? 0 then
        let cur_at := if (cur_len =? 0)%nat then i else cur_at in
        let cur_len := S cur_len in
        if (best_len <? cur_len)%nat
        then find_zero_slice (S i) cur_at cur_len cur_at cur_len gs'
        else find_zero_slice (S i) cur_at cur_len best_at best_len gs'
      else find_zero_slice (S i) 0 0 best_at best_len gs'
  end.

(** Groups in hexadecimal with colons between them. *)
Fixpoint fmt_subslice (gs : list Z) : bytes :=
  match gs with
  | [] => []
  | [g] => print_digits 4 16 g
  | g :: gs' => print_digits 4 16 g ++ [COLON] ++ fmt_subslice gs'
  end.

(** `Display` of `Ipv6Addr`. *)
Definition print_ipv6 (a : Z) : bytes :=
  let gs := segments a in
  if bool_decide (gs = [0; 0; 0; 0; 0; 0; 0; 0]) then [COLON; COLON]
  else if bool_decide (gs = [0; 0; 0; 0; 0; 0; 0; 1]) then [COLON; COLON; 49]
  else if bool_decide (take 6 gs = [0; 0; 0; 0; 0; 0]) then [COLON; COLON] ++ print_ipv4 (a mod 2 ^ 32)
  else if bool_decide (take 6 gs = [0; 0; 0; 0; 0; 65535]) then str_bytes "::ffff:" ++ print_ipv4 (a mod 2 ^ 32)
  else
    let '(zeros_at, zeros_len) := find_zero_slice 0 0 0 0 0 gs in
    if (1 <? zeros_len)%nat
    then fmt_subslice (take zeros_at gs) ++ [COLON; COLON] ++ fmt_subslice (drop (zeros_at + zeros_len) gs)
    else fmt_subslice gs.

(** `Display` of `IpAddr`. *)
Definition print_ip (ip : IpAddr) : bytes := match ip with IpV4 a => print_ipv4 a | IpV6 a => print_ipv6 a end.

(* ------------------------------------------------------------------ *)
(** ** Printed numbers are read back *)

(** The value of digits, after [r]. *)
Definition value_from (radix r : Z) (ds : list Z) : Z := foldl (fun a d => a * radix + d) r ds.

Lemma value_from_ge radix ds : ∀ r,
  1 ≤ radix → 0 ≤ r → Forall (fun d => 0 ≤ d) ds → r ≤ value_from radix r ds.
Proof.
  induction ds as [|d ds IH]; intros r Hr Hr0 Hds; simpl; [lia|]. apply Forall_cons_1 in Hds as [Hd Hds].
  specialize (IH (r * radix + d) Hr ltac:(nia) Hds). unfold value_from in *. nia.
Qed.

Lemma digits_spec fuel : ∀ radix n,
  2 ≤ radix → 0 ≤ n < radix ^ Z.of_nat fuel →
  Forall (fun d => 0 ≤ d < radix) (digits fuel radix n) ∧ value_from radix 0 (digits fuel radix n) = n.
Proof.
  induction fuel as [|f IH]; intros radix n Hr Hn; [simpl in *; split; [done|cbv; lia]|].
  cbn [digits]. destruct (Z.ltb_spec n radix).
  - split; [apply Forall_singleton; lia|]. unfold value_from. simpl. lia.
  - rewrite Nat2Z.inj_succ, Z.pow_succ_r in Hn by lia.
    destruct (IH radix (n / radix)) as [H1 H2]; [done|split; [apply Z.div_pos; lia|apply Z.div_lt_upper_bound; lia]|].
    split.
    + apply Forall_app. split; [done|]. apply Forall_singleton. apply Z.mod_pos_bound. lia.
    + unfold value_from in *. rewrite foldl_app, H2. simpl. rewrite Z.mul_comm. symmetry. apply Z.div_mod. lia.
Qed.

Lemma digits_length k : ∀ fuel radix n,
  2 ≤ radix → 0 ≤ n < radix ^ Z.of_nat (S k) → (length (digits fuel radix n) ≤ S k)%nat.
Proof.
  induction k as [|k IH]; intros [|f] radix n Hr Hn; simpl; try lia.
  - rewrite (proj2 (Z.ltb_lt n radix)) by (simpl in Hn; lia). simpl. lia.
  - destruct (Z.ltb_spec n radix); [simpl; lia|]. rewrite length_app. simpl.
    rewrite Nat2Z.inj_succ, Z.pow_succ_r in Hn by lia.
    specialize (IH f radix (n / radix) Hr ltac:(split; [apply Z.div_pos; lia|apply Z.div_lt_upper_bound; lia])). lia.
Qed.

Lemma digits_nonempty f radix n : digits (S f) radix n ≠ [].
Proof. simpl. destruct (n <? radix); [done|]. by intros []%app_nil. Qed.

Lemma digit_char radix d : radix ≤ 36 → 0 ≤ d < radix → digit_of radix (char_of d) = Some d.
Proof.
  intros Hr Hd. unfold digit_of, char_of.
  destruct (Z.ltb_spec d 10).
  - rewrite (proj2 (Z.leb_le 48 (48 + d))), (proj2 (Z.leb_le (48 + d) 57)) by lia. simpl.
    replace (48 + d - 48) with d by lia. by rewrite (proj2 (Z.ltb_lt d radix)) by lia.
  - rewrite (proj2 (Z.leb_gt (97 + (d - 10)) 57)) by lia. rewrite andb_false_r.
    rewrite (proj2 (Z.leb_le 97 (97 + (d - 10)))), (proj2 (Z.leb_le (97 + (d - 10)) 122)) by lia. simpl.
    replace (97 + (d - 10) - 97 + 10) with d by lia. by rewrite (proj2 (Z.ltb_lt d radix)) by lia.
Qed.

(** Text that does not go on with a digit. *)
Definition stops (radix : Z) (s : bytes) : Prop := match s with [] => True | c :: _ => digit_of radix c = None end.

Lemma read_digits_chars radix maxd upto ds s : ∀ count r,
  1 ≤ radix ≤ 36 → 0 ≤ r → Forall (fun d => 0 ≤ d < radix) ds → (count + length ds ≤ maxd)%nat →
  value_from radix r ds < upto →
  read_digits radix maxd upto count r ((char_of <$> ds) ++ s)
  = read_digits radix maxd upto (count + length ds) (value_from radix r ds) s.
Proof.
  induction ds as [|d ds IH]; intros count r Hr Hr0 Hds Hlen Hv; [by rewrite Nat.add_0_r|].
  apply Forall_cons_1 in Hds as [Hd Hds]. simpl in Hlen. cbn [fmap list_fmap app read_digits].
  rewrite digit_char by lia. rewrite (proj2 (Nat.ltb_ge maxd (S count))) by lia.
  assert (r * radix + d < upto) as Hlt.
  { eapply Z.le_lt_trans; [|exact Hv]. apply (value_from_ge radix ds (r * radix + d)); [lia|nia|].
    eapply Forall_impl; [exact Hds|]. simpl. lia. }
  rewrite (proj2 (Z.leb_gt upto (r * radix + d))) by lia. simpl.
  rewrite IH; [|lia|nia|done|simpl; lia|done]. by rewrite Nat.add_succ_r.
Qed.

Lemma read_digits_stop radix maxd upto count r s :
  stops radix s → (count ≠ 0)%nat → read_digits radix maxd upto count r s = Some (r, s).
Proof.
  intros Hs Hc. apply Nat.eqb_neq in Hc. destruct s as [|c s]; simpl in *; [by rewrite Hc|]. by rewrite Hs, Hc.
Qed.

Lemma read_number_print radix maxd upto fuel n s :
  2 ≤ radix ≤ 36 → (1 ≤ maxd)%nat → 0 ≤ n < upto → n < radix ^ Z.of_nat (S fuel) → n < radix ^ Z.of_nat maxd →
  stops radix s → read_number radix maxd upto (print_digits (S fuel) radix n ++ s) = Some (n, s).
Proof.
  intros Hr Hmax Hn Hfuel Hm Hs. destruct (digits_spec (S fuel) radix n) as [H1 H2]; [lia|lia|].
  destruct maxd as [|k]; [lia|]. pose proof (digits_length k (S fuel) radix n ltac:(lia) ltac:(lia)) as Hlen.
  unfold read_number, print_digits. rewrite read_digits_chars; [|lia|lia|done|lia|rewrite H2; lia].
  rewrite H2. apply read_digits_stop; [done|]. pose proof (digits_nonempty fuel radix n) as Hne.
  destruct (digits (S fuel) radix n); [done|]. simpl. lia.
Qed.

Lemma parse_go_chars max ds : ∀ acc,
  0 ≤ acc → Forall (fun d => 0 ≤ d < 10) ds → value_from 10 acc ds ≤ max →
  parse_go max acc (char_of <$> ds) = Some (value_from 10 acc ds).
Proof.
  induction ds as [|d ds IH]; intros acc Ha Hds Hv; [done|]. apply Forall_cons_1 in Hds as [Hd Hds].
  cbn [fmap list_fmap parse_go]. rewrite digit_char by lia.
  assert (acc * 10 + d ≤ max) as Hle.
  { etransitivity; [|exact Hv]. apply (value_from_ge 10 ds (acc * 10 + d)); [lia|lia|].
    eapply Forall_impl; [exact Hds|]. simpl. lia. }
  rewrite (proj2 (Z.ltb_ge max (acc * 10 + d))) by lia. apply IH; [lia|done|done].
Qed.

(** Printing a number and parsing it. *)
Lemma parse_to_string max n : 0 ≤ n ≤ max → n < 2 ^ 64 → parse_uint max (to_string n) = Ok n.
Proof.
  intros Hn H64. assert (2 ^ 64 ≤ 10 ^ Z.of_nat 20) as H20 by (by vm_compute).
  assert (0 ≤ n < 10 ^ Z.of_nat 20) as Hf by (split; [tauto|by eapply Z.lt_le_trans]). clear H64 H20.
  destruct (digits_spec 20 10 n) as [H1 H2]; [done|done|]. clear Hf. unfold parse_uint, to_string, print_digits.
  pose proof (digits_nonempty 19 10 n) as Hne.
  destruct (digits 20 10 n) as [|d ds] eqn:E; [done|]. cbn [fmap list_fmap].
  assert (char_of d =? PLUS = false) as ->.
  { apply Z.eqb_neq. unfold char_of, PLUS. apply Forall_cons_1 in H1 as [Hd _].
    rewrite (proj2 (Z.ltb_lt d 10)) by lia. lia. }
  pose proof (parse_go_chars max (d :: ds) 0 ltac:(lia) H1 ltac:(rewrite H2; lia)) as Hp. cbn [fmap list_fmap] in Hp.
  by rewrite Hp, H2.
Qed.

(* ------------------------------------------------------------------ *)
(** ** Printed addresses are read back *)

Lemma to_string_read maxd upto n s :
  (1 ≤ maxd)%nat → 0 ≤ n < upto → upto ≤ 10 ^ Z.of_nat maxd → n < 10 ^ 20 → stops 10 s →
  read_number 10 maxd upto (to_string n ++ s) = Some (n, s).
Proof. intros. apply (read_number_print 10 maxd upto 19); [lia|done|done|done|lia|done]. Qed.

Lemma octet_read n s : stops 10 s → read_number 10 3 256 (to_string (n mod 256) ++ s) = Some (n mod 256, s).
Proof.
  intros Hs. pose proof (Z.mod_pos_bound n 256 ltac:(lia)).
  apply to_string_read; [lia|lia|by vm_compute|lia|done].
Qed.

Lemma octets_value a : 0 ≤ a < 2 ^ 32 →
  ((a / 2 ^ 24 mod 256 * 256 + a / 2 ^ 16 mod 256) * 256 + a / 2 ^ 8 mod 256) * 256 + a mod 256 = a.
Proof.
  intros Ha.
  assert (a / 2 ^ 24 mod 256 = a / 2 ^ 24) as -> by (apply Z.mod_small; split; [apply Z.div_pos; lia|apply Z.div_lt_upper_bound; lia]).
  replace (a / 2 ^ 24) with (a / 256 / 256 / 256) by (rewrite !Z.div_div by lia; done).
  replace (a / 2 ^ 16) with (a / 256 / 256) by (rewrite !Z.div_div by lia; done).
  change (2 ^ 8) with 256.
  pose proof (Z.div_mod a 256 ltac:(lia)). pose proof (Z.div_mod (a / 256) 256 ltac:(lia)).
  pose proof (Z.div_mod (a / 256 / 256) 256 ltac:(lia)). lia.
Qed.

Lemma read_given c s : read_given_char c (c :: s) = Some (tt, s).
Proof. simpl. by rewrite Z.eqb_refl. Qed.

Lemma read_print_ipv4 a s : 0 ≤ a < 2 ^ 32 → stops 10 s → read_ipv4_addr (print_ipv4 a ++ s) = Some (a, s).
Proof.
  intros Ha Hs. unfold read_ipv4_addr, print_ipv4. rewrite <-!app_assoc. cbn [app].
  do 3 (rewrite octet_read by done; cbv beta iota; rewrite read_given; cbv beta iota).
  rewrite octet_read by done. cbv beta iota. by rewrite octets_value.
Qed.

(** Text that goes on with neither a dot nor a decimal digit. *)
Definition not_dotted (s : bytes) : Prop := match s with [] => True | c :: _ => c ≠ DOT ∧ digit_of 10 c = None end.
Definition is_hex (c : Z) : Prop := ∃ d, digit_of 16 c = Some d.

Lemma read_digits_undotted m u t s : ∀ count r n rest,
  Forall is_hex t → not_dotted s → read_digits 10 m u count r (t ++ s) = Some (n, rest) →
  match rest with c :: _ => c ≠ DOT | [] => True end.
Proof.
  induction t as [|c t IH]; intros count r n rest Ht Hs; simpl.
  - destruct s as [|c s]; simpl; [by case_match; intros [= <- <-]|]. destruct Hs as [Hd Hn]. rewrite Hn.
    case_match; [done|]. by intros [= <- <-].
  - apply Forall_cons_1 in Ht as [[d Hc] Ht]. destruct (digit_of 10 c).
    + case_match; [done|]. by apply IH.
    + case_match; [done|]. intros [= <- <-]. intros ->. vm_compute in Hc. discriminate.
Qed.

(** Hexadecimal groups are not a dotted address. *)
Lemma ipv4_fails t s : Forall is_hex t → not_dotted s → read_ipv4_addr (t ++ s) = None.
Proof.
  intros Ht Hs. unfold read_ipv4_addr. destruct (read_number 10 3 256 (t ++ s)) as [[n rest]|] eqn:E; [|done].
  apply read_digits_undotted in E; [|done|done]. destruct rest as [|c rest]; [done|]. simpl.
  by rewrite (proj2 (Z.eqb_neq c DOT)).
Qed.

Lemma print_hex g : 0 ≤ g < 65536 → Forall is_hex (print_digits 4 16 g) ∧ print_digits 4 16 g ≠ [].
Proof.
  intros Hg. destruct (digits_spec 4 16 g) as [H1 _]; [lia|change (16 ^ Z.of_nat 4) with 65536; lia|]. split.
  - apply Forall_fmap. eapply Forall_impl; [exact H1|]. intros d Hd. simpl in Hd. exists d. apply digit_char; lia.
  - intros H%fmap_nil_inv. by apply digits_nonempty in H.
Qed.

Lemma group_read g s : 0 ≤ g < 65536 → stops 16 s → read_number 16 4 65536 (print_digits 4 16 g ++ s) = Some (g, s).
Proof. intros Hg Hs. apply (read_number_print 16 4 65536 3); change (16 ^ Z.of_nat 4) with 65536; done || lia. Qed.

(** Where the groups end: at the end of the text or at a double colon. *)
Definition groups_end (s : bytes) : Prop := s = [] ∨ ∃ s', s = COLON :: COLON :: s'.

Lemma groups_end_stops s : groups_end s → stops 16 s ∧ not_dotted s.
Proof. intros [->|[s' ->]]; done. Qed.

Lemma read_groups_end n first s :
  groups_end s → (first = true → s = [] ∨ ∃ s', s = COLON :: s') → read_groups n first s = ([], false, s).
Proof.
  intros Hs Hf. destruct n as [|n]; [done|]. cbn [read_groups].
  destruct Hs as [->|[s' ->]]; destruct first; by destruct n.
Qed.

Definition sep (first : bool) : bytes := if first then [] else [COLON].

Lemma read_groups_print gs : ∀ n first s,
  gs ≠ [] → Forall (fun g => 0 ≤ g < 65536) gs → (length gs ≤ n)%nat → groups_end s →
  read_groups n first (sep first ++ fmt_subslice gs ++ s) = (gs, false, s).
Proof.
  induction gs as [|g gs IH]; intros n first s Hne Hgs Hn Hs; [done|]. apply Forall_cons_1 in Hgs as [Hg Hgs].
  destruct n as [|n]; [simpl in Hn; lia|].
  set (rest := match gs with [] => s | _ => COLON :: fmt_subslice gs ++ s end).
  assert (fmt_subslice (g :: gs) ++ s = print_digits 4 16 g ++ rest) as ->.
  { unfold rest. destruct gs as [|g' gs]; [done|]. cbn [fmt_subslice]. by rewrite <-app_assoc. }
  assert (stops 16 rest ∧ not_dotted rest) as [Hr1 Hr2].
  { unfold rest. destruct gs; [by apply groups_end_stops|done]. }
  destruct (print_hex g Hg) as [Hhex _].
  assert (read_groups n false rest = (gs, false, s)) as Hrest.
  { unfold rest. destruct gs as [|g' gs]; [by apply read_groups_end|]. apply (IH n false s); [done|done|simpl in *; lia|done]. }
  cbn [read_groups].
  assert (∀ A (p : parser A), (if first then p (sep first ++ print_digits 4 16 g ++ rest)
            else let& '(_, s) := read_given_char COLON (sep first ++ print_digits 4 16 g ++ rest) in p s)
          = p (print_digits 4 16 g ++ rest)) as Hsep by (by destruct first).
  rewrite !Hsep, ipv4_fails, group_read by done. rewrite Hrest. by destruct (0 <? n)%nat.
Qed.

Lemma of_segments_segments a : 0 ≤ a < 2 ^ 128 → of_segments (segments a) = a.
Proof.
  intros Ha. unfold of_segments, segments. cbn [foldl fmap list_fmap].
  assert (∀ i j, 0 ≤ i → j = i + 1 → a / 2 ^ (16 * j) * 65536 + a / 2 ^ (16 * i) mod 65536 = a / 2 ^ (16 * i)) as Hstep.
  { intros i j Hi ->. replace (16 * (i + 1)) with (16 * i + 16) by lia. rewrite Z.pow_add_r, <-Z.div_div by lia.
    change (2 ^ 16) with 65536. rewrite Z.mul_comm. symmetry. apply Z.div_mod. lia. }
  assert (a / 2 ^ (16 * 7) mod 65536 = a / 2 ^ (16 * 7)) as ->.
  { apply Z.mod_small. split; [apply Z.div_pos; lia|]. apply Z.div_lt_upper_bound; lia. }
  cbn [Z.mul]. rewrite Z.add_0_l.
  rewrite (Hstep 6 7), (Hstep 5 6), (Hstep 4 5), (Hstep 3 4), (Hstep 2 3), (Hstep 1 2), (Hstep 0 1) by lia.
  apply Z.div_1_r.
Qed.

Lemma segments_u16 a : Forall (fun g => 0 ≤ g < 65536) (segments a).
Proof. apply Forall_fmap, Forall_true. intros i. apply Z.mod_pos_bound. lia. Qed.

(** The run found is a run of zeros. *)
Definition zero_run (l : list Z) (at_ len : nat) : Prop :=
  (at_ + len ≤ length l)%nat ∧ ∀ i, (at_ ≤ i < at_ + len)%nat → l !! i = Some 0.

Lemma zero_run_app l l' at_ len : zero_run l at_ len → zero_run (l ++ l') at_ len.
Proof.
  intros [H1 H2]. split; [rewrite length_app; lia|]. intros i Hi. rewrite lookup_app_l by lia. by apply H2.
Qed.

Lemma zero_run_snoc l at_ len : zero_run l at_ len → (at_ + len = length l)%nat → zero_run (l ++ [0]) at_ (S len).
Proof.
  intros [H1 H2] He. split; [rewrite length_app; simpl; lia|]. intros i Hi.
  destruct (decide (i = length l)) as [->|Hne]; [by rewrite list_lookup_middle|].
  rewrite lookup_app_l by lia. apply H2. lia.
Qed.

Lemma find_zero_slice_run gs : ∀ pre cur_at cur_len best_at best_len,
  zero_run pre best_at best_len → zero_run pre cur_at cur_len → (cur_len ≠ 0 → cur_at + cur_len = length pre)%nat →
  let '(at_, len) := find_zero_slice (length pre) cur_at cur_len best_at best_len gs in zero_run (pre ++ gs) at_ len.
Proof.
  induction gs as [|g gs IH]; intros pre cur_at cur_len best_at best_len Hb Hc He; simpl; [by rewrite app_nil_r|].
  assert (S (length pre) = length (pre ++ [g])) as Hlen by (rewrite length_app; simpl; lia).
  replace (pre ++ g :: gs) with ((pre ++ [g]) ++ gs) by (by rewrite <-app_assoc).
  destruct (Z.eqb_spec g 0) as [->|Hg].
  - set (at' := if (cur_len =? 0)%nat then length pre else cur_at).
    assert (at' + cur_len = length pre)%nat as Hat.
    { unfold at'. destruct (Nat.eqb_spec cur_len 0) as [->|]; [lia|by apply He]. }
    assert (zero_run (pre ++ [0]) at' (S cur_len)) as Hc'.
    { apply zero_run_snoc; [|done]. unfold at'. destruct (Nat.eqb_spec cur_len 0) as [->|]; [split; lia|done]. }
    rewrite Hlen. destruct (best_len <? S cur_len)%nat; apply IH; try done; try (rewrite <-Hlen; lia); by apply zero_run_app.
  - rewrite Hlen. apply IH; [by apply zero_run_app|split; [lia|lia]|done].
Qed.

Lemma zero_run_split l at_ len : zero_run l at_ len → l = take at_ l ++ replicate len 0 ++ drop (at_ + len) l.
Proof.
  intros [H1 H2]. rewrite <-(take_drop at_ l) at 1. f_equal. rewrite <-(take_drop len (drop at_ l)), drop_drop.
  f_equal. apply list_eq. intros i. rewrite lookup_take. case_decide.
  - rewrite lookup_drop, H2 by lia. symmetry. by apply lookup_replicate_2.
  - symmetry. apply lookup_replicate_None. lia.
Qed.

(** Two lists of groups around a double colon, either of them possibly empty. *)
Lemma read_ipv6_double gs1 gs2 :
  Forall (fun g => 0 ≤ g < 65536) gs1 → Forall (fun g => 0 ≤ g < 65536) gs2 → (length gs1 + length gs2 < 8)%nat →
  read_ipv6_addr (fmt_subslice gs1 ++ [COLON; COLON] ++ fmt_subslice gs2)
  = Some (of_segments (gs1 ++ replicate (8 - length gs1 - length gs2) 0 ++ gs2), []).
Proof.
  intros H1 H2 Hlen. unfold read_ipv6_addr.
  assert (read_groups 8 true (fmt_subslice gs1 ++ [COLON; COLON] ++ fmt_subslice gs2)
          = (gs1, false, [COLON; COLON] ++ fmt_subslice gs2)) as ->.
  { destruct gs1 as [|g gs1]; [by apply read_groups_end; [right; eauto|right; eauto]|].
    apply (read_groups_print (g :: gs1) 8 true); [done|done|lia|right; eauto]. }
  rewrite (proj2 (Nat.eqb_neq (length gs1) 8)) by lia. simpl.
  assert (read_groups (8 - length gs1) true (fmt_subslice gs2) = (gs2, false, [])) as ->; [|done].
  destruct gs2 as [|g gs2]; [by apply read_groups_end; [left|left]|].
  pose proof (read_groups_print (g :: gs2) (8 - length gs1) true [] ltac:(done) H2 ltac:(lia) ltac:(by left)) as H.
  simpl sep in H. by rewrite app_nil_l, app_nil_r in H.
Qed.

Lemma read_ipv6_full gs :
  Forall (fun g => 0 ≤ g < 65536) gs → length gs = 8%nat → read_ipv6_addr (fmt_subslice gs) = Some (of_segments gs, []).
Proof.
  intros Hgs Hlen. unfold read_ipv6_addr.
  pose proof (read_groups_print gs 8 true [] ltac:(by destruct gs) Hgs ltac:(lia) ltac:(by left)) as H.
  simpl sep in H. rewrite app_nil_l, app_nil_r in H. by rewrite H, Hlen.
Qed.

(** The two forms with a dotted end. *)
Lemma split_u32 x : 0 ≤ x < 2 ^ 32 → x / 65536 * 65536 + x mod 65536 = x.
Proof. intros. rewrite Z.mul_comm. symmetry. apply Z.div_mod. lia. Qed.

Lemma read_ipv6_compat x : 0 ≤ x < 2 ^ 32 → read_ipv6_addr ([COLON; COLON] ++ print_ipv4 x) = Some (x, []).
Proof.
  intros Hx. unfold read_ipv6_addr. rewrite read_groups_end by (right; eauto).
  change (length [] =? 8)%nat with false. cbn [app]. do 2 (rewrite read_given; cbv iota beta). cbn [read_groups Nat.sub length Nat.ltb Nat.leb].
  pose proof (read_print_ipv4 x [] Hx I) as H. rewrite app_nil_r in H. rewrite H.
  do 2 f_equal. unfold of_segments. cbn [app replicate length Nat.sub foldl]. pose proof (split_u32 x Hx). lia.
Qed.

Lemma read_ipv6_mapped x :
  0 ≤ x < 2 ^ 32 → read_ipv6_addr (str_bytes "::ffff:" ++ print_ipv4 x) = Some (65535 * 2 ^ 32 + x, []).
Proof.
  intros Hx. change (str_bytes "::ffff:" ++ print_ipv4 x) with (COLON :: COLON :: print_digits 4 16 65535 ++ COLON :: print_ipv4 x).
  unfold read_ipv6_addr. rewrite read_groups_end by (right; eauto).
  change (length [] =? 8)%nat with false. do 2 (rewrite read_given; cbv iota beta). cbn [read_groups Nat.sub length Nat.ltb Nat.leb].
  rewrite ipv4_fails by (apply (print_hex 65535); lia) || done. rewrite group_read by done. cbv iota beta.
  rewrite read_given. cbv iota beta.
  pose proof (read_print_ipv4 x [] Hx I) as H. rewrite app_nil_r in H. rewrite H. cbv iota beta.
  do 2 f_equal. unfold of_segments. cbn [app replicate length Nat.sub foldl]. pose proof (split_u32 x Hx). lia.
Qed.

Lemma read_print_ipv6 a : 0 ≤ a < 2 ^ 128 → read_ipv6_addr (print_ipv6 a) = Some (a, []).
Proof.
  intros Ha. pose proof (of_segments_segments a Ha) as Hv. pose proof (segments_u16 a) as H16.
  assert (length (segments a) = 8%nat) as Hlen by done. unfold print_ipv6.
  generalize dependent (segments a). intros gs Hv H16 Hlen.
  destruct gs as [|g1 [|g2 [|g3 [|g4 [|g5 [|g6 [|g [|h [|? ?]]]]]]]]]; try discriminate Hlen.
  assert (0 ≤ g < 65536 ∧ 0 ≤ h < 65536) as [Hg Hh] by (rewrite !Forall_cons in H16; tauto).
  case_bool_decide as E1; [injection E1 as -> -> -> -> -> -> -> ->; subst a; reflexivity|].
  case_bool_decide as E2; [injection E2 as -> -> -> -> -> -> -> ->; subst a; reflexivity|].
  cbn [take]. case_bool_decide as E3.
  { injection E3 as -> -> -> -> -> ->. unfold of_segments in Hv. cbn [foldl] in Hv.
    assert (a mod 2 ^ 32 = a) as -> by (apply Z.mod_small; lia). apply read_ipv6_compat. lia. }
  case_bool_decide as E4.
  { injection E4 as -> -> -> -> -> ->. unfold of_segments in Hv. cbn [foldl] in Hv.
    assert (a mod 2 ^ 32 = g * 65536 + h) as ->.
    { replace a with (g * 65536 + h + 65535 * 2 ^ 32) by lia. rewrite Z.mod_add by lia. apply Z.mod_small. lia. }
    rewrite read_ipv6_mapped by lia. do 2 f_equal. lia. }
  clear E1 E2 E3 E4. revert Hv H16 Hlen. generalize [g1; g2; g3; g4; g5; g6; g; h]. clear. intros gs Hv H16 Hlen.
  pose proof (find_zero_slice_run gs [] 0 0 0 0) as Hrun. cbn [length app] in Hrun.
  destruct (find_zero_slice 0 0 0 0 0 gs) as [at_ len].
  specialize (Hrun ltac:(split; [simpl; lia|lia]) ltac:(split; [simpl; lia|lia]) ltac:(done)).
  destruct (Nat.ltb_spec 1 len) as [Hl|Hl]; [|rewrite read_ipv6_full by done; by rewrite Hv].
  pose proof (zero_run_split _ _ _ Hrun) as Hsplit. destruct Hrun as [Hle _].
  rewrite read_ipv6_double; [|by apply Forall_take|by apply Forall_drop|rewrite length_take, length_drop; lia].
  rewrite length_take, length_drop. replace (8 - at_ `min` length gs - (length gs - (at_ + len)))%nat with len by lia.
  by rewrite <-Hsplit, Hv.
Qed.

(** The text of an IPv6 address is not a dotted address. *)
Lemma ipv6_not_dotted a s : 0 ≤ a < 2 ^ 128 → read_ipv4_addr (print_ipv6 a ++ s) = None.
Proof.
  intros Ha. pose proof (segments_u16 a) as H16. assert (length (segments a) = 8%nat) as Hlen by done.
  unfold print_ipv6. generalize dependent (segments a). intros gs H16 Hlen.
  do 4 (case_bool_decide; [done|]).
  assert (∀ g gs' s', 0 ≤ g < 65536 → gs' ≠ [] ∨ (∃ s'', s' = COLON :: s'') →
            read_ipv4_addr (fmt_subslice (g :: gs') ++ s') = None) as Hhead.
  { intros g gs' s' Hg Hs'. destruct (print_hex g Hg) as [Hhex _]. destruct gs' as [|g' gs'].
    - destruct Hs' as [|[s'' ->]]; [done|]. by apply ipv4_fails.
    - cbn [fmt_subslice]. rewrite <-app_assoc. by apply ipv4_fails. }
  destruct gs as [|g gs]; [done|]. apply Forall_cons_1 in H16 as [Hg _].
  destruct (find_zero_slice 0 0 0 0 0 (g :: gs)) as [at_ len]. destruct (1 <? len)%nat.
  - rewrite <-app_assoc. destruct at_ as [|at_]; [done|]. cbn [take]. apply Hhead; [done|]. right. by eexists.
  - apply Hhead; [done|]. left. by destruct gs.
Qed.

Definition ip_valid (ip : IpAddr) : Prop := match ip with IpV4 a => 0 ≤ a < 2 ^ 32 | IpV6 a => 0 ≤ a < 2 ^ 128 end.

#[export] Instance ip_valid_dec ip : Decision (ip_valid ip).
Proof. destruct ip; simpl; apply _. Defined.

(** Addresses: what `Display` prints, `FromStr` reads. *)
Lemma parse_print_ip ip : ip_valid ip → parse_ip (print_ip ip) = Ok ip.
Proof.
  intros Hip. unfold parse_ip, parse_all, read_ip_addr. destruct ip as [a|a]; simpl in Hip |- *.
  - pose proof (read_print_ipv4 a [] Hip I) as H. rewrite app_nil_r in H. by rewrite H.
  - pose proof (ipv6_not_dotted a [] Hip) as H. rewrite app_nil_r in H. by rewrite H, read_print_ipv6.
Qed.

(** An endpoint as address, colon, port: IPv4 is read back, IPv6 is not, for
    want of brackets. *)
Lemma parse_print_socket4 a p :
  0 ≤ a < 2 ^ 32 → 0 ≤ p < 65536 →
  parse_socket_addr (print_ip (IpV4 a) ++ [COLON] ++ to_string p) = Ok (mkSocketAddr (IpV4 a) p).
Proof.
  intros Ha Hp. unfold parse_socket_addr, parse_all, read_socket_addr. simpl print_ip.
  rewrite read_print_ipv4 by done. cbv iota beta. cbn [app]. rewrite read_given. cbv iota beta.
  pose proof (to_string_read 5 65536 p [] ltac:(lia) ltac:(lia) ltac:(by vm_compute) ltac:(lia) I) as H.
  rewrite app_nil_r in H. by rewrite H.
Qed.

Lemma parse_print_socket6 a p :
  0 ≤ a < 2 ^ 128 → is_err (parse_socket_addr (print_ip (IpV6 a) ++ [COLON] ++ to_string p)) = true.
Proof.
  intros Ha. unfold parse_socket_addr, parse_all, read_socket_addr. simpl print_ip.
  rewrite ipv6_not_dotted by done. cbv iota beta.
  assert (read_given_char LBRACK (print_ipv6 a ++ [COLON] ++ to_string p) = None) as ->; [|done].
  destruct (print_ipv6 a) as [|c t] eqn:E; [done|]. simpl. destruct (Z.eqb_spec c LBRACK) as [->|]; [|done].
  exfalso. pose proof (read_print_ipv6 a Ha) as H. by rewrite E in H.
Qed.

(* ------------------------------------------------------------------ *)
(** ** Plain text *)

(** ASCII without newline, `=` and `/`. *)
Definition plain (c : Z) : Prop := 0 ≤ c ≤ 127 ∧ c ≠ LF ∧ c ≠ EQUALS ∧ c ≠ SLASH.

Lemma plain_digits fuel radix n : 2 ≤ radix ≤ 36 → 0 ≤ n < radix ^ Z.of_nat fuel → Forall plain (print_digits fuel radix n).
Proof.
  intros Hr Hn. destruct (digits_spec fuel radix n) as [H _]; [lia|done|]. apply Forall_fmap.
  eapply Forall_impl; [exact H|]. intros d Hd. simpl in *. unfold plain, char_of, LF, EQUALS, SLASH.
  destruct (Z.ltb_spec d 10); lia.
Qed.

Lemma plain_to_string n : 0 ≤ n < 2 ^ 64 → Forall plain (to_string n).
Proof.
  intros Hn. apply plain_digits; [lia|]. assert (2 ^ 64 ≤ 10 ^ Z.of_nat 20) as H20 by (by vm_compute).
  split; [tauto|]. eapply Z.lt_le_trans; [apply Hn|done].
Qed.

Lemma plain_ipv4 a : Forall plain (print_ipv4 a).
Proof.
  assert (∀ n, Forall plain (to_string (n mod 256))) as H.
  { intros n. apply plain_to_string. pose proof (Z.mod_pos_bound n 256 ltac:(lia)). lia. }
  unfold print_ipv4. repeat (apply Forall_app; split); try apply H; by apply Forall_singleton.
Qed.

Lemma plain_groups gs : Forall (fun g => 0 ≤ g < 65536) gs → Forall plain (fmt_subslice gs).
Proof.
  induction 1 as [|g gs Hg Hgs IH]; [done|].
  assert (Forall plain (print_digits 4 16 g)) as Hp by (apply plain_digits; [lia|change (16 ^ Z.of_nat 4) with 65536; lia]).
  destruct gs as [|g' gs]; [done|]. cbn [fmt_subslice]. apply Forall_app. split; [done|].
  apply Forall_app. split; [by apply Forall_singleton|exact IH].
Qed.

Lemma plain_ip ip : Forall plain (print_ip ip).
Proof.
  destruct ip as [a|a]; simpl; [apply plain_ipv4|]. pose proof (segments_u16 a) as H. unfold print_ipv6.
  assert (Forall plain [COLON; COLON]) as Hcc by (by repeat constructor).
  case_bool_decide; [done|]. case_bool_decide; [by repeat constructor|].
  case_bool_decide; [apply Forall_app; split; [done|apply plain_ipv4]|].
  case_bool_decide; [apply Forall_app; split; [by repeat constructor|apply plain_ipv4]|].
  destruct (find_zero_slice 0 0 0 0 0 (segments a)) as [at_ len]. case_match; [|by apply plain_groups].
  apply Forall_app. split; [by apply plain_groups, Forall_take|]. apply Forall_app. split; [done|].
  by apply plain_groups, Forall_drop.
Qed.

Lemma plain_ascii b : Forall plain b → is_ascii b.
Proof. intros H. eapply Forall_impl; [exact H|]. by intros c [? _]. Qed.
Lemma plain_not_in c b : Forall plain b → (c = LF ∨ c = EQUALS ∨ c = SLASH) → c ∉ b.
Proof. intros H Hc Hin. rewrite Forall_forall in H. destruct (H _ Hin) as (_ & ? & ? & ?). naive_solver. Qed.
