(* ===== verification/Timestamp.v ===== *)
(** * Constants and timestamps (src/consts.rs, src/timestamp.rs)

    The protocol's time and message limits, the optional [Timestamp] of a
    timer, and the TAI64N label of a handshake initiation with the order the
    responder compares labels by. *)

From S2P Require Import Prelude Crates Reference.

(* ------------------------------------------------------------------ *)
(** ** src/consts.rs *)

Definition REKEY_ATTEMPT_TIME : Duration := duration_new 90 0.
Definition REJECT_AFTER_TIME : Duration := duration_new 180 0.
Definition REKEY_AFTER_TIME : Duration := duration_new 120 0.
Definition REKEY_TIMEOUT : Duration := duration_new 5 0.
Definition KEEPALIVE_TIMEOUT : Duration := duration_new 10 0.
Definition REKEY_AFTER_TIME_RECV : Duration := REJECT_AFTER_TIME - KEEPALIVE_TIMEOUT - REKEY_TIMEOUT.
Definition WIPE_AFTER_TIME : Duration := REJECT_AFTER_TIME * 3.
Definition STALE_SESSION_TIMEOUT : Duration := KEEPALIVE_TIMEOUT + REKEY_TIMEOUT.
Definition TIMER_RESOLUTION : Duration := millis 100.
Definition COOKIE_REFRESH_TIME : Duration := duration_new 120 0.
Definition UNDER_LOAD_TIME : Duration := duration_new 1 0.
Definition MAX_HANDSHAKE_ATTEMPTS : Z := as_secs REKEY_ATTEMPT_TIME / as_secs REKEY_TIMEOUT - 1.

Definition U64_MAX : Z := 2 ^ 64 - 1.
Definition REKEY_AFTER_MESSAGES : Z := U64_MAX - 2 ^ 16 - 1.
Definition REJECT_AFTER_MESSAGES : Z := U64_MAX - 2 ^ 4 - 1.
Definition TRANSPORT_HEADER_SIZE : nat := 16.
Definition AEAD_TAG_SIZE : nat := 16.
Definition TRANSPORT_OVERHEAD : nat := TRANSPORT_HEADER_SIZE + AEAD_TAG_SIZE.
Definition MAX_SEGMENT_SIZE : Z := 2 ^ 16 - 1.
Definition MAX_CONTENT_SIZE : Z := MAX_SEGMENT_SIZE - Z.of_nat TRANSPORT_OVERHEAD.
Definition PADDING_MULTIPLE : nat := 16.
Definition MAX_QUEUED_HANDSHAKES : Z := 4096.
Definition UNDER_LOAD_QUEUE_SIZE : Z := MAX_QUEUED_HANDSHAKES / 8.
Definition MAX_QUEUED_PACKETS : nat := 1024.
Definition MAX_PEERS_PER_DEVICE : Z := 2 ^ 20.

(* ------------------------------------------------------------------ *)
(** ** Timestamp *)

Module Timestamp.

Definition FOREVER : Duration := secs 4294967295.

(** `Timestamp(Option<Instant>)`. *)
Definition t : Type := option Instant.
Definition default : t := None.
Definition now (i : Instant) : t := Some i.
Definition unset : t := None.
Definition is_set (ts : t) : bool := match ts with Some _ => true | None => false end.
(** `elapsed` reads the monotonic clock, [i]. *)
Definition elapsed (i : Instant) (ts : t) : Duration :=
  match ts with Some time => i - time | None => FOREVER end.

(** `FOREVER_AGO`, as it is computed at the time [i], and `Deref`. *)
Definition FOREVER_AGO (i : Instant) : Instant := i - secs 4294967295.
Definition deref (forever_ago : Instant) (ts : t) : Instant := match ts with Some time => time | None => forever_ago end.

(** The time since the instant behind a timestamp is what `elapsed` says, once
    it is set. *)
Lemma elapsed_deref i ago ts : is_set ts = true → elapsed i ts = i - deref ago ts.
Proof. by destruct ts. Qed.

Lemma elapsed_now i : elapsed i (now i) = 0.
Proof. unfold elapsed, now. lia. Qed.
Lemma elapsed_mono i j ts : i ≤ j → elapsed i ts ≤ elapsed j ts.
Proof. destruct ts; simpl; lia. Qed.

End Timestamp.

(* ------------------------------------------------------------------ *)
(** ** Tai64n *)

Module Tai64n.
Section with_crates.
Context {BO : ByteOrder}.

Definition TAI64N_BASE : Z := 4611686018427387914.

(** `Tai64n::now()` at [now] nanoseconds after the Unix epoch. *)
Definition now (now : Duration) : res bytes :=
  if now <? 0 then Panic "duration_since(UNIX_EPOCH).unwrap()"
  else
    let? t := with_slice_from 0 (be_write_i64 (TAI64N_BASE + as_secs now)) (zeros 12) in
    with_slice_from 8 (be_write_i32 (subsec_nanos now)) t.

(** `a > b` of the derived `PartialOrd`. *)
Definition gt (a b : bytes) : bool := lex_lt b a.

(** System times whose TAI64N seconds fit a signed 64-bit integer: up to the
    year 146 billion. *)
Definition in_range (t : Duration) : Prop := 0 ≤ t ∧ TAI64N_BASE + as_secs t < 2 ^ 63.

Context {BOL : ByteOrderLaws BO}.

Lemma now_encoding t :
  in_range t → now t = Ok (be_split 8 (TAI64N_BASE + as_secs t) ++ be_split 4 (subsec_nanos t)).
Proof.
  intros [H0 Hr]. unfold now. rewrite (proj2 (Z.ltb_ge _ _)) by done.
  assert (0 ≤ as_secs t) by (apply Z.div_pos; done).
  assert (0 ≤ subsec_nanos t < NANOS) as Hn by (apply Z.mod_pos_bound; done).
  unfold NANOS in Hn. unfold with_slice_from.
  rewrite (with_slice_write _ _ _ (be_split 8 (TAI64N_BASE + as_secs t))); cbn [bind_res].
  - rewrite (with_slice_write _ _ _ (be_split 4 (subsec_nanos t))); unfold overlay;
      autorewrite with wg_len.
    + done.
    + rewrite !length_app; autorewrite with wg_len. simpl. lia.
    + done.
    + intros s Hs. rewrite be_write_i32_ok; [by autorewrite with wg_len|lia|].
      rewrite Hs, !length_app; autorewrite with wg_len. simpl. lia.
  - autorewrite with wg_len. lia.
  - done.
  - intros s Hs. rewrite be_write_i64_ok; [by autorewrite with wg_len|unfold TAI64N_BASE in *; lia|].
    rewrite Hs. autorewrite with wg_len. lia.
Qed.

Lemma now_value t :
  in_range t →
  be_combine (be_split 8 (TAI64N_BASE + as_secs t) ++ be_split 4 (subsec_nanos t))
  = (TAI64N_BASE + as_secs t) * 2 ^ 32 + subsec_nanos t.
Proof.
  intros [H0 Hr]. assert (0 ≤ as_secs t) by (apply Z.div_pos; done).
  assert (0 ≤ subsec_nanos t < NANOS) as Hn by (apply Z.mod_pos_bound; done).
  unfold NANOS in Hn. unfold TAI64N_BASE in *.
  rewrite be_combine_app, !be_combine_split, length_be_split by lia. done.
Qed.

(** Handshake labels are ordered by time: for system times up to the year
    146 billion `Tai64n::now` succeeds, and the derived comparison of two labels
    is the comparison of the times they were taken at, to the nanosecond. *)
Lemma tai64n_order t1 t2 :
  in_range t1 → in_range t2 →
  ∃ l1 l2, now t1 = Ok l1 ∧ now t2 = Ok l2 ∧ length l1 = 12%nat ∧ gt l1 l2 = (t2 <? t1).
Proof.
  intros H1 H2. do 2 eexists. split_and!; [by apply now_encoding..| |].
  { rewrite length_app. by autorewrite with wg_len. }
  unfold gt. rewrite lex_lt_be_combine.
  - rewrite !now_value by done.
    pose proof (Z.div_mod t1 NANOS) as E1. pose proof (Z.div_mod t2 NANOS) as E2.
    pose proof (Z.mod_pos_bound t1 NANOS) as B1. pose proof (Z.mod_pos_bound t2 NANOS) as B2.
    unfold as_secs, subsec_nanos, NANOS in *.
    destruct (Z.ltb_spec t2 t1); [apply Z.ltb_lt|apply Z.ltb_ge]; lia.
  - apply Forall_app; split; apply is_bytes_be_split.
  - apply Forall_app; split; apply is_bytes_be_split.
  - rewrite !length_app. by autorewrite with wg_len.
Qed.
End with_crates.

End Tai64n.
