(* ===== verification/Message.v ===== *)
(** * Wire messages (src/message.rs)

    The four message kinds as wrapped packets, the parser `TryFrom<Vec<u8>>`
    and the accessors by byte offset.  Indexing and slicing panic out of range,
    so every accessor returns a [res]. *)

From S2P Require Import Prelude Crates Reference.

(** `Message`: each variant wraps the whole packet. *)
Inductive Message :=
| Message_Initiation (packet : bytes)
| Message_Response (packet : bytes)
| Message_CookieReply (packet : bytes)
| Message_Transport (packet : bytes).

(** `LittleEndian::read_u32(&p[lo..])` and `LittleEndian::read_u32(&p[lo..hi])`. *)
Definition read_u32_from `{ByteOrder} (lo : nat) (p : bytes) : res Z :=
  let? s := slice_from lo p in le_read_u32 s.
Definition read_u32_in `{ByteOrder} (lo hi : nat) (p : bytes) : res Z :=
  let? s := slice lo hi p in le_read_u32 s.

Module Initiation.
Definition try_from (packet : bytes) : res bytes :=
  let? _ := ensure (Nat.eqb (length packet) 148) "incorrect handshake initiation packet length." in
  Ok packet.
Definition sender_index `{ByteOrder} (p : bytes) : res Z := read_u32_from 4 p.
Definition noise_bytes (p : bytes) : res bytes := slice 8 116 p.
Definition mac1 (p : bytes) : res bytes := slice 84 100 p.
Definition as_bytes (p : bytes) : bytes := p.
End Initiation.

Module Response.
Definition try_from (packet : bytes) : res bytes :=
  let? _ := ensure (Nat.eqb (length packet) 92) "incorrect handshake response packet length." in
  Ok packet.
Definition sender_index `{ByteOrder} (p : bytes) : res Z := read_u32_from 4 p.
Definition receiver_index `{ByteOrder} (p : bytes) : res Z := read_u32_from 8 p.
Definition noise_bytes (p : bytes) : res bytes := slice 12 60 p.
Definition mac1 (p : bytes) : res bytes := slice 60 76 p.
Definition mac2 (p : bytes) : res bytes := slice 76 92 p.
Definition as_bytes (p : bytes) : bytes := p.
End Response.

Module CookieReply.
Definition new : bytes := <[0%nat := 3]> (zeros 64).
Definition try_from (packet : bytes) : res bytes :=
  let? _ := ensure (Nat.eqb (length packet) 64) "incorrect cookie reply packet length." in
  Ok packet.
Definition receiver_index `{ByteOrder} (p : bytes) : res Z := read_u32_in 4 8 p.
Definition set_receiver_index `{ByteOrder} (index : Z) (p : bytes) : res bytes :=
  with_slice 4 8 (le_write_u32 index) p.
Definition nonce (p : bytes) : res bytes := slice 8 32 p.
(** A write through `nonce_mut()`: the closure rewrites the slice. *)
Definition nonce_mut (f : bytes → res bytes) (p : bytes) : res bytes := with_slice 8 32 f p.
Definition cookie (p : bytes) : res bytes := slice 32 48 p.
(** `nonce_cookie_mut()` gives the slices 8..32 and 32.. of the buffer; [f]
    rewrites both. *)
Definition nonce_cookie_mut (f : bytes → bytes → res (bytes * bytes)) (p : bytes) : res bytes :=
  let? nonce := slice 8 32 p in
  let? second := slice_from 32 p in
  let? '(nonce', second') := f nonce second in
  Ok (take 8 p ++ nonce' ++ second').
Definition aead_tag (p : bytes) : res bytes := slice 48 64 p.
Definition as_bytes (p : bytes) : bytes := p.
End CookieReply.

Module Transport.
Definition try_from (packet : bytes) : res bytes :=
  let? _ := ensure (32 <=? length packet)%nat "transport message smaller than minimum length." in
  Ok packet.
Definition our_index `{ByteOrder} (p : bytes) : res Z := read_u32_from 4 p.
Definition nonce `{ByteOrder} (p : bytes) : res Z :=
  let? s := slice 8 16 p in le_read_u64 s.
Definition payload (p : bytes) : res bytes := slice_from 16 p.
Definition as_bytes (p : bytes) : bytes := p.
End Transport.

Module MessageParser.
Definition try_from (packet : bytes) : res Message :=
  let? kind := index_get 0 packet in
  if kind =? 1 then let? p := Initiation.try_from packet in Ok (Message_Initiation p)
  else if kind =? 2 then let? p := Response.try_from packet in Ok (Message_Response p)
  else if kind =? 3 then let? p := CookieReply.try_from packet in Ok (Message_CookieReply p)
  else if kind =? 4 then let? p := Transport.try_from packet in Ok (Message_Transport p)
  else Err "unknown wireguard message type".
End MessageParser.

(** The packet inside a message. *)
Definition packet_of (m : Message) : bytes :=
  match m with
  | Message_Initiation p | Message_Response p | Message_CookieReply p | Message_Transport p => p
  end.

(** The type byte and the length a message of each kind must have. *)
Definition well_framed (m : Message) : Prop :=
  match m with
  | Message_Initiation p => p !! 0%nat = Some 1 ∧ length p = 148%nat
  | Message_Response p => p !! 0%nat = Some 2 ∧ length p = 92%nat
  | Message_CookieReply p => p !! 0%nat = Some 3 ∧ length p = 64%nat
  | Message_Transport p => p !! 0%nat = Some 4 ∧ (32 ≤ length p)%nat
  end.

(* ------------------------------------------------------------------ *)
(** ** Parsing *)

Lemma try_from_lookup packet :
  MessageParser.try_from packet =
    match packet !! 0%nat with
    | None => Panic "index out of bounds"
    | Some kind =>
        if kind =? 1 then if Nat.eqb (length packet) 148 then Ok (Message_Initiation packet)
                          else Err "incorrect handshake initiation packet length."
        else if kind =? 2 then if Nat.eqb (length packet) 92 then Ok (Message_Response packet)
                               else Err "incorrect handshake response packet length."
        else if kind =? 3 then if Nat.eqb (length packet) 64 then Ok (Message_CookieReply packet)
                               else Err "incorrect cookie reply packet length."
        else if kind =? 4 then if (32 <=? length packet)%nat then Ok (Message_Transport packet)
                               else Err "transport message smaller than minimum length."
        else Err "unknown wireguard message type"
    end.
Proof.
  unfold MessageParser.try_from, index_get, Initiation.try_from, Response.try_from,
    CookieReply.try_from, Transport.try_from, ensure.
  destruct (packet !! 0%nat); simpl; repeat (case_match; simpl); done.
Qed.

Lemma try_from_Ok packet m :
  MessageParser.try_from packet = Ok m ↔ packet_of m = packet ∧ well_framed m.
Proof.
  rewrite try_from_lookup. split.
  - intros H. destruct (packet !! 0%nat) as [k|] eqn:E; [|done].
    repeat (case_match; simplify_eq/=);
      repeat match goal with
        | H : (_ =? _) = true |- _ => apply Z.eqb_eq in H; subst
        | H : (_ =? _)%nat = true |- _ => apply Nat.eqb_eq in H
        | H : (_ <=? _)%nat = true |- _ => apply Nat.leb_le in H
        end; split_and!; done || lia.
  - intros [<- Hw]. destruct m as [p|p|p|p]; cbn [packet_of well_framed] in *;
      destruct Hw as [-> Hl]; [by rewrite Hl..|].
    apply Nat.leb_le in Hl. by rewrite Hl.
Qed.

(** C35.  The parser accepts exactly the well-framed packets: a message is
    returned when and only when its bytes are the packet, the type byte is the
    one of its kind and the length is 148, 92, 64 or at least 32; any other
    non-empty packet is an error, never a panic. *)
Theorem message_try_from_exact packet :
  packet ≠ [] →
  (∀ m, MessageParser.try_from packet = Ok m ↔ packet_of m = packet ∧ well_framed m) ∧
  ((∃ m, MessageParser.try_from packet = Ok m) ∨ (∃ e, MessageParser.try_from packet = Err e)).
Proof.
  intros Hne. split; [intros m; apply try_from_Ok|].
  rewrite try_from_lookup. destruct packet as [|k p]; [done|]. simpl.
  repeat case_match; eauto.
Qed.

Lemma message_try_from_exact_witness :
  (∀ m, MessageParser.try_from (2 :: zeros 91) = Ok m
        ↔ packet_of m = 2 :: zeros 91 ∧ well_framed m) ∧
  ((∃ m, MessageParser.try_from (2 :: zeros 91) = Ok m)
   ∨ (∃ e, MessageParser.try_from (2 :: zeros 91) = Err e)).
Proof. apply message_try_from_exact. done. Defined.

(* ------------------------------------------------------------------ *)
(** ** Accessors *)

Section accessors.
Context {BO : ByteOrder} {BOL : ByteOrderLaws BO}.

Lemma read_u32_from_ok lo p :
  (lo + 4 ≤ length p)%nat → read_u32_from lo p = Ok (le_combine (take 4 (drop lo p))).
Proof.
  intros. unfold read_u32_from. rewrite slice_from_Ok by lia. simpl.
  rewrite le_read_u32_ok by (rewrite length_drop; lia). done.
Qed.

Lemma slice_len lo hi p :
  (lo ≤ hi)%nat → (hi ≤ length p)%nat → ∃ s, slice lo hi p = Ok s ∧ length s = (hi - lo)%nat.
Proof.
  intros. rewrite slice_Ok by done. eexists. split; [done|].
  rewrite length_take, length_drop. lia.
Qed.

Lemma transport_nonce_ok p :
  (16 ≤ length p)%nat → Transport.nonce p = Ok (le_combine (take 8 (drop 8 p))).
Proof.
  intros. unfold Transport.nonce. rewrite slice_Ok by lia. simpl.
  rewrite le_read_u64_ok by (rewrite length_take, length_drop; lia).
  by rewrite take_take.
Qed.

Lemma transport_nonce_u64 p n : is_bytes p → Transport.nonce p = Ok n → is_u64 n.
Proof.
  intros Hb Hn. assert (16 ≤ length p)%nat as Hl.
  { unfold Transport.nonce, slice in Hn. case_bool_decide; [lia|done]. }
  rewrite transport_nonce_ok in Hn by done. apply (inj Ok) in Hn as <-.
  assert (is_bytes (take 8 (drop 8 p))) as Hs by (by apply Forall_take, Forall_drop).
  pose proof (le_combine_bound _ Hs) as Hc. rewrite length_take_le in Hc by (rewrite length_drop; lia). done.
Qed.

(** The accessors of each kind return, with fields of the documented size. *)
Definition accessors_ok (m : Message) : Prop :=
  match m with
  | Message_Initiation p =>
      (∃ i, Initiation.sender_index p = Ok i) ∧
      (∃ n, Initiation.noise_bytes p = Ok n ∧ length n = 108%nat) ∧
      (∃ c, Initiation.mac1 p = Ok c ∧ length c = 16%nat)
  | Message_Response p =>
      (∃ i, Response.sender_index p = Ok i) ∧ (∃ i, Response.receiver_index p = Ok i) ∧
      (∃ n, Response.noise_bytes p = Ok n ∧ length n = 48%nat) ∧
      (∃ c, Response.mac1 p = Ok c ∧ length c = 16%nat) ∧
      (∃ c, Response.mac2 p = Ok c ∧ length c = 16%nat)
  | Message_CookieReply p =>
      (∃ i, CookieReply.receiver_index p = Ok i) ∧
      (∃ n, CookieReply.nonce p = Ok n ∧ length n = 24%nat) ∧
      (∃ c, CookieReply.cookie p = Ok c ∧ length c = 16%nat) ∧
      (∃ c, CookieReply.aead_tag p = Ok c ∧ length c = 16%nat)
  | Message_Transport p =>
      (∃ i, Transport.our_index p = Ok i) ∧ (∃ n, Transport.nonce p = Ok n) ∧
      (∃ c, Transport.payload p = Ok c ∧ (length c + 16)%nat = length p)
  end.

(** No accessor of a parsed message panics, and the fields have their
    sizes: every field offset of src/message.rs is inside the packet the parser
    lets through. *)
Lemma message_accessors_safe packet m :
  MessageParser.try_from packet = Ok m → accessors_ok m.
Proof.
  intros [_ Hw]%try_from_Ok. destruct m as [p|p|p|p]; simpl in *; destruct Hw as [_ Hl];
    split_and!; try (eexists; apply read_u32_from_ok; lia); try (apply slice_len; lia).
  - unfold CookieReply.receiver_index, read_u32_in. rewrite slice_Ok by lia. simpl.
    eexists. apply le_read_u32_ok. rewrite length_take, length_drop. lia.
  - eexists. apply transport_nonce_ok. lia.
  - unfold Transport.payload. rewrite slice_from_Ok by lia. eexists. split; [done|].
    rewrite length_drop. lia.
Qed.

Lemma set_receiver_index_overlay i p :
  length p = 64%nat → is_u32 i →
  CookieReply.set_receiver_index i p = Ok (overlay 4 (le_split 4 i) p).
Proof.
  intros Hl Hi. unfold CookieReply.set_receiver_index.
  apply with_slice_write; autorewrite with wg_len; [lia..|].
  intros s Hs. apply le_write_u32_ok; [done|lia].
Qed.

(** A cookie reply is framed as it is parsed: setting the receiver index of
    `CookieReply::new` and parsing the bytes gives a cookie reply message whose
    receiver index is the one that was set; the nonce and the sealed cookie are
    left as they were. *)
Lemma cookie_reply_roundtrip i :
  is_u32 i →
  ∃ p, CookieReply.set_receiver_index i CookieReply.new = Ok p ∧
       MessageParser.try_from p = Ok (Message_CookieReply p) ∧
       CookieReply.receiver_index p = Ok i ∧
       CookieReply.nonce p = CookieReply.nonce CookieReply.new ∧
       CookieReply.cookie p = CookieReply.cookie CookieReply.new ∧
       CookieReply.aead_tag p = CookieReply.aead_tag CookieReply.new.
Proof.
  intros Hi. eexists. split; [by apply set_receiver_index_overlay|].
  assert (length (overlay 4 (le_split 4 i) CookieReply.new) = 64%nat) as Hl by done.
  split_and!; [|..].
  - apply try_from_Ok. simpl. by split_and!.
  - unfold CookieReply.receiver_index, read_u32_in. rewrite slice_Ok by (rewrite ?Hl; lia). simpl.
    rewrite le_read_u32_ok by (simpl; lia). f_equal.
    transitivity (le_combine (le_split 4 i)); [done|apply le_combine_split, Hi].
  - done.
  - done.
  - done.
Qed.
End accessors.
