(* ===== verification/XChaCha.v ===== *)
(** * XChaCha20-Poly1305 (src/xchacha20poly1305.rs)

    The unrolled HChaCha20 permutation, statement by statement, the reference
    quarter-round description it is equal to, and the authenticated encryption
    built on it and on the AEAD crate. *)

From S2P Require Import Prelude Crates Reference.

(** ** `Wrapping<u32>` *)
Definition wadd (a b : Z) : Z := wrap32 (a + b).
Definition wxor (a b : Z) : Z := Z.lxor a b.
Definition wor (a b : Z) : Z := Z.lor a b.
Definition wshl (a n : Z) : Z := wrap32 (Z.shiftl a n).
Definition wshr (a n : Z) : Z := Z.shiftr a n.

Module XChaCha.

(** The sixteen local variables v00 .. v15. *)
Definition vars : Type := Z * Z * Z * Z * Z * Z * Z * Z * Z * Z * Z * Z * Z * Z * Z * Z.

(** One pass of the `while` loop. *)
Definition loop_body (v : vars) : vars :=
  let '(v00, v01, v02, v03, v04, v05, v06, v07, v08, v09, v10, v11, v12, v13, v14, v15) := v in
  let v00 := wadd v00 v04 in
  let v12 := wxor v12 v00 in
  let v12 := wor (wshl v12 16) (wshr v12 16) in
  let v08 := wadd v08 v12 in
  let v04 := wxor v04 v08 in
  let v04 := wor (wshl v04 12) (wshr v04 20) in
  let v00 := wadd v00 v04 in
  let v12 := wxor v12 v00 in
  let v12 := wor (wshl v12 8) (wshr v12 24) in
  let v08 := wadd v08 v12 in
  let v04 := wxor v04 v08 in
  let v04 := wor (wshl v04 7) (wshr v04 25) in
  let v01 := wadd v01 v05 in
  let v13 := wxor v13 v01 in
  let v13 := wor (wshl v13 16) (wshr v13 16) in
  let v09 := wadd v09 v13 in
  let v05 := wxor v05 v09 in
  let v05 := wor (wshl v05 12) (wshr v05 20) in
  let v01 := wadd v01 v05 in
  let v13 := wxor v13 v01 in
  let v13 := wor (wshl v13 8) (wshr v13 24) in
  let v09 := wadd v09 v13 in
  let v05 := wxor v05 v09 in
  let v05 := wor (wshl v05 7) (wshr v05 25) in
  let v02 := wadd v02 v06 in
  let v14 := wxor v14 v02 in
  let v14 := wor (wshl v14 16) (wshr v14 16) in
  let v10 := wadd v10 v14 in
  let v06 := wxor v06 v10 in
  let v06 := wor (wshl v06 12) (wshr v06 20) in
  let v02 := wadd v02 v06 in
  let v14 := wxor v14 v02 in
  let v14 := wor (wshl v14 8) (wshr v14 24) in
  let v10 := wadd v10 v14 in
  let v06 := wxor v06 v10 in
  let v06 := wor (wshl v06 7) (wshr v06 25) in
  let v03 := wadd v03 v07 in
  let v15 := wxor v15 v03 in
  let v15 := wor (wshl v15 16) (wshr v15 16) in
  let v11 := wadd v11 v15 in
  let v07 := wxor v07 v11 in
  let v07 := wor (wshl v07 12) (wshr v07 20) in
  let v03 := wadd v03 v07 in
  let v15 := wxor v15 v03 in
  let v15 := wor (wshl v15 8) (wshr v15 24) in
  let v11 := wadd v11 v15 in
  let v07 := wxor v07 v11 in
  let v07 := wor (wshl v07 7) (wshr v07 25) in
  let v00 := wadd v00 v05 in
  let v15 := wxor v15 v00 in
  let v15 := wor (wshl v15 16) (wshr v15 16) in
  let v10 := wadd v10 v15 in
  let v05 := wxor v05 v10 in
  let v05 := wor (wshl v05 12) (wshr v05 20) in
  let v00 := wadd v00 v05 in
  let v15 := wxor v15 v00 in
  let v15 := wor (wshl v15 8) (wshr v15 24) in
  let v10 := wadd v10 v15 in
  let v05 := wxor v05 v10 in
  let v05 := wor (wshl v05 7) (wshr v05 25) in
  let v01 := wadd v01 v06 in
  let v12 := wxor v12 v01 in
  let v12 := wor (wshl v12 16) (wshr v12 16) in
  let v11 := wadd v11 v12 in
  let v06 := wxor v06 v11 in
  let v06 := wor (wshl v06 12) (wshr v06 20) in
  let v01 := wadd v01 v06 in
  let v12 := wxor v12 v01 in
  let v12 := wor (wshl v12 8) (wshr v12 24) in
  let v11 := wadd v11 v12 in
  let v06 := wxor v06 v11 in
  let v06 := wor (wshl v06 7) (wshr v06 25) in
  let v02 := wadd v02 v07 in
  let v13 := wxor v13 v02 in
  let v13 := wor (wshl v13 16) (wshr v13 16) in
  let v08 := wadd v08 v13 in
  let v07 := wxor v07 v08 in
  let v07 := wor (wshl v07 12) (wshr v07 20) in
  let v02 := wadd v02 v07 in
  let v13 := wxor v13 v02 in
  let v13 := wor (wshl v13 8) (wshr v13 24) in
  let v08 := wadd v08 v13 in
  let v07 := wxor v07 v08 in
  let v07 := wor (wshl v07 7) (wshr v07 25) in
  let v03 := wadd v03 v04 in
  let v14 := wxor v14 v03 in
  let v14 := wor (wshl v14 16) (wshr v14 16) in
  let v09 := wadd v09 v14 in
  let v04 := wxor v04 v09 in
  let v04 := wor (wshl v04 12) (wshr v04 20) in
  let v03 := wadd v03 v04 in
  let v14 := wxor v14 v03 in
  let v14 := wor (wshl v14 8) (wshr v14 24) in
  let v09 := wadd v09 v14 in
  let v04 := wxor v04 v09 in
  let v04 := wor (wshl v04 7) (wshr v04 25) in
  (v00, v01, v02, v03, v04, v05, v06, v07, v08, v09, v10, v11, v12, v13, v14, v15).

(** `while i < 20 { ...; i += 2; }`, at most [fuel] passes. *)
Fixpoint rounds (fuel : nat) (i : Z) (v : vars) : vars :=
  match fuel with
  | O => v
  | S fuel' => if i <? 20 then rounds fuel' (i + 2) (loop_body v) else v
  end.

Section with_crates.
Context {BO : ByteOrder}.

(** `LittleEndian::read_u32(&b[lo..])`, `LittleEndian::write_u32(&mut b[lo..], v)`. *)
Definition read_at (lo : nat) (b : bytes) : res Z := let? s := slice_from lo b in le_read_u32 s.
Definition write_at (lo : nat) (v : Z) (b : bytes) : res bytes :=
  with_slice_from lo (le_write_u32 v) b.

Definition hchacha20 (key nonce out : bytes) : res bytes :=
  let v00 := 1634760805 in
  let v01 := 857760878 in
  let v02 := 2036477234 in
  let v03 := 1797285236 in
  let? v04 := read_at 0 key in
  let? v05 := read_at 4 key in
  let? v06 := read_at 8 key in
  let? v07 := read_at 12 key in
  let? v08 := read_at 16 key in
  let? v09 := read_at 20 key in
  let? v10 := read_at 24 key in
  let? v11 := read_at 28 key in
  let? v12 := read_at 0 nonce in
  let? v13 := read_at 4 nonce in
  let? v14 := read_at 8 nonce in
  let? v15 := read_at 12 nonce in
  let '(v00, v01, v02, v03, v04, v05, v06, v07, v08, v09, v10, v11, v12, v13, v14, v15) :=
    rounds 11 0 (v00, v01, v02, v03, v04, v05, v06, v07, v08, v09, v10, v11, v12, v13, v14, v15) in
  let? out := write_at 0 v00 out in
  let? out := write_at 4 v01 out in
  let? out := write_at 8 v02 out in
  let? out := write_at 12 v03 out in
  let? out := write_at 16 v12 out in
  let? out := write_at 20 v13 out in
  let? out := write_at 24 v14 out in
  let? out := write_at 28 v15 out in
  Ok out.

Context {A : Aead}.

(** The lengths checked by `encrypt` and `decrypt`, and the derived key and
    nonce. *)
Definition derive (key nonce input output : bytes) : res (bytes * bytes) :=
  let? _ := ensure (Nat.eqb (length key) 32) "wrong key len" in
  let? _ := ensure (Nat.eqb (length nonce) 24) "wrong nonce len" in
  let? _ := ensure (Nat.eqb (length output) (length input))
              "output buffer not same length and input" in
  let? nonce16 := slice 0 16 nonce in
  let? derived_key := hchacha20 key nonce16 (zeros 32) in
  let? tail := slice_from 16 nonce in
  let? derived_nonce := copy_into 4 12 tail (zeros 12) in
  Ok (derived_key, derived_nonce).

(** [encrypt]: the output buffer and the tag. *)
Definition encrypt (key nonce input aad output : bytes) : res (bytes * bytes) :=
  let? '(derived_key, derived_nonce) := derive key nonce input output in
  let? '(written, tag) := aead_encrypt derived_key derived_nonce aad input in
  Ok (overlay 0 written output, tag).

(** [decrypt]: the output buffer. *)
Definition decrypt (key nonce input aad tag output : bytes) : res bytes :=
  let? '(derived_key, derived_nonce) := derive key nonce input output in
  let? written := aead_decrypt derived_key derived_nonce aad input tag in
  Ok (overlay 0 written output).
End with_crates.
End XChaCha.

(* ------------------------------------------------------------------ *)
(** ** The reference description

    HChaCha20 as its specification gives it: a matrix of sixteen words, twenty
    rounds of quarter rounds, columns and diagonals in turn. *)
Module HChaChaSpec.

Definition rotl (x n : Z) : Z := wor (wshl x n) (wshr x (32 - n)).

Definition quarter_round (a b c d : nat) (s : list Z) : list Z :=
  let add x y s := <[x := wadd (s !!! x) (s !!! y)]> s in
  let xor_rotl x y n s := <[x := rotl (wxor (s !!! x) (s !!! y)) n]> s in
  let s := xor_rotl d a 16 (add a b s) in
  let s := xor_rotl b c 12 (add c d s) in
  let s := xor_rotl d a 8 (add a b s) in
  xor_rotl b c 7 (add c d s).

Definition column_round (s : list Z) : list Z :=
  quarter_round 3 7 11 15 (quarter_round 2 6 10 14 (quarter_round 1 5 9 13 (quarter_round 0 4 8 12 s))).
Definition diagonal_round (s : list Z) : list Z :=
  quarter_round 3 4 9 14 (quarter_round 2 7 8 13 (quarter_round 1 6 11 12 (quarter_round 0 5 10 15 s))).

Definition sigma : list Z := [1634760805; 857760878; 2036477234; 1797285236].

(** The 32-bit words of a byte string. *)
Definition words (n : nat) (b : bytes) : list Z :=
  (fun i => le_combine (take 4 (drop (4 * i) b))) <$> seq 0 n.

Definition hchacha20 (key nonce : bytes) : bytes :=
  let s := Nat.iter 10 (fun s => diagonal_round (column_round s)) (sigma ++ words 8 key ++ words 4 nonce) in
  mjoin (le_split 4 <$> (take 4 s ++ drop 12 s)).

End HChaChaSpec.

(* ------------------------------------------------------------------ *)
(** ** The unrolled code computes the reference function *)

Section hchacha.
Import XChaCha.

Definition vars_list (v : vars) : list Z :=
  let '(v00, v01, v02, v03, v04, v05, v06, v07, v08, v09, v10, v11, v12, v13, v14, v15) := v in
  [v00; v01; v02; v03; v04; v05; v06; v07; v08; v09; v10; v11; v12; v13; v14; v15].

(** A quarter round on four words. *)
Definition qr (a b c d : Z) : Z * Z * Z * Z :=
  let a := wadd a b in let d := wxor d a in let d := wor (wshl d 16) (wshr d 16) in
  let c := wadd c d in let b := wxor b c in let b := wor (wshl b 12) (wshr b 20) in
  let a := wadd a b in let d := wxor d a in let d := wor (wshl d 8) (wshr d 24) in
  let c := wadd c d in let b := wxor b c in let b := wor (wshl b 7) (wshr b 25) in
  (a, b, c, d).

(** The loop body, eight quarter rounds. *)
Definition loop_qr (v : vars) : vars :=
  let '(v00, v01, v02, v03, v04, v05, v06, v07, v08, v09, v10, v11, v12, v13, v14, v15) := v in
  let '(v00, v04, v08, v12) := qr v00 v04 v08 v12 in
  let '(v01, v05, v09, v13) := qr v01 v05 v09 v13 in
  let '(v02, v06, v10, v14) := qr v02 v06 v10 v14 in
  let '(v03, v07, v11, v15) := qr v03 v07 v11 v15 in
  let '(v00, v05, v10, v15) := qr v00 v05 v10 v15 in
  let '(v01, v06, v11, v12) := qr v01 v06 v11 v12 in
  let '(v02, v07, v08, v13) := qr v02 v07 v08 v13 in
  let '(v03, v04, v09, v14) := qr v03 v04 v09 v14 in
  (v00, v01, v02, v03, v04, v05, v06, v07, v08, v09, v10, v11, v12, v13, v14, v15).

Lemma loop_body_qr v : loop_body v = loop_qr v.
Proof. destruct v as (((((((((((((((?&?)&?)&?)&?)&?)&?)&?)&?)&?)&?)&?)&?)&?)&?)&?). reflexivity. Qed.

Lemma quarter_round_qr a b c d (s : list Z) :
  NoDup [a; b; c; d] → Forall (fun i => (i < length s)%nat) [a; b; c; d] →
  HChaChaSpec.quarter_round a b c d s =
    let '(a', b', c', d') := qr (s !!! a) (s !!! b) (s !!! c) (s !!! d) in
    <[a := a']> (<[b := b']> (<[c := c']> (<[d := d']> s))).
Proof.
  intros Hnd Hlen. rewrite !Forall_cons in Hlen. destruct Hlen as (Ha & Hb & Hc & Hd & _).
  rewrite !NoDup_cons, !not_elem_of_cons in Hnd.
  destruct Hnd as ((Hab & Hac & Had & _) & (Hbc & Hbd & _) & (Hcd & _) & _).
  unfold HChaChaSpec.quarter_round, qr. cbv zeta.
  repeat (first [ rewrite list_lookup_total_insert_eq by (rewrite ?length_insert; done)
                | rewrite list_lookup_total_insert_ne by done ]).
  apply list_eq. intros i. rewrite !list_lookup_insert, !length_insert.
  repeat (case_decide; destruct_and?; subst; try done); naive_solver.
Qed.

(** Runs the innermost quarter round of the goal, on a list of sixteen words. *)
Ltac quarter_step :=
  match goal with
  | |- context [HChaChaSpec.quarter_round ?a ?b ?c ?d (?x :: ?l)] =>
      rewrite (quarter_round_qr a b c d (x :: l));
        [ cbv [lookup_total list_lookup_total]; destruct (qr _ _ _ _) as [[[? ?] ?] ?];
          cbn [insert list_insert]
        | by_decide | by_decide ]
  end.

Lemma loop_body_double_round v :
  vars_list (loop_body v) = HChaChaSpec.diagonal_round (HChaChaSpec.column_round (vars_list v)).
Proof.
  rewrite loop_body_qr.
  destruct v as (((((((((((((((?&?)&?)&?)&?)&?)&?)&?)&?)&?)&?)&?)&?)&?)&?)&?).
  cbn [loop_qr vars_list]. unfold HChaChaSpec.diagonal_round, HChaChaSpec.column_round.
  do 8 quarter_step. reflexivity.
Qed.

(** From [i = 20 - 2n] the loop makes [n] passes and then stops: eleven units
    of fuel cover the run from zero. *)
Lemma rounds_iter n : ∀ i v,
  i = 20 - 2 * Z.of_nat n →
  vars_list (rounds (S n) i v)
  = Nat.iter n (fun s => HChaChaSpec.diagonal_round (HChaChaSpec.column_round s)) (vars_list v).
Proof.
  induction n as [|n IH]; intros i v ->; [done|].
  change (rounds (S (S n)) ?i v)
    with (if i <? 20 then rounds (S n) (i + 2) (loop_body v) else v).
  rewrite (proj2 (Z.ltb_lt _ _)) by lia.
  by rewrite IH, loop_body_double_round, Nat.iter_succ_r by lia.
Qed.

(** ** Words stay words *)
Lemma lor_u32 a b : is_u32 a → is_u32 b → is_u32 (Z.lor a b).
Proof.
  unfold is_u32. intros Ha Hb. split; [apply Z.lor_nonneg; lia|].
  destruct (decide (Z.lor a b = 0)) as [->|Hne]; [lia|].
  assert (0 ≤ Z.lor a b) by (apply Z.lor_nonneg; lia).
  apply Z.log2_lt_pow2; [lia|]. rewrite Z.log2_lor by lia.
  assert (∀ z, 0 ≤ z < 2 ^ 32 → Z.log2 z < 32) as Hlog.
  { intros z Hz. destruct (decide (z = 0)) as [->|]; [done|]. apply Z.log2_lt_pow2; lia. }
  pose proof (Hlog a Ha). pose proof (Hlog b Hb). lia.
Qed.

Lemma rotl_u32 x n : is_u32 x → 0 ≤ n ≤ 32 → is_u32 (HChaChaSpec.rotl x n).
Proof.
  intros [H0 H1] Hn. apply lor_u32; [apply wrap32_u32|].
  unfold wshr. rewrite Z.shiftr_div_pow2 by lia. unfold is_u32.
  split; [apply Z.div_pos; [lia|apply Z.pow_pos_nonneg; lia]|].
  apply Z.div_lt_upper_bound; [apply Z.pow_pos_nonneg; lia|].
  assert (1 ≤ 2 ^ (32 - n)) by (apply (Z.pow_le_mono_r 2 0); lia). nia.
Qed.

Lemma lxor_u32 a b : is_u32 a → is_u32 b → is_u32 (Z.lxor a b).
Proof.
  unfold is_u32. intros Ha Hb. assert (0 ≤ Z.lxor a b) by (apply Z.lxor_nonneg; lia).
  split; [done|]. pose proof (lor_u32 a b Ha Hb) as [_ Hlor].
  eapply Z.le_lt_trans; [|exact Hlor]. apply Z.ldiff_le; [apply Z.lor_nonneg; lia|].
  apply Z.bits_inj'. intros n _. rewrite Z.ldiff_spec, Z.lxor_spec, Z.lor_spec, Z.bits_0.
  by destruct (Z.testbit a n), (Z.testbit b n).
Qed.

Lemma quarter_round_u32 a b c d s :
  Forall is_u32 s → Forall is_u32 (HChaChaSpec.quarter_round a b c d s).
Proof.
  assert (∀ (x : nat) s, Forall is_u32 s → is_u32 (s !!! x)) as Hget.
  { intros x l Hl. destruct (decide (x < length l)%nat).
    - by eapply Forall_lookup_total_1.
    - rewrite list_lookup_total_alt, lookup_ge_None_2 by lia. unfold is_u32. simpl. lia. }
  assert (∀ (x : nat) v l, Forall is_u32 l → is_u32 v → Forall is_u32 (<[x := v]> l))
    as Hset by (intros; by apply Forall_insert).
  intros Hs. unfold HChaChaSpec.quarter_round. cbv zeta.
  repeat match goal with
    | |- Forall is_u32 (<[_ := _]> _) => apply Hset
    | |- is_u32 (wadd _ _) => apply wrap32_u32
    | |- is_u32 (HChaChaSpec.rotl _ _) => apply rotl_u32; [|lia]
    | |- is_u32 (wxor _ _) => apply lxor_u32
    | |- is_u32 (_ !!! _) => apply Hget
    end; done.
Qed.
End hchacha.

Section hchacha_correct.
Import XChaCha.
Context {BO : ByteOrder} {BOL : ByteOrderLaws BO}.

(** A run of [write_at] at consecutive offsets. *)
Fixpoint write_words (lo : nat) (ws : list Z) (out : bytes) : res bytes :=
  match ws with
  | [] => Ok out
  | w :: ws' => let? out := write_at lo w out in write_words (lo + 4) ws' out
  end.

Lemma write_words_ok ws : ∀ lo out,
  Forall is_u32 ws → (lo + 4 * length ws ≤ length out)%nat →
  write_words lo ws out
  = Ok (take lo out ++ mjoin (le_split 4 <$> ws) ++ drop (lo + 4 * length ws) out).
Proof.
  induction ws as [|w ws IH]; intros lo out Hws Hlen; simpl in Hlen.
  { simpl. by rewrite Nat.add_0_r, take_drop. }
  apply Forall_cons in Hws as [Hw Hws]. cbn [write_words]. unfold write_at, with_slice_from.
  rewrite (with_slice_write _ _ _ (le_split 4 w)); autorewrite with wg_len; [|lia|done|].
  2: { intros s Hs. apply le_write_u32_ok; [done|lia]. }
  cbn [bind_res]. rewrite IH by (done || rewrite length_overlay; autorewrite with wg_len; lia).
  f_equal. unfold overlay. autorewrite with wg_len. rewrite !(app_assoc (take lo out) (le_split 4 w)).
  rewrite take_app_length' by (rewrite length_app, length_take, length_le_split; lia).
  rewrite drop_app_ge by (rewrite length_app, length_take, length_le_split; lia).
  rewrite drop_drop, length_app, length_take, length_le_split.
  change (mjoin (le_split 4 <$> w :: ws)) with (le_split 4 w ++ mjoin (le_split 4 <$> ws)).
  rewrite <-!app_assoc. cbn [length]. do 4 f_equal. lia.
Qed.

Lemma read_at_ok lo b :
  (lo + 4 ≤ length b)%nat → read_at lo b = Ok (le_combine (take 4 (drop lo b))).
Proof.
  intros. unfold read_at. rewrite slice_from_Ok by lia. simpl.
  apply le_read_u32_ok. rewrite length_drop. lia.
Qed.

Lemma words_u32 n b : is_bytes b → Forall is_u32 (HChaChaSpec.words n b).
Proof.
  intros Hb. apply Forall_fmap, Forall_forall. intros i _.
  change (is_u32 (le_combine (take 4 (drop (4 * i) b)))).
  assert (is_bytes (take 4 (drop (4 * i) b))) as Hs by by apply Forall_take, Forall_drop.
  pose proof (le_combine_bound _ Hs) as Hbd. rewrite length_take in Hbd. unfold is_u32.
  split; [lia|]. eapply Z.lt_le_trans; [apply Hbd|].
  change (2 ^ 32) with (256 ^ 4). apply Z.pow_le_mono_r; lia.
Qed.

Lemma double_round_u32 s :
  Forall is_u32 s → Forall is_u32 (HChaChaSpec.diagonal_round (HChaChaSpec.column_round s)).
Proof.
  intros Hs. unfold HChaChaSpec.diagonal_round, HChaChaSpec.column_round.
  do 8 apply quarter_round_u32. exact Hs.
Qed.

Lemma iter_u32 n (s : list Z) :
  Forall is_u32 s →
  Forall is_u32 (Nat.iter n (fun s => HChaChaSpec.diagonal_round (HChaChaSpec.column_round s)) s).
Proof.
  intros Hs. induction n as [|n IH]; [exact Hs|]. rewrite Nat.iter_succ.
  by apply double_round_u32.
Qed.

Lemma Forall_ends (l : list Z) : Forall is_u32 l → Forall is_u32 (take 4 l ++ drop 12 l).
Proof. intros. apply Forall_app; split; [by apply Forall_take|by apply Forall_drop]. Qed.

(** The value of the unrolled rounds. *)
Lemma hchacha20_value key nonce out :
  is_bytes key → is_bytes nonce →
  length key = 32%nat → length nonce = 16%nat → length out = 32%nat →
  hchacha20 key nonce out = Ok (HChaChaSpec.hchacha20 key nonce).
Proof.
  intros Hk Hn Lk Ln Lo. unfold hchacha20. rewrite !read_at_ok by lia. cbn [bind_res].
  match goal with |- context [rounds 11 0 ?v] =>
    pose proof (rounds_iter 10 0 v eq_refl) as Hr;
    change (vars_list v) with (HChaChaSpec.sigma ++ HChaChaSpec.words 8 key ++ HChaChaSpec.words 4 nonce) in Hr;
    destruct (rounds 11 0 v) as (((((((((((((((v00&v01)&v02)&v03)&?)&?)&?)&?)&?)&?)&?)&?)&v12)&v13)&v14)&v15)
  end.
  unfold HChaChaSpec.hchacha20. rewrite <-Hr.
  assert (Forall is_u32 [v00; v01; v02; v03; v12; v13; v14; v15]) as Hws.
  { assert (Forall is_u32 (HChaChaSpec.sigma ++ HChaChaSpec.words 8 key ++ HChaChaSpec.words 4 nonce)) as Hall.
    { apply Forall_app; split; [by repeat constructor|]. apply Forall_app; split; by apply words_u32. }
    apply (iter_u32 10) in Hall. rewrite <-Hr in Hall. cbn [vars_list] in Hall.
    exact (Forall_ends _ Hall). }
  clear Hr. transitivity (write_words 0 [v00; v01; v02; v03; v12; v13; v14; v15] out); [reflexivity|].
  rewrite write_words_ok by (done || (rewrite Lo; simpl; lia)). f_equal.
  rewrite drop_ge by (rewrite Lo; simpl; lia). by rewrite app_nil_r.
Qed.

(** C36.  The unrolled `hchacha20` is HChaCha20: for a 32-byte key, a 16-byte
    nonce and a 32-byte output buffer it terminates without a panic and fills
    the buffer with the value of the quarter-round description. *)
Theorem hchacha20_correct key nonce out :
  is_bytes key → is_bytes nonce →
  length key = 32%nat → length nonce = 16%nat → length out = 32%nat →
  hchacha20 key nonce out = Ok (HChaChaSpec.hchacha20 key nonce).
Proof. apply hchacha20_value. Qed.
End hchacha_correct.

(* ------------------------------------------------------------------ *)
(** ** Authenticated encryption *)

Section sealed.
Import XChaCha.
Context {BO : ByteOrder} {BOL : ByteOrderLaws BO} {A : Aead} {AL : AeadLaws A}.

Lemma length_hchacha20_spec key nonce : length (HChaChaSpec.hchacha20 key nonce) = 32%nat.
Proof.
  unfold HChaChaSpec.hchacha20. cbv zeta.
  assert (∀ s : list Z, length s = 16%nat →
            length (mjoin (le_split 4 <$> (take 4 s ++ drop 12 s))) = 32%nat) as Hj.
  { intros s Hs. do 16 (destruct s as [|? s]; [done|]). by destruct s. }
  apply Hj. assert (∀ a b c d s, length (HChaChaSpec.quarter_round a b c d s) = length s) as Hq.
  { intros. unfold HChaChaSpec.quarter_round. cbv zeta. by rewrite !length_insert. }
  assert (∀ n (s : list Z), length (Nat.iter n (fun s => HChaChaSpec.diagonal_round
            (HChaChaSpec.column_round s)) s) = length s) as Hi; [|rewrite Hi; reflexivity].
  intros n s. induction n as [|n IH]; [reflexivity|]. rewrite Nat.iter_succ.
  unfold HChaChaSpec.diagonal_round at 1, HChaChaSpec.column_round at 1. by rewrite !Hq.
Qed.

(** The key and nonce the AEAD is called with. *)
Lemma derive_ok key nonce input output :
  is_bytes key → is_bytes nonce → length key = 32%nat → length nonce = 24%nat →
  length output = length input →
  derive key nonce input output
  = Ok (HChaChaSpec.hchacha20 key (take 16 nonce), zeros 4 ++ drop 16 nonce).
Proof.
  intros Hk Hn Lk Ln Lo. unfold derive. rewrite Lk, Ln, Lo, !Nat.eqb_refl. cbn [ensure bind_res].
  rewrite slice_Ok by lia. cbn [bind_res]. rewrite drop_0, Nat.sub_0_r.
  rewrite hchacha20_value; [|done|by apply Forall_take|done|rewrite length_take; lia|done].
  cbn [bind_res]. rewrite slice_from_Ok by lia. cbn [bind_res].
  rewrite copy_into_Ok by (rewrite ?length_drop, ?length_zeros; lia). cbn [bind_res]. do 2 f_equal.
  unfold overlay. rewrite (drop_ge (zeros 12)) by (rewrite length_drop, length_zeros; lia).
  by rewrite app_nil_r.
Qed.

(** Sealing, then opening. *)
Lemma seal_open key nonce input aad output output' :
  is_bytes key → is_bytes nonce → length key = 32%nat → length nonce = 24%nat →
  length output = length input → length output' = length input →
  ∃ ct tag, encrypt key nonce input aad output = Ok (ct, tag) ∧
            length ct = length input ∧ length tag = 16%nat ∧
            decrypt key nonce ct aad tag output' = Ok input.
Proof.
  intros Hk Hn Lk Ln Lo Lo'. unfold encrypt. rewrite derive_ok by done. cbn [bind_res].
  destruct (aead_encrypt_ok (HChaChaSpec.hchacha20 key (take 16 nonce))
              (zeros 4 ++ drop 16 nonce) aad input) as (ct & tag & He & Lc & Lt).
  { apply length_hchacha20_spec. }
  { rewrite length_app, length_drop, length_zeros. lia. }
  rewrite He. cbn [bind_res]. exists ct, tag.
  assert (∀ d o : bytes, length o = length d → overlay 0 d o = d) as Hov.
  { intros d o Hl. unfold overlay. rewrite take_0, drop_ge by (simpl; lia). by rewrite app_nil_r. }
  rewrite Hov by lia. split_and!; [done..|].
  unfold decrypt. rewrite derive_ok by (done || lia). cbn [bind_res].
  rewrite (aead_decrypt_encrypt _ _ _ _ _ _ He). cbn [bind_res]. by rewrite Hov by lia.
Qed.

(** Sealing and opening are inverse: for a 32-byte key and a 24-byte nonce,
    `encrypt` into a buffer of the input's length succeeds, fills the buffer,
    and `decrypt` of the result with the same associated data and the returned
    tag gives the input back. *)
Lemma xchacha_roundtrip key nonce input aad output output' :
  is_bytes key → is_bytes nonce → length key = 32%nat → length nonce = 24%nat →
  length output = length input → length output' = length input →
  ∃ ct tag, encrypt key nonce input aad output = Ok (ct, tag) ∧
            length ct = length input ∧ length tag = 16%nat ∧
            decrypt key nonce ct aad tag output' = Ok input.
Proof. apply seal_open. Qed.

(** A wrong key, nonce or buffer length is an error before any cryptography. *)
Lemma encrypt_bad_length key nonce input aad output :
  length key ≠ 32%nat ∨ length nonce ≠ 24%nat ∨ length output ≠ length input →
  is_err (encrypt key nonce input aad output) = true.
Proof.
  intros H. unfold encrypt, derive.
  destruct (Nat.eqb_spec (length key) 32); [|done].
  destruct (Nat.eqb_spec (length nonce) 24); [|done].
  destruct (Nat.eqb_spec (length output) (length input)); [|done]. naive_solver.
Qed.
End sealed.

(** The HChaCha20 test vector of the XChaCha draft. *)
Definition draft_key : bytes := seq 0 32 ≫= (fun i => [Z.of_nat i]).
Definition draft_nonce : bytes := [0; 0; 0; 9; 0; 0; 0; 74; 0; 0; 0; 0; 49; 65; 89; 39].

Example hchacha20_draft_vector :
  XChaCha.hchacha20 (BO:=refByteOrder) draft_key draft_nonce (zeros 32)
  = Ok [130; 65; 59; 66; 39; 178; 123; 254; 211; 14; 66; 80; 138; 135; 125; 115;
        160; 249; 228; 213; 138; 116; 168; 83; 193; 46; 196; 19; 38; 211; 236; 220].
Proof. vm_compute. reflexivity. Qed.

Lemma hchacha20_correct_witness :
  XChaCha.hchacha20 (BO:=refByteOrder) draft_key draft_nonce (zeros 32)
  = Ok (HChaChaSpec.hchacha20 draft_key draft_nonce).
Proof. apply hchacha20_correct; by_decide. Defined.
