(* ===== verification/RateLimiter.v ===== *)
(** * The handshake rate limiter (src/ratelimiter.rs)

    A token bucket per source address.  `allow` reads the clock twice (in
    `elapsed()` and in `Timestamp::now()`), so it takes two instants; the
    garbage collector reads it once per entry. *)

From S2P Require Import Prelude Timestamp Types.

Module RateLimiter.

Definition PACKETS_PER_SECOND : Z := 20.
Definition PACKETS_BURSTABLE : Z := 5.
Definition PACKET_COST : Z := 1000000000 / PACKETS_PER_SECOND.
Definition MAX_TOKENS : Z := PACKET_COST * PACKETS_BURSTABLE.
Definition GC_INTERVAL : Duration := duration_new 1 0.

Record Entry := mkEntry { last_time : Timestamp.t; tokens : Z }.

(** The `table` of the struct (its `rx` only carries collector ticks). *)
Definition t : Type := gmap IpAddr Entry.
Definition new : gmap IpAddr Entry := ∅.

Definition allow (now1 now2 : Instant) (addr : IpAddr) (self : gmap IpAddr Entry)
  : gmap IpAddr Entry * bool :=
  match self !! addr with
  | Some entry =>
      let tk := Z.min MAX_TOKENS
                  (wrap64 (tokens entry + subsec_nanos (Timestamp.elapsed now1 (last_time entry)))) in
      if PACKET_COST <? tk
      then (<[addr := mkEntry (Timestamp.now now2) (tk - PACKET_COST)]> self, true)
      else (<[addr := mkEntry (Timestamp.now now2) tk]> self, false)
  | None =>
      (<[addr := mkEntry (Timestamp.now now2) (MAX_TOKENS - PACKET_COST)]> self, true)
  end.

(** [clock a] is the time read when the entry of [a] is visited. *)
Definition handle_gc (clock : IpAddr → Instant) (self : gmap IpAddr Entry) : gmap IpAddr Entry :=
  filter (fun '(a, e) => Timestamp.elapsed (clock a) (last_time e) ≤ GC_INTERVAL) self.

(** `Future::poll`: one tick of the interval, if there is one, is one
    collection. *)
Definition poll (tick : bool) (clock : IpAddr → Instant) (self : gmap IpAddr Entry)
  : gmap IpAddr Entry :=
  if tick then handle_gc clock self else self.

(** The struct with the ticks that wait in its channel: every tick is sent by a
    future and a sender of its own, for which the channel always has a slot. *)
Record Limiter := mkLimiter { table : gmap IpAddr Entry; rx : nat }.

(** `new`, with an interval that has not ticked, and `_new_for_test`. *)
Definition Limiter_new : Limiter := mkLimiter new 0.
(** A tick of the interval. *)
Definition gc_tick (self : Limiter) : Limiter := mkLimiter (table self) (S (rx self)).
(** `Future::poll`: the future takes one tick from the channel. *)
Definition poll_rx (clock : IpAddr → Instant) (self : Limiter) : Limiter :=
  mkLimiter (poll (negb (Nat.eqb (rx self) 0)) clock (table self)) (pred (rx self)).

End RateLimiter.

(** A poll collects once for a tick, and leaves no entry that has not been used
    for GC_INTERVAL; without a tick it changes nothing. *)
Lemma poll_rx_collects clock self a e :
  RateLimiter.table (RateLimiter.poll_rx clock (RateLimiter.gc_tick self)) !! a = Some e →
  Timestamp.elapsed (clock a) (RateLimiter.last_time e) ≤ RateLimiter.GC_INTERVAL ∧ RateLimiter.table self !! a = Some e.
Proof. simpl. unfold RateLimiter.handle_gc. intros [? ?]%map_lookup_filter_Some. done. Qed.
Lemma poll_rx_idle clock self : RateLimiter.rx self = 0%nat → RateLimiter.poll_rx clock self = self.
Proof. destruct self as [tb n]. simpl. by intros ->. Qed.

(* ------------------------------------------------------------------ *)
(** ** Runs *)

Section rate.
Import RateLimiter.

Inductive event :=
| EvAllow (addr : IpAddr) (now1 now2 : Instant)
| EvPoll (tick : bool) (clock : IpAddr → Instant) (now : Instant).

Definition step (e : event) (self : gmap IpAddr Entry) : gmap IpAddr Entry * option (IpAddr * bool) :=
  match e with
  | EvAllow addr now1 now2 =>
      let '(self', ok) := allow now1 now2 addr self in (self', Some (addr, ok))
  | EvPoll tick clock _ => (poll tick clock self, None)
  end.

(** How many packets of [a] a run lets through. *)
Fixpoint allowed (a : IpAddr) (evs : list event) (self : gmap IpAddr Entry) : Z :=
  match evs with
  | [] => 0
  | e :: evs' =>
      let '(self', r) := step e self in
      (if bool_decide (r = Some (a, true)) then 1 else 0) + allowed a evs' self'
  end.

(** The clock never goes back: the readings of a run start at [t0] and end
    before [t1]. *)
Fixpoint ordered (t0 : Instant) (evs : list event) (t1 : Instant) : Prop :=
  match evs with
  | [] => t0 ≤ t1
  | EvAllow _ n1 n2 :: evs' => t0 ≤ n1 ≤ n2 ∧ ordered n2 evs' t1
  | EvPoll _ clock n :: evs' => (∀ a, t0 ≤ clock a ≤ n) ∧ t0 ≤ n ∧ ordered n evs' t1
  end.

(** ** The bucket of one address *)

(** Entries are stamped in the past and hold at most [MAX_TOKENS]. *)
Definition entry_wf (t : Instant) (e : Entry) : Prop :=
  0 ≤ tokens e ≤ MAX_TOKENS ∧ ∃ l, last_time e = Some l ∧ l ≤ t.
Definition table_wf (t : Instant) (self : gmap IpAddr Entry) : Prop :=
  map_Forall (fun _ e => entry_wf t e) self.

(** What the address may still spend at time [t]. *)
Definition budget (t : Instant) (a : IpAddr) (self : gmap IpAddr Entry) : Z :=
  match self !! a with
  | Some e => Z.min MAX_TOKENS (tokens e + Timestamp.elapsed t (last_time e))
  | None => MAX_TOKENS
  end.

(** The constants by their values, for linear arithmetic. *)
Ltac rate_lia :=
  change MAX_TOKENS with 250000000 in *; change PACKET_COST with 50000000 in *;
  change GC_INTERVAL with 1000000000 in *; unfold NANOS, is_u64 in *; lia.

Lemma subsec_le d : 0 ≤ d → 0 ≤ subsec_nanos d ≤ d.
Proof.
  intros. unfold subsec_nanos. split; [apply Z.mod_pos_bound; done|]. apply Z.mod_le; done.
Qed.

Lemma subsec_lt d : 0 ≤ subsec_nanos d < NANOS.
Proof. apply Z.mod_pos_bound. done. Qed.

Lemma budget_bounds t a self : table_wf t self → 0 ≤ budget t a self ≤ MAX_TOKENS.
Proof.
  intros Hwf. unfold budget. destruct (self !! a) as [e|] eqn:E; [|done].
  destruct (Hwf _ _ E) as (Ht & l & -> & Hl). simpl. rate_lia.
Qed.

Lemma budget_time t t' a self : t ≤ t' → budget t' a self ≤ budget t a self + (t' - t).
Proof. intros. unfold budget, Timestamp.elapsed. repeat case_match; lia. Qed.

Lemma table_wf_time t t' self : t ≤ t' → table_wf t self → table_wf t' self.
Proof.
  intros Ht Hwf a e E. destruct (Hwf _ _ E) as (? & l & ? & ?). split; [done|]. exists l. split; [done|lia].
Qed.

(** The tokens after a refill, and that the sum does not wrap. *)
Lemma refill_bounds t e :
  entry_wf t e →
  let tk := Z.min MAX_TOKENS
              (wrap64 (tokens e + subsec_nanos (Timestamp.elapsed t (last_time e)))) in
  0 ≤ tk ≤ MAX_TOKENS ∧ tk ≤ Z.min MAX_TOKENS (tokens e + Timestamp.elapsed t (last_time e)).
Proof.
  intros (Htk & l & -> & Hl). simpl. pose proof (subsec_lt (t - l)) as Hs.
  pose proof (subsec_le (t - l)).
  rewrite wrap64_id by rate_lia. rate_lia.
Qed.

Lemma allow_wf n1 n2 addr self :
  n1 ≤ n2 → table_wf n1 self → table_wf n2 (allow n1 n2 addr self).1.
Proof.
  intros Hn Hwf. pose proof (table_wf_time _ _ _ Hn Hwf) as Hwf2. unfold allow.
  destruct (self !! addr) as [e|] eqn:E.
  - destruct (refill_bounds n1 e (Hwf _ _ E)) as [Hb _].
    case_match eqn:Hc; apply map_Forall_insert_2; try done; split; simpl;
      try (eexists; split; [done|lia]); [apply Z.ltb_lt in Hc|]; rate_lia.
  - apply map_Forall_insert_2; [|done]. split; [done|]. eexists; split; [done|lia].
Qed.

Lemma poll_wf tick clock t self : table_wf t self → table_wf t (poll tick clock self).
Proof.
  intros Hwf. destruct tick; [|done]. intros a e [E _]%map_lookup_filter_Some. by apply (Hwf a).
Qed.

(** One call spends at most what it is allowed, and a collection takes away
    only buckets that are full. *)
Lemma allow_budget n1 n2 addr self a :
  n1 ≤ n2 → table_wf n1 self →
  budget n2 a (allow n1 n2 addr self).1
    + (if bool_decide (Some (addr, (allow n1 n2 addr self).2) = Some (a, true)) then PACKET_COST else 0)
  ≤ budget n1 a self + (n2 - n1).
Proof.
  intros Hn Hwf. destruct (decide (addr = a)) as [->|Hne].
  - unfold allow. destruct (self !! a) as [e|] eqn:E.
    + destruct (refill_bounds n1 e (Hwf _ _ E)) as [Hb Hb'].
      unfold budget. rewrite E. destruct (PACKET_COST <? _) eqn:Hc; cbn [fst snd];
        rewrite lookup_insert_eq; simpl; case_bool_decide; simplify_eq; rate_lia.
    + unfold budget. cbn [fst snd]. rewrite lookup_insert_eq, E. simpl. rewrite bool_decide_eq_true_2 by done.
      rate_lia.
  - rewrite bool_decide_eq_false_2 by naive_solver.
    assert (budget n2 a (allow n1 n2 addr self).1 = budget n2 a self) as ->.
    { unfold allow, budget. repeat case_match; simplify_map_eq; done. }
    pose proof (budget_time n1 n2 a self). lia.
Qed.

Lemma poll_budget tick clock n t a self :
  t ≤ clock a ≤ n → table_wf t self → budget n a (poll tick clock self) ≤ budget t a self + (n - t).
Proof.
  intros Hc Hwf. pose proof (budget_time t n a self ltac:(lia)) as Ht. destruct tick; [|done]. simpl.
  unfold budget at 1, handle_gc. rewrite map_lookup_filter.
  destruct (self !! a) as [e|] eqn:E; simpl.
  - destruct (Hwf _ _ E) as (Htk & l & El & Hl). case_guard as Hg; simpl.
    + unfold budget in *. by rewrite E in *.
    + rewrite El in Hg. simpl in Hg. unfold budget. rewrite E, El. simpl.
      assert (GC_INTERVAL < clock a - l) as Hg' by lia. clear Hg.
      rate_lia.
  - unfold budget. rewrite E. lia.
Qed.

Lemma allowed_budget a evs : ∀ t0 t1 self,
  ordered t0 evs t1 → table_wf t0 self →
  allowed a evs self * PACKET_COST ≤ budget t0 a self + (t1 - t0).
Proof.
  induction evs as [|[addr n1 n2|tick clock n] evs IH]; intros t0 t1 self Hord Hwf; simpl in *.
  - pose proof (budget_bounds t0 a self Hwf). lia.
  - destruct Hord as [Hn Hord]. pose proof (table_wf_time t0 n1 self ltac:(lia) Hwf) as Hwf1.
    pose proof (allow_budget n1 n2 addr self a ltac:(lia) Hwf1) as Hb.
    pose proof (budget_time t0 n1 a self ltac:(lia)).
    pose proof (allow_wf n1 n2 addr self ltac:(lia) Hwf1) as Hwf2.
    destruct (allow n1 n2 addr self) as [self' ok]. simpl in *.
    specialize (IH n2 t1 self' Hord Hwf2). case_bool_decide; lia.
  - destruct Hord as (Hc & Hn & Hord).
    pose proof (poll_budget tick clock n t0 a self (Hc a) Hwf).
    pose proof (poll_wf tick clock t0 self Hwf) as Hwf1.
    specialize (IH n t1 _ Hord (table_wf_time _ _ _ Hn Hwf1)). lia.
Qed.

(** C34.  The rate bound: over any run of `allow` and collector polls that
    starts with an empty table at [t0] and ends by [t1], whatever the other
    addresses do, at most `PACKETS_BURSTABLE` packets plus one for every
    1/20 s of the interval are let through for an address. *)
Theorem rate_limiter_bound a evs t0 t1 :
  ordered t0 evs t1 →
  allowed a evs new * PACKET_COST ≤ PACKETS_BURSTABLE * PACKET_COST + (t1 - t0).
Proof.
  intros Hord. pose proof (allowed_budget a evs t0 t1 new Hord) as H.
  unfold budget, new in *. rewrite lookup_empty in H. change (PACKETS_BURSTABLE * PACKET_COST) with MAX_TOKENS.
  apply H, map_Forall_empty.
Qed.

(** Addresses do not share buckets, and the first packet of an address
    that has no bucket is always let through: `allow` leaves the entry of every
    other address as it was, and stamps the entry of the address with the time
    of the call. *)
Lemma rate_limiter_isolation n1 n2 addr self :
  (∀ a, a ≠ addr → (allow n1 n2 addr self).1 !! a = self !! a) ∧
  (self !! addr = None → (allow n1 n2 addr self).2 = true) ∧
  ∃ tk, (allow n1 n2 addr self).1 !! addr = Some (mkEntry (Some n2) tk) ∧
        (table_wf n1 self → 0 ≤ tk ≤ MAX_TOKENS).
Proof.
  unfold allow. split_and!.
  - intros a Ha. repeat case_match; by simplify_map_eq.
  - by intros ->.
  - destruct (self !! addr) as [e|] eqn:E.
    + case_match eqn:Hc; simpl; rewrite lookup_insert_eq; eexists; (split; [done|]);
        intros Hwf; destruct (refill_bounds n1 e (Hwf _ _ E)) as [Hb _];
        [apply Z.ltb_lt in Hc|]; rate_lia.
    + simpl. rewrite lookup_insert_eq. by eexists.
Qed.

(** Whole seconds of waiting earn nothing: the refill adds
    `elapsed().subsec_nanos()`, so an address whose bucket is spent is refused
    after waiting any whole number of seconds, although one second is worth
    twenty packets. *)
Lemma rate_limiter_whole_seconds addr self l tk k n2 :
  self !! addr = Some (mkEntry (Some l) tk) → 0 ≤ tk ≤ PACKET_COST → 0 ≤ k →
  (allow (l + secs k) n2 addr self).2 = false.
Proof.
  intros E Htk Hk. unfold allow. rewrite E. simpl.
  replace (l + secs k - l) with (k * NANOS) by (unfold secs; lia).
  unfold subsec_nanos. rewrite Z.mod_mul by done. rewrite Z.add_0_r.
  rewrite wrap64_id by rate_lia.
  rewrite (proj2 (Z.ltb_ge _ _)); [done|]. lia.
Qed.
End rate.

Lemma rate_limiter_bound_witness :
  let a := IpV4 2130706433 in
  let evs := (fun i => EvAllow a (10 * Z.of_nat i) (10 * Z.of_nat i + 1)) <$> seq 0 8 in
  allowed a evs RateLimiter.new = 5 ∧
  allowed a evs RateLimiter.new * RateLimiter.PACKET_COST
    ≤ RateLimiter.PACKETS_BURSTABLE * RateLimiter.PACKET_COST + (100 - 0).
Proof.
  split; [vm_compute; reflexivity|].
  apply rate_limiter_bound. vm_compute. repeat split; discriminate.
Defined.

Lemma rate_limiter_whole_seconds_instance :
  (RateLimiter.allow (7 + secs 3600) (8 + secs 3600) (IpV4 1)
     {[ IpV4 1 := RateLimiter.mkEntry (Some 7) 0 ]}).2 = false.
Proof.
  apply (rate_limiter_whole_seconds (IpV4 1) _ 7 0 3600); [apply lookup_singleton_eq|done|done].
Qed.
