(* ===== verification/Cookie.v ===== *)
(** * MACs and cookies (src/cookie.rs)

    [Validator] is the side of the interface's own public key: it checks the
    first MAC, checks the second one against a secret it refreshes, and seals
    cookie replies.  [Generator] is the side of a peer's public key: it builds
    both MACs and opens cookie replies.  The clock and the random bytes of a
    call are arguments. *)

From S2P Require Import Prelude Crates Reference Timestamp Types Message XChaCha.

(** `is_secret_valid(t)` at time [now]. *)
Definition is_secret_valid (now : Instant) (secret_time : option Instant) : bool :=
  match secret_time with
  | Some time => now - time <=? COOKIE_REFRESH_TIME
  | None => false
  end.

Section keys.
Context {B : Blake2}.
Definition mac1_key_of (pub_key : bytes) : bytes := blake2s 32 [] (str_bytes "mac1----" ++ pub_key).
Definition mac2_key_of (pub_key : bytes) : bytes := blake2s 32 [] (str_bytes "cookie--" ++ pub_key).
End keys.

Module Validator.
(** `Validator`, with the fields of its `ValidatorMac2`. *)
Record t := mk {
  mac1_key : bytes;
  mac2_secret : bytes;
  mac2_secret_time : option Instant;
  mac2_key : bytes;
}.

Section with_crates.
Context {B : Blake2} {S : Subtle}.

Definition new (pub_key : bytes) : t := {|
  mac1_key := mac1_key_of pub_key;
  mac2_secret := zeros 16;
  mac2_secret_time := None;
  mac2_key := mac2_key_of pub_key;
|}.

Definition verify_mac1 (self : t) (mac_input mac : bytes) : res unit :=
  if negb (Nat.eqb (length mac) 16) then Panic "debug_assert!(mac.len() == 16)"
  else
    let our_mac := blake2s 16 (mac1_key self) mac_input in
    ensure (ct_eq mac our_mac =? 1) "mac mismatch".

Definition verify_mac2 (now : Instant) (self : t) (message source : bytes) : res unit :=
  let? secret_time := ok_or (mac2_secret_time self) "no mac2 secret time set" in
  let? _ := ensure (now - secret_time <=? COOKIE_REFRESH_TIME) "secret is too old" in
  if (length message <? 16)%nat then Panic "message.len()-16"
  else
    let cookie := blake2s 16 (mac2_secret self) source in
    let? body := slice 0 (length message - 16) message in
    let our_mac2 := blake2s 16 cookie body in
    let? thr_mac2 := slice_from (length message - 16) message in
    if negb (ct_eq our_mac2 thr_mac2 =? 1) then Err "mac mismatch" else Ok tt.

Context {BO : ByteOrder} {A : Aead}.

(** [rand_secret] and [rand_nonce] are the bytes the generator would draw. *)
Definition generate_reply (now : Instant) (rand_secret rand_nonce : bytes)
    (sender : Z) (mac1 source : bytes) : M t bytes := fun self =>
  match CookieReply.set_receiver_index sender CookieReply.new with
  | Ok reply =>
      let self :=
        if negb (is_secret_valid now (mac2_secret_time self))
        then {| mac1_key := mac1_key self; mac2_secret := rand_secret;
                mac2_secret_time := Some now; mac2_key := mac2_key self |}
        else self in
      let input := blake2s 16 (mac2_secret self) source in
      let sealed :=
        CookieReply.nonce_cookie_mut (fun nonce cookie =>
          let nonce := rand_nonce in
          let? out := slice 0 16 cookie in
          let? '(ct, tag) := XChaCha.encrypt (mac2_key self) nonce input mac1 out in
          let? cookie := copy_into 0 16 ct cookie in
          let? cookie := copy_into 16 (length cookie) tag cookie in
          Ok (nonce, cookie)) reply in
      (self, sealed)
  | Err e => (self, Err e)
  | Panic p => (self, Panic p)
  | Starved => (self, Starved)
  end.
End with_crates.
End Validator.

Module Generator.
(** `Generator`, with the fields of its `GeneratorMac2`. *)
Record t := mk {
  mac1_key : bytes;
  mac2_cookie : bytes;
  mac2_cookie_time : option Instant;
  mac2_last_mac1 : option bytes;
  mac2_key : bytes;
}.

Section with_crates.
Context {B : Blake2}.

Definition new (pub_key : bytes) : t := {|
  mac1_key := mac1_key_of pub_key;
  mac2_cookie := zeros 16;
  mac2_cookie_time := None;
  mac2_last_mac1 := None;
  mac2_key := mac2_key_of pub_key;
|}.

Definition build_macs (now : Instant) (input : bytes) (self : t) : t * (bytes * option bytes) :=
  let mac1 := blake2s 16 (mac1_key self) input in
  let mac2 :=
    if is_secret_valid now (mac2_cookie_time self)
    then Some (blake2s 16 (mac2_cookie self) (input ++ mac1)) else None in
  ({| mac1_key := mac1_key self; mac2_cookie := mac2_cookie self;
      mac2_cookie_time := mac2_cookie_time self; mac2_last_mac1 := Some mac1;
      mac2_key := mac2_key self |}, (mac1, mac2)).

Context {BO : ByteOrder} {A : Aead}.

Definition consume_reply (now : Instant) (reply : bytes) : M t unit := fun self =>
  let opened :=
    let? last_mac1 := ok_or (mac2_last_mac1 self) "no last mac1" in
    let? nonce := CookieReply.nonce reply in
    let? cookie := CookieReply.cookie reply in
    let? tag := CookieReply.aead_tag reply in
    XChaCha.decrypt (mac2_key self) nonce cookie last_mac1 tag (mac2_cookie self) in
  match opened with
  | Ok cookie =>
      ({| mac1_key := mac1_key self; mac2_cookie := cookie; mac2_cookie_time := Some now;
          mac2_last_mac1 := mac2_last_mac1 self; mac2_key := mac2_key self |}, Ok tt)
  | Err e => (self, Err e)
  | Panic p => (self, Panic p)
  | Starved => (self, Starved)
  end.
End with_crates.
End Generator.

(* ------------------------------------------------------------------ *)
(** ** Both sides agree *)

Section exchange.
Context {B : Blake2} {BL : Blake2Laws B} {S : Subtle} {SL : SubtleLaws S}
        {BO : ByteOrder} {BOL : ByteOrderLaws BO} {A : Aead} {AL : AeadLaws A}.

(** The keys of a validator and of a generator for the same public key. *)
Definition validator_for (pk : bytes) (v : Validator.t) : Prop :=
  Validator.mac1_key v = mac1_key_of pk ∧ Validator.mac2_key v = mac2_key_of pk ∧
  length (Validator.mac2_secret v) = 16%nat.
Definition generator_for (pk : bytes) (g : Generator.t) : Prop :=
  Generator.mac1_key g = mac1_key_of pk ∧ Generator.mac2_key g = mac2_key_of pk ∧
  length (Generator.mac2_cookie g) = 16%nat.

Lemma validator_for_new pk : validator_for pk (Validator.new pk).
Proof. done. Qed.
Lemma generator_for_new pk : generator_for pk (Generator.new pk).
Proof. done. Qed.

Lemma length_mac1_key pk : length (mac1_key_of pk) = 32%nat.
Proof. apply length_blake2s; simpl; lia. Qed.
Lemma length_mac2_key pk : length (mac2_key_of pk) = 32%nat.
Proof. apply length_blake2s; simpl; lia. Qed.

Lemma generator_for_build now input pk g :
  generator_for pk g → generator_for pk (Generator.build_macs now input g).1.
Proof. done. Qed.

(** A first MAC verifies: what a generator for a public key puts in a
    packet as MAC1 passes `verify_mac1` of the validator for that key, on the
    same bytes. *)
Lemma cookie_mac1_roundtrip pk v g now input :
  validator_for pk v → generator_for pk g →
  let '(mac1, _) := (Generator.build_macs now input g).2 in
  length mac1 = 16%nat ∧ Validator.verify_mac1 v input mac1 = Ok tt.
Proof.
  intros (Hv & _) (Hg & _). simpl. rewrite Hg.
  assert (length (blake2s 16 (mac1_key_of pk) input) = 16%nat) as Hl.
  { apply length_blake2s; [lia|]. rewrite length_mac1_key. lia. }
  split; [done|]. unfold Validator.verify_mac1. rewrite Hl, Hv. simpl.
  rewrite (proj2 (Z.eqb_eq _ _)); [done|]. by apply ct_eq_spec.
Qed.

(** The reply the validator seals, byte for byte. *)
Lemma generate_reply_ok pk v now rs rn sender mac1 source :
  validator_for pk v → is_u32 sender → length rs = 16%nat → is_bytes rn → length rn = 24%nat →
  is_bytes (mac2_key_of pk) →
  let '(v', r) := Validator.generate_reply now rs rn sender mac1 source v in
  validator_for pk v' ∧
  (∃ t, Validator.mac2_secret_time v' = Some t ∧ now - t ≤ COOKIE_REFRESH_TIME) ∧
  (is_secret_valid now (Validator.mac2_secret_time v) = true → v' = v) ∧
  ∃ ct tag, XChaCha.encrypt (mac2_key_of pk) rn
              (blake2s 16 (Validator.mac2_secret v') source) mac1 (zeros 16) = Ok (ct, tag) ∧
            length ct = 16%nat ∧ length tag = 16%nat ∧
            r = Ok ([3; 0; 0; 0] ++ le_split 4 sender ++ rn ++ ct ++ tag) ∧
            ∀ out, length out = 16%nat →
              XChaCha.decrypt (mac2_key_of pk) rn ct mac1 tag out
              = Ok (blake2s 16 (Validator.mac2_secret v') source).
Proof.
  intros (Hk1 & Hk2 & Hs) Hsend Hrs Hrnb Hrn Hkb. unfold Validator.generate_reply.
  rewrite set_receiver_index_overlay by done.
  set (v1 := if negb _ then _ else v).
  assert (validator_for pk v1) as (Hk1' & Hk2' & Hs').
  { subst v1. unfold validator_for. destruct (is_secret_valid _ _); done. }
  destruct (seal_open (mac2_key_of pk) rn (blake2s 16 (Validator.mac2_secret v1) source)
              mac1 (zeros 16) (zeros 16)) as (ct & tag & He & Hct & Htag & _);
    try done; try (rewrite ?length_mac2_key, ?length_blake2s by lia; done).
  rewrite length_blake2s in Hct by lia.
  split_and!; [done..| | |].
  - subst v1. destruct (is_secret_valid now (Validator.mac2_secret_time v)) eqn:Ev; simpl.
    + unfold is_secret_valid in Ev. destruct (Validator.mac2_secret_time v) as [t|]; [|done].
      exists t. split; [done|]. by apply Z.leb_le.
    + exists now. split; [done|]. unfold COOKIE_REFRESH_TIME, duration_new, secs, NANOS. lia.
  - intros Hv. subst v1. by rewrite Hv.
  - exists ct, tag. split_and!; [done..| |].
    + unfold CookieReply.nonce_cookie_mut. rewrite Hk2'.
      rewrite slice_Ok by (simpl; lia). cbn [bind_res].
      rewrite slice_from_Ok by (simpl; lia). cbn [bind_res].
      change (drop 32 (overlay 4 (le_split 4 sender) CookieReply.new)) with (zeros 32).
      change (slice 0 16 (zeros 32)) with (Ok (zeros 16)). cbn [bind_res]. rewrite He. cbn [bind_res].
      rewrite copy_into_Ok by (rewrite ?length_zeros; lia). cbn [bind_res].
      rewrite copy_into_Ok by (rewrite ?length_overlay, ?length_zeros; rewrite ?length_zeros; lia).
      cbn [bind_res]. f_equal.
      change (take 8 (overlay 4 (le_split 4 sender) CookieReply.new)) with ([3; 0; 0; 0] ++ le_split 4 sender).
      rewrite <-!app_assoc. do 3 f_equal. unfold overlay. rewrite take_0, Hct, Htag. simpl.
      rewrite take_app_length' by done. f_equal.
      rewrite drop_ge by (rewrite length_app, Hct; done). by rewrite app_nil_r.
    + intros out Ho. destruct (seal_open (mac2_key_of pk) rn
        (blake2s 16 (Validator.mac2_secret v1) source) mac1 (zeros 16) out)
        as (ct' & tag' & He' & _ & _ & Hd); try done;
        try (rewrite ?length_mac2_key, ?length_blake2s by lia; done).
      by rewrite He in He'; simplify_eq.
Qed.

(** A parsed cookie reply gives back the parts it was built from. *)
Lemma reply_fields sender (rn ct tag : bytes) :
  length rn = 24%nat → length ct = 16%nat → length tag = 16%nat →
  let p := [3; 0; 0; 0] ++ le_split 4 sender ++ rn ++ ct ++ tag in
  CookieReply.nonce p = Ok rn ∧ CookieReply.cookie p = Ok ct ∧ CookieReply.aead_tag p = Ok tag.
Proof.
  intros Hr Hc Ht p. assert (length p = 64%nat) as Hl.
  { subst p. rewrite !length_app, length_le_split, Hr, Hc, Ht. done. }
  unfold CookieReply.nonce, CookieReply.cookie, CookieReply.aead_tag.
  rewrite !slice_Ok by lia. subst p. split_and!; f_equal.
  - rewrite app_assoc, drop_app_length' by (rewrite length_app, length_le_split; done).
    by rewrite take_app_length' by done.
  - rewrite !app_assoc, <-(app_assoc _ ct tag).
    rewrite drop_app_length' by (rewrite !length_app, length_le_split, Hr; done).
    by rewrite take_app_length' by done.
  - rewrite !app_assoc. rewrite drop_app_length' by (rewrite !length_app, length_le_split, Hr, Hc; done).
    by rewrite take_ge by lia.
Qed.

(** C19.  The cookie exchange: when a validator answers a packet whose MAC1 was
    the generator's last one, the generator opens the reply and from then on
    builds a MAC2 that the validator accepts for messages from that source,
    until the cookie or the secret is older than `COOKIE_REFRESH_TIME`. *)
Theorem cookie_exchange pk v g mac1 source sender rs rn t_reply t_open t_build t_check input :
  validator_for pk v → generator_for pk g → Generator.mac2_last_mac1 g = Some mac1 →
  is_u32 sender → length rs = 16%nat → is_bytes rn → length rn = 24%nat →
  is_bytes (mac2_key_of pk) →
  t_open ≤ t_build ≤ t_open + COOKIE_REFRESH_TIME →
  let '(v', reply) := Validator.generate_reply t_reply rs rn sender mac1 source v in
  ∃ r, reply = Ok r ∧
       let '(g', opened) := Generator.consume_reply t_open r g in
       opened = Ok tt ∧
       let '(_, (m1, m2)) := Generator.build_macs t_build input g' in
       ∃ m2', m2 = Some m2' ∧
         (t_check - default 0 (Validator.mac2_secret_time v') ≤ COOKIE_REFRESH_TIME →
          Validator.verify_mac2 t_check v' (input ++ m1 ++ m2') source = Ok tt).
Proof.
  intros Hv Hg Hl Hs Hrs Hrb Hrn Hkb Ht.
  pose proof (generate_reply_ok pk v t_reply rs rn sender mac1 source Hv Hs Hrs Hrb Hrn Hkb) as Hr.
  destruct (Validator.generate_reply t_reply rs rn sender mac1 source v) as [v' reply].
  destruct Hr as (Hv' & (t & Et & _) & _ & ct & tag & _ & Hct & Htag & -> & Hdec).
  eexists. split; [done|]. destruct Hg as (Hg1 & Hg2 & Hg3).
  destruct (reply_fields sender rn ct tag Hrn Hct Htag) as (Hf1 & Hf2 & Hf3).
  unfold Generator.consume_reply. rewrite Hl, Hf1, Hf2, Hf3, Hg2. cbn [ok_or bind_res].
  rewrite Hdec by done. split; [done|].
  set (c := blake2s 16 (Validator.mac2_secret v') source).
  unfold Generator.build_macs, is_secret_valid. cbn [Generator.mac1_key Generator.mac2_cookie Generator.mac2_cookie_time].
  rewrite (proj2 (Z.leb_le _ _)) by lia. eexists. split; [done|]. rewrite Et. simpl. intros Hage.
  set (m1 := blake2s 16 (Generator.mac1_key g) input).
  assert (length c = 16%nat) as Hc by (apply length_blake2s; [lia|]; destruct Hv' as (_ & _ & ->); lia).
  assert (length (blake2s 16 c (input ++ m1)) = 16%nat) as Hm2 by (apply length_blake2s; lia).
  unfold Validator.verify_mac2. rewrite Et. cbn [ok_or bind_res].
  rewrite (proj2 (Z.leb_le _ _)) by lia. cbn [ensure bind_res].
  rewrite app_assoc, length_app, Hm2.
  rewrite (proj2 (Nat.ltb_ge _ _)) by lia. rewrite slice_Ok by (rewrite ?length_app; lia).
  rewrite slice_from_Ok by (rewrite ?length_app; lia). cbn [bind_res].
  rewrite drop_0, take_app_length' by lia. rewrite drop_app_length' by lia.
  subst c. rewrite (proj2 (Z.eqb_eq _ _)); [done|]. by apply ct_eq_spec.
Qed.

(** Old secrets are refused: without a secret, or past
    `COOKIE_REFRESH_TIME`, `verify_mac2` is an error whatever the message, and a
    generator whose cookie is older than that sends no MAC2; a reply the
    generator cannot open changes nothing. *)
Lemma cookie_expiry v g now message source input reply :
  (is_secret_valid now (Validator.mac2_secret_time v) = false →
   is_err (Validator.verify_mac2 now v message source) = true) ∧
  (is_secret_valid now (Generator.mac2_cookie_time g) = false →
   (Generator.build_macs now input g).2.2 = None) ∧
  (is_ok (Generator.consume_reply now reply g).2 = false →
   (Generator.consume_reply now reply g).1 = g).
Proof.
  split_and!.
  - unfold is_secret_valid, Validator.verify_mac2. destruct (Validator.mac2_secret_time v); simpl; [|done].
    by intros ->.
  - unfold Generator.build_macs. by intros ->.
  - unfold Generator.consume_reply. by case_match.
Qed.
End exchange.

Lemma cookie_exchange_witness :
  let pk := replicate 32 9 in
  let '(g, (mac1, _)) := Generator.build_macs (B:=refBlake2) 5 [7; 7] (Generator.new (B:=refBlake2) pk) in
  let '(v', reply) := Validator.generate_reply (B:=refBlake2) (BO:=refByteOrder) (A:=refAead)
                        10 (replicate 16 4) (replicate 24 6) 77 mac1 [127; 0; 0; 1]
                        (Validator.new (B:=refBlake2) pk) in
  ∃ r, reply = Ok r ∧
       let '(g', opened) := Generator.consume_reply (BO:=refByteOrder) (A:=refAead) 20 r g in
       opened = Ok tt ∧
       let '(_, (m1, m2)) := Generator.build_macs (B:=refBlake2) 30 [8; 8; 8] g' in
       ∃ m2', m2 = Some m2' ∧
         (40 - default 0 (Validator.mac2_secret_time v') ≤ COOKIE_REFRESH_TIME →
          Validator.verify_mac2 (B:=refBlake2) (S:=refSubtle) 40 v' ([8; 8; 8] ++ m1 ++ m2')
            [127; 0; 0; 1] = Ok tt).
Proof.
  apply (cookie_exchange (B:=refBlake2) (S:=refSubtle) (BO:=refByteOrder) (A:=refAead) (replicate 32 9)
           (Validator.new (B:=refBlake2) (replicate 32 9))
           (Generator.build_macs (B:=refBlake2) 5 [7; 7] (Generator.new (B:=refBlake2) (replicate 32 9))).1
           (Generator.build_macs (B:=refBlake2) 5 [7; 7] (Generator.new (B:=refBlake2) (replicate 32 9))).2.1
           [127; 0; 0; 1] 77 (replicate 16 4) (replicate 24 6) 10 20 30 40 [8; 8; 8]);
    [apply validator_for_new|apply generator_for_build, generator_for_new|reflexivity|by_decide..|].
  by vm_compute.
Defined.
