(* ===== verification/Router.v ===== *)
(** * Packets and cryptokey routing (src/ip_packet.rs, src/router.rs)

    [IpPacket] picks the IP version by the first nibble.  [Router] keeps one
    longest-prefix table per version; a peer is a reference ([peer_id]) into
    the heap of shared peers.  [Routes] is the abstract routing table it
    implements. *)

From S2P Require Import Prelude Crates Reference Types.

(** `SharedPeer`, an `Rc<RefCell<Peer>>`: the address of the cell. *)
Abbreviation peer_id := nat (only parsing).

Module IpPacket.
Inductive t := V4 (p : bytes) | V6 (p : bytes).

Section with_crates.
Context {R : Rips}.

Definition new (packet : bytes) : option t :=
  match (fun byte => Z.shiftr byte 4) <$> packet !! 0%nat with
  | Some 4 => if ipv4_valid packet then Some (V4 packet) else None
  | Some 6 => if ipv6_valid packet then Some (V6 packet) else None
  | _ => None
  end.
Definition source (self : t) : IpAddr :=
  match self with V4 p => IpV4 (ipv4_source p) | V6 p => IpV6 (ipv6_source p) end.
Definition destination (self : t) : IpAddr :=
  match self with V4 p => IpV4 (ipv4_destination p) | V6 p => IpV6 (ipv6_destination p) end.
(** `length()` is a `u16`: the sum wraps. *)
Definition length (self : t) : Z :=
  match self with V4 p => ipv4_total_length p | V6 p => wrap16 (40 + ipv6_payload_length p) end.
End with_crates.
End IpPacket.

Module Router.
Section with_crates.
Context {T : Treebitmap}.

Record t := mk { ip4_map : lut peer_id; ip6_map : lut peer_id }.

Definition default : t := mk (lut_new 32) (lut_new 128).

Definition add_allowed_ip (addr : IpAddr) (mask : Z) (peer : peer_id) (self : t) : t :=
  match addr with
  | IpV4 a => mk (lut_insert 32 a mask peer (ip4_map self)) (ip6_map self)
  | IpV6 a => mk (ip4_map self) (lut_insert 128 a mask peer (ip6_map self))
  end.

Definition add_allowed_ips (allowed_ips : list (IpAddr * Z)) (peer : peer_id) (self : t) : t :=
  foldl (fun self '(ip_addr, mask) => add_allowed_ip ip_addr mask peer self) self allowed_ips.

Definition remove_allowed_ip (addr : IpAddr) (mask : Z) (self : t) : t :=
  match addr with
  | IpV4 a => mk (lut_remove 32 a mask (ip4_map self)) (ip6_map self)
  | IpV6 a => mk (ip4_map self) (lut_remove 128 a mask (ip6_map self))
  end.

Definition remove_allowed_ips (allowed_ips : list (IpAddr * Z)) (self : t) : t :=
  foldl (fun self '(ip_addr, mask) => remove_allowed_ip ip_addr mask self) self allowed_ips.

Definition clear (self : t) : t := mk (lut_new 32) (lut_new 128).

Definition get_peer_from_ip (self : t) (ip : IpAddr) : option peer_id :=
  match ip with
  | IpV4 a => (fun '(_, _, peer) => peer) <$> lut_longest_match 32 a (ip4_map self)
  | IpV6 a => (fun '(_, _, peer) => peer) <$> lut_longest_match 128 a (ip6_map self)
  end.

Context {R : Rips}.

Definition route_to_peer (self : t) (packet : bytes) : option peer_id :=
  match IpPacket.new packet with
  | Some packet => get_peer_from_ip self (IpPacket.destination packet)
  | None => None
  end.

(** [same_peer] is `==` of the shared peers: `PartialEq for Peer` compares the
    public keys behind the references. *)
Definition validate_source (same_peer : peer_id → peer_id → bool) (self : t)
    (packet : bytes) (peer : peer_id) : res unit :=
  let? routed_peer :=
    ok_or (match IpPacket.new packet with
           | Some packet => get_peer_from_ip self (IpPacket.source packet)
           | None => None
           end) "no peer found on route" in
  ensure (same_peer routed_peer peer) "peer mismatch".
End with_crates.
End Router.

(* ------------------------------------------------------------------ *)
(** ** The abstract routing table *)

Module Routes.
Definition width (ip : IpAddr) : Z := match ip with IpV4 _ => 32 | IpV6 _ => 128 end.
Definition value (ip : IpAddr) : Z := match ip with IpV4 a => a | IpV6 a => a end.

(** A prefix: the width of the address, its leading bits, and how many. *)
Definition key (ip : IpAddr) (len : Z) : Z * (Z * Z) := (width ip, prefix_of (width ip) (value ip) len).

Abbreviation t := (gmap (Z * (Z * Z)) peer_id) (only parsing).

Definition add (allowed : list (IpAddr * Z)) (peer : peer_id) (m : t) : t :=
  foldl (fun m '(ip, len) => <[key ip len := peer]> m) m allowed.
Definition remove (allowed : list (IpAddr * Z)) (m : t) : t :=
  foldl (fun m '(ip, len) => delete (key ip len) m) m allowed.

(** The peer of the longest prefix of [ip] in the table: lengths [n], [n-1], ... *)
Fixpoint lookup_from (n : nat) (ip : IpAddr) (m : t) : option peer_id :=
  match m !! key ip (Z.of_nat n) with
  | Some p => Some p
  | None => match n with O => None | S n' => lookup_from n' ip m end
  end.
Definition lookup (ip : IpAddr) (m : t) : option peer_id := lookup_from (Z.to_nat (width ip)) ip m.

Definition valid (allowed : list (IpAddr * Z)) : Prop :=
  Forall (fun '(ip, len) => 0 ≤ len ≤ width ip) allowed.
#[export] Instance valid_dec allowed : Decision (valid allowed).
Proof. unfold valid. apply Forall_dec. intros [ip len]. apply _. Defined.
End Routes.

(** The operations of the router. *)
Inductive router_op :=
| RAdd (allowed : list (IpAddr * Z)) (peer : peer_id)
| RRemove (allowed : list (IpAddr * Z))
| RClear.

Definition router_run `{Treebitmap} (ops : list router_op) (r : Router.t) : Router.t :=
  foldl (fun r op =>
           match op with
           | RAdd allowed peer => Router.add_allowed_ips allowed peer r
           | RRemove allowed => Router.remove_allowed_ips allowed r
           | RClear => Router.clear r
           end) r ops.

Definition routes_run (ops : list router_op) (m : gmap (Z * (Z * Z)) peer_id) : gmap (Z * (Z * Z)) peer_id :=
  foldl (fun m op =>
           match op with
           | RAdd allowed peer => Routes.add allowed peer m
           | RRemove allowed => Routes.remove allowed m
           | RClear => ∅
           end) m ops.

Definition op_valid (op : router_op) : Prop :=
  match op with RAdd allowed _ | RRemove allowed => Routes.valid allowed | RClear => True end.

(* ------------------------------------------------------------------ *)
(** ** Refinement *)

Section refinement.
Context {T : Treebitmap} {TL : TreebitmapLaws T}.

(** The two tables, seen through the crate's laws, hold the entries of [m]. *)
Definition represents (r : Router.t) (m : gmap (Z * (Z * Z)) peer_id) : Prop :=
  (∀ k, lut_view 32 (Router.ip4_map r) !! k = m !! (32, k)) ∧
  (∀ k, lut_view 128 (Router.ip6_map r) !! k = m !! (128, k)).

Lemma represents_default : represents Router.default ∅.
Proof. split; intros k; simpl; by rewrite lut_view_new, !lookup_empty. Qed.

Lemma represents_add_one r m ip len p :
  0 ≤ len ≤ Routes.width ip → represents r m →
  represents (Router.add_allowed_ip ip len p r) (<[Routes.key ip len := p]> m).
Proof.
  intros Hl [H4 H6]. destruct ip as [a|a]; simpl in *; (split; intros k; simpl);
    rewrite ?lut_view_insert by done; rewrite !lookup_insert, ?H4, ?H6; unfold Routes.key; simpl;
    repeat case_decide; naive_solver.
Qed.

Lemma represents_remove_one r m ip len :
  0 ≤ len ≤ Routes.width ip → represents r m →
  represents (Router.remove_allowed_ip ip len r) (delete (Routes.key ip len) m).
Proof.
  intros Hl [H4 H6]. destruct ip as [a|a]; simpl in *; (split; intros k; simpl);
    rewrite ?lut_view_remove by done; rewrite !lookup_delete, ?H4, ?H6; unfold Routes.key; simpl;
    repeat case_decide; naive_solver.
Qed.

Lemma represents_add allowed p : ∀ r m,
  Routes.valid allowed → represents r m →
  represents (Router.add_allowed_ips allowed p r) (Routes.add allowed p m).
Proof.
  induction allowed as [|[ip len] allowed IH]; intros r m Hv Hr; [done|].
  apply Forall_cons in Hv as [Hl Hv]. apply IH; [done|]. by apply represents_add_one.
Qed.

Lemma represents_remove allowed : ∀ r m,
  Routes.valid allowed → represents r m →
  represents (Router.remove_allowed_ips allowed r) (Routes.remove allowed m).
Proof.
  induction allowed as [|[ip len] allowed IH]; intros r m Hv Hr; [done|].
  apply Forall_cons in Hv as [Hl Hv]. apply IH; [done|]. by apply represents_remove_one.
Qed.

Lemma lookup_from_some n ip m len p :
  Z.of_nat n ≤ Routes.width ip →
  0 ≤ len ≤ Z.of_nat n → m !! Routes.key ip len = Some p →
  (∀ len', len < len' ≤ Z.of_nat n → m !! Routes.key ip len' = None) →
  Routes.lookup_from n ip m = Some p.
Proof.
  intros Hw. induction n as [|n IH]; intros Hl Hp Hlong; cbn [Routes.lookup_from].
  - by replace len with (Z.of_nat 0) in Hp by lia; rewrite Hp.
  - destruct (decide (len = Z.of_nat (S n))) as [->|Hne]; [by rewrite Hp|].
    rewrite Hlong by lia. apply IH; [lia|lia|done|]. intros len' ?. apply Hlong. lia.
Qed.

Lemma routes_lookup_in ip m p : Routes.lookup ip m = Some p → ∃ k, m !! k = Some p.
Proof.
  unfold Routes.lookup. induction (Z.to_nat (Routes.width ip)) as [|n IH]; cbn [Routes.lookup_from];
    (case_match eqn:E; [intros [= <-]; eauto|]); [done|exact IH].
Qed.

Lemma lookup_from_none n ip m :
  (∀ len, 0 ≤ len ≤ Z.of_nat n → m !! Routes.key ip len = None) →
  Routes.lookup_from n ip m = None.
Proof.
  induction n as [|n IH]; intros H; cbn [Routes.lookup_from]; rewrite H by lia; [done|].
  apply IH. intros len ?. apply H. lia.
Qed.

Lemma table_lookup (tbl : lut peer_id) m ip :
  (∀ k, lut_view (Routes.width ip) tbl !! k = m !! (Routes.width ip, k)) →
  (fun '(_, _, peer) => peer) <$> lut_longest_match (Routes.width ip) (Routes.value ip) tbl
  = Routes.lookup ip m.
Proof.
  intros Hv. assert (0 ≤ Routes.width ip) by (destruct ip; done). unfold Routes.lookup. symmetry.
  destruct (lut_longest_match _ _ _) as [[[q len] p]|] eqn:E.
  - apply lut_match_some in E as (Hl & Hp & Hlong); [|done]. rewrite Hv in Hp.
    apply (lookup_from_some _ _ _ len); rewrite ?Z2Nat.id by done; [done|done|exact Hp|].
    intros len' ?. unfold Routes.key. rewrite <-Hv. by apply Hlong.
  - apply lookup_from_none. rewrite Z2Nat.id by done. intros len ?.
    unfold Routes.key. rewrite <-Hv. by eapply lut_match_none.
Qed.

Lemma represents_lookup r m ip :
  represents r m → Router.get_peer_from_ip r ip = Routes.lookup ip m.
Proof.
  intros [H4 H6]. destruct ip as [a|a]; [by apply (table_lookup _ m (IpV4 a))|].
  by apply (table_lookup _ m (IpV6 a)).
Qed.

Lemma represents_run ops : ∀ r m,
  Forall op_valid ops → represents r m → represents (router_run ops r) (routes_run ops m).
Proof.
  induction ops as [|op ops IH]; intros r m Hv Hr; [done|].
  apply Forall_cons in Hv as [Ho Hv]. apply IH; [done|]. destruct op; simpl.
  - by apply represents_add.
  - by apply represents_remove.
  - apply represents_default.
Qed.

(** C15.  The router refines the abstract table: after any sequence of
    `add_allowed_ips`, `remove_allowed_ips` and `clear` with mask lengths that
    fit the address, looking up an address gives the peer of its longest prefix
    in the table the sequence describes, IPv4 and IPv6 apart. *)
Theorem router_longest_prefix ops ip :
  Forall op_valid ops →
  Router.get_peer_from_ip (router_run ops Router.default) ip = Routes.lookup ip (routes_run ops ∅).
Proof. intros Hv. apply represents_lookup, represents_run, represents_default. done. Qed.

(** The longest prefix of [ip] in the table is [p]'s. *)
Definition owns (m : gmap (Z * (Z * Z)) peer_id) (ip : IpAddr) (p : peer_id) : Prop :=
  ∃ len, 0 ≤ len ≤ Routes.width ip ∧ m !! Routes.key ip len = Some p ∧
    ∀ len', len < len' ≤ Routes.width ip → m !! Routes.key ip len' = None.

Lemma lookup_from_owns n ip m p :
  Routes.lookup_from n ip m = Some p →
  ∃ len, 0 ≤ len ≤ Z.of_nat n ∧ m !! Routes.key ip len = Some p ∧
    ∀ len', len < len' ≤ Z.of_nat n → m !! Routes.key ip len' = None.
Proof.
  induction n as [|n IH]; cbn [Routes.lookup_from]; (case_match eqn:E; [intros [= <-]; eexists; split; [|split; [exact E|]]; lia|]); [done|].
  intros (len & Hl & Hp & Hlong)%IH. exists len. split; [lia|]. split; [done|]. intros len' Hl'.
  destruct (decide (len' = Z.of_nat (S n))) as [->|]; [done|]. apply Hlong. lia.
Qed.

Lemma routes_lookup_owns ip m p : Routes.lookup ip m = Some p ↔ owns m ip p.
Proof.
  assert (0 ≤ Routes.width ip) as Hw by (destruct ip; done). unfold Routes.lookup, owns. split.
  - intros H%lookup_from_owns. rewrite Z2Nat.id in H by done. exact H.
  - intros (len & Hl & Hp & Hlong). apply (lookup_from_some _ _ _ len); rewrite ?Z2Nat.id by done; done.
Qed.

Lemma represents_owns r m ip p : represents r m → Router.get_peer_from_ip r ip = Some p ↔ owns m ip p.
Proof. intros Hr. rewrite (represents_lookup r m) by done. apply routes_lookup_owns. Qed.
End refinement.

Lemma router_longest_prefix_witness :
  let ops := [RAdd [(IpV4 167772160, 8); (IpV6 1, 128)] 1%nat; RAdd [(IpV4 167837696, 16)] 2%nat;
              RRemove [(IpV4 0, 0)]] in
  Router.get_peer_from_ip (T:=refTreebitmap) (router_run ops Router.default) (IpV4 167837701)
    = Routes.lookup (IpV4 167837701) (routes_run ops ∅) ∧
  Routes.lookup (IpV4 167837701) (routes_run ops ∅) = Some 2%nat.
Proof.
  split; [|vm_compute; reflexivity].
  apply (router_longest_prefix (T:=refTreebitmap)). repeat constructor; simpl; lia.
Defined.
