(* ===== verification/Peer.v ===== *)
(** * Peers and sessions (src/noise.rs, src/peer.rs)

    A [Peer] holds its configuration, up to three sessions (past, current,
    next), timers, counters, the queue of packets that wait for a session and
    the cookie generator.  Every operation takes `&mut self` and is a
    computation in [M Peer]; the monotonic clock [now], the wall clock [wall]
    and the crates are arguments. *)

From S2P Require Import Prelude Crates Reference AntiReplay Types Timestamp Message XChaCha Cookie Router.

(* ------------------------------------------------------------------ *)
(** ** src/noise.rs *)
Module Noise.
Section with_crates.
Context {SN : Snow}.

Definition NOISE_PARAMS : string := "Noise_IKpsk2_25519_ChaChaPoly_BLAKE2s".

Definition new_foundation (local_privkey : bytes) : NoiseBuilder := {|
  nb_params := NOISE_PARAMS;
  nb_local_private_key := local_privkey;
  nb_prologue := "WireGuard v1 zx2c4 Jason@zx2c4.com";
  nb_remote_public_key := None;
  nb_psk := None;
|}.

Definition initiator_builder (local_privkey remote_pubkey : bytes) (psk : option bytes) : NoiseBuilder :=
  let b := new_foundation local_privkey in
  {| nb_params := nb_params b; nb_local_private_key := nb_local_private_key b;
     nb_prologue := nb_prologue b; nb_remote_public_key := Some remote_pubkey;
     nb_psk := Some (2, default (zeros 32) psk) |}.

Definition build_initiator (local_privkey remote_pubkey : bytes) (psk : option bytes) : res noise :=
  snow_build_initiator (initiator_builder local_privkey remote_pubkey psk).

Definition build_responder (local_privkey : bytes) : res noise :=
  snow_build_responder (new_foundation local_privkey).
End with_crates.
End Noise.

(* ------------------------------------------------------------------ *)
(** ** Data *)

Inductive SessionType := Past | Current | Next.
#[export] Instance SessionType_eq_dec : EqDecision SessionType.
Proof. solve_decision. Defined.

Inductive SessionTransition := NoTransition | Transition (dead : option Z).

(** `TimerHandle`: the address of the shared `canceled` flag. *)
Abbreviation TimerHandle := nat (only parsing).

(** `Timers`. *)
Record Timers := mkTimers {
  data_sent : Timestamp.t;
  data_received : Timestamp.t;
  authenticated_received : Timestamp.t;
  authenticated_traversed : Timestamp.t;
  egress_queued : Timestamp.t;
  handshake_completed : Timestamp.t;
  handshake_initialized : Timestamp.t;
  persistent_timer : option TimerHandle;
  handshake_attempts : Z;
  keepalive_sent : bool;
}.

Definition set_data_sent (v : Timestamp.t) (r : Timers) : Timers :=
  mkTimers v (data_received r) (authenticated_received r) (authenticated_traversed r) (egress_queued r) (handshake_completed r) (handshake_initialized r) (persistent_timer r) (handshake_attempts r) (keepalive_sent r).
Definition set_data_received (v : Timestamp.t) (r : Timers) : Timers :=
  mkTimers (data_sent r) v (authenticated_received r) (authenticated_traversed r) (egress_queued r) (handshake_completed r) (handshake_initialized r) (persistent_timer r) (handshake_attempts r) (keepalive_sent r).
Definition set_authenticated_received (v : Timestamp.t) (r : Timers) : Timers :=
  mkTimers (data_sent r) (data_received r) v (authenticated_traversed r) (egress_queued r) (handshake_completed r) (handshake_initialized r) (persistent_timer r) (handshake_attempts r) (keepalive_sent r).
Definition set_authenticated_traversed (v : Timestamp.t) (r : Timers) : Timers :=
  mkTimers (data_sent r) (data_received r) (authenticated_received r) v (egress_queued r) (handshake_completed r) (handshake_initialized r) (persistent_timer r) (handshake_attempts r) (keepalive_sent r).
Definition set_egress_queued (v : Timestamp.t) (r : Timers) : Timers :=
  mkTimers (data_sent r) (data_received r) (authenticated_received r) (authenticated_traversed r) v (handshake_completed r) (handshake_initialized r) (persistent_timer r) (handshake_attempts r) (keepalive_sent r).
Definition set_handshake_completed (v : Timestamp.t) (r : Timers) : Timers :=
  mkTimers (data_sent r) (data_received r) (authenticated_received r) (authenticated_traversed r) (egress_queued r) v (handshake_initialized r) (persistent_timer r) (handshake_attempts r) (keepalive_sent r).
Definition set_handshake_initialized (v : Timestamp.t) (r : Timers) : Timers :=
  mkTimers (data_sent r) (data_received r) (authenticated_received r) (authenticated_traversed r) (egress_queued r) (handshake_completed r) v (persistent_timer r) (handshake_attempts r) (keepalive_sent r).
Definition set_persistent_timer (v : option TimerHandle) (r : Timers) : Timers :=
  mkTimers (data_sent r) (data_received r) (authenticated_received r) (authenticated_traversed r) (egress_queued r) (handshake_completed r) (handshake_initialized r) v (handshake_attempts r) (keepalive_sent r).
Definition set_handshake_attempts (v : Z) (r : Timers) : Timers :=
  mkTimers (data_sent r) (data_received r) (authenticated_received r) (authenticated_traversed r) (egress_queued r) (handshake_completed r) (handshake_initialized r) (persistent_timer r) v (keepalive_sent r).
Definition set_keepalive_sent (v : bool) (r : Timers) : Timers :=
  mkTimers (data_sent r) (data_received r) (authenticated_received r) (authenticated_traversed r) (egress_queued r) (handshake_completed r) (handshake_initialized r) (persistent_timer r) (handshake_attempts r) v.

Definition Timers_default : Timers :=
  mkTimers None None None None None None None None 0 false.

Section data.
Context {SN : Snow}.

(** `Session`. *)
Record Session := mkSession {
  s_noise : noise;
  our_index : Z;
  their_index : Z;
  anti_replay : AntiReplay.t;
  birthday : Timestamp.t;
}.

Definition set_s_noise (v : noise) (r : Session) : Session :=
  mkSession v (our_index r) (their_index r) (anti_replay r) (birthday r).
Definition set_our_index (v : Z) (r : Session) : Session :=
  mkSession (s_noise r) v (their_index r) (anti_replay r) (birthday r).
Definition set_their_index (v : Z) (r : Session) : Session :=
  mkSession (s_noise r) (our_index r) v (anti_replay r) (birthday r).
Definition set_anti_replay (v : AntiReplay.t) (r : Session) : Session :=
  mkSession (s_noise r) (our_index r) (their_index r) v (birthday r).
Definition set_birthday (v : Timestamp.t) (r : Session) : Session :=
  mkSession (s_noise r) (our_index r) (their_index r) (anti_replay r) v.

(** `Sessions`. *)
Record Sessions := mkSessions {
  past : option Session;
  current : option Session;
  next : option Session;
}.

Definition set_past (v : option Session) (r : Sessions) : Sessions :=
  mkSessions v (current r) (next r).
Definition set_current (v : option Session) (r : Sessions) : Sessions :=
  mkSessions (past r) v (next r).
Definition set_next (v : option Session) (r : Sessions) : Sessions :=
  mkSessions (past r) (current r) v.

Definition Sessions_default : Sessions := mkSessions None None None.

(** `Peer`. *)
Record Peer := mkPeer {
  info : PeerInfo;
  sessions : Sessions;
  timers : Timers;
  tx_bytes : Z;
  rx_bytes : Z;
  last_handshake_tai64n : option bytes;
  outgoing_queue : list UtunPacket.t;
  cookie : Generator.t;
}.

Definition set_info (v : PeerInfo) (r : Peer) : Peer :=
  mkPeer v (sessions r) (timers r) (tx_bytes r) (rx_bytes r) (last_handshake_tai64n r) (outgoing_queue r) (cookie r).
Definition set_sessions (v : Sessions) (r : Peer) : Peer :=
  mkPeer (info r) v (timers r) (tx_bytes r) (rx_bytes r) (last_handshake_tai64n r) (outgoing_queue r) (cookie r).
Definition set_timers (v : Timers) (r : Peer) : Peer :=
  mkPeer (info r) (sessions r) v (tx_bytes r) (rx_bytes r) (last_handshake_tai64n r) (outgoing_queue r) (cookie r).
Definition set_tx_bytes (v : Z) (r : Peer) : Peer :=
  mkPeer (info r) (sessions r) (timers r) v (rx_bytes r) (last_handshake_tai64n r) (outgoing_queue r) (cookie r).
Definition set_rx_bytes (v : Z) (r : Peer) : Peer :=
  mkPeer (info r) (sessions r) (timers r) (tx_bytes r) v (last_handshake_tai64n r) (outgoing_queue r) (cookie r).
Definition set_last_handshake_tai64n (v : option bytes) (r : Peer) : Peer :=
  mkPeer (info r) (sessions r) (timers r) (tx_bytes r) (rx_bytes r) v (outgoing_queue r) (cookie r).
Definition set_outgoing_queue (v : list UtunPacket.t) (r : Peer) : Peer :=
  mkPeer (info r) (sessions r) (timers r) (tx_bytes r) (rx_bytes r) (last_handshake_tai64n r) v (cookie r).
Definition set_cookie (v : Generator.t) (r : Peer) : Peer :=
  mkPeer (info r) (sessions r) (timers r) (tx_bytes r) (rx_bytes r) (last_handshake_tai64n r) (outgoing_queue r) v.

(** `IncompleteIncomingHandshake`. *)
Record IncompleteIncomingHandshake := mkIncomplete {
  inc_their_index : Z;
  inc_timestamp : bytes;
  inc_noise : noise;
}.
End data.

(* ------------------------------------------------------------------ *)
(** ** Sessions *)
Module SessionOps.
Section with_crates.
Context {SN : Snow}.

Definition new (n : noise) (our_index : Z) : Session :=
  mkSession n our_index 0 AntiReplay.new Timestamp.default.

Definition with_their_index (n : noise) (our_index their_index : Z) : Session :=
  mkSession n our_index their_index AntiReplay.new Timestamp.default.

Definition into_transport_mode (self : Session) : res Session :=
  let? n := snow_into_transport_mode (s_noise self) in
  Ok (mkSession n (our_index self) (their_index self) (anti_replay self) (birthday self)).

(** `IncompleteIncomingHandshake::their_pubkey`. *)
Definition their_pubkey (self : IncompleteIncomingHandshake) : res bytes :=
  match snow_get_remote_static (inc_noise self) with
  | Some k => Ok k
  | None => Panic "must have remote static key"
  end.

(** `Sessions::wipe`: empties the three slots and returns their indices. *)
Definition wipe (self : Sessions) : Sessions * list Z :=
  (Sessions_default,
   omap (fun sesh => our_index <$> sesh) [past self; current self; next self]).
End with_crates.
End SessionOps.

(** `x.unwrap()` of a `Result`. *)
Definition unwrap_res {A} (r : res A) : res A :=
  match r with Err _ => Panic "unwrap on Err" | _ => r end.

(* ------------------------------------------------------------------ *)
(** ** Operations of a peer *)
Module PeerOps.
Section with_crates.
Context {BO : ByteOrder} {B : Blake2} {A : Aead} {SN : Snow} {R : Rips}.

Definition new (i : PeerInfo) : Peer :=
  mkPeer i Sessions_default Timers_default 0 0 None [] (Generator.new (pub_key i)).

Definition find_session (idx : Z) (self : Peer) : option (Session * SessionType) :=
  let has (o : option Session) :=
    match o with Some s => if our_index s =? idx then Some s else None | None => None end in
  match has (next (sessions self)) with
  | Some s => Some (s, Next)
  | None =>
      match has (current (sessions self)) with
      | Some s => Some (s, Current)
      | None =>
          match has (past (sessions self)) with
          | Some s => Some (s, Past)
          | None => None
          end
      end
  end.

(** The `&mut Session` of [find_session] points into a slot: writing through
    it. *)
Definition put_session (ty : SessionType) (s : Session) (self : Peer) : Peer :=
  set_sessions
    (match ty with
     | Next => set_next (Some s) (sessions self)
     | Current => set_current (Some s) (sessions self)
     | Past => set_past (Some s) (sessions self)
     end) self.

Definition queue_egress (packet : UtunPacket.t) (self : Peer) : Peer :=
  if (length (outgoing_queue self) <? MAX_QUEUED_PACKETS)%nat
  then set_timers (set_handshake_attempts 0 (timers self))
         (set_outgoing_queue (outgoing_queue self ++ [packet]) self)
  else self.

Definition needs_new_handshake (now : Instant) (sending : bool) (self : Peer) : res bool :=
  match next (sessions self) with
  | Some _ => Ok (MAX_HANDSHAKE_ATTEMPTS <=? handshake_attempts (timers self))
  | None =>
      match current (sessions self) with
      | None => Ok true
      | Some session =>
          let since := Timestamp.elapsed now (handshake_completed (timers self)) in
          if sending && (REKEY_AFTER_TIME <? since) then Ok true
          else if negb sending && (REKEY_AFTER_TIME_RECV <? since) then Ok true
          else
            let? nonce := unwrap_res (snow_sending_nonce (s_noise session)) in
            Ok (REKEY_AFTER_MESSAGES <=? nonce)
      end
  end.

Definition ready_for_transport (now : Instant) (self : Peer) : res bool :=
  match current (sessions self) with
  | Some c =>
      if Timestamp.elapsed now (birthday c) <? REJECT_AFTER_TIME
      then let? nonce := unwrap_res (snow_sending_nonce (s_noise c)) in
           Ok (nonce <? REJECT_AFTER_MESSAGES)
      else Ok false
  | None => Ok false
  end.

Definition get_mapped_indices (self : Peer) : list Z :=
  let push (o : option Session) := match o with Some s => [our_index s] | None => [] end in
  push (past (sessions self)) ++ push (current (sessions self)) ++ push (next (sessions self)).

(** `mem::replace(&mut self.sessions.next, Some(s))`, the old next session to
    past, and the index of the past session it displaces. *)
Definition install_next (s : Session) (self : Peer) : Peer * option Z :=
  let old_next := next (sessions self) in
  let ss := set_next (Some s) (sessions self) in
  match old_next with
  | Some _ => (set_sessions (set_past old_next ss) self, our_index <$> past ss)
  | None => (set_sessions ss self, None)
  end.

(** Runs `self.cookie.build_macs(input)`. *)
Definition build_macs (now : Instant) (input : bytes) : M Peer (bytes * option bytes) := fun self =>
  let '(g, macs) := Generator.build_macs now input (cookie self) in
  (set_cookie g self, Ok macs).

(** `packet[lo..hi].copy_from_slice(mac2)` when there is one. *)
Definition put_mac2 (lo hi : nat) (mac2 : option bytes) (packet : bytes) : res bytes :=
  match mac2 with Some m => copy_into lo hi m packet | None => Ok packet end.

Definition initiate_new_session (now : Instant) (wall : Duration) (private_key : bytes) (index : Z)
  : M Peer (Endpoint.t * bytes * option Z) :=
  let! self := getM id in
  let! n := liftM (Noise.build_initiator private_key (pub_key (info self)) (psk (info self))) in
  let session := SessionOps.new n index in
  let! ep := liftM (ok_or (endpoint (info self)) "no known peer endpoint") in
  let packet := zeros 148 in
  let! tai64n := liftM (Tai64n.now wall) in
  let! packet := liftM (index_set 0 1 packet) in
  let! packet := liftM (with_slice_from 4 (le_write_u32 (our_index session)) packet) in
  let '(n', written) := snow_write_message (s_noise session) tai64n (length packet - 8) in
  let session := set_s_noise n' session in
  let! m := liftM written in
  let packet := overlay 8 m packet in
  let! mac_input := liftM (slice 0 116 packet) in
  let! '(mac1, mac2) := build_macs now mac_input in
  let! packet := liftM (copy_into 116 132 mac1 packet) in
  let! packet := liftM (put_mac2 132 (length packet) mac2 packet) in
  let! dead_index := (fun self => let '(self', d) := install_next session self in (self', Ok d)) in
  retM (ep, packet, dead_index).

Definition process_incoming_handshake (private_key : bytes) (packet : bytes)
  : res IncompleteIncomingHandshake :=
  let? n := Noise.build_responder private_key in
  let? noise_bytes := Initiation.noise_bytes packet in
  let '(n', read) := snow_read_message n noise_bytes 12 in
  let? payload := read in
  let? _ := ensure (Nat.eqb (length payload) 12) "incorrect handshake payload length" in
  let timestamp := overlay 0 payload (zeros 12) in
  let? their_index := Initiation.sender_index packet in
  Ok (mkIncomplete their_index timestamp n').

(** [get_response_packet] also takes `next_session: &mut Session`: it returns
    the session with the packet. *)
Definition get_response_packet (now : Instant) (next_session : Session) : M Peer (Session * bytes) :=
  let packet := zeros 92 in
  let! packet := liftM (index_set 0 2 packet) in
  let! packet := liftM (with_slice_from 4 (le_write_u32 (our_index next_session)) packet) in
  let! packet := liftM (with_slice_from 8 (le_write_u32 (their_index next_session)) packet) in
  let '(n', written) := snow_write_message (s_noise next_session) [] (length packet - 12) in
  let next_session := set_s_noise n' next_session in
  let! m := liftM written in
  let packet := overlay 12 m packet in
  let! mac_input := liftM (slice 0 60 packet) in
  let! '(mac1, mac2) := build_macs now mac_input in
  let! packet := liftM (copy_into 60 76 mac1 packet) in
  let! packet := liftM (put_mac2 76 (length packet) mac2 packet) in
  retM (next_session, packet).

Definition complete_incoming_handshake (now : Instant) (addr : Endpoint.t) (index : Z)
    (incomplete : IncompleteIncomingHandshake) : M Peer (bytes * option Z) :=
  let '(mkIncomplete their_index timestamp n) := incomplete in
  let! self := getM id in
  let! _ := liftM (match last_handshake_tai64n self with
                   | Some last_tai64n =>
                       ensure (Tai64n.gt timestamp last_tai64n)
                         "handshake timestamp earlier than last handshake's timestamp"
                   | None => Ok tt
                   end) in
  let '(n, psk_set) := snow_set_psk n 2 (default (zeros 32) (psk (info self))) in
  let! _ := liftM psk_set in
  let next_session := SessionOps.with_their_index n index their_index in
  let next_session := set_birthday (Timestamp.now now) next_session in
  let! '(next_session, response_packet) := get_response_packet now next_session in
  let! transport := liftM (SessionOps.into_transport_mode next_session) in
  let! dead_index := (fun self => let '(self', d) := install_next transport self in (self', Ok d)) in
  let! _ := modM (fun self =>
    let self := set_info (set_endpoint (Some addr) (info self)) self in
    let self := set_last_handshake_tai64n (Some timestamp) self in
    set_timers (set_authenticated_traversed (Timestamp.now now)
                 (set_authenticated_received (Timestamp.now now) (timers self))) self) in
  retM (response_packet, dead_index).

Definition consume_cookie_reply (now : Instant) (reply : bytes) : M Peer unit := fun self =>
  let '(g, r) := Generator.consume_reply now reply (cookie self) in
  (set_cookie g self, r).

(** Both rotations: the new current session, the old current one to past; the
    index of the old past session. *)
Definition rotate (new_current : option Session) (self : Peer) : Peer * option Z :=
  let dead := past (sessions self) in
  let ss := set_past (current (sessions self)) (sessions self) in
  (set_sessions (set_current new_current ss) self, our_index <$> dead).

Definition process_incoming_handshake_response (now : Instant) (addr : Endpoint.t) (packet : bytes)
  : M Peer (option Z) :=
  let! taken := getM (fun self => next (sessions self)) in
  let! _ := modM (fun self => set_sessions (set_next None (sessions self)) self) in
  let! session := liftM (ok_or taken "no next session") in
  let! noise_bytes := liftM (Response.noise_bytes packet) in
  let '(n', read) := snow_read_message (s_noise session) noise_bytes 0 in
  let session := set_s_noise n' session in
  let! _ := liftM read in
  let! session := liftM (SessionOps.into_transport_mode session) in
  let! sender := liftM (Response.sender_index packet) in
  let session := set_their_index sender session in
  let session := set_birthday (Timestamp.now now) session in
  let! _ := modM (fun self =>
    let self := set_info (set_endpoint (Some addr) (info self)) self in
    set_timers (set_handshake_completed (Timestamp.now now)
                 (set_authenticated_traversed (Timestamp.now now)
                   (set_authenticated_received (Timestamp.now now) (timers self)))) self) in
  fun self => let '(self', dead) := rotate (Some session) self in (self', Ok dead).

(** What the length field of the decrypted packet says, and the truncation to
    it: [raw_packet] is the whole buffer, of which [len] bytes were written. *)
Definition trim_packet (raw_packet : bytes) (len : nat) : res bytes :=
  if (0 <? len)%nat then
    let? ip := ok_or (IpPacket.new (take len raw_packet)) "invalid IP packet" in
    Ok (take (Z.to_nat (IpPacket.length ip)) raw_packet)
  else Ok [].

(** The part of `handle_incoming_transport` that runs on the session found: the
    session it leaves behind and the packet. *)
Definition receive_on_session (now : Instant) (packet : bytes) (nonce : Z) : M Session bytes :=
  let! session := getM id in
  let! _ := liftM (ensure (snow_is_handshake_finished (s_noise session))
                     "session is not ready for transport packets") in
  let! _ := liftM (ensure (nonce <? REJECT_AFTER_MESSAGES) "exceeded REJECT-AFTER-MESSAGES") in
  let! _ := liftM (ensure (Timestamp.elapsed now (birthday session) <? REJECT_AFTER_TIME)
                     "exceeded REJECT-AFTER-TIME") in
  let! _ := (fun session => let '(ar, r) := AntiReplay.update nonce (anti_replay session) in
                            (set_anti_replay ar session, r)) in
  let! _ := (fun session => let '(n, r) := snow_set_receiving_nonce (s_noise session) nonce in
                            (set_s_noise n session, r)) in
  let! payload := liftM (Transport.payload packet) in
  let! written := (fun session =>
                     let '(n, r) := snow_read_message (s_noise session) payload (length packet) in
                     (set_s_noise n session, r)) in
  liftM (trim_packet (overlay 0 written (zeros (length packet))) (length written)).

Definition handle_incoming_transport (now : Instant) (addr : Endpoint.t) (packet : bytes)
  : M Peer (bytes * SessionTransition) :=
  let! nonce := liftM (Transport.nonce packet) in
  let! idx := liftM (Transport.our_index packet) in
  let! found := getM (find_session idx) in
  let! '(session, session_type) := liftM (ok_or found "no session with index") in
  let! raw_packet := (fun self => let '(session', r) := receive_on_session now packet nonce session in
                                  (put_session session_type session' self, r)) in
  let! _ := modM (fun self =>
    let tm := timers self in
    let tm := if match raw_packet with [] => true | _ => false end then tm
              else set_data_received (Timestamp.now now) tm in
    let tm := set_authenticated_received (Timestamp.now now) tm in
    let tm := set_authenticated_traversed (Timestamp.now now) tm in
    set_timers (set_keepalive_sent false tm) self) in
  let! transition := (fun self =>
    if decide (session_type = Next) then
      let nx := next (sessions self) in
      let self := set_sessions (set_next None (sessions self)) self in
      let '(self, dead) := rotate nx self in
      (set_timers (set_handshake_completed (Timestamp.now now) (timers self)) self,
       Ok (Transition dead))
    else (self, Ok NoTransition)) in
  let! _ := modM (fun self =>
    let self := set_rx_bytes (wrap64 (rx_bytes self + Z.of_nat (length packet))) self in
    set_info (set_endpoint (Some addr) (info self)) self) in
  retM (raw_packet, transition).

Definition padding_of (n : nat) : nat :=
  if negb (Nat.eqb (n mod PADDING_MULTIPLE) 0) then PADDING_MULTIPLE - (n mod PADDING_MULTIPLE) else 0.

Definition handle_outgoing_transport (now : Instant) (packet : bytes) : M Peer (Endpoint.t * bytes) :=
  let! self := getM id in
  let! session := liftM (ok_or (current (sessions self)) "no current noise session") in
  let! ep := liftM (ok_or (endpoint (info self)) "no known peer endpoint") in
  let padding := padding_of (length packet) in
  let padded_len := (length packet + padding)%nat in
  let out_packet := zeros (padded_len + TRANSPORT_OVERHEAD) in
  let! nonce := liftM (snow_sending_nonce (s_noise session)) in
  let! _ := liftM (ensure (nonce <? REJECT_AFTER_MESSAGES) "exceeded REJECT-AFTER-MESSAGES") in
  let! _ := liftM (ensure (Timestamp.elapsed now (birthday session) <? REJECT_AFTER_TIME)
                     "exceeded REJECT-AFTER-TIME") in
  let! out_packet := liftM (index_set 0 4 out_packet) in
  let! out_packet := liftM (with_slice_from 4 (le_write_u32 (their_index session)) out_packet) in
  let! out_packet := liftM (with_slice_from 8 (le_write_u64 nonce) out_packet) in
  let padded_packet := packet ++ zeros padding in
  let! written := (fun self =>
    let '(n, r) := snow_write_message (s_noise session) padded_packet (length out_packet - 16) in
    (put_session Current (set_s_noise n session) self, r)) in
  let out_packet := overlay 16 written out_packet in
  let len := length written in
  let! _ := modM (fun self =>
    let self := set_tx_bytes (wrap64 (tx_bytes self + Z.of_nat len)) self in
    let tm := timers self in
    let tm := match packet with [] => tm | _ => set_data_sent (Timestamp.now now) tm end in
    set_timers (set_authenticated_traversed (Timestamp.now now) tm) self) in
  retM (ep, take (TRANSPORT_HEADER_SIZE + len) out_packet).
End with_crates.
End PeerOps.
