(* ===== verification/PeerTransport.v ===== *)
(** * Transport packets of a peer: what is sent, what is accepted

    Theorems about `handle_outgoing_transport` and `handle_incoming_transport`
    of src/peer.rs. *)

From S2P Require Import Prelude Crates Reference RefSnow AntiReplay Types Timestamp Message XChaCha Cookie Router Peer.

(** ** Headers *)
Section headers.
Context {BO : ByteOrder} {BOL : ByteOrderLaws BO}.

Lemma write_u32_overlay lo i (b : bytes) :
  is_u32 i → (lo + 4 ≤ length b)%nat →
  with_slice_from lo (le_write_u32 i) b = Ok (overlay lo (le_split 4 i) b).
Proof.
  intros Hi Hl. apply with_slice_write; autorewrite with wg_len; [lia..|].
  intros s Hs. apply le_write_u32_ok; [done|lia].
Qed.

Lemma write_u64_overlay lo i (b : bytes) :
  is_u64 i → (lo + 8 ≤ length b)%nat →
  with_slice_from lo (le_write_u64 i) b = Ok (overlay lo (le_split 8 i) b).
Proof.
  intros Hi Hl. apply with_slice_write; autorewrite with wg_len; [lia..|].
  intros s Hs. apply le_write_u64_ok; [done|lia].
Qed.

(** The sixteen header bytes of a transport packet. *)
Definition transport_header (their_index nonce : Z) : bytes :=
  [4; 0; 0; 0] ++ le_split 4 their_index ++ le_split 8 nonce.

Lemma length_transport_header i n : length (transport_header i n) = 16%nat.
Proof. done. Qed.

Lemma transport_header_buffer k i n :
  is_u32 i → is_u64 n →
  (let? b := index_set 0 4 (zeros (16 + k)) in
   let? b := with_slice_from 4 (le_write_u32 i) b in
   with_slice_from 8 (le_write_u64 n) b) = Ok (transport_header i n ++ zeros k).
Proof.
  intros Hi Hn. rewrite index_set_Ok by (rewrite length_zeros; lia). cbn [bind_res].
  rewrite write_u32_overlay by (done || rewrite length_insert, length_zeros; lia). cbn [bind_res].
  rewrite write_u64_overlay; [done|done|].
  rewrite length_overlay; rewrite ?length_insert, ?length_zeros, ?length_le_split; lia.
Qed.

(** The fields of a packet that starts with that header. *)
Lemma transport_header_fields i n m :
  is_u32 i → is_u64 n →
  let p := transport_header i n ++ m in
  Transport.our_index p = Ok i ∧ Transport.nonce p = Ok n ∧ Transport.payload p = Ok m ∧
  ((16 ≤ length m)%nat → MessageParser.try_from p = Ok (Message_Transport p)).
Proof.
  intros Hi Hn p. assert (length p = (16 + length m)%nat) as Hl by done. split_and!.
  - unfold Transport.our_index. rewrite read_u32_from_ok by lia. f_equal.
    transitivity (le_combine (le_split 4 i)); [done|]. by apply le_combine_split.
  - rewrite transport_nonce_ok by lia. f_equal.
    transitivity (le_combine (le_split 8 n)); [done|]. by apply le_combine_split.
  - unfold Transport.payload. rewrite slice_from_Ok by lia. done.
  - intros Hm. apply try_from_Ok. split; [done|]. split; [done|]. lia.
Qed.
End headers.

Lemma padding_of_spec n :
  (PeerOps.padding_of n < 16)%nat ∧ ((n + PeerOps.padding_of n) mod 16 = 0)%nat.
Proof.
  unfold PeerOps.padding_of, PADDING_MULTIPLE.
  pose proof (Nat.mod_upper_bound n 16 ltac:(lia)).
  pose proof (Nat.div_mod_eq n 16) as Hdm.
  destruct (Nat.eqb_spec (n mod 16) 0) as [E|E]; simpl negb; cbv iota.
  - split; [lia|]. by rewrite Nat.add_0_r.
  - split; [lia|].
    replace (n + (16 - n mod 16))%nat with ((n / 16 + 1) * 16)%nat by lia.
    apply Nat.Div0.mod_mul.
Qed.

(* ------------------------------------------------------------------ *)
(** ** Sending *)
Section outgoing.
Context {BO : ByteOrder} {BOL : ByteOrderLaws BO} {SN : Snow} {SL : SnowLaws SN}.
Import PeerOps.

(** The plaintext a packet is padded to. *)
Definition padded (packet : bytes) : bytes := packet ++ zeros (padding_of (length packet)).

Lemma length_padded packet : length (padded packet) = (length packet + padding_of (length packet))%nat.
Proof. unfold padded. by rewrite length_app, length_zeros. Qed.

(** The peer after a packet was sent with the session [s] left behind. *)
Definition after_send (now : Instant) (packet : bytes) (s : Session) (len : nat) (self : Peer) : Peer :=
  let self := put_session Current s self in
  let self := set_tx_bytes (wrap64 (tx_bytes self + Z.of_nat len)) self in
  let tm := timers self in
  let tm := match packet with [] => tm | _ => set_data_sent (Timestamp.now now) tm end in
  set_timers (set_authenticated_traversed (Timestamp.now now) tm) self.

(** A successful send, step by step. *)
Lemma outgoing_Ok_inv now packet self self' ep out :
  (∀ s, current (sessions self) = Some s → is_u32 (their_index s)) →
  handle_outgoing_transport now packet self = (self', Ok (ep, out)) →
  ∃ s nonce n' m,
    current (sessions self) = Some s ∧ endpoint (info self) = Some ep ∧
    snow_sending_nonce (s_noise s) = Ok nonce ∧ nonce < REJECT_AFTER_MESSAGES ∧
    Timestamp.elapsed now (birthday s) < REJECT_AFTER_TIME ∧
    snow_write_message (s_noise s) (padded packet) (length (padded packet) + 16) = (n', Ok m) ∧
    self' = after_send now packet (set_s_noise n' s) (length m) self ∧
    out = transport_header (their_index s) nonce ++ m.
Proof.
  intros Hwf. unfold handle_outgoing_transport. intros H. run_ok.
  match goal with
  | Hs : current _ = Some ?s, Hn : snow_sending_nonce _ = Ok ?n |- _ =>
      pose proof (transport_header_buffer (length (padded packet) + 16) (their_index s) n
                    (Hwf _ Hs) (snow_sending_nonce_u64 _ _ Hn)) as Hbuf;
      exists s, n
  end.
  replace (length packet + padding_of (length packet) + TRANSPORT_OVERHEAD)%nat
    with (16 + (length (padded packet) + 16))%nat in * by (rewrite length_padded; change TRANSPORT_OVERHEAD with 32%nat; lia).
  match goal with
  | H : index_set _ _ _ = Ok _, H' : with_slice_from 4 _ _ = Ok _, H'' : with_slice_from 8 _ _ = Ok ?b |- _ =>
      rewrite H in Hbuf; cbn [bind_res] in Hbuf; rewrite H' in Hbuf; cbn [bind_res] in Hbuf;
      rewrite H'' in Hbuf; apply (inj Ok) in Hbuf as ->
  end.
  match goal with H : snow_write_message _ _ ?k = (?n', Ok ?m) |- _ => exists n', m;
    replace k with (length (padded packet) + 16)%nat in H
      by (rewrite length_app, length_transport_header, length_zeros; lia) end.
  split_and!; try done; [by apply Z.ltb_lt..|]. by apply take_overlay_app.
Qed.

(** A send that meets the guards runs to its end. *)
Lemma outgoing_run now packet self s ep nonce n' m :
  current (sessions self) = Some s → endpoint (info self) = Some ep → is_u32 (their_index s) →
  snow_sending_nonce (s_noise s) = Ok nonce → nonce < REJECT_AFTER_MESSAGES →
  Timestamp.elapsed now (birthday s) < REJECT_AFTER_TIME →
  snow_write_message (s_noise s) (padded packet) (length (padded packet) + 16) = (n', Ok m) →
  handle_outgoing_transport now packet self =
    (after_send now packet (set_s_noise n' s) (length m) self,
     Ok (ep, transport_header (their_index s) nonce ++ m)).
Proof.
  intros Hs Hep Hi Hn Hlt Ht Hw. pose proof (snow_sending_nonce_u64 _ _ Hn) as Hn64.
  unfold handle_outgoing_transport.
  erewrite bindM_run by reflexivity. unfold id. rewrite Hs, Hep.
  do 2 erewrite bindM_run by reflexivity. cbv beta zeta.
  erewrite bindM_run by (by apply liftM_run).
  do 2 erewrite bindM_run by (by apply ensure_run, Z.ltb_lt).
  pose proof (transport_header_buffer (length (padded packet) + 16) (their_index s) nonce Hi Hn64) as Hbuf.
  replace (16 + (length (padded packet) + 16))%nat
    with (length packet + padding_of (length packet) + TRANSPORT_OVERHEAD)%nat in Hbuf
    by (rewrite length_padded; change TRANSPORT_OVERHEAD with 32%nat; lia).
  apply bind_res_Ok in Hbuf as (b1 & H1 & Hbuf). apply bind_res_Ok in Hbuf as (b2 & H2 & H3).
  do 3 erewrite bindM_run by (by apply liftM_run).
  fold (padded packet). rewrite length_app, length_transport_header, length_zeros, Nat.add_comm, Nat.add_sub.
  erewrite bindM_run by (rewrite Hw; reflexivity). erewrite bindM_run by reflexivity.
  unfold retM. rewrite take_overlay_app by done. reflexivity.
Qed.

(** C20.  A transport packet on the wire: on every successful
    `handle_outgoing_transport` with a session in transport mode, the packet
    parses as a transport message for the index the other side chose, carries
    the session's counter as its nonce, a counter below REJECT-AFTER-MESSAGES
    on a session younger than REJECT-AFTER-TIME, and its length is that of the
    plaintext rounded up to a multiple of 16, plus the header and the tag; it
    goes to the peer's endpoint, and only the current session, the counter of
    bytes and the timers of the peer change. *)
Theorem transport_packet_format now packet self self' ep out s :
  current (sessions self) = Some s → is_u32 (their_index s) →
  snow_is_handshake_finished (s_noise s) = true →
  handle_outgoing_transport now packet self = (self', Ok (ep, out)) →
  ∃ nonce,
    MessageParser.try_from out = Ok (Message_Transport out) ∧
    Transport.our_index out = Ok (their_index s) ∧ Transport.nonce out = Ok nonce ∧
    snow_sending_nonce (s_noise s) = Ok nonce ∧ nonce < REJECT_AFTER_MESSAGES ∧
    Timestamp.elapsed now (birthday s) < REJECT_AFTER_TIME ∧
    length out = (length packet + padding_of (length packet) + TRANSPORT_OVERHEAD)%nat ∧
    (length out mod 16 = 0)%nat ∧ (length out < length packet + TRANSPORT_OVERHEAD + 16)%nat ∧
    endpoint (info self) = Some ep ∧
    info self' = info self ∧ past (sessions self') = past (sessions self) ∧
    next (sessions self') = next (sessions self) ∧ outgoing_queue self' = outgoing_queue self.
Proof.
  intros Hs Hi Hf H. apply outgoing_Ok_inv in H as (s' & nonce & n' & m & Hs' & Hep & Hn & Hlt & Ht & Hw & -> & ->);
    [|intros s'; by rewrite Hs; intros [= <-]].
  rewrite Hs in Hs'. injection Hs' as <-.
  pose proof (snow_write_transport_length _ _ _ _ _ Hf Hw) as Hm. rewrite length_padded in Hm.
  destruct (transport_header_fields (their_index s) nonce m Hi (snow_sending_nonce_u64 _ _ Hn)) as (H1 & H2 & H3 & H4).
  destruct (padding_of_spec (length packet)) as [Hp Hmod].
  assert (length (transport_header (their_index s) nonce ++ m)
          = (length packet + padding_of (length packet) + 32)%nat) as Hlen
    by (rewrite length_app, length_transport_header; lia).
  exists nonce. rewrite Hlen. split_and!; try done; [apply H4; lia| |change TRANSPORT_OVERHEAD with 32%nat; lia].
  by rewrite <-Nat.Div0.add_mod_idemp_l, Hmod.
Qed.

(** The limits on sending: without a current session, without an
    endpoint, or with a session that has used up its messages or its time,
    nothing is sent and the peer does not change. *)
Lemma transport_send_limits now packet self :
  match current (sessions self) with
  | None => True
  | Some s => endpoint (info self) = None ∨ is_err (snow_sending_nonce (s_noise s)) = true ∨
              (∃ nonce, snow_sending_nonce (s_noise s) = Ok nonce ∧
                 (REJECT_AFTER_MESSAGES ≤ nonce ∨ REJECT_AFTER_TIME ≤ Timestamp.elapsed now (birthday s)))
  end →
  ∃ e, handle_outgoing_transport now packet self = (self, Err e).
Proof.
  intros H. unfold handle_outgoing_transport. erewrite bindM_run by reflexivity. unfold id.
  destruct (current (sessions self)) as [s|]; [|eexists; by apply bindM_err].
  erewrite bindM_run by reflexivity.
  destruct (endpoint (info self)) as [ep|]; [|eexists; by apply bindM_err].
  erewrite bindM_run by reflexivity. cbv beta zeta.
  destruct H as [H|[H|(nonce & Hn & H)]]; [done|..].
  - destruct (snow_sending_nonce (s_noise s)); try done. eexists. by apply bindM_err.
  - erewrite bindM_run by (by apply liftM_run).
    destruct (Z.ltb_spec nonce REJECT_AFTER_MESSAGES) as [Hlt|Hge]; [|eexists; by apply bindM_err].
    erewrite bindM_run by reflexivity. eexists. apply bindM_err, ensure_fail, Z.ltb_ge. lia.
Qed.
End outgoing.

(* ------------------------------------------------------------------ *)
(** ** Receiving *)
Section incoming.
Context {BO : ByteOrder} {BOL : ByteOrderLaws BO} {SN : Snow} {SL : SnowLaws SN} {SC : SnowChannel SN}
        {R : Rips}.
Import PeerOps.

(** The slot a session was found in. *)
Definition slot (ty : SessionType) (ss : Sessions) : option Session :=
  match ty with Past => past ss | Current => current ss | Next => next ss end.

(** Does the slot hold a session with this index? *)
Definition holds (idx : Z) (o : option Session) : Prop := ∃ s, o = Some s ∧ our_index s = idx.

(** `find_session` looks at next, current, past, in this order. *)
Lemma find_session_spec idx self s ty :
  find_session idx self = Some (s, ty) ↔
  slot ty (sessions self) = Some s ∧ our_index s = idx ∧
  match ty with
  | Next => True
  | Current => ¬ holds idx (next (sessions self))
  | Past => ¬ holds idx (next (sessions self)) ∧ ¬ holds idx (current (sessions self))
  end.
Proof.
  assert (∀ o : option Session, { s | o = Some s ∧ our_index s = idx } + { ¬ holds idx o }) as Hdec.
  { intros [x|]; [destruct (decide (our_index x = idx)); [left; eauto|]|];
      right; unfold holds; naive_solver. }
  assert (∀ o : option Session, ¬ holds idx o →
    match o with Some s => if our_index s =? idx then Some s else None | None => None end = None) as Hno.
  { intros [x|] H; [|done]. destruct (Z.eqb_spec (our_index x) idx); [|done]. destruct H. by exists x. }
  assert (∀ x, our_index x = idx → (our_index x =? idx) = true) as Hyes by (intros; by apply Z.eqb_eq).
  unfold find_session.
  destruct (Hdec (next (sessions self))) as [(x & Hx & Ex)|Hn]; [rewrite Hx, Hyes by done|rewrite (Hno _ Hn)];
    [|destruct (Hdec (current (sessions self))) as [(x & Hx & Ex)|Hc];
       [rewrite Hx, Hyes by done|rewrite (Hno _ Hc)]];
    [..|destruct (Hdec (past (sessions self))) as [(x & Hx & Ex)|Hp];
       [rewrite Hx, Hyes by done|rewrite (Hno _ Hp)]];
    unfold holds in *; destruct ty; simpl; naive_solver.
Qed.

(** The slots after a packet was received on the session in slot [ty]: a
    session that proves itself moves from next to current. *)
Definition after_slots (ok : bool) (ty : SessionType) (s' : Session) (ss : Sessions) : Sessions :=
  match ty with
  | Next => if ok then mkSessions (current ss) (Some s') None else set_next (Some s') ss
  | Current => set_current (Some s') ss
  | Past => set_past (Some s') ss
  end.

Definition transition_of (ty : SessionType) (ss : Sessions) : SessionTransition :=
  match ty with Next => Transition (our_index <$> past ss) | _ => NoTransition end.

(** `handle_incoming_transport` is [receive_on_session] on the session found,
    then the bookkeeping. *)
Lemma incoming_found now addr packet self nonce idx s ty :
  Transport.nonce packet = Ok nonce → Transport.our_index packet = Ok idx →
  find_session idx self = Some (s, ty) →
  let '(s', rr) := receive_on_session now packet nonce s in
  let '(self', r) := handle_incoming_transport now addr packet self in
  sessions self' = after_slots (is_ok rr) ty s' (sessions self) ∧
  r = (let? raw := rr in Ok (raw, transition_of ty (sessions self))) ∧
  (∀ raw, rr = Ok raw → endpoint (info self') = Some addr ∧
     rx_bytes self' = wrap64 (rx_bytes self + Z.of_nat (length packet))).
Proof.
  intros Hn Hi Hf. unfold handle_incoming_transport. rewrite Hn, Hi.
  destruct (receive_on_session now packet nonce s) as [s' rr] eqn:Hr.
  do 2 erewrite bindM_run by reflexivity. cbv beta.
  erewrite bindM_run by reflexivity. rewrite Hf. erewrite bindM_run by reflexivity. cbv beta iota.
  unfold bindM at 1. rewrite Hr. destruct self as [i [p c n] tm tx rx lh q ck].
  destruct rr as [raw|e|w|], ty; try (simpl; done);
    (split; [reflexivity|]; split; [reflexivity|]; intros ? _; done).
Qed.

Lemma incoming_cases now addr packet self self' r :
  handle_incoming_transport now addr packet self = (self', r) →
  (self' = self ∧ is_ok r = false) ∨
  ∃ nonce idx s ty s' rr,
    Transport.nonce packet = Ok nonce ∧ Transport.our_index packet = Ok idx ∧
    find_session idx self = Some (s, ty) ∧ receive_on_session now packet nonce s = (s', rr) ∧
    sessions self' = after_slots (is_ok rr) ty s' (sessions self) ∧
    r = (let? raw := rr in Ok (raw, transition_of ty (sessions self))).
Proof.
  intros H.
  destruct (Transport.nonce packet) as [nonce| | |] eqn:Hn;
    [|unfold handle_incoming_transport in H; rewrite Hn in H; injection H as <- <-; by left..].
  destruct (Transport.our_index packet) as [idx| | |] eqn:Hi;
    [|unfold handle_incoming_transport in H; rewrite Hn, Hi in H; injection H as <- <-; by left..].
  destruct (find_session idx self) as [[s ty]|] eqn:Hf.
  - right. pose proof (incoming_found now addr packet self _ _ _ _ Hn Hi Hf) as Hx.
    destruct (receive_on_session now packet nonce s) as [s' rr] eqn:Hr. rewrite H in Hx.
    destruct Hx as (H1 & H2 & _). eauto 12.
  - left. unfold handle_incoming_transport in H. rewrite Hn, Hi in H.
    do 2 erewrite bindM_run in H by reflexivity. cbv beta in H.
    erewrite bindM_run in H by reflexivity. rewrite Hf in H. by injection H as <- <-.
Qed.

(** Whatever the outcome, the session keeps its indices and its window is the
    old one or the old one updated with the packet's nonce. *)
Lemma receive_effect now packet nonce s s' rr :
  receive_on_session now packet nonce s = (s', rr) →
  our_index s' = our_index s ∧ their_index s' = their_index s ∧ birthday s' = birthday s ∧
  (anti_replay s' = anti_replay s ∧ is_ok rr = false ∨
   anti_replay s' = (AntiReplay.update nonce (anti_replay s)).1 ∧
   (is_ok rr = true → (AntiReplay.update nonce (anti_replay s)).2 = Ok tt)).
Proof.
  unfold receive_on_session, bindM, liftM, getM, ensure, id.
  destruct (snow_is_handshake_finished (s_noise s)); [|intros [= <- <-]; auto 10].
  destruct (nonce <? REJECT_AFTER_MESSAGES); [|intros [= <- <-]; auto 10].
  destruct (_ <? REJECT_AFTER_TIME); [|intros [= <- <-]; auto 10].
  destruct (AntiReplay.update nonce (anti_replay s)) as [ar [[]|e|w|]];
    [|intros [= <- <-]; split_and!; try done; by right..].
  destruct (snow_set_receiving_nonce _ nonce) as [n1 [[]|e|w|]]; [|intros [= <- <-]; split_and!; try done; by right..].
  destruct (Transport.payload packet) as [pl|e|w|]; [|intros [= <- <-]; split_and!; try done; by right..].
  destruct (snow_read_message _ pl _) as [n2 [wr|e|w|]]; intros [= <- <-]; split_and!; try done; by right.
Qed.

(** A packet whose guards hold and that decrypts is received. *)
Lemma receive_run now packet nonce s ar pl n1 n2 wr raw :
  snow_is_handshake_finished (s_noise s) = true → nonce < REJECT_AFTER_MESSAGES →
  Timestamp.elapsed now (birthday s) < REJECT_AFTER_TIME →
  AntiReplay.update nonce (anti_replay s) = (ar, Ok tt) →
  snow_set_receiving_nonce (s_noise s) nonce = (n1, Ok tt) → Transport.payload packet = Ok pl →
  snow_read_message n1 pl (length packet) = (n2, Ok wr) →
  trim_packet (overlay 0 wr (zeros (length packet))) (length wr) = Ok raw →
  receive_on_session now packet nonce s = (set_s_noise n2 (set_anti_replay ar s), Ok raw).
Proof.
  intros Hf Hn Ht Hu Hsn Hpl Hrd Htr. unfold receive_on_session.
  erewrite bindM_run by reflexivity. unfold id. rewrite Hf.
  erewrite bindM_run by reflexivity. do 2 erewrite bindM_run by (by apply ensure_run, Z.ltb_lt).
  erewrite bindM_run by (rewrite Hu; reflexivity). simpl s_noise.
  erewrite bindM_run by (simpl; rewrite Hsn; reflexivity).
  erewrite bindM_run by (by apply liftM_run).
  erewrite bindM_run by (simpl; rewrite Hrd; reflexivity). unfold liftM. by rewrite Htr.
Qed.

(** What the receiver cuts the padded plaintext back to. *)
Definition ip_framed (packet : bytes) : Prop :=
  packet = [] ∨
  ∃ ip, IpPacket.new (padded packet) = Some ip ∧ IpPacket.length ip = Z.of_nat (length packet).

Lemma trim_padded packet n :
  ip_framed packet → (length (padded packet) ≤ n)%nat →
  trim_packet (overlay 0 (padded packet) (zeros n)) (length (padded packet)) = Ok packet.
Proof.
  intros [->|(ip & Hnew & Hlen)] Hn; [done|]. unfold trim_packet, overlay. rewrite take_0, app_nil_l.
  rewrite take_app_length, Hnew. cbn [ok_or bind_res]. rewrite Hlen, Nat2Z.id.
  replace (_ <? _)%nat with true; unfold padded in *.
  - rewrite <-app_assoc. by rewrite take_app_length.
  - symmetry. apply Nat.ltb_lt. destruct packet; [|simpl; lia]. by vm_compute in Hnew.
Qed.

(* ---- windows ---- *)

Lemma fresh_accept_above w n m :
  (∀ k, n ≤ k → Window.fresh w k = true) → n + 1 ≤ m → Window.fresh (Window.accept w n) m = true.
Proof.
  intros Hf Hm. specialize (Hf m ltac:(lia)). unfold Window.fresh, Window.accept in *.
  cbn [Window.highest Window.seen]. change AntiReplay.WINDOW_SIZE with 2016 in *.
  apply orb_true_iff in Hf as [Hf%Z.ltb_lt|[H1%Z.leb_le H2%negb_true_iff%bool_decide_eq_false]%andb_true_iff].
  - apply orb_true_iff. left. apply Z.ltb_lt. lia.
  - destruct (Z.ltb_spec (Z.max (Window.highest w) n) m); [done|]. simpl. apply andb_true_iff.
    split; [apply Z.leb_le; lia|]. apply negb_true_iff, bool_decide_eq_false. set_solver by lia.
Qed.

(** The sender [A] has the session [s], the receiver [B] the matching session
    [r] in slot [ty], and [B] has seen no nonce from [n], the sender's
    counter, on. *)
Definition linked (A B : Peer) (s r : Session) (ty : SessionType) (n : Z) : Prop :=
  current (sessions A) = Some s ∧ find_session (their_index s) B = Some (r, ty) ∧ is_u32 (their_index s) ∧
  snow_opens (s_noise s) (s_noise r) ∧ snow_sending_nonce (s_noise s) = Ok n ∧
  ∃ w, AntiReplay.refines (anti_replay r) w ∧ ∀ m, n ≤ m → Window.fresh w m = true.

(** One packet over a link. *)
Lemma linked_send A B s r ty n t t' addr ep packet :
  linked A B s r ty n → endpoint (info A) = Some ep → ip_framed packet →
  n < REJECT_AFTER_MESSAGES → Z.of_nat (length packet) ≤ MAX_CONTENT_SIZE - 16 →
  Timestamp.elapsed t (birthday s) < REJECT_AFTER_TIME →
  Timestamp.elapsed t' (birthday r) < REJECT_AFTER_TIME →
  ∃ A' B' out s' r',
    handle_outgoing_transport t packet A = (A', Ok (ep, out)) ∧
    handle_incoming_transport t' addr out B = (B', Ok (packet, transition_of ty (sessions B))) ∧
    linked A' B' s' r' (if decide (ty = Next) then Current else ty) (n + 1) ∧
    endpoint (info A') = Some ep ∧ birthday s' = birthday s ∧ birthday r' = birthday r ∧
    snow_sending_nonce (s_noise r') = snow_sending_nonce (s_noise r).
Proof.
  intros (Hs & Hf & Hi & Ho & Hn & w & Hrw & Hfr) Hep Hip Hlt Hmax Ht Ht'.
  destruct (padding_of_spec (length packet)) as [Hpad _]. pose proof (length_padded packet) as Hpl.
  assert (MAX_CONTENT_SIZE - 16 = 65487) as Hc by done.
  destruct (snow_channel_write _ _ n (padded packet) (length (padded packet) + 16) Ho Hn) as (n' & m & Hw & Hn').
  { change REJECT_AFTER_MESSAGES with (2 ^ 64 - 18) in Hlt. lia. } { lia. } { lia. }
  pose proof (snow_sending_nonce_u64 _ _ Hn) as Hn64.
  destruct (transport_header_fields (their_index s) n m Hi Hn64) as (Hidx & Hnon & Hpay & _).
  pose proof (proj1 (snow_opens_finished _ _ Ho)) as Hfs. pose proof (proj2 (snow_opens_finished _ _ Ho)) as Hfr'.
  pose proof (snow_write_transport_length _ _ _ _ _ Hfs Hw) as Hml.
  set (out := transport_header (their_index s) n ++ m) in *.
  assert (length out = (16 + length m)%nat) as Hol by (unfold out; by rewrite length_app, length_transport_header).
  destruct (snow_channel_read _ _ n _ _ _ _ (length out) Ho Hn Hw) as (r1 & r2 & Hsn & Hrd); [lia|].
  destruct (refines_update_fresh _ w n Hrw Hn64 (Hfr n ltac:(lia))) as (ar & Har & Hrw').
  assert (AntiReplay.update n (anti_replay r) = (ar, Ok tt)) as Hu.
  { unfold AntiReplay.update. rewrite (refines_check _ w) by done. by rewrite (Hfr n), Har by lia. }
  pose proof (receive_run t' out n r ar m r1 r2 (padded packet) packet Hfr' Hlt Ht' Hu Hsn Hpay Hrd) as Hrun.
  specialize (Hrun ltac:(apply trim_padded; [done|lia])).
  pose proof (incoming_found t' addr out B n (their_index s) r ty Hnon Hidx Hf) as Hin.
  rewrite Hrun in Hin. destruct (handle_incoming_transport t' addr out B) as [B' rr] eqn:HB.
  destruct Hin as (Hsess & -> & _).
  eexists _, B', out, (set_s_noise n' s), (set_s_noise r2 (set_anti_replay ar r)).
  split; [by apply outgoing_run|]. split; [done|]. split; [|split_and!; try done].
  2: { change (s_noise (set_s_noise r2 (set_anti_replay ar r))) with r2.
       pose proof (snow_set_nonce_sending _ _ n Ho) as E1. rewrite Hsn in E1. simpl in E1.
       pose proof (snow_read_sending _ _ m (length out) (snow_opens_set_nonce _ _ _ _ _ Ho Hsn)) as E2.
       rewrite Hrd in E2. simpl in E2. by rewrite E2. }
  split; [done|]. split; [|split; [done|]; split; [|split; [done|]]].
  - apply find_session_spec in Hf as (Hslot & Hidx' & Hno). apply find_session_spec. rewrite Hsess.
    destruct ty; simpl; split_and!; try done; [tauto|tauto|].
    unfold holds. naive_solver.
  - eapply snow_opens_read; [|exact Hrd]. eapply snow_opens_set_nonce; [|exact Hsn].
    by eapply snow_opens_write.
  - exists (Window.accept w n). split; [done|]. intros k Hk. by apply (fresh_accept_above _ _ _ Hfr).
Qed.

(** [A] sends [packet] at [t]; [B] gets what was sent from [addr] at [t']. *)
Definition send_over (addr : Endpoint.t) (t t' : Instant) (packet : bytes) : M (Peer * Peer) bytes := fun '(A, B) =>
  match handle_outgoing_transport t packet A with
  | (A', Ok (_, out)) =>
      let '(B', r) := handle_incoming_transport t' addr out B in
      ((A', B'), let? x := r in Ok x.1)
  | (A', Err e) => ((A', B), Err e)
  | (A', Panic w) => ((A', B), Panic w)
  | (A', Starved) => ((A', B), Starved)
  end.

Fixpoint send_all (addr : Endpoint.t) (items : list (Instant * Instant * bytes)) : M (Peer * Peer) (list bytes) :=
  match items with
  | [] => retM []
  | (t, t', packet) :: items' =>
      let! raw := send_over addr t t' packet in
      let! raws := send_all addr items' in
      retM (raw :: raws)
  end.

(** The tunnel: when the sender's current session and a session of the
    receiver hold matching keys, every stream of IP packets that fit, sent
    while the sessions are young and the counter is below the limit, comes out
    at the other end unchanged, padding removed, in order, without an error. *)
Lemma transport_stream addr items : ∀ A B s r ty n ep,
  linked A B s r ty n → endpoint (info A) = Some ep →
  n + Z.of_nat (length items) ≤ REJECT_AFTER_MESSAGES →
  Forall (fun '(t, t', packet) =>
    ip_framed packet ∧ Z.of_nat (length packet) ≤ MAX_CONTENT_SIZE - 16 ∧
    Timestamp.elapsed t (birthday s) < REJECT_AFTER_TIME ∧
    Timestamp.elapsed t' (birthday r) < REJECT_AFTER_TIME) items →
  (send_all addr items (A, B)).2 = Ok ((fun '(_, _, packet) => packet) <$> items).
Proof.
  induction items as [|[[t t'] packet] items IH]; intros A B s r ty n ep Hl Hep Hn Hall; [done|].
  apply Forall_cons_1 in Hall as [(Hip & Hmax & Ht & Ht') Hall]. cbn [length] in Hn.
  destruct (linked_send A B s r ty n t t' addr ep packet) as (A' & B' & out & s' & r' & HA & HB & Hl' & Hep' & Hs' & Hr' & _);
    [done..|lia|done|done|done|].
  cbn [send_all]. erewrite bindM_run; [|unfold send_over; rewrite HA, HB; reflexivity].
  specialize (IH A' B' s' r' _ (n + 1) ep Hl' Hep'). rewrite Hs', Hr' in IH. specialize (IH ltac:(lia) Hall).
  unfold bindM. destruct (send_all addr items (A', B')) as [w rr]. simpl in *. by rewrite IH.
Qed.
End incoming.

(* ------------------------------------------------------------------ *)
(** ** Instances of the theorems *)
Section witnesses.
#[local] Existing Instance refByteOrder.
#[local] Existing Instance refSnow.
#[local] Existing Instance refRips.
#[local] Existing Instance refBlake2.

(** Two transport sessions with matching keys. *)
Definition toy_a : toy_noise :=
  mkToy true (zeros 32) (Some (replicate 32 8)) (Some (zeros 32)) 2 true 0 0.
Definition toy_b : toy_noise :=
  mkToy false (replicate 32 7) (Some (replicate 32 1)) (Some (zeros 32)) 2 true 0 0.

Definition demo_addr : Endpoint.t := Endpoint.from_socket_addr (mkSocketAddr (IpV4 16909060) 51820).
Definition demo_info : PeerInfo := set_endpoint (Some demo_addr) PeerInfo_default.

Definition demo_session (n : toy_noise) (ours theirs : Z) (t : Instant) : Session :=
  mkSession (n : noise) ours theirs AntiReplay.new (Timestamp.now t).

(** A peer with one session in transport mode, in the slot [ty]. *)
Definition demo_peer (n : toy_noise) (ty : SessionType) (ours theirs : Z) (t : Instant) : Peer :=
  PeerOps.put_session ty (demo_session n ours theirs t) (PeerOps.new demo_info).

(** An IPv4 packet of 21 bytes: header, total length, one byte. *)
Definition demo_packet : bytes := [69; 0; 0; 21] ++ zeros 8 ++ [10; 0; 0; 1; 10; 0; 0; 2] ++ [99].

Lemma demo_framed : ip_framed demo_packet.
Proof. right. eexists. split; [vm_compute; reflexivity|]. vm_compute. reflexivity. Qed.

Lemma demo_linked :
  linked (demo_peer toy_a Current 5 6 0) (demo_peer toy_b Next 6 5 0)
    (demo_session toy_a 5 6 0)
    (demo_session toy_b 6 5 0) Next 0.
Proof.
  split; [done|]. split; [done|]. split; [done|]. split; [done|]. split; [done|].
  exists Window.new. split; [apply refines_new|]. intros m Hm. unfold Window.fresh. simpl.
  destruct (Z.ltb_spec 0 m); [done|]. simpl. replace m with 0 by lia. done.
Qed.

Lemma transport_stream_instance :
  (send_all demo_addr [(1, 2, demo_packet); (1, 2, []); (3, 5, demo_packet)]
     (demo_peer toy_a Current 5 6 0, demo_peer toy_b Next 6 5 0)).2
  = Ok [demo_packet; []; demo_packet].
Proof.
  refine (transport_stream demo_addr [(1, 2, demo_packet); (1, 2, []); (3, 5, demo_packet)]
            _ _ _ _ _ _ demo_addr demo_linked _ _ _); [done|done|].
  repeat (apply Forall_cons_2; [split_and!; try done; try apply demo_framed; by left|]). by apply Forall_nil_2.
Qed.

Definition demo_sent : Peer * res (Endpoint.t * bytes) :=
  PeerOps.handle_outgoing_transport 7 demo_packet (demo_peer toy_a Current 5 6 0).

Definition demo_out : bytes := match demo_sent.2 with Ok (_, out) => out | _ => [] end.

Lemma demo_sent_eq : demo_sent = (demo_sent.1, Ok (demo_addr, demo_out)).
Proof. vm_cast_no_check (eq_refl demo_sent). Qed.

Lemma transport_packet_format_witness :
  length demo_out = 64%nat ∧
  MessageParser.try_from demo_out = Ok (Message_Transport demo_out) ∧ Transport.our_index demo_out = Ok 6.
Proof.
  destruct (transport_packet_format 7 demo_packet (demo_peer toy_a Current 5 6 0) demo_sent.1 demo_addr demo_out
    (demo_session toy_a 5 6 0) eq_refl ltac:(by_decide) eq_refl demo_sent_eq)
    as (nonce & H1 & H2 & _ & _ & _ & _ & H3 & _).
  split_and!; [exact H3|exact H1|exact H2].
Defined.
End witnesses.
