(* ===== verification/PeerSessions.v ===== *)
(** * The session slots of a peer

    How every operation of src/peer.rs moves sessions between the slots past,
    current and next: the indices in use before and after, the index it
    reports as dead, and the anti-replay windows. *)

From S2P Require Import Prelude Crates Reference RefSnow AntiReplay Types Timestamp Message XChaCha Cookie Router Peer PeerTransport.

Section sessions.
Context {BO : ByteOrder} {BOL : ByteOrderLaws BO} {B : Blake2} {A : Aead} {SN : Snow} {SL : SnowLaws SN} {R : Rips}.
Import PeerOps.

(** The indices of the three slots. *)
Definition indices (ss : Sessions) : list Z :=
  option_list (our_index <$> past ss) ++ option_list (our_index <$> current ss) ++ option_list (our_index <$> next ss).

Lemma get_mapped_indices_slots self : get_mapped_indices self = indices (sessions self).
Proof. by destruct self as [? [[] [] []] ? ? ? ? ? ?]. Qed.

(** [install_next] on the slots. *)
Definition installed (s : Session) (ss : Sessions) : Sessions * option Z :=
  match next ss with
  | Some o => (mkSessions (Some o) (current ss) (Some s), our_index <$> past ss)
  | None => (set_next (Some s) ss, None)
  end.

Lemma install_next_slots s self :
  sessions (install_next s self).1 = (installed s (sessions self)).1 ∧
  (install_next s self).2 = (installed s (sessions self)).2 ∧
  info (install_next s self).1 = info self ∧
  last_handshake_tai64n (install_next s self).1 = last_handshake_tai64n self ∧
  outgoing_queue (install_next s self).1 = outgoing_queue self ∧
  timers (install_next s self).1 = timers self.
Proof. unfold install_next, installed. by destruct self as [? [[] [] []] ? ? ? ? ? ?]. Qed.

Lemma installed_indices s ss :
  indices (installed s ss).1 ++ option_list (installed s ss).2 ≡ₚ our_index s :: indices ss.
Proof.
  destruct ss as [[p|] [c|] [n|]]; unfold indices, installed; simpl; solve_Permutation.
Qed.

(** A session that stays: same index, the same window or one update of it. *)
Definition evolves (s s' : Session) : Prop :=
  our_index s' = our_index s ∧
  (anti_replay s' = anti_replay s ∨
   ∃ n, is_u64 n ∧ anti_replay s' = (AntiReplay.update n (anti_replay s)).1).

(** Every session of [ss'] comes from one of [ss], or has a new index. *)
Definition slots_step (fresh : option Z) (ss ss' : Sessions) : Prop :=
  ∀ ty' s', slot ty' ss' = Some s' →
    (∃ ty s, slot ty ss = Some s ∧ evolves s s') ∨
    fresh = Some (our_index s') ∧ anti_replay s' = AntiReplay.new.

Lemma evolves_refl s : evolves s s.
Proof. split; [done|by left]. Qed.
Lemma slots_step_refl f ss : slots_step f ss ss.
Proof. intros ty s H. left. eauto using evolves_refl. Qed.
Lemma slots_step_installed s ss :
  anti_replay s = AntiReplay.new → slots_step (Some (our_index s)) ss (installed s ss).1.
Proof.
  intros Hnew ty s' H. unfold installed in H.
  destruct (next ss) as [o|] eqn:Ho, ty; simpl in H; simplify_eq; eauto using evolves_refl.
  - left. exists Next. eauto using evolves_refl.
  - left. exists Current. eauto using evolves_refl.
  - left. exists Past. eauto using evolves_refl.
  - left. exists Current. eauto using evolves_refl.
Qed.

(* ---- the operations ---- *)

(** Steps that do not touch the slots. *)
Lemma build_macs_frame now input self self' r :
  build_macs now input self = (self', r) →
  sessions self' = sessions self ∧ info self' = info self ∧
  last_handshake_tai64n self' = last_handshake_tai64n self ∧ is_ok r = true.
Proof. unfold build_macs. destruct (Generator.build_macs _ _ _). by intros [= <- <-]. Qed.

Lemma build_macs_total now input self : is_ok (build_macs now input self).2 = true.
Proof. unfold build_macs. by destruct (Generator.build_macs _ _ _). Qed.

(** The next step of the run [H]; a failing step is left to [done]. *)
Ltac step_lift H :=
  let w := fresh "w" in let a := fresh "a" in let E := fresh "E" in let F := fresh "F" in
  apply bindM_inv in H as [(w & a & E & H)|(F & _ & H)]; [apply liftM_Ok in E as [<- E]|by left; subst].

(** An operation that only adds a session in next, or fails without touching
    the slots. *)
Definition installs {T} (index : Z) (dead_of : T → option Z) (self self' : Peer) (r : res T) : Prop :=
  (is_ok r = false ∧ sessions self' = sessions self) ∨
  ∃ s v, r = Ok v ∧ our_index s = index ∧ anti_replay s = AntiReplay.new ∧
         sessions self' = (installed s (sessions self)).1 ∧ dead_of v = (installed s (sessions self)).2.

Lemma initiate_installs now wall pk index self self' r :
  initiate_new_session now wall pk index self = (self', r) → installs index snd self self' r.
Proof.
  unfold initiate_new_session. intros H. erewrite bindM_run in H by reflexivity.
  do 5 step_lift H. destruct (snow_write_message _ _ _) as [n' wr]. do 2 step_lift H.
  apply bindM_inv in H as [(wm & [mac1 mac2] & Eb & H)|(_ & G & _)];
    [|by rewrite build_macs_total in G].
  apply build_macs_frame in Eb as (Eb & _). unfold installs. rewrite <-Eb. do 2 step_lift H.
  match type of H with context [install_next ?s _] =>
    destruct (install_next_slots s wm) as (H1 & H2 & _); right; exists s end.
  destruct (install_next _ wm) as [w1 d] eqn:Ei in H1, H2. unfold bindM in H. rewrite Ei in H.
  apply pair_eq_inv in H as [<- <-]. eexists. split_and!; done.
Qed.

(** The same for the response: on success the session keeps its indices. *)
Lemma get_response_frame now ns self self' r :
  get_response_packet now ns self = (self', r) →
  (is_ok r = false ∧ sessions self' = sessions self) ∨
  ∃ s' p, r = Ok (s', p) ∧ sessions self' = sessions self ∧ our_index s' = our_index ns ∧
          their_index s' = their_index ns ∧ anti_replay s' = anti_replay ns ∧ birthday s' = birthday ns.
Proof.
  unfold get_response_packet. intros H. do 3 step_lift H.
  destruct (snow_write_message _ _ _) as [n' wr]. do 2 step_lift H.
  apply bindM_inv in H as [(wm & [mac1 mac2] & Eb & H)|(_ & G & _)];
    [|by rewrite build_macs_total in G].
  apply build_macs_frame in Eb as (Eb & _). rewrite <-Eb. do 2 step_lift H.
  apply pair_eq_inv in H as [<- <-]. right. do 2 eexists. split; [done|]. done.
Qed.

Lemma complete_installs now addr index inc self self' r :
  complete_incoming_handshake now addr index inc self = (self', r) → installs index snd self self' r.
Proof.
  unfold complete_incoming_handshake. destruct inc as [their_index timestamp n]. intros H.
  erewrite bindM_run in H by reflexivity. step_lift H.
  destruct (snow_set_psk _ _ _) as [n1 ps]. step_lift H.
  apply bindM_inv in H as [(wm & [ns p] & Eb & H)|(F & G & H)].
  2: { left. split; [done|]. destruct (get_response_packet _ _ _) as [w1 r1] eqn:Eg in G, H.
       simpl in *; subst. apply get_response_frame in Eg as [[_ Eg]|(? & ? & -> & _)]; done. }
  apply get_response_frame in Eb as [[? _]|(s' & p' & [= <- <-] & Es & Eo & _ & Ea & _)]; [done|].
  unfold installs. rewrite <-Es. cbv iota in H. step_lift H. unfold SessionOps.into_transport_mode in E1.
  destruct (snow_into_transport_mode (s_noise ns)) as [nt| | |]; try done. apply (inj Ok) in E1 as <-.
  match type of H with context [install_next ?s _] =>
    destruct (install_next_slots s wm) as (H1 & H2 & _); right; exists s end.
  destruct (install_next _ wm) as [w1 d] eqn:Ei in H1, H2. unfold bindM in H. rewrite Ei in H.
  apply pair_eq_inv in H as [<- <-]. eexists. split_and!; done.
Qed.

Lemma response_slots now addr packet self self' r :
  process_incoming_handshake_response now addr packet self = (self', r) →
  (is_ok r = false ∧ sessions self' = set_next None (sessions self)) ∨
  ∃ s s', next (sessions self) = Some s ∧ our_index s' = our_index s ∧ anti_replay s' = anti_replay s ∧
    Response.sender_index packet = Ok (their_index s') ∧ birthday s' = Timestamp.now now ∧
    sessions self' = mkSessions (current (sessions self)) (Some s') None ∧
    r = Ok (our_index <$> past (sessions self)).
Proof.
  unfold process_incoming_handshake_response. intros H.
  do 2 erewrite bindM_run in H by reflexivity.
  do 2 step_lift H. apply ok_or_Ok in E. destruct (snow_read_message _ _ _) as [n' rd].
  do 3 step_lift H. unfold SessionOps.into_transport_mode in E2.
  destruct (snow_into_transport_mode _) as [nt| | |]; try done. apply (inj Ok) in E2 as <-.
  apply pair_eq_inv in H as [<- <-]. right. eexists _, _. split_and!; [done|..|done|done].
  - done.
  - done.
  - done.
  - done.
Qed.

Lemma outgoing_slots now packet self self' r :
  handle_outgoing_transport now packet self = (self', r) →
  sessions self' = sessions self ∨
  ∃ s n', current (sessions self) = Some s ∧
          sessions self' = set_current (Some (set_s_noise n' s)) (sessions self).
Proof.
  unfold handle_outgoing_transport. intros H. erewrite bindM_run in H by reflexivity.
  assert (∀ {T U} (x : res T) (k : T → M Peer U) w w' (y : res U),
    bindM (liftM x) k w = (w', y) → w' = w ∨ ∃ a, x = Ok a ∧ k a w = (w', y)) as Hl.
  { intros T U [a| | |] k w w' y Hx; unfold bindM, liftM in Hx; [right; eauto|..]; injection Hx as <- <-; by left. }
  do 8 (apply Hl in H as [->|(? & ? & H)]; [by left|]). right.
  match goal with Hc : ok_or (current _) _ = Ok ?s |- _ => apply ok_or_Ok in Hc; exists s end.
  unfold bindM in H. destruct (snow_write_message _ _ _) as [n' [m| | |]];
    injection H as <- <-; eauto.
Qed.

(* ---- indices ---- *)

Definition dead_of (t : SessionTransition) : option Z := match t with Transition d => d | NoTransition => None end.

Lemma after_slots_indices ok ty s s' ss :
  slot ty ss = Some s → our_index s' = our_index s →
  indices (after_slots ok ty s' ss) ++ option_list (if ok then dead_of (transition_of ty ss) else None) ≡ₚ indices ss.
Proof.
  intros Hs Ho. destruct ss as [p c n], ty; simpl in Hs; subst; unfold indices;
    destruct ok; simpl; rewrite Ho, ?app_nil_r; try done.
  destruct p, c; simpl; solve_Permutation.
Qed.

Lemma initiate_indices now wall pk index self :
  let '(self', r) := initiate_new_session now wall pk index self in
  match r with
  | Ok (_, _, dead) => indices (sessions self') ++ option_list dead ≡ₚ index :: indices (sessions self)
  | _ => indices (sessions self') = indices (sessions self)
  end.
Proof.
  destruct (initiate_new_session _ _ _ _ _) as [self' r] eqn:E.
  apply initiate_installs in E as [[Hr ->]|(s & [[ep p] d] & -> & <- & _ & -> & Hd)]; [by destruct r as [[[]]| | |]|].
  simpl in Hd. rewrite Hd. apply installed_indices.
Qed.

Lemma complete_indices now addr index inc self :
  let '(self', r) := complete_incoming_handshake now addr index inc self in
  match r with
  | Ok (_, dead) => indices (sessions self') ++ option_list dead ≡ₚ index :: indices (sessions self)
  | _ => indices (sessions self') = indices (sessions self)
  end.
Proof.
  destruct (complete_incoming_handshake _ _ _ _ _) as [self' r] eqn:E.
  apply complete_installs in E as [[Hr ->]|(s & [p d] & -> & <- & _ & -> & Hd)]; [by destruct r as [[]| | |]|].
  simpl in Hd. rewrite Hd. apply installed_indices.
Qed.

Lemma response_indices now addr packet self :
  let '(self', r) := process_incoming_handshake_response now addr packet self in
  match r with
  | Ok dead => indices (sessions self') ++ option_list dead ≡ₚ indices (sessions self)
  | _ => indices (sessions self') ++ option_list (our_index <$> next (sessions self)) ≡ₚ indices (sessions self)
  end.
Proof.
  destruct (process_incoming_handshake_response _ _ _ _) as [self' r] eqn:E.
  apply response_slots in E as [[Hr ->]|(s & s' & Hn & Ho & _ & _ & _ & -> & ->)].
  - assert (indices (set_next None (sessions self)) ++ option_list (our_index <$> next (sessions self))
            ≡ₚ indices (sessions self)); [|by destruct r].
    unfold indices. simpl. by rewrite app_nil_r, <-!app_assoc.
  - unfold indices. simpl. rewrite Ho, Hn.
    destruct (past (sessions self)), (current (sessions self)); simpl; solve_Permutation.
Qed.

Lemma incoming_indices now addr packet self :
  let '(self', r) := handle_incoming_transport now addr packet self in
  match r with
  | Ok (_, tr) => indices (sessions self') ++ option_list (dead_of tr) ≡ₚ indices (sessions self)
  | _ => indices (sessions self') ≡ₚ indices (sessions self)
  end.
Proof.
  destruct (handle_incoming_transport _ _ _ _) as [self' r] eqn:E.
  apply incoming_cases in E as [[-> Hr]|(nonce & idx & s & ty & s' & rr & _ & _ & Hf & Hrec & -> & ->)];
    [by destruct r as [[]| | |]|].
  apply find_session_spec in Hf as (Hslot & _ & _). apply receive_effect in Hrec as (Ho & _).
  pose proof (after_slots_indices (is_ok rr) ty s s' _ Hslot Ho) as Hp.
  destruct rr; simpl in *; [done|by rewrite app_nil_r in Hp..].
Qed.

Lemma outgoing_indices now packet self :
  indices (sessions (handle_outgoing_transport now packet self).1) = indices (sessions self).
Proof.
  destruct (handle_outgoing_transport _ _ _) as [self' r] eqn:E.
  apply outgoing_slots in E as [Hs|(s & n' & Hc & Hs)]; simpl; rewrite Hs; [done|].
  unfold indices. simpl. by rewrite Hc.
Qed.

(* ---- runs of a peer ---- *)

(** Everything that happens to a peer between its creation and its removal;
    the label is the index given for a new session.  The packets are byte
    strings, and the server gives an index no session of the peer has. *)
Inductive peer_step : option Z → Peer → Peer → Prop :=
| step_initiate now wall pk index self :
    index ∉ indices (sessions self) →
    peer_step (Some index) self (initiate_new_session now wall pk index self).1
| step_complete now addr index inc self :
    index ∉ indices (sessions self) →
    peer_step (Some index) self (complete_incoming_handshake now addr index inc self).1
| step_response now addr packet self :
    peer_step None self (process_incoming_handshake_response now addr packet self).1
| step_incoming now addr packet self :
    is_bytes packet → peer_step None self (handle_incoming_transport now addr packet self).1
| step_outgoing now packet self :
    peer_step None self (handle_outgoing_transport now packet self).1
| step_cookie now reply self : peer_step None self (consume_cookie_reply now reply self).1
| step_queue packet self : peer_step None self (queue_egress packet self)
| step_wipe self : peer_step None self (set_sessions (SessionOps.wipe (sessions self)).1 self)
| step_set_info i self : peer_step None self (set_info i self)
| step_set_timers t self : peer_step None self (set_timers t self)
| step_set_queue q self : peer_step None self (set_outgoing_queue q self).

(** The steps change the slots as [slots_step] says. *)
Lemma slots_step_installs {T} index (d : T → option Z) self self' r :
  installs index d self self' r → slots_step (Some index) (sessions self) (sessions self').
Proof.
  intros [[_ ->]|(s & v & _ & <- & ? & -> & _)]; [apply slots_step_refl|by apply slots_step_installed].
Qed.

Lemma peer_step_slots f self self' : peer_step f self self' → slots_step f (sessions self) (sessions self').
Proof.
  destruct 1 as [now wall pk index self _|now addr index inc self _|now addr packet self|now addr packet self Hb
                |now packet self|now reply self|packet self|self|i self|t self|q self].
  - destruct (initiate_new_session _ _ _ _ _) eqn:E. by eapply slots_step_installs, initiate_installs.
  - destruct (complete_incoming_handshake _ _ _ _ _) eqn:E. by eapply slots_step_installs, complete_installs.
  - destruct (process_incoming_handshake_response _ _ _ _) eqn:E.
    apply response_slots in E as [[_ E]|(s & s' & Hn & Ho & Ha & _ & _ & E & _)]; simpl; rewrite E;
      intros ty x Hx; left.
    + exists ty, x. split; [by destruct ty|apply evolves_refl].
    + destruct ty; simpl in Hx; [|injection Hx as <-|done].
      * exists Current. eauto using evolves_refl.
      * exists Next, s. split; [done|]. split; [done|by left].
  - destruct (handle_incoming_transport _ _ _ _) eqn:E.
    apply incoming_cases in E as [[-> _]|(nonce & idx & s & ty & s' & rr & Hn & _ & Hf & Hrec & E & _)];
      [apply slots_step_refl|]. simpl. rewrite E.
    apply find_session_spec in Hf as (Hslot & _ & _). apply receive_effect in Hrec as (Ho & _ & _ & Ha).
    assert (evolves s s') as Hev.
    { split; [done|]. destruct Ha as [[? _]|[Ha _]]; [by left|]. right. exists nonce. split; [|done].
      eapply transport_nonce_u64; eauto. }
    intros ty' x Hx. left. destruct ty, ty', (is_ok rr); simpl in *; simplify_eq;
      eauto using evolves_refl; try (by exists Past; eauto using evolves_refl);
      try (by exists Current; eauto using evolves_refl); try (by exists Next; eauto using evolves_refl).
  - destruct (handle_outgoing_transport _ _ _) eqn:E.
    apply outgoing_slots in E as [E|(s & n' & Hc & E)]; simpl; rewrite E; [apply slots_step_refl|].
    intros ty x Hx. left. destruct ty; simpl in Hx; simplify_eq; [exists Past|exists Current|exists Next];
      eauto using evolves_refl. exists s. split; [done|]. split; [done|by left].
  - unfold consume_cookie_reply. destruct (Generator.consume_reply _ _ _). apply slots_step_refl.
  - unfold queue_egress. case_match; apply slots_step_refl.
  - intros [] x; done.
  - apply slots_step_refl.
  - apply slots_step_refl.
  - apply slots_step_refl.
Qed.

(** The indices after a step are among those before and the new one. *)
Lemma peer_step_indices f self self' :
  peer_step f self self' → NoDup (indices (sessions self)) → NoDup (indices (sessions self')).
Proof.
  assert (∀ (l l' : list Z) (o : option Z), l ++ option_list o ≡ₚ l' → NoDup l' → NoDup l) as Hsub.
  { intros l l' o Hp Hd. rewrite <-Hp in Hd. by apply NoDup_app in Hd as [? _]. }
  destruct 1 as [now wall pk index self Hi|now addr index inc self Hi|now addr packet self|now addr packet self Hb
                |now packet self|now reply self|packet self|self|i self|t self|q self]; intros Hd.
  - pose proof (initiate_indices now wall pk index self) as H.
    destruct (initiate_new_session _ _ _ _ _) as [self' [[[ep p] d]| | |]]; simpl; [|by rewrite H..].
    eapply Hsub; [exact H|]. by apply NoDup_cons_2.
  - pose proof (complete_indices now addr index inc self) as H.
    destruct (complete_incoming_handshake _ _ _ _ _) as [self' [[p d]| | |]]; simpl; [|by rewrite H..].
    eapply Hsub; [exact H|]. by apply NoDup_cons_2.
  - pose proof (response_indices now addr packet self) as H.
    destruct (process_incoming_handshake_response _ _ _ _) as [self' [d| | |]]; eapply Hsub; done.
  - pose proof (incoming_indices now addr packet self) as H.
    destruct (handle_incoming_transport _ _ _ _) as [self' [[p tr]| | |]]; simpl; [by eapply Hsub|by rewrite H..].
  - by rewrite outgoing_indices.
  - unfold consume_cookie_reply. by destruct (Generator.consume_reply _ _ _).
  - unfold queue_egress. by case_match.
  - apply NoDup_nil_2.
  - done.
  - done.
  - done.
Qed.

Lemma indices_slot_inj ss ty ty' s s' :
  NoDup (indices ss) → slot ty ss = Some s → slot ty' ss = Some s' → our_index s = our_index s' → s = s'.
Proof.
  unfold indices. intros Hd Hs Hs' Ho. destruct ss as [p c n], ty, ty'; simpl in *; simplify_eq; try done; simpl in *;
    exfalso; rewrite Ho in Hd; repeat (rewrite NoDup_app in Hd || rewrite NoDup_cons in Hd); set_solver.
Qed.

(** Every window is one the abstract window describes. *)
Definition windows_ok (ss : Sessions) : Prop :=
  ∀ ty s, slot ty ss = Some s → ∃ w, AntiReplay.refines (anti_replay s) w.

(** No session with the index [idx] takes the nonce [n] any more. *)
Definition burnt (idx n : Z) (ss : Sessions) : Prop :=
  ∀ ty s, slot ty ss = Some s → our_index s = idx →
    ∃ w, refines (anti_replay s) w ∧ Window.fresh w n = false.

Lemma slots_step_windows f ss ss' : slots_step f ss ss' → windows_ok ss → windows_ok ss'.
Proof.
  intros Hst Hw ty s' Hs'. destruct (Hst _ _ Hs') as [(ty0 & s & Hs & _ & Ha)|[_ ->]];
    [|exists Window.new; apply refines_new].
  destruct (Hw _ _ Hs) as [w Hr]. destruct Ha as [->|(n & Hn & ->)]; [eauto|].
  exists (Window.update n w).1. by apply refines_step.
Qed.

Lemma slots_step_burnt f idx n ss ss' :
  slots_step f ss ss' → f ≠ Some idx → burnt idx n ss → burnt idx n ss'.
Proof.
  intros Hst Hf Hb ty s' Hs' Hi. destruct (Hst _ _ Hs') as [(ty0 & s & Hs & Ho & Ha)|[-> _]]; [|congruence].
  destruct (Hb _ _ Hs) as (w & Hr & Hfr); [congruence|].
  destruct Ha as [->|(m & Hm & ->)]; [eauto|].
  exists (Window.update m w).1. split; [by apply refines_step|]. by apply fresh_update_stable.
Qed.

(** The peers a new one can become; the runs in which [idx] is not given out. *)
Definition peer_reachable (self : Peer) : Prop :=
  ∃ i, rtc (fun a b => ∃ f, peer_step f a b) (PeerOps.new i) self.
Definition peer_run_without (idx : Z) : Peer → Peer → Prop :=
  rtc (fun a b => ∃ f, f ≠ Some idx ∧ peer_step f a b).

Lemma reachable_inv self : peer_reachable self → NoDup (indices (sessions self)) ∧ windows_ok (sessions self).
Proof.
  intros [i Hr].
  assert (NoDup (indices (sessions (PeerOps.new i))) ∧ windows_ok (sessions (PeerOps.new i))) as Hinit.
  { split; [apply NoDup_nil_2|]. by intros [] s. }
  induction Hr as [x|x y z [f Hst] _ IH]; [done|]. destruct Hinit as [Hd Hw]. apply IH. split.
  - by eapply peer_step_indices.
  - by eapply slots_step_windows; [eapply peer_step_slots|].
Qed.

(** C18.  Session invariant: in every peer that can be reached from a new one
    by handshakes, transport packets in both directions, cookies, wipes and
    configuration, the indices of the three slots are distinct, and every
    anti-replay window is a valid one (its ring represents the set of nonces
    accepted so far). *)
Theorem peer_sessions_invariant self :
  peer_reachable self → NoDup (get_mapped_indices self) ∧ windows_ok (sessions self).
Proof. rewrite get_mapped_indices_slots. apply reachable_inv. Qed.

(** An accepted packet burns its nonce. *)
Lemma incoming_burns now addr packet self self' v idx n :
  NoDup (indices (sessions self)) → windows_ok (sessions self) → is_bytes packet →
  Transport.our_index packet = Ok idx → Transport.nonce packet = Ok n →
  handle_incoming_transport now addr packet self = (self', Ok v) → burnt idx n (sessions self').
Proof.
  intros Hd Hw Hb Hi Hn H. pose proof (incoming_indices now addr packet self) as Hperm. rewrite H in Hperm.
  destruct v as [raw tr]. rewrite <-Hperm in Hd. apply NoDup_app in Hd as [Hd _].
  apply incoming_cases in H as [[_ ?]|(nonce & idx' & s & ty & s' & rr & Hn' & Hi' & Hf & Hrec & E & Hrr)]; [done|].
  rewrite Hn in Hn'. rewrite Hi in Hi'. apply (inj Ok) in Hn' as <-. apply (inj Ok) in Hi' as <-.
  apply find_session_spec in Hf as (Hslot & Hidx & _). apply receive_effect in Hrec as (Ho & _ & _ & Ha).
  destruct rr as [x| | |]; try done. destruct Ha as [[_ ?]|[Ha Hacc]]; [done|].
  destruct (Hw _ _ Hslot) as [w Hr]. pose proof (transport_nonce_u64 _ _ Hb Hn) as Hn64.
  destruct (refines_step _ _ _ Hr Hn64) as [Hr' Hres]. rewrite (Hacc eq_refl) in Hres.
  assert (Window.fresh (Window.update n w).1 n = false) as Hfr.
  { unfold Window.update in *. destruct (Window.fresh w n) eqn:?; [apply fresh_accepted|done]. }
  assert (slot (if decide (ty = Next) then Current else ty) (sessions self') = Some s') as Hs'.
  { rewrite E. by destruct ty. }
  intros ty' x' Hx' Hix'. assert (x' = s') as ->; [|exists (Window.update n w).1; by rewrite Ha].
  eapply indices_slot_inj; [exact Hd|exact Hx'|exact Hs'|]. congruence.
Qed.

(** A burnt nonce is refused. *)
Lemma burnt_refused now addr packet self idx n :
  is_bytes packet → Transport.our_index packet = Ok idx → Transport.nonce packet = Ok n →
  burnt idx n (sessions self) → is_ok (handle_incoming_transport now addr packet self).2 = false.
Proof.
  intros Hb Hi Hn Hburnt. destruct (handle_incoming_transport now addr packet self) as [self' r] eqn:E.
  apply incoming_cases in E as [[_ ?]|(nonce & idx' & s & ty & s' & rr & Hn'' & Hi'' & Hfs & Hrec & _ & ->)]; [done|].
  rewrite Hn in Hn''. rewrite Hi in Hi''. apply (inj Ok) in Hn'' as <-. apply (inj Ok) in Hi'' as <-.
  apply find_session_spec in Hfs as (Hslot & Hidx & _). apply receive_effect in Hrec as (_ & _ & _ & Ha).
  destruct (Hburnt _ _ Hslot Hidx) as (w & Hr & Hfr). pose proof (transport_nonce_u64 _ _ Hb Hn) as Hn64.
  destruct (refines_step _ _ _ Hr Hn64) as [_ Hres].
  destruct rr; try done. destruct Ha as [[_ ?]|[_ Ha]]; [done|].
  rewrite (Ha eq_refl) in Hres. unfold Window.update in Hres. by rewrite Hfr in Hres.
Qed.

(** C2.  No replay: once a transport packet was accepted, no packet with the
    same receiver index and nonce (so not the same packet either) is accepted
    again, whatever happens to the peer in between, as long as the server does
    not give the index to a new session. *)
Theorem transport_no_replay now addr packet self self1 v self2 now' addr' packet' idx n :
  peer_reachable self → is_bytes packet → is_bytes packet' →
  Transport.our_index packet = Ok idx → Transport.nonce packet = Ok n →
  Transport.our_index packet' = Ok idx → Transport.nonce packet' = Ok n →
  handle_incoming_transport now addr packet self = (self1, Ok v) →
  peer_run_without idx self1 self2 →
  is_ok (handle_incoming_transport now' addr' packet' self2).2 = false.
Proof.
  intros [Hd Hw]%reachable_inv Hb Hb' Hi Hn Hi' Hn' H Hrun.
  pose proof (incoming_burns _ _ _ _ _ _ _ _ Hd Hw Hb Hi Hn H) as Hburnt. clear H Hd Hw.
  induction Hrun as [x|x y z (f & Hf & Hst) _ IH].
  - by eapply burnt_refused.
  - apply IH. eapply slots_step_burnt; [by eapply peer_step_slots|done|done].
Qed.

(** The window is moved as soon as the guards before the decryption hold. *)
Lemma receive_moves_window now packet n s :
  snow_is_handshake_finished (s_noise s) = true → n < REJECT_AFTER_MESSAGES →
  Timestamp.elapsed now (birthday s) < REJECT_AFTER_TIME →
  anti_replay (receive_on_session now packet n s).1 = (AntiReplay.update n (anti_replay s)).1.
Proof.
  intros Hf Hn%Z.ltb_lt Ht%Z.ltb_lt. unfold receive_on_session, bindM, liftM, getM, ensure, id.
  rewrite Hf, Hn, Ht. destruct (AntiReplay.update n (anti_replay s)) as [ar [[]|e|w|]]; try done.
  destruct (snow_set_receiving_nonce _ n) as [n1 [[]|e|w|]]; try done.
  destruct (Transport.payload packet) as [pl|e|w|]; try done.
  by destruct (snow_read_message _ pl _) as [n2 [wr|e|w|]].
Qed.

(** The nonce is spent before the packet is authenticated: on a young
    session in transport mode, any packet with a fresh nonce, also one that
    fails to decrypt, makes the peer refuse every later packet with that
    nonce, the genuine one included. *)
Lemma forged_packet_burns_nonce now addr packet self idx n s ty now' addr' packet' :
  peer_reachable self → is_bytes packet → is_bytes packet' →
  Transport.our_index packet = Ok idx → Transport.nonce packet = Ok n →
  Transport.our_index packet' = Ok idx → Transport.nonce packet' = Ok n →
  find_session idx self = Some (s, ty) → snow_is_handshake_finished (s_noise s) = true →
  n < REJECT_AFTER_MESSAGES → Timestamp.elapsed now (birthday s) < REJECT_AFTER_TIME →
  is_ok (handle_incoming_transport now' addr' packet' (handle_incoming_transport now addr packet self).1).2 = false.
Proof.
  intros [Hd Hw]%reachable_inv Hb Hb' Hi Hn Hi' Hn' Hf Hfin Hlt Ht. apply (burnt_refused _ _ _ _ idx n); [done..|].
  pose proof (receive_moves_window now packet n s Hfin Hlt Ht) as Hmove.
  pose proof (incoming_found now addr packet self n idx s ty Hn Hi Hf) as Hin.
  pose proof (incoming_indices now addr packet self) as Hperm.
  destruct (receive_on_session now packet n s) as [s' rr] eqn:Hrec.
  destruct (handle_incoming_transport now addr packet self) as [self' r]. destruct Hin as (E & Hr & _). cbn [fst] in *.
  apply receive_effect in Hrec as (Ho & _). apply find_session_spec in Hf as (Hslot & Hidx & _).
  assert (NoDup (indices (sessions self'))) as Hd'.
  { destruct r as [[raw tr]| | |]; [rewrite <-Hperm in Hd; by apply NoDup_app in Hd as [? _]|by rewrite Hperm..]. }
  assert (∃ ty', slot ty' (sessions self') = Some s') as [ty' Hs'].
  { rewrite E. destruct ty, (is_ok rr); [exists Past|exists Past|exists Current|exists Current|exists Current|exists Next]; done. }
  intros ty'' x Hx Hix. assert (x = s') as -> by (eapply indices_slot_inj; [exact Hd'|exact Hx|exact Hs'|congruence]).
  destruct (Hw _ _ Hslot) as [w Hrw]. pose proof (transport_nonce_u64 _ _ Hb Hn) as Hn64.
  exists (Window.update n w).1. rewrite Hmove. split; [by apply refines_step|].
  unfold Window.update. destruct (Window.fresh w n) eqn:?; [apply fresh_accepted|done].
Qed.
End sessions.
