(* ===== verification/PeerTotal.v ===== *)
(** * A peer does not panic

    Every operation of src/peer.rs, on a peer whose fields are what the
    operations leave behind, ends in a value or an error: no slice is out of
    range, no `unwrap` meets an error. *)

From S2P Require Import Prelude Crates Reference RefSnow AntiReplay Types Timestamp Message XChaCha Cookie Router Peer PeerTransport PeerSessions.

Section peer_total.
Context {BO : ByteOrder} {BOL : ByteOrderLaws BO} {B : Blake2} {BL : Blake2Laws B} {A : Aead} {AL : AeadLaws A}
        {SN : Snow} {SL : SnowLaws SN} {ST : SnowTotal SN} {R : Rips}.
Import PeerOps.

(** ** The state of a peer *)

Definition cookie_calm (g : Generator.t) : Prop :=
  length (Generator.mac1_key g) = 32%nat ∧ length (Generator.mac2_cookie g) = 16%nat ∧
  length (Generator.mac2_key g) = 32%nat ∧ is_bytes (Generator.mac2_key g).

Record session_calm (s : Session) : Prop := {
  sc_window : ∃ w, AntiReplay.refines (anti_replay s) w;
  sc_ours : is_u32 (our_index s);
  sc_theirs : is_u32 (their_index s);
  sc_transport : snow_is_handshake_finished (s_noise s) = true → snow_transport (s_noise s);
}.

Definition slots_calm (ss : Sessions) : Prop :=
  (∀ ty s, slot ty ss = Some s → session_calm s) ∧
  (∀ s, current ss = Some s → snow_transport (s_noise s)).

(** Keys of 32 bytes, masks within the width of their address. *)
Definition info_calm (i : PeerInfo) : Prop :=
  length (pub_key i) = 32%nat ∧ (∀ k, psk i = Some k → length k = 32%nat) ∧ Routes.valid (allowed_ips i).

Record peer_calm (self : Peer) : Prop := {
  pc_slots : slots_calm (sessions self);
  pc_cookie : cookie_calm (cookie self);
  pc_info : info_calm (info self);
}.

Lemma peer_calm_new i : info_calm i → peer_calm (PeerOps.new i).
Proof.
  intros Hi. split; [split; [by intros []|done]| |done]. split_and!; [apply length_mac1_key|done|apply length_mac2_key|apply blake2s_bytes].
Qed.

Lemma peer_calm_slots self ss : peer_calm self → slots_calm ss → peer_calm (set_sessions ss self).
Proof. by intros [] ?. Qed.
Lemma peer_calm_timers self tm : peer_calm self → peer_calm (set_timers tm self).
Proof. by intros []. Qed.
Lemma peer_calm_queue self q : peer_calm self → peer_calm (set_outgoing_queue q self).
Proof. by intros []. Qed.
Lemma peer_calm_endpoint self e : peer_calm self → peer_calm (set_info (set_endpoint e (info self)) self).
Proof. by intros []. Qed.
Hint Resolve peer_calm_slots peer_calm_timers peer_calm_queue peer_calm_endpoint : wg.

Lemma psk_length i : info_calm i → length (default (zeros 32) (psk i)) = 32%nat.
Proof. intros (_ & H & _). destruct (psk i) as [k|]; simpl; [by apply H|done]. Qed.

(** Moving sessions between the slots. *)
Lemma slots_calm_next s ss : slots_calm ss → session_calm s → slots_calm (installed s ss).1.
Proof.
  intros [H1 H2] Hs. unfold installed. destruct ss as [p c [n|]]; (split; [|by apply H2]).
  - intros [] s'; simpl; intros E; simplify_eq; [by apply (H1 Next)|by apply (H1 Current)|done].
  - intros [] s'; simpl; intros E; simplify_eq; [by apply (H1 Past)|by apply (H1 Current)|done].
Qed.
Lemma slots_calm_take ss : slots_calm ss → slots_calm (set_next None ss).
Proof. intros [H1 H2]. split; [|by apply H2]. intros [] s'; simpl; intros E; [by apply (H1 Past)|by apply (H1 Current)|done]. Qed.
Lemma slots_calm_rotate o ss :
  slots_calm ss → (∀ s, o = Some s → session_calm s ∧ snow_transport (s_noise s)) →
  slots_calm (set_current o (set_past (current ss) ss)).
Proof.
  intros [H1 H2] Ho. split; [|simpl; intros s Hs; by apply Ho].
  intros [] s'; simpl; intros E; [by apply (H1 Current)|by apply Ho|by apply (H1 Next)].
Qed.
Lemma slots_calm_put ty s ss self :
  slots_calm ss → session_calm s → (ty = Current → snow_transport (s_noise s)) →
  sessions self = ss → slots_calm (sessions (put_session ty s self)).
Proof.
  intros [H1 H2] Hs Hc <-. split.
  - intros ty' s' Hs'. destruct ty, ty'; simpl in Hs'; simplify_eq; try done;
      first [by apply (H1 Past)|by apply (H1 Current)|by apply (H1 Next)].
  - destruct ty; simpl; intros s' Hs'; simplify_eq; by auto.
Qed.

Lemma peer_calm_put ty s self :
  peer_calm self → session_calm s → (ty = Current → snow_transport (s_noise s)) → peer_calm (put_session ty s self).
Proof. intros Hp Hs Hc. apply peer_calm_slots; [done|]. by apply (slots_calm_put ty s (sessions self) self); [apply Hp|..]. Qed.

(** ** The steps *)

Lemma update_calm nonce ar w : AntiReplay.refines ar w → is_u64 nonce →
  is_panic (AntiReplay.update nonce ar).2 = false ∧ ∃ w', AntiReplay.refines (AntiReplay.update nonce ar).1 w'.
Proof.
  intros Hr Hn. destruct (AntiReplay.refines_step ar w nonce Hr Hn) as [H1 ->]. split; [|eauto].
  unfold Window.update. by destruct (Window.fresh w nonce).
Qed.

Lemma session_calm_noise n s :
  session_calm s → (snow_is_handshake_finished n = true → snow_transport n) → session_calm (set_s_noise n s).
Proof. by intros [] ?. Qed.

Lemma read_u32_calm lo p : is_bytes p → (lo + 4 ≤ length p)%nat → calm is_u32 (read_u32_from lo p).
Proof.
  intros Hp Hl. rewrite read_u32_from_ok by done. simpl.
  assert (is_bytes (take 4 (drop lo p))) as Hs by (by apply Forall_take, Forall_drop).
  pose proof (le_combine_bound _ Hs) as Hc. by rewrite length_take_le in Hc by (rewrite length_drop; lia).
Qed.

Definition macs_calm (macs : bytes * option bytes) : Prop :=
  length macs.1 = 16%nat ∧ ∀ m, macs.2 = Some m → length m = 16%nat.

Lemma safe_build_macs now input : safe peer_calm macs_calm (build_macs now input).
Proof.
  intros self [H1 (K1 & K2 & K3 & K4) H3]. split; [by split|]. split; simpl.
  - apply length_blake2s; lia.
  - intros m. destruct (is_secret_valid _ _); [|done]. intros [= <-]. apply length_blake2s; lia.
Qed.

Lemma put_mac2_calm lo hi mac2 packet :
  (hi = lo + 16)%nat → (hi ≤ length packet)%nat → (∀ m, mac2 = Some m → length m = 16%nat) →
  is_panic (put_mac2 lo hi mac2 packet) = false.
Proof.
  intros -> Hl Hm. destruct mac2 as [m|]; [|done]. unfold put_mac2.
  rewrite copy_into_Ok; [done|lia|done|]. rewrite (Hm m eq_refl). lia.
Qed.

Lemma install_calm s self : peer_calm self → session_calm s → peer_calm (install_next s self).1.
Proof.
  intros [H1 H2 H3] Hs. destruct (install_next_slots s self) as (E1 & _ & E2 & _).
  assert (cookie (install_next s self).1 = cookie self) as E3.
  { unfold install_next. by destruct (next (sessions self)). }
  split; [rewrite E1; by apply slots_calm_next|by rewrite E3|by rewrite E2].
Qed.

Lemma safe_install s : session_calm s →
  safe peer_calm (fun _ => True) (fun self => let '(self', d) := install_next s self in (self', Ok d)).
Proof.
  intros Hs self Hp. pose proof (install_calm s self Hp Hs). by destruct (install_next s self).
Qed.

Lemma session_calm_fresh n i t :
  is_u32 i → is_u32 t → (snow_is_handshake_finished n = true → snow_transport n) →
  session_calm (mkSession n i t AntiReplay.new Timestamp.default).
Proof. intros. split; [exists Window.new; apply AntiReplay.refines_new|done..]. Qed.

Lemma snow_write_calm n p cap : calm (fun m => (length m ≤ cap)%nat) (snow_write_message n p cap).2.
Proof.
  destruct (snow_write_message n p cap) as [n' [m|e|w|]] eqn:E; try done; simpl.
  - by eapply snow_write_fits.
  - apply (snow_write_no_panic n p cap w). by rewrite E.
Qed.
Lemma snow_read_calm n m cap : calm (fun p => (length p ≤ cap)%nat) (snow_read_message n m cap).2.
Proof.
  destruct (snow_read_message n m cap) as [n' [p|e|w|]] eqn:E; try done; simpl.
  - by eapply snow_read_fits.
  - apply (snow_read_no_panic n m cap w). by rewrite E.
Qed.

(** ** The handshake *)

Lemma initiate_safe now wall pk index :
  length pk = 32%nat → is_u32 index → Tai64n.in_range wall →
  safe peer_calm (fun _ => True) (initiate_new_session now wall pk index).
Proof.
  intros Hpk Hi Hw. unfold initiate_new_session. apply safe_bind_get. intros self Hself.
  destruct (pc_info _ Hself) as (Hk & Hpsk & _). unfold id. apply safe_bind_lift.
  { eapply snow_build_initiator_total; [done|done|done|done|]. by apply psk_length, Hself. }
  intros n Hn. apply safe_bind_lift; [by destruct (endpoint (info self))|]. intros ep _.
  eapply safe_bind_ok; [by apply Tai64n.now_encoding|].
  eapply safe_bind_ok; [apply index_set_Ok; rewrite length_zeros; lia|].
  cbn [our_index SessionOps.new].
  eapply safe_bind_ok; [apply write_u32_overlay; [done|rewrite length_insert; simpl; lia]|].
  set (packet := overlay 4 _ _). assert (length packet = 148%nat) as Hl.
  { unfold packet. rewrite length_overlay; rewrite length_insert; [done|]. rewrite length_le_split. simpl. lia. }
  rewrite Hl. set (label := be_split 8 _ ++ _). cbv zeta. change (s_noise (SessionOps.new n index)) with n.
  pose proof (snow_write_calm n label (148 - 8)) as Hc.
  pose proof (snow_initiator_unfinished _ _ label (148 - 8) Hn) as Hu.
  destruct (snow_write_message n label (148 - 8)) as [n' wr]. cbn [fst snd] in *. cbv zeta.
  apply safe_bind with (phi := fun m => (length m ≤ 148 - 8)%nat); [by apply safe_lift|]. intros m Hm.
  assert (length (overlay 8 m packet) = 148%nat) as Hl2 by (rewrite length_overlay; lia).
  eapply safe_bind_ok; [apply slice_Ok; lia|]. apply safe_bind with (phi := macs_calm); [apply safe_build_macs|].
  intros [mac1 mac2] [Hm1 Hm2]. cbn [fst snd] in *.
  eapply safe_bind_ok; [apply copy_into_Ok; lia|]. rewrite !length_overlay by lia. rewrite Hl.
  apply safe_bind_lift; [apply put_mac2_calm; [done|rewrite length_overlay; lia|done]|]. intros packet' _.
  apply safe_bind with (phi := fun _ => True).
  - apply safe_install. apply session_calm_fresh; [done|done|by rewrite Hu].
  - intros d _. by apply safe_ret.
Qed.
Lemma response_packet_safe now ns :
  is_u32 (our_index ns) → is_u32 (their_index ns) →
  safe peer_calm (fun '(s', _) => our_index s' = our_index ns ∧ their_index s' = their_index ns ∧
                                  anti_replay s' = anti_replay ns) (get_response_packet now ns).
Proof.
  intros Ho Ht. unfold get_response_packet. cbv zeta.
  eapply safe_bind_ok; [apply index_set_Ok; rewrite length_zeros; lia|].
  eapply safe_bind_ok; [apply write_u32_overlay; [done|rewrite length_insert; simpl; lia]|].
  assert (length (overlay 4 (le_split 4 (our_index ns)) (<[0%nat := 2]> (zeros 92))) = 92%nat) as Hl0.
  { rewrite length_overlay; rewrite length_insert; [done|]. rewrite length_le_split. simpl. lia. }
  eapply safe_bind_ok; [apply write_u32_overlay; [done|rewrite Hl0; lia]|].
  set (packet := overlay 8 _ _). assert (length packet = 92%nat) as Hl.
  { unfold packet. rewrite length_overlay; rewrite Hl0; [done|]. rewrite length_le_split. lia. }
  rewrite Hl. pose proof (snow_write_calm (s_noise ns) [] (92 - 12)) as Hc.
  destruct (snow_write_message (s_noise ns) [] (92 - 12)) as [n' wr]. cbn [fst snd] in *.
  apply safe_bind with (phi := fun m => (length m ≤ 92 - 12)%nat); [by apply safe_lift|]. intros m Hm.
  assert (length (overlay 12 m packet) = 92%nat) as Hl2 by (rewrite length_overlay; lia).
  eapply safe_bind_ok; [apply slice_Ok; lia|]. apply safe_bind with (phi := macs_calm); [apply safe_build_macs|].
  intros [mac1 mac2] [Hm1 Hm2]. cbn [fst snd] in *.
  eapply safe_bind_ok; [apply copy_into_Ok; lia|]. rewrite !length_overlay by lia. rewrite Hl.
  apply safe_bind_lift; [apply put_mac2_calm; [done|rewrite length_overlay; lia|done]|]. intros packet' _.
  by apply safe_ret.
Qed.

Lemma into_transport_calm s :
  calm (fun s' => snow_transport (s_noise s') ∧ our_index s' = our_index s ∧ their_index s' = their_index s ∧
                  anti_replay s' = anti_replay s) (SessionOps.into_transport_mode s).
Proof.
  unfold SessionOps.into_transport_mode. apply calm_bind_eq; [apply snow_into_transport_total|].
  intros n Hn. simpl. split; [by eapply snow_transport_mode|done].
Qed.

Lemma complete_safe now addr index inc :
  is_u32 index → is_u32 (inc_their_index inc) →
  safe peer_calm (fun _ => True) (complete_incoming_handshake now addr index inc).
Proof.
  intros Hi Ht. destruct inc as [their ts n]. cbn [inc_their_index] in Ht. unfold complete_incoming_handshake.
  apply safe_bind_get. intros self Hself. unfold id.
  apply safe_bind_any; [apply safe_lift; destruct (last_handshake_tai64n self) as [l|]; [by destruct (Tai64n.gt ts l)|done]|].
  intros _. pose proof (snow_set_psk_total n 2 _ (psk_length _ (pc_info _ Hself))) as Hp.
  destruct (snow_set_psk n 2 _) as [n1 ps]. cbn [snd] in Hp.
  apply safe_bind_lift; [done|]. intros _ _.
  eapply safe_bind; [apply response_packet_safe; [exact Hi|exact Ht]|]. intros [ns response] (E1 & E2 & E3). cbn [our_index their_index anti_replay] in *.
  eapply safe_bind; [apply safe_lift, into_transport_calm|]. intros tr (Htr & F1 & F2 & F3).
  assert (session_calm tr) as Hs.
  { split; rewrite ?F1, ?F2, ?F3, ?E1, ?E2, ?E3; [exists Window.new; apply AntiReplay.refines_new|done..]. }
  apply safe_bind_any; [by apply safe_install|]. intros dead.
  apply safe_bind_any; [|intros _; by apply safe_ret].
  apply safe_mod; [|done]. intros q Hq. apply peer_calm_timers. destruct Hq as [Q1 Q2 Q3]. by split.
Qed.

Lemma process_incoming_calm pk packet :
  length pk = 32%nat → is_bytes packet → length packet = 148%nat →
  calm (fun inc => is_u32 (inc_their_index inc) ∧ snow_get_remote_static (inc_noise inc) ≠ None)
    (process_incoming_handshake pk packet).
Proof.
  intros Hpk Hb Hl. unfold process_incoming_handshake.
  apply calm_bind_eq; [by apply snow_build_responder_total|]. intros n Hn.
  unfold Initiation.noise_bytes. rewrite slice_Ok by lia. cbn [bind_res].
  set (m := take (116 - 8) (drop 8 packet)). pose proof (snow_read_calm n m 12) as Hc.
  destruct (snow_read_message n m 12) as [n' r] eqn:Er. cbn [snd] in Hc.
  apply calm_bind_eq; [by eapply calm_no_panic|]. intros p ->.
  apply calm_bind_eq; [apply ensure_no_panic|]. intros _ _.
  eapply calm_bind; [apply read_u32_calm; [done|lia]|]. intros i Hi. simpl. split; [done|].
  by eapply snow_responder_static.
Qed.

Lemma process_response_safe now addr packet :
  is_bytes packet → length packet = 92%nat →
  safe peer_calm (fun _ => True) (process_incoming_handshake_response now addr packet).
Proof.
  intros Hb Hl. unfold process_incoming_handshake_response. apply safe_bind_get. intros self Hself.
  apply safe_bind_any.
  { apply safe_mod; [|done]. intros q Hq. apply peer_calm_slots; [done|]. apply slots_calm_take, Hq. }
  intros _. apply safe_bind_lift; [apply ok_or_no_panic|]. intros s Hs%ok_or_Ok.
  assert (session_calm s) as Hsc by (by apply (pc_slots _ Hself) with (ty := Next)).
  unfold Response.noise_bytes. eapply safe_bind_ok; [apply slice_Ok; lia|].
  set (m := take _ _). pose proof (snow_read_calm (s_noise s) m 0) as Hc.
  destruct (snow_read_message (s_noise s) m 0) as [n' r]. cbn [snd] in Hc.
  apply safe_bind_any; [by eapply safe_lift, calm_mono|]. intros _.
  eapply safe_bind; [apply safe_lift, into_transport_calm|]. intros tr (Htr & F1 & F2 & F3).
  eapply safe_bind; [apply safe_lift, read_u32_calm; [done|lia]|]. intros sender Hsender.
  apply safe_bind_any.
  { apply safe_mod; [|done]. intros q Hq. apply peer_calm_timers. destruct Hq as [Q1 Q2 Q3]. by split. }
  intros _ q Hq. split; [|done]. unfold rotate. simpl. apply peer_calm_slots; [done|].
  apply slots_calm_rotate; [apply Hq|]. intros s' [= <-]. split; [|done].
  destruct Hsc as [K1 K2 K3 K4]. split; simpl; rewrite ?F1, ?F3; done.
Qed.

Lemma decrypt_calm key nonce input aad tag output :
  is_bytes key → is_bytes nonce → length key = 32%nat → length nonce = 24%nat → length output = length input →
  calm (fun b => length b = length output) (XChaCha.decrypt key nonce input aad tag output).
Proof.
  intros Hk Hn Lk Ln Lo. unfold XChaCha.decrypt. rewrite derive_ok by done. cbn [bind_res].
  destruct (aead_decrypt_cases (HChaChaSpec.hchacha20 key (take 16 nonce)) (zeros 4 ++ drop 16 nonce) aad input tag)
    as [(pt & -> & Hp)|He]; [apply length_hchacha20_spec|rewrite length_app, length_drop, length_zeros; lia| |].
  - simpl. apply length_overlay. lia.
  - by destruct (aead_decrypt _ _ _ _ _).
Qed.

Lemma cookie_reply_safe now packet :
  is_bytes packet → length packet = 64%nat → safe peer_calm (fun _ => True) (consume_cookie_reply now packet).
Proof.
  intros Hb Hl self [H1 Hg H3]. pose proof Hg as (K1 & K2 & K3 & K4).
  assert (∀ g, cookie_calm g → peer_calm (set_cookie g self)) as Hset by (intros g Hg'; by split).
  unfold consume_cookie_reply, Generator.consume_reply, CookieReply.nonce, CookieReply.cookie, CookieReply.aead_tag.
  rewrite !slice_Ok by lia. cbn [bind_res].
  destruct (Generator.mac2_last_mac1 (cookie self)) as [m1|]; [|split; [by apply Hset|done]]. cbn [ok_or bind_res].
  match goal with |- context [XChaCha.decrypt ?k ?n ?i ?a ?t ?o] =>
    assert (calm (fun b => length b = length o) (XChaCha.decrypt k n i a t o)) as Hd;
      [|destruct (XChaCha.decrypt k n i a t o)] end.
  { apply decrypt_calm; first [done|by apply Forall_take, Forall_drop|rewrite ?length_take, ?length_drop; lia]. }
  all: try (split; [by apply Hset|done]). split; [|done]. apply Hset. simpl in Hd. split_and!; try done. simpl. congruence.
Qed.

(** ** Transport *)

Definition on_air (s : Session) : Prop := session_calm s ∧ snow_transport (s_noise s).

Lemma on_air_noise n s : on_air s → snow_transport n → on_air (set_s_noise n s).
Proof. intros [Hs _] Hn. split; [by apply session_calm_noise|done]. Qed.

Lemma trim_calm raw len : is_panic (trim_packet raw len) = false.
Proof.
  unfold trim_packet. destruct (0 <? len)%nat; [|done]. by destruct (IpPacket.new (take len raw)).
Qed.

Lemma safe_no_panic {W X} (I : W → Prop) (r : res X) : is_panic r = false → safe I (fun _ => True) (liftM r).
Proof. intros H. by eapply safe_lift, calm_mono; [by apply calm_eq|]. Qed.

(** What is received on a session in transport mode leaves it there. *)
Lemma receive_safe now packet nonce :
  is_u64 nonce → (32 ≤ length packet)%nat → safe on_air (fun _ => True) (receive_on_session now packet nonce).
Proof.
  intros Hn Hl. unfold receive_on_session. apply safe_bind_get. intros s0 _.
  do 3 (apply safe_bind_any; [apply safe_no_panic, ensure_no_panic|]; intros _).
  apply safe_bind_any.
  { intros s [[[w Hw] K2 K3 K4] Ht]. destruct (update_calm nonce _ w Hw Hn) as [Hp Hr].
    destruct (AntiReplay.update nonce (anti_replay s)) as [ar r]. cbn [fst snd] in *. split; [by split|by destruct r]. }
  intros _. apply safe_bind_any.
  { intros s Hs. pose proof (snow_transport_set_nonce _ nonce (proj2 Hs)) as Ht. pose proof (snow_set_nonce_total (s_noise s) nonce) as Hp.
    destruct (snow_set_receiving_nonce (s_noise s) nonce) as [n r]. cbn [fst snd] in *. split; [by apply on_air_noise|by destruct r]. }
  intros _. unfold Transport.payload. eapply safe_bind_ok; [apply slice_from_Ok; lia|].
  apply safe_bind_any; [|intros wr; apply safe_no_panic, trim_calm].
  intros s Hs. pose proof (snow_transport_read _ (drop 16 packet) (length packet) (proj2 Hs)) as Ht.
  pose proof (snow_read_calm (s_noise s) (drop 16 packet) (length packet)) as Hc.
  destruct (snow_read_message (s_noise s) (drop 16 packet) (length packet)) as [n r]. cbn [fst snd] in *.
  split; [by apply on_air_noise|by destruct r].
Qed.

(** On any session of a peer: it moves only when it is in transport mode. *)
Lemma receive_calm now packet nonce s :
  is_u64 nonce → (32 ≤ length packet)%nat → session_calm s →
  let '(s', r) := receive_on_session now packet nonce s in
  is_panic r = false ∧ session_calm s' ∧ (snow_transport (s_noise s) ∨ is_ok r = true → snow_transport (s_noise s')).
Proof.
  intros Hn Hl Hs. destruct (snow_is_handshake_finished (s_noise s)) eqn:Hf.
  - assert (on_air s) as Ha by (split; [done|by apply Hs]). destruct (receive_safe now packet nonce Hn Hl s Ha) as [H1 H2].
    destruct (receive_on_session now packet nonce s) as [s' r]. cbn [fst snd] in *. destruct H1. split; [by destruct r|done].
  - unfold receive_on_session, bindM, getM, id, liftM, ensure. rewrite Hf. split_and!; [done|done|]. by intros [|].
Qed.

Lemma incoming_safe now addr packet :
  is_bytes packet → (32 ≤ length packet)%nat → safe peer_calm (fun _ => True) (handle_incoming_transport now addr packet).
Proof.
  intros Hb Hl self Hself.
  assert (∃ nonce idx, Transport.nonce packet = Ok nonce ∧ is_u64 nonce ∧ Transport.our_index packet = Ok idx)
    as (nonce & idx & E1 & Hn & E2).
  { do 2 eexists. split; [apply transport_nonce_ok; lia|]. split; [|apply read_u32_from_ok; lia].
    eapply transport_nonce_u64; [exact Hb|]. apply transport_nonce_ok. lia. }
  destruct (find_session idx self) as [[s ty]|] eqn:Hf.
  - unfold handle_incoming_transport. erewrite bindM_run by (by apply liftM_run). erewrite bindM_run by (by apply liftM_run).
    erewrite bindM_run by reflexivity. rewrite Hf. erewrite bindM_run by reflexivity. cbv beta iota.
    apply find_session_spec in Hf as (Hs & _). pose proof (proj1 (pc_slots _ Hself) _ _ Hs) as Hsc.
    pose proof (receive_calm now packet nonce s Hn Hl Hsc) as Hr. unfold bindM at 1.
    destruct (receive_on_session now packet nonce s) as [s' [raw|e|w|]]; destruct Hr as (Hp & Hs' & Ht); try done.
    2,3: (split; [|done]; apply peer_calm_put; [done|done|]; intros ->; apply Ht; left; by apply (pc_slots _ Hself)).
    specialize (Ht (or_intror eq_refl)). split; [|by unfold bindM, modM, retM; destruct (decide (ty = Next))].
    assert (peer_calm (put_session ty s' self)) as [H1 H2 H3] by (by apply peer_calm_put).
    unfold bindM, modM, retM. cbv beta iota zeta. destruct (decide (ty = Next)) as [->|]; (split; [|done|done]); [|exact H1].
    apply (slots_calm_rotate (Some s') (set_next None (sessions self))); [apply slots_calm_take, Hself|].
    intros x [= <-]. by split.
  - unfold handle_incoming_transport. erewrite bindM_run by (by apply liftM_run). erewrite bindM_run by (by apply liftM_run).
    erewrite bindM_run by reflexivity. rewrite Hf. done.
Qed.
Lemma outgoing_safe now packet : safe peer_calm (fun _ => True) (handle_outgoing_transport now packet).
Proof.
  unfold handle_outgoing_transport. apply safe_bind_get. intros self Hself. unfold id.
  apply safe_bind_lift; [apply ok_or_no_panic|]. intros s Hs%ok_or_Ok.
  assert (on_air s) as Hair by (split; [by apply (pc_slots _ Hself) with (ty := Current)|by apply (pc_slots _ Hself)]).
  apply safe_bind_lift; [apply ok_or_no_panic|]. intros ep _.
  set (n := (length packet + padding_of (length packet))%nat).
  apply safe_bind_lift; [apply snow_sending_nonce_total|]. intros nonce Hnonce%snow_sending_nonce_u64.
  do 2 (apply safe_bind_any; [apply safe_no_panic, ensure_no_panic|]; intros _).
  unfold TRANSPORT_OVERHEAD, TRANSPORT_HEADER_SIZE, AEAD_TAG_SIZE.
  eapply safe_bind_ok; [apply index_set_Ok; rewrite length_zeros; lia|].
  eapply safe_bind_ok; [apply write_u32_overlay; [apply Hair|rewrite length_insert, length_zeros; lia]|].
  match goal with |- context [with_slice_from 8 _ ?b] => assert (length b = n + (16 + 16))%nat as Hl end.
  { rewrite length_overlay; rewrite length_insert, length_zeros; [done|]. rewrite length_le_split. lia. }
  eapply safe_bind_ok; [apply write_u64_overlay; [done|rewrite Hl; lia]|].
  apply safe_bind_any.
  - intros q Hq. set (out := overlay 8 _ _). set (pad := packet ++ zeros _).
    pose proof (snow_transport_write _ pad (length out - 16) (proj2 Hair)) as Ht.
    pose proof (snow_write_calm (s_noise s) pad (length out - 16)) as Hc.
    destruct (snow_write_message (s_noise s) pad (length out - 16)) as [m r]. cbn [fst snd] in *.
    split; [|by destruct r]. apply peer_calm_put; [done| |done]. by apply session_calm_noise; [apply Hair|].
  - intros m. apply safe_bind_any; [|intros _; by apply safe_ret]. apply safe_mod; [|done].
    intros q [Q1 Q2 Q3]. by split.
Qed.

(** ** Queries *)

Lemma current_nonce_calm self s :
  peer_calm self → current (sessions self) = Some s → ∃ n, snow_sending_nonce (s_noise s) = Ok n.
Proof. intros Hself Hs. apply snow_transport_nonce. by apply (pc_slots _ Hself). Qed.

Lemma needs_handshake_calm now sending self : peer_calm self → is_panic (needs_new_handshake now sending self) = false.
Proof.
  intros Hself. unfold needs_new_handshake. destruct (next (sessions self)); [done|].
  destruct (current (sessions self)) as [s|] eqn:Hs; [|done]. destruct (current_nonce_calm self s Hself Hs) as [n ->].
  destruct (sending && _); [done|]. by destruct (negb sending && _).
Qed.

Lemma ready_calm now self : peer_calm self → is_panic (ready_for_transport now self) = false.
Proof.
  intros Hself. unfold ready_for_transport. destruct (current (sessions self)) as [s|] eqn:Hs; [|done].
  destruct (current_nonce_calm self s Hself Hs) as [n ->]. by destruct (_ <? _).
Qed.

Lemma queue_egress_calm packet self : peer_calm self → peer_calm (queue_egress packet self).
Proof. intros Hself. unfold queue_egress. destruct (_ <? _)%nat; [|done]. by destruct Hself. Qed.

Lemma wipe_calm self : peer_calm self → peer_calm (set_sessions (SessionOps.wipe (sessions self)).1 self).
Proof. intros [H1 H2 H3]. split; [|done|done]. split; [by intros []|done]. Qed.
End peer_total.
