(* ===== verification/PeerHandshake.v ===== *)
(** * The handshake between two peers

    Theorems about `initiate_new_session`, `process_incoming_handshake`,
    `complete_incoming_handshake` and `process_incoming_handshake_response` of
    src/peer.rs: the packets they build and the sessions they leave. *)

From S2P Require Import Prelude Crates Reference RefSnow AntiReplay Types Timestamp Message XChaCha Cookie Router Peer PeerTransport PeerSessions.

Section packets.
Context {BO : ByteOrder} {BOL : ByteOrderLaws BO} {B : Blake2} {BL : Blake2Laws B} {A : Aead}
        {S : Subtle} {SSL : SubtleLaws S} {SN : Snow} {SL : SnowLaws SN}.
Import PeerOps.

(** The packets, field by field. *)
Definition initiation_packet (index : Z) (m mac1 mac2 : bytes) : bytes :=
  ([1; 0; 0; 0] ++ le_split 4 index) ++ m ++ mac1 ++ mac2.
Definition response_packet (index their : Z) (m mac1 mac2 : bytes) : bytes :=
  ([2; 0; 0; 0] ++ le_split 4 index ++ le_split 4 their) ++ m ++ mac1 ++ mac2.

Lemma initiation_header k i :
  is_u32 i →
  (let? b := index_set 0 1 (zeros (8 + k)) in with_slice_from 4 (le_write_u32 i) b)
  = Ok (([1; 0; 0; 0] ++ le_split 4 i) ++ zeros k).
Proof.
  intros Hi. rewrite index_set_Ok by (rewrite length_zeros; lia). cbn [bind_res].
  rewrite write_u32_overlay by (done || rewrite length_insert, length_zeros; lia). done.
Qed.

Lemma response_header k i j :
  is_u32 i → is_u32 j →
  (let? b := index_set 0 2 (zeros (12 + k)) in
   let? b := with_slice_from 4 (le_write_u32 i) b in with_slice_from 8 (le_write_u32 j) b)
  = Ok (([2; 0; 0; 0] ++ le_split 4 i ++ le_split 4 j) ++ zeros k).
Proof.
  intros Hi Hj. rewrite index_set_Ok by (rewrite length_zeros; lia). cbn [bind_res].
  rewrite write_u32_overlay by (done || rewrite length_insert, length_zeros; lia). cbn [bind_res].
  rewrite write_u32_overlay; [done|done|].
  rewrite length_overlay; rewrite ?length_insert, ?length_zeros, ?length_le_split; lia.
Qed.

(** What the cookie generator of a peer for the key [pk] returns. *)
Lemma build_macs_spec pk now input self :
  generator_for pk (cookie self) →
  ∃ mac1 mac2,
    build_macs now input self
      = (set_cookie (Generator.build_macs now input (cookie self)).1 self, Ok (mac1, mac2)) ∧
    mac1 = blake2s 16 (mac1_key_of pk) input ∧ length mac1 = 16%nat ∧
    match mac2 with Some m => length m = 16%nat | None => True end.
Proof.
  intros (H1 & H2 & H3). unfold build_macs, Generator.build_macs. rewrite H1.
  eexists _, _. split; [reflexivity|]. split; [done|]. split.
  - apply length_blake2s; [lia|]. rewrite length_mac1_key. lia.
  - destruct (is_secret_valid _ _); [|done]. apply length_blake2s; [lia|]. rewrite H3. lia.
Qed.

(** Filling in a buffer [h ++ zeros]: the message, the two MACs. *)
Lemma fill_packet (h m mac1 : bytes) (mac2 : option bytes) lo :
  length h = lo → length mac1 = 16%nat → match mac2 with Some x => length x = 16%nat | None => True end →
  let p1 := overlay lo m (h ++ zeros (length m + 32)) in
  let hi := (lo + length m)%nat in
  slice 0 hi p1 = Ok (h ++ m) ∧
  ∃ p2, copy_into hi (hi + 16) mac1 p1 = Ok p2 ∧ length p2 = (hi + 32)%nat ∧
        put_mac2 (hi + 16) (length p2) mac2 p2 = Ok (h ++ m ++ mac1 ++ default (zeros 16) mac2).
Proof.
  intros Hh H1 H2 p1 hi.
  assert (p1 = h ++ m ++ zeros 16 ++ zeros 16) as Hp.
  { unfold p1. replace (zeros (length m + 32)) with (zeros (length m) ++ zeros 16 ++ zeros 16)
      by (unfold zeros; rewrite <-!replicate_add; f_equal; lia).
    apply overlay_app3; [done|by rewrite length_zeros]. }
  assert (length p1 = (hi + 32)%nat) as Hl
    by (rewrite Hp, !length_app, !length_zeros; unfold hi; lia).
  split.
  - rewrite slice_Ok by lia. rewrite Nat.sub_0_r, drop_0, Hp, app_assoc. f_equal.
    apply take_app_length'. rewrite length_app. unfold hi. lia.
  - assert (overlay hi mac1 p1 = (h ++ m) ++ mac1 ++ zeros 16) as Ho.
    { rewrite Hp, app_assoc. apply overlay_app3; [rewrite length_app; unfold hi; lia|by rewrite length_zeros]. }
    exists (overlay hi mac1 p1). split; [apply copy_into_Ok; lia|].
    assert (length (overlay hi mac1 p1) = (hi + 32)%nat) as Hl2 by (rewrite length_overlay; lia).
    split; [done|]. destruct mac2 as [x|]; simpl.
    + rewrite copy_into_Ok by lia. f_equal. rewrite Ho, (app_assoc (h ++ m)), <-(app_nil_r (zeros 16)).
      rewrite overlay_app3; [by rewrite app_nil_r, <-!app_assoc|rewrite !length_app; unfold hi; lia|by rewrite length_zeros].
    + by rewrite Ho, <-!app_assoc.
Qed.

(** The fields of a whole initiation, and of a whole response. *)
Lemma initiation_fields i m mac1 mac2 :
  is_u32 i → length m = 108%nat → length mac1 = 16%nat → length mac2 = 16%nat →
  let p := initiation_packet i m mac1 mac2 in
  MessageParser.try_from p = Ok (Message_Initiation p) ∧ Initiation.sender_index p = Ok i ∧
  Initiation.noise_bytes p = Ok m ∧
  take 116 p = ([1; 0; 0; 0] ++ le_split 4 i) ++ m ∧ take 16 (drop 116 p) = mac1.
Proof.
  intros Hi Hm H1 H2 p.
  assert (length p = 148%nat) as Hl by (unfold p, initiation_packet; rewrite !length_app; simpl; lia).
  split_and!.
  - apply try_from_Ok. done.
  - unfold Initiation.sender_index. rewrite read_u32_from_ok by lia. f_equal.
    transitivity (le_combine (le_split 4 i)); [done|]. by apply le_combine_split.
  - unfold Initiation.noise_bytes. rewrite slice_Ok by lia. f_equal.
    unfold p, initiation_packet. rewrite drop_app_length' by done. by apply take_app_length'.
  - unfold p, initiation_packet. rewrite app_assoc. apply take_app_length'. rewrite length_app. simpl. lia.
  - unfold p, initiation_packet. rewrite app_assoc.
    rewrite drop_app_length' by (rewrite length_app; simpl; lia). by apply take_app_length'.
Qed.

Lemma response_fields i j m mac1 mac2 :
  is_u32 i → is_u32 j → length m = 48%nat → length mac1 = 16%nat → length mac2 = 16%nat →
  let p := response_packet i j m mac1 mac2 in
  MessageParser.try_from p = Ok (Message_Response p) ∧ Response.sender_index p = Ok i ∧
  Response.receiver_index p = Ok j ∧ Response.noise_bytes p = Ok m ∧
  take 60 p = ([2; 0; 0; 0] ++ le_split 4 i ++ le_split 4 j) ++ m ∧ take 16 (drop 60 p) = mac1.
Proof.
  intros Hi Hj Hm H1 H2 p.
  assert (length p = 92%nat) as Hl by (unfold p, response_packet; rewrite !length_app; simpl; lia).
  split_and!.
  - apply try_from_Ok. done.
  - unfold Response.sender_index. rewrite read_u32_from_ok by lia. f_equal.
    transitivity (le_combine (le_split 4 i)); [done|]. by apply le_combine_split.
  - unfold Response.receiver_index. rewrite read_u32_from_ok by lia. f_equal.
    transitivity (le_combine (le_split 4 j)); [done|]. by apply le_combine_split.
  - unfold Response.noise_bytes. rewrite slice_Ok by lia. f_equal.
    unfold p, response_packet. rewrite drop_app_length' by done. by apply take_app_length'.
  - unfold p, response_packet. rewrite app_assoc. apply take_app_length'. rewrite length_app. simpl. lia.
  - unfold p, response_packet. rewrite app_assoc.
    rewrite drop_app_length' by (rewrite length_app; simpl; lia). by apply take_app_length'.
Qed.

(** An initiation that meets its guards runs to its end. *)
Lemma initiate_run now wall pk index self n0 n1 ep ts m peer_pk :
  Noise.build_initiator pk (pub_key (info self)) (psk (info self)) = Ok n0 →
  endpoint (info self) = Some ep → Tai64n.now wall = Ok ts → is_u32 index →
  snow_write_message n0 ts 140 = (n1, Ok m) → length m = 108%nat → generator_for peer_pk (cookie self) →
  ∃ mac1 mac2 g,
    let s := set_s_noise n1 (SessionOps.new n0 index) in
    initiate_new_session now wall pk index self =
      ((install_next s (set_cookie g self)).1,
       Ok (ep, initiation_packet index m mac1 mac2, (install_next s (set_cookie g self)).2)) ∧
    length mac1 = 16%nat ∧ length mac2 = 16%nat ∧
    mac1 = blake2s 16 (mac1_key_of peer_pk) (([1; 0; 0; 0] ++ le_split 4 index) ++ m).
Proof.
  intros Hb Hep Hts Hi Hw Hm Hg.
  destruct (build_macs_spec peer_pk now (([1; 0; 0; 0] ++ le_split 4 index) ++ m) self Hg)
    as (mac1 & mac2 & Hbm & E1 & L1 & L2).
  pose proof (fill_packet ([1; 0; 0; 0] ++ le_split 4 index) m mac1 mac2 8 eq_refl L1 L2) as Hfill.
  rewrite Hm in Hfill. destruct Hfill as (F1 & p2 & F2 & F3 & F4).
  pose proof (initiation_header 140 index Hi) as Hhdr. apply bind_res_Ok in Hhdr as (b1 & Hb1 & Hb2).
  exists mac1, (default (zeros 16) mac2), (Generator.build_macs now (([1; 0; 0; 0] ++ le_split 4 index) ++ m) (cookie self)).1.
  intros s. split; [|split; [done|]; split; [by destruct mac2|done]].
  unfold initiate_new_session. erewrite bindM_run by reflexivity. unfold id. rewrite Hb, Hep, Hts.
  do 3 erewrite bindM_run by reflexivity. cbv beta zeta.
  do 2 erewrite bindM_run by (by apply liftM_run).
  match goal with |- context [snow_write_message _ _ ?k] => change k with 140%nat end.
  change (s_noise (SessionOps.new n0 index)) with n0. rewrite Hw.
  do 2 erewrite bindM_run by (by apply liftM_run).
  erewrite bindM_run by exact Hbm. cbv beta iota.
  do 2 erewrite bindM_run by (by apply liftM_run).
  unfold bindM. fold s. by destruct (install_next s _).
Qed.

(** A response that meets its guards. *)
Lemma get_response_run now ns self n2 m peer_pk :
  is_u32 (our_index ns) → is_u32 (their_index ns) →
  snow_write_message (s_noise ns) [] 80 = (n2, Ok m) → length m = 48%nat → generator_for peer_pk (cookie self) →
  ∃ mac1 mac2 g,
    get_response_packet now ns self =
      (set_cookie g self, Ok (set_s_noise n2 ns, response_packet (our_index ns) (their_index ns) m mac1 mac2)) ∧
    length mac1 = 16%nat ∧ length mac2 = 16%nat ∧
    mac1 = blake2s 16 (mac1_key_of peer_pk) (([2; 0; 0; 0] ++ le_split 4 (our_index ns) ++ le_split 4 (their_index ns)) ++ m).
Proof.
  intros Hi Hj Hw Hm Hg. set (h := [2; 0; 0; 0] ++ le_split 4 (our_index ns) ++ le_split 4 (their_index ns)).
  destruct (build_macs_spec peer_pk now (h ++ m) self Hg) as (mac1 & mac2 & Hbm & E1 & L1 & L2).
  pose proof (fill_packet h m mac1 mac2 12 eq_refl L1 L2) as Hfill.
  rewrite Hm in Hfill. destruct Hfill as (F1 & p2 & F2 & F3 & F4).
  pose proof (response_header 80 _ _ Hi Hj) as Hhdr. apply bind_res_Ok in Hhdr as (b1 & Hb1 & Hhdr).
  apply bind_res_Ok in Hhdr as (b2 & Hb2 & Hb3).
  exists mac1, (default (zeros 16) mac2), (Generator.build_macs now (h ++ m) (cookie self)).1.
  split; [|split; [done|]; split; [by destruct mac2|done]].
  unfold get_response_packet. cbv zeta. do 3 erewrite bindM_run by (by apply liftM_run).
  match goal with |- context [snow_write_message _ _ ?k] => change k with 80%nat end.
  rewrite Hw. fold h. do 2 erewrite bindM_run by (by apply liftM_run).
  erewrite bindM_run by exact Hbm. cbv beta iota.
  do 2 erewrite bindM_run by (by apply liftM_run). reflexivity.
Qed.

Lemma complete_run now addr index their ts n n1 n2 nt m self peer_pk :
  match last_handshake_tai64n self with Some l => Tai64n.gt ts l = true | None => True end →
  snow_set_psk n 2 (default (zeros 32) (psk (info self))) = (n1, Ok tt) →
  is_u32 index → is_u32 their →
  snow_write_message n1 [] 80 = (n2, Ok m) → length m = 48%nat → snow_into_transport_mode n2 = Ok nt →
  generator_for peer_pk (cookie self) →
  ∃ self' mac1 mac2 dead,
    complete_incoming_handshake now addr index (mkIncomplete their ts n) self =
      (self', Ok (response_packet index their m mac1 mac2, dead)) ∧
    next (sessions self') = Some (mkSession nt index their AntiReplay.new (Timestamp.now now)) ∧
    endpoint (info self') = Some addr ∧ last_handshake_tai64n self' = Some ts ∧
    (outgoing_queue self' = outgoing_queue self ∧ pub_key (info self') = pub_key (info self)) ∧
    length mac1 = 16%nat ∧ length mac2 = 16%nat ∧
    mac1 = blake2s 16 (mac1_key_of peer_pk) (([2; 0; 0; 0] ++ le_split 4 index ++ le_split 4 their) ++ m).
Proof.
  intros Hlast Hpsk Hi Hj Hw Hm Ht Hg.
  set (ns := set_birthday (Timestamp.now now) (SessionOps.with_their_index n1 index their)).
  destruct (get_response_run now ns self n2 m peer_pk) as (mac1 & mac2 & g & Hrun & L1 & L2 & E1); [done..|].
  unfold complete_incoming_handshake. erewrite bindM_run by reflexivity. change (id self) with self.
  erewrite bindM_run by (apply liftM_run; destruct (last_handshake_tai64n self); [by rewrite Hlast|done]).
  rewrite Hpsk. erewrite bindM_run by reflexivity. fold ns. cbv zeta.
  erewrite bindM_run by exact Hrun. cbv beta iota.
  erewrite bindM_run by (apply liftM_run; unfold SessionOps.into_transport_mode;
    change (s_noise (set_s_noise n2 ns)) with n2; rewrite Ht; reflexivity).
  unfold bindM. set (st := mkSession _ _ _ _ _).
  destruct (install_next_slots st (set_cookie g self)) as (H1 & _ & _).
  destruct (install_next st _) as [w d] eqn:Ei. simpl in H1.
  eexists _, mac1, mac2, d. split; [reflexivity|]. split_and!; try done.
  - simpl. rewrite H1. unfold installed. simpl. by destruct (next (sessions self)).
  - unfold install_next in Ei. by destruct (next (sessions (set_cookie g self))); injection Ei as <- _.
  - unfold install_next in Ei. by destruct (next (sessions (set_cookie g self))); injection Ei as <- _.
Qed.
End packets.

Section exchange.
Context {BO : ByteOrder} {BOL : ByteOrderLaws BO} {B : Blake2} {BL : Blake2Laws B} {A : Aead}
        {S : Subtle} {SSL : SubtleLaws S} {X : X25519}
        {SN : Snow} {SL : SnowLaws SN} {SC : SnowChannel SN} {IK : SnowIK SN SC X} {R : Rips}.
Import PeerOps.

Lemma tai64n_now_ok wall : Tai64n.in_range wall → ∃ ts, Tai64n.now wall = Ok ts ∧ length ts = 12%nat.
Proof.
  intros H. eexists. split; [by apply Tai64n.now_encoding|].
  rewrite length_app. by autorewrite with wg_len.
Qed.

Lemma verify_mac1_ok pk v input mac :
  validator_for pk v → mac = blake2s 16 (mac1_key_of pk) input → length mac = 16%nat →
  Validator.verify_mac1 v input mac = Ok tt.
Proof.
  intros (Hv & _) E Hl. unfold Validator.verify_mac1. rewrite Hl, Hv, <-E. simpl.
  rewrite (proj2 (Z.eqb_eq _ _)); [done|]. by apply ct_eq_spec.
Qed.

(** The responder reads an initiation. *)
Lemma process_incoming_run privB i m mac1 mac2 r0 r1 ts :
  is_u32 i → length m = 108%nat → length mac1 = 16%nat → length mac2 = 16%nat → length ts = 12%nat →
  Noise.build_responder privB = Ok r0 → snow_read_message r0 m 12 = (r1, Ok ts) →
  process_incoming_handshake privB (initiation_packet i m mac1 mac2) = Ok (mkIncomplete i ts r1).
Proof.
  intros Hi Hm H1 H2 Hts Hb Hr. unfold process_incoming_handshake.
  destruct (initiation_fields i m mac1 mac2 Hi Hm H1 H2) as (_ & Hs & Hn & _).
  rewrite Hb. cbn [bind_res]. rewrite Hn. cbn [bind_res]. rewrite Hr. cbn [bind_res].
  rewrite Hts. cbn [Nat.eqb ensure bind_res]. rewrite Hs. cbn [bind_res]. do 2 f_equal.
  unfold overlay. rewrite take_0, app_nil_l, Hts. apply app_nil_r.
Qed.

(** The initiator reads the response. *)
Lemma response_run now addr i j m mac1 mac2 self s n1 nt :
  next (sessions self) = Some s → is_u32 i → is_u32 j →
  length m = 48%nat → length mac1 = 16%nat → length mac2 = 16%nat →
  snow_read_message (s_noise s) m 0 = (n1, Ok []) → snow_into_transport_mode n1 = Ok nt →
  ∃ self' dead,
    process_incoming_handshake_response now addr (response_packet i j m mac1 mac2) self = (self', Ok dead) ∧
    current (sessions self') = Some (mkSession nt (our_index s) i (anti_replay s) (Timestamp.now now)) ∧
    next (sessions self') = None ∧ endpoint (info self') = Some addr ∧
    outgoing_queue self' = outgoing_queue self.
Proof.
  intros Hn Hi Hj Hm H1 H2 Hr Ht.
  destruct (response_fields i j m mac1 mac2 Hi Hj Hm H1 H2) as (_ & Hs & _ & Hb & _).
  unfold process_incoming_handshake_response. do 2 erewrite bindM_run by reflexivity.
  rewrite Hn, Hb. do 2 erewrite bindM_run by reflexivity. rewrite Hr. erewrite bindM_run by reflexivity.
  cbv zeta. erewrite bindM_run.
  2: { apply liftM_run. unfold SessionOps.into_transport_mode. simpl. rewrite Ht. reflexivity. }
  rewrite Hs. erewrite bindM_run by reflexivity. erewrite bindM_run by reflexivity.
  do 2 eexists. split; [reflexivity|]. done.
Qed.

(** The exchange, with what it leaves alone.  Between the initiation and the
    response, the initiator may change everything but its sessions. *)
Lemma handshake_exchange t1 t2 t3 wall privA privB iA iB addrA addrB ep k vA vB PA PB :
  length privA = 32%nat → length privB = 32%nat → length k = 32%nat →
  pub_key (info PA) = generate_public privB →
  default (zeros 32) (psk (info PA)) = k → default (zeros 32) (psk (info PB)) = k →
  endpoint (info PA) = Some ep → is_u32 iA → is_u32 iB → Tai64n.in_range wall →
  (∀ l ts, last_handshake_tai64n PB = Some l → Tai64n.now wall = Ok ts → Tai64n.gt ts l = true) →
  generator_for (generate_public privB) (cookie PA) → generator_for (generate_public privA) (cookie PB) →
  validator_for (generate_public privA) vA → validator_for (generate_public privB) vB →
  ∃ A1 B1 init resp inc d1 d2 sA sB,
    initiate_new_session t1 wall privA iA PA = (A1, Ok (ep, init, d1)) ∧
    (MessageParser.try_from init = Ok (Message_Initiation init) ∧
     Validator.verify_mac1 vB (take 116 init) (take 16 (drop 116 init)) = Ok tt) ∧
    process_incoming_handshake privB init = Ok inc ∧
    SessionOps.their_pubkey inc = Ok (generate_public privA) ∧
    complete_incoming_handshake t2 addrA iB inc PB = (B1, Ok (resp, d2)) ∧
    (MessageParser.try_from resp = Ok (Message_Response resp) ∧ Response.receiver_index resp = Ok iA ∧
     Validator.verify_mac1 vA (take 60 resp) (take 16 (drop 60 resp)) = Ok tt) ∧
    (birthday sA = Timestamp.now t3 ∧ birthday sB = Timestamp.now t2 ∧
     outgoing_queue A1 = outgoing_queue PA ∧ outgoing_queue B1 = outgoing_queue PB ∧ pub_key (info B1) = pub_key (info PB) ∧
     (next (sessions PA) = None → d1 = None) ∧ current (sessions A1) = current (sessions PA) ∧
     snow_sending_nonce (s_noise sB) = Ok 0 ∧ our_index sB = iB ∧ their_index sA = iB) ∧
    ∀ A1', sessions A1' = sessions A1 →
      ∃ A2 d3, process_incoming_handshake_response t3 addrB resp A1' = (A2, Ok d3) ∧
        linked A2 B1 sA sB Next 0 ∧ endpoint (info A2) = Some addrB ∧ outgoing_queue A2 = outgoing_queue A1'.
Proof.
  intros HlA HlB Hk Hpk HkA HkB Hep HiA HiB Hwall Hlast HgA HgB HvA HvB.
  destruct (tai64n_now_ok wall Hwall) as (ts & Hts & Lts).
  destruct (snow_ik (Noise.initiator_builder privA (pub_key (info PA)) (psk (info PA))) (Noise.new_foundation privB)
              k ts 140 12 80) as
    (i0 & i1 & i2 & it & r0 & r1 & r2 & r3 & rt & m1 & m2 & K1 & K2 & K3 & K4 & K5 & K6 & K7 & K8 & K9 & K10 & K11 & K12 & K13 & _ & K15 & K16);
    [done|done|done|done|simpl; by rewrite Hpk|simpl; by rewrite HkA|done|lia..|].
  rewrite Lts in K3.
  destruct (initiate_run t1 wall privA iA PA i0 i1 ep ts m1 _ K1 Hep Hts HiA K2 K3 HgA) as (c1 & c2 & g & HA1 & C1 & C2 & C3).
  destruct (initiation_fields iA m1 c1 c2 HiA K3 C1 C2) as (P1 & _ & _ & P2 & P3).
  pose proof (process_incoming_run privB iA m1 c1 c2 r0 r1 ts HiA K3 C1 C2 Lts K4 K5) as HI.
  rewrite <-HkB in K7.
  destruct (complete_run t2 addrA iB iA ts r1 r2 r3 rt m2 PB (generate_public privA)) as
    (B1 & e1 & e2 & d2 & HB1 & N1 & N2 & _ & [N3 N4] & E1 & E2 & E3); [|done..|].
  { destruct (last_handshake_tai64n PB) eqn:?; [by eapply Hlast|done]. }
  destruct (response_fields iB iA m2 e1 e2 HiB HiA K9 E1 E2) as (Q1 & _ & Q2 & _ & Q3 & Q4).
  set (s := set_s_noise i1 (SessionOps.new i0 iA)) in *.
  destruct (install_next_slots s (set_cookie g PA)) as (S1 & _).
  assert (next (sessions (install_next s (set_cookie g PA)).1) = Some s) as Hnext.
  { rewrite S1. unfold installed. by destruct (next (sessions (set_cookie g PA))). }
  eexists _, B1, _, _, _, _, d2, (mkSession it iA iB AntiReplay.new (Timestamp.now t3)),
    (mkSession rt iB iA AntiReplay.new (Timestamp.now t2)). split; [exact HA1|].
  split; [split; [exact P1|rewrite P2, P3; by eapply verify_mac1_ok]|]. split; [exact HI|].
  split; [unfold SessionOps.their_pubkey; simpl; by rewrite K6|]. split; [exact HB1|].
  split; [split; [exact Q1|]; split; [exact Q2|rewrite Q3, Q4; by eapply verify_mac1_ok]|].
  split; [split_and!; try done; unfold install_next; simpl; by destruct (next (sessions PA))|].
  intros A1' Hss.
  destruct (response_run t3 addrB iB iA m2 e1 e2 A1' s i2 it) as (A2 & d3 & HA2 & M1 & _ & M3 & M4); [by rewrite Hss|done..|].
  exists A2, d3. split; [exact HA2|]. split; [|done]. split; [exact M1|]. split; [apply find_session_spec; done|].
  split; [done|]. split; [done|]. split; [done|]. exists Window.new. split; [apply refines_new|].
  intros m Hm. unfold Window.fresh. simpl. destruct (Z.ltb_spec 0 m); [done|]. simpl. by replace m with 0 by lia.
Qed.

(** C3.  The handshake: an initiator that knows the responder's public key and
    a responder with the same pre-shared key, whose last handshake from this
    peer is older than the initiator's clock, complete the exchange.  The
    initiation parses and passes the responder's MAC1 check, names the
    initiator's static key, and the response parses, carries the initiator's
    index and passes its MAC1 check; afterwards the initiator's current
    session and the responder's next session are the two ends of a link with
    the counter at zero, ready for a stream of packets. *)
Theorem handshake_establishes t1 t2 t3 wall privA privB iA iB addrA addrB ep k vA vB PA PB :
  length privA = 32%nat → length privB = 32%nat → length k = 32%nat →
  pub_key (info PA) = generate_public privB →
  default (zeros 32) (psk (info PA)) = k → default (zeros 32) (psk (info PB)) = k →
  endpoint (info PA) = Some ep → is_u32 iA → is_u32 iB → Tai64n.in_range wall →
  (∀ l ts, last_handshake_tai64n PB = Some l → Tai64n.now wall = Ok ts → Tai64n.gt ts l = true) →
  generator_for (generate_public privB) (cookie PA) → generator_for (generate_public privA) (cookie PB) →
  validator_for (generate_public privA) vA → validator_for (generate_public privB) vB →
  ∃ A1 A2 B1 init resp inc d1 d2 d3 sA sB,
    initiate_new_session t1 wall privA iA PA = (A1, Ok (ep, init, d1)) ∧
    MessageParser.try_from init = Ok (Message_Initiation init) ∧
    Validator.verify_mac1 vB (take 116 init) (take 16 (drop 116 init)) = Ok tt ∧
    process_incoming_handshake privB init = Ok inc ∧
    SessionOps.their_pubkey inc = Ok (generate_public privA) ∧
    complete_incoming_handshake t2 addrA iB inc PB = (B1, Ok (resp, d2)) ∧
    MessageParser.try_from resp = Ok (Message_Response resp) ∧ Response.receiver_index resp = Ok iA ∧
    Validator.verify_mac1 vA (take 60 resp) (take 16 (drop 60 resp)) = Ok tt ∧
    process_incoming_handshake_response t3 addrB resp A1 = (A2, Ok d3) ∧
    linked A2 B1 sA sB Next 0 ∧ endpoint (info A2) = Some addrB ∧
    birthday sA = Timestamp.now t3 ∧ birthday sB = Timestamp.now t2.
Proof.
  intros. edestruct (handshake_exchange t1 t2 t3 wall privA privB iA iB addrA addrB ep k vA vB PA PB) as
    (A1 & B1 & init & resp & inc & d1 & d2 & sA & sB & Hi & [Hp Hm] & Hinc & Hk & Hc & (Hr & Hj & Hm') & (Hb & Hb' & _) & Hresp); [done..|].
  destruct (Hresp A1 eq_refl) as (A2 & d3 & Hrun & Hl & Hep & _).
  exists A1, A2, B1, init, resp, inc, d1, d2, d3, sA, sB. split_and!; done.
Qed.
End exchange.

(* ------------------------------------------------------------------ *)
(** ** Replayed initiations *)
Section replay.
Context {BO : ByteOrder} {B : Blake2} {A : Aead} {SN : Snow} {R : Rips}.
Import PeerOps.

(** What an initiation does to the label. *)
Lemma complete_label now addr index inc self :
  let '(self', r) := complete_incoming_handshake now addr index inc self in
  match r with
  | Ok _ => last_handshake_tai64n self' = Some (inc_timestamp inc) ∧
            ∀ l, last_handshake_tai64n self = Some l → Tai64n.gt (inc_timestamp inc) l = true
  | _ => last_handshake_tai64n self' = last_handshake_tai64n self
  end.
Proof.
  destruct inc as [their ts n]. unfold complete_incoming_handshake.
  erewrite bindM_run by reflexivity. change (id self) with self. cbn [inc_timestamp].
  set (x := last_handshake_tai64n self). set (I p := last_handshake_tai64n p = x).
  unfold bindM at 1, liftM at 1.
  destruct (match x with Some l => ensure _ _ | None => Ok tt end) as [[]| | |] eqn:Hg; try done.
  assert (∀ l, x = Some l → Tai64n.gt ts l = true) as Hgt.
  { intros l Hl. rewrite Hl in Hg. by apply ensure_Ok in Hg. }
  destruct (snow_set_psk _ _ _) as [n1 ps]. unfold bindM at 1, liftM at 1. destruct ps as [[]| | |]; try done.
  assert (keeps I (get_response_packet now (set_birthday (Timestamp.now now) (SessionOps.with_their_index n1 index their)))) as K.
  { unfold get_response_packet. keeps_run. intros p Hp. unfold build_macs. by destruct (Generator.build_macs _ _ _). }
  cbv zeta. specialize (K self eq_refl). unfold bindM at 1. destruct (get_response_packet _ _ _) as [w [[ns p]| | |]]; try done.
  unfold bindM at 1, liftM at 1. destruct (SessionOps.into_transport_mode ns) as [tr| | |]; try done.
  unfold bindM. by destruct (install_next tr w).
Qed.

(** The label of the last initiation never goes back. *)
Lemma label_step f self self' l :
  peer_step f self self' → last_handshake_tai64n self = Some l →
  ∃ l', last_handshake_tai64n self' = Some l' ∧ (l' = l ∨ lex_lt l l' = true).
Proof.
  intros Hst Hx. set (I p := last_handshake_tai64n p = Some l).
  assert (∀ now input, keeps I (build_macs now input)) as Hm.
  { intros now input p Hp. unfold build_macs. by destruct (Generator.build_macs _ _ _). }
  assert (∀ s, keeps I (fun p => let '(p', d) := install_next s p in (p', Ok d))) as Hi.
  { intros s p Hp. unfold install_next. by destruct (next (sessions p)). }
  assert (∀ {T} (m : M Peer T) p, keeps I m → last_handshake_tai64n p = Some l →
            ∃ l', last_handshake_tai64n (m p).1 = Some l' ∧ (l' = l ∨ lex_lt l l' = true)) as Hk.
  { intros T m p K Hp. exists l. split; [by apply K|by left]. }
  destruct Hst as [now wall pk index self _|now addr index inc self _|now addr packet self|now addr packet self Hb
                |now packet self|now reply self|packet self|self|i self|t self|q self]; [..|eauto|eauto|eauto|eauto].
  - apply Hk; [|done]. unfold initiate_new_session. keeps_run.
  - pose proof (complete_label now addr index inc self) as Hc.
    destruct (complete_incoming_handshake _ _ _ _ _) as [self' [[]| | |]]; simpl; [|rewrite Hc; eauto..].
    destruct Hc as [-> Hc]. eexists. split; [done|]. right. by apply Hc.
  - apply Hk; [|done]. unfold process_incoming_handshake_response. keeps_run. by intros p Hp.
  - apply Hk; [|done]. unfold handle_incoming_transport.
    keeps_run; intros p Hp; simpl; [by destruct (receive_on_session _ _ _ _)|]. by case_decide.
  - apply Hk; [|done]. unfold handle_outgoing_transport. keeps_run. intros p Hp. by destruct (snow_write_message _ _ _).
  - exists l. split; [|by left]. unfold consume_cookie_reply. by destruct (Generator.consume_reply _ _ _).
  - exists l. split; [|by left]. unfold queue_egress. by case_match.
Qed.

(** C13.  A replayed initiation is refused: once an initiation with some label
    was accepted, then whatever happens to the peer, an initiation with that
    label or an older one gets an error and leaves the peer unchanged. *)
Theorem handshake_no_replay now addr index inc self self1 v self2 now' addr' index' inc' :
  complete_incoming_handshake now addr index inc self = (self1, Ok v) →
  rtc (fun a b => ∃ f, peer_step f a b) self1 self2 →
  Tai64n.gt (inc_timestamp inc') (inc_timestamp inc) = false →
  ∃ e, complete_incoming_handshake now' addr' index' inc' self2 = (self2, Err e).
Proof.
  intros H Hrun Hle. pose proof (complete_label now addr index inc self) as Hl. rewrite H in Hl.
  destruct Hl as [Hl _].
  assert (∃ l, last_handshake_tai64n self1 = Some l ∧ (l = inc_timestamp inc ∨ lex_lt (inc_timestamp inc) l = true)) as Hinv
    by eauto. clear H Hl.
  induction Hrun as [x|x y z [f Hst] _ IH].
  - destruct Hinv as (l & Hl & Hlt). destruct inc' as [their ts n]. cbn [inc_timestamp] in Hle.
    unfold complete_incoming_handshake. erewrite bindM_run by reflexivity. change (id x) with x. rewrite Hl.
    eexists. apply bindM_err, ensure_fail. unfold Tai64n.gt in *. destruct Hlt as [->|Hlt]; [done|].
    destruct (lex_lt l ts) eqn:E; [|done]. by rewrite (lex_lt_trans _ _ _ Hlt E) in Hle.
  - apply IH. destruct Hinv as (l & Hl & Hlt). destruct (label_step _ _ _ _ Hst Hl) as (l' & Hl' & Hlt').
    exists l'. split; [done|]. destruct Hlt' as [->|Hlt']; [done|]. right.
    destruct Hlt as [->|Hlt]; [done|]. by eapply lex_lt_trans.
Qed.
End replay.

(* ------------------------------------------------------------------ *)
(** ** Instances of the theorems *)
Section witnesses.
#[local] Existing Instance refByteOrder.
#[local] Existing Instance refBlake2.
#[local] Existing Instance refAead.
#[local] Existing Instance refSubtle.
#[local] Existing Instance refX25519.
#[local] Existing Instance refSnow.
#[local] Existing Instance refRips.
Import PeerOps.

Definition hs_privA : bytes := zeros 32.
Definition hs_privB : bytes := replicate 32 7.
Definition hs_info (pk : bytes) : PeerInfo := {|
  pub_key := pk; psk := None; endpoint := Some demo_addr; allowed_ips := []; keepalive := None |}.
(** What A knows of B, and B of A. *)
Definition hs_PA : Peer := PeerOps.new (hs_info (generate_public hs_privB)).
Definition hs_PB : Peer := PeerOps.new (hs_info (generate_public hs_privA)).

Lemma handshake_establishes_witness :
  ∃ A1 A2 B1 init resp inc d1 d2 d3 sA sB,
    initiate_new_session 10 (secs 1600000000) hs_privA 5 hs_PA = (A1, Ok (demo_addr, init, d1)) ∧
    process_incoming_handshake hs_privB init = Ok inc ∧
    complete_incoming_handshake 20 demo_addr 6 inc hs_PB = (B1, Ok (resp, d2)) ∧
    process_incoming_handshake_response 30 demo_addr resp A1 = (A2, Ok d3) ∧
    linked A2 B1 sA sB Next 0.
Proof.
  destruct (handshake_establishes 10 20 30 (secs 1600000000) hs_privA hs_privB 5 6 demo_addr demo_addr demo_addr
    (zeros 32) (Validator.new (generate_public hs_privA)) (Validator.new (generate_public hs_privB)) hs_PA hs_PB)
    as (A1 & A2 & B1 & init & resp & inc & d1 & d2 & d3 & sA & sB & H1 & _ & _ & H2 & _ & H3 & _ & _ & _ & H4 & H5 & _);
    [reflexivity|reflexivity|reflexivity|reflexivity|reflexivity|reflexivity|reflexivity|by_decide|by_decide
    |split; by_decide|intros l ts Hl; discriminate Hl
    |apply generator_for_new|apply generator_for_new|apply validator_for_new|apply validator_for_new|].
  exists A1, A2, B1, init, resp, inc, d1, d2, d3, sA, sB. split_and!; assumption.
Defined.

(** The same exchange, evaluated: the initiation, what B makes of it, the
    response, and a first data packet from A. *)
Definition hs_A1 : Peer * res (Endpoint.t * bytes * option Z) :=
  initiate_new_session 10 (secs 1600000000) hs_privA 5 hs_PA.
#[local] Opaque hs_A1.
Definition hs_init : bytes := (ok_get (demo_addr, [], None) hs_A1.2).1.2.
Definition hs_inc : IncompleteIncomingHandshake :=
  ok_get (mkIncomplete 0 [] (toy_a : noise)) (process_incoming_handshake hs_privB hs_init).
#[local] Opaque hs_inc.
Definition hs_B1 : Peer * res (bytes * option Z) :=
  complete_incoming_handshake 20 demo_addr 6 hs_inc hs_PB.

Lemma hs_B1_eq : hs_B1 = complete_incoming_handshake 20 demo_addr 6 hs_inc hs_PB.
Proof. reflexivity. Qed.
Lemma hs_B1_reachable : peer_reachable hs_B1.1.
Proof.
  exists (hs_info (generate_public hs_privA)). apply rtc_once. exists (Some 6).
  change hs_B1 with (complete_incoming_handshake 20 demo_addr 6 hs_inc hs_PB).
  refine (step_complete 20 demo_addr 6 hs_inc hs_PB _). apply not_elem_of_nil.
Qed.
#[local] Opaque hs_B1.

Definition hs_resp : bytes := (ok_get ([], None) hs_B1.2).1.
Definition hs_A2 : Peer * res (option Z) :=
  process_incoming_handshake_response 30 demo_addr hs_resp hs_A1.1.
#[local] Opaque hs_A2.
Definition hs_A3 : Peer * res (Endpoint.t * bytes) :=
  handle_outgoing_transport 40 demo_packet hs_A2.1.
#[local] Opaque hs_A3.
Definition hs_data : bytes := (ok_get (demo_addr, []) hs_A3.2).2.
Definition hs_B2 : Peer * res (bytes * SessionTransition) :=
  handle_incoming_transport 50 demo_addr hs_data hs_B1.1.

Lemma hs_B2_eq : hs_B2 = handle_incoming_transport 50 demo_addr hs_data hs_B1.1.
Proof. reflexivity. Qed.
#[local] Opaque hs_B2.

Lemma hs_B1_is_ok : is_ok hs_B1.2 = true.
Proof. vm_cast_no_check (eq_refl true). Qed.
Lemma hs_B2_is_ok : is_ok hs_B2.2 = true.
Proof. vm_cast_no_check (eq_refl true). Qed.
Lemma hs_B1_ok :
  complete_incoming_handshake 20 demo_addr 6 hs_inc hs_PB = (hs_B1.1, Ok (ok_get ([], None) hs_B1.2)).
Proof. rewrite <-hs_B1_eq. apply run_ok_get, hs_B1_is_ok. Qed.
Lemma hs_B2_ok :
  handle_incoming_transport 50 demo_addr hs_data hs_B1.1 = (hs_B2.1, Ok (ok_get ([], NoTransition) hs_B2.2)).
Proof. rewrite <-hs_B2_eq. apply run_ok_get, hs_B2_is_ok. Qed.

Lemma peer_sessions_invariant_witness : NoDup (get_mapped_indices hs_B1.1) ∧ windows_ok (sessions hs_B1.1).
Proof. exact (peer_sessions_invariant hs_B1.1 hs_B1_reachable). Defined.

(** The data packet again, after B sent one itself. *)
Lemma transport_no_replay_witness :
  is_ok (handle_incoming_transport 70 demo_addr hs_data (handle_outgoing_transport 60 [] hs_B2.1).1).2 = false.
Proof.
  refine (transport_no_replay 50 demo_addr hs_data hs_B1.1 hs_B2.1 (ok_get ([], NoTransition) hs_B2.2)
    (handle_outgoing_transport 60 [] hs_B2.1).1 70 demo_addr hs_data 6 0
    hs_B1_reachable _ _ _ _ _ _ hs_B2_ok _).
  - by_decide.
  - by_decide.
  - vm_cast_no_check (eq_refl (@Ok Z 6)).
  - vm_cast_no_check (eq_refl (@Ok Z 0)).
  - vm_cast_no_check (eq_refl (@Ok Z 6)).
  - vm_cast_no_check (eq_refl (@Ok Z 0)).
  - apply rtc_once. exists None. refine (conj _ (step_outgoing 60 [] hs_B2.1)). discriminate.
Defined.

(** The initiation again, after the data packet. *)
Lemma handshake_no_replay_witness :
  ∃ e, complete_incoming_handshake 60 demo_addr 7 hs_inc hs_B2.1 = (hs_B2.1, Err e).
Proof.
  refine (handshake_no_replay 20 demo_addr 6 hs_inc hs_PB hs_B1.1 (ok_get ([], None) hs_B1.2) hs_B2.1 60 demo_addr 7 hs_inc
            hs_B1_ok _ _).
  - apply rtc_once. exists None. rewrite hs_B2_eq. refine (step_incoming 50 demo_addr hs_data hs_B1.1 _). by_decide.
  - vm_cast_no_check (eq_refl false).
Defined.

(** A forged packet: the header of the data packet and other bytes. *)
Definition hs_forged : bytes := take 16 hs_data ++ zeros 48.

Definition hs_slot : option (Session * SessionType) := find_session 6 hs_B1.1.
Definition hs_session : Session := (default (demo_session toy_b 0 0 0, Past) hs_slot).1.

Lemma hs_found : find_session 6 hs_B1.1 = Some (hs_session, Next).
Proof.
  unfold hs_session. change (find_session 6 hs_B1.1) with hs_slot.
  assert (bool_decide (snd <$> hs_slot = Some Next) = true) as H by (vm_cast_no_check (eq_refl true)).
  apply bool_decide_eq_true in H. destruct hs_slot as [[s ty]|]; [|discriminate H]. injection H as ->. reflexivity.
Qed.

Lemma forged_packet_burns_nonce_instance :
  is_ok (handle_incoming_transport 50 demo_addr hs_data
           (handle_incoming_transport 45 demo_addr hs_forged hs_B1.1).1).2 = false.
Proof.
  refine (forged_packet_burns_nonce 45 demo_addr hs_forged hs_B1.1 6 0 hs_session Next 50 demo_addr hs_data
            hs_B1_reachable _ _ _ _ _ _ hs_found _ _ _).
  - by_decide.
  - by_decide.
  - vm_cast_no_check (eq_refl (@Ok Z 6)).
  - vm_cast_no_check (eq_refl (@Ok Z 0)).
  - vm_cast_no_check (eq_refl (@Ok Z 6)).
  - vm_cast_no_check (eq_refl (@Ok Z 0)).
  - vm_cast_no_check (eq_refl true).
  - by_decide.
  - by_decide.
Qed.
End witnesses.
