(* ===== verification/Display.v ===== *)
(** * Printing for the log

    The `Display` and `Debug` instances of src/types.rs, src/peer.rs and
    src/udp/mod.rs.  Slices of the base64 text of a key could panic; they do not,
    and what is printed of a peer does not depend on the middle of its key or on
    its preshared key. *)

From S2P Require Import Prelude Crates Reference RefSnow AntiReplay Types Text Timestamp Cookie Router Peer.

(** base64: the text of some bytes, four characters for every three bytes. *)
Class Base64 := { base64_encode : bytes → bytes }.
Class Base64Laws (E : Base64) : Prop := {
  base64_length b : length (base64_encode b) = (4 * ((length b + 2) / 3))%nat;
}.

Module Display.
Section with_crates.
Context {E : Base64}.

(** `Display for PeerInfo`: `encoded.len()-4` would overflow on a shorter
    text. *)
Definition PeerInfo_fmt (i : PeerInfo) : res bytes :=
  let encoded := base64_encode (pub_key i) in
  let? front := slice 0 4 encoded in
  if (length encoded <? 4)%nat then Panic "attempt to subtract with overflow"
  else
    let? back := slice_from (length encoded - 4) encoded in
    Ok (front ++ str_bytes "..." ++ back).

(** `Display for SocketAddr`. *)
Definition SocketAddr_fmt (a : SocketAddr) : bytes :=
  match sock_ip a with
  | IpV4 _ => print_ip (sock_ip a)
  | IpV6 _ => [LBRACK] ++ print_ip (sock_ip a) ++ [RBRACK]
  end ++ [COLON] ++ to_string (sock_port a).

(** `Debug for Endpoint`. *)
Definition Endpoint_fmt (e : Endpoint.t) : bytes :=
  match e with
  | Endpoint.V4 addr _ => str_bytes "Endpoint::V4(" ++ SocketAddr_fmt addr ++ str_bytes ", ...)"
  | Endpoint.V6 addr _ => str_bytes "Endpoint::V6(" ++ SocketAddr_fmt addr ++ str_bytes ", ...)"
  end.

(** `{:?}` of an `Option`. *)
Definition option_fmt {Y} (fmt : Y → bytes) (o : option Y) : bytes :=
  match o with
  | Some y => str_bytes "Some(" ++ fmt y ++ str_bytes ")"
  | None => str_bytes "None"
  end.

Section peers.
Context {B : Blake2} {SN : Snow}.

(** `Display for Peer` and `Debug for Peer`. *)
Definition Peer_fmt (self : Peer) : res bytes :=
  let? i := PeerInfo_fmt (info self) in Ok (str_bytes "Peer(" ++ i ++ str_bytes ")").
Definition Peer_debug (self : Peer) : bytes :=
  str_bytes "Peer( endpoint: " ++ option_fmt Endpoint_fmt (endpoint (info self)) ++
  str_bytes ", pubkey: [redacted], psk: [redacted] )".
End peers.
End with_crates.
End Display.

Section printing.
Context {E : Base64} {EL : Base64Laws E} {B : Blake2} {SN : Snow}.
Import Display.

(** Printing a peer does not panic. *)
Lemma PeerInfo_fmt_ok i :
  length (pub_key i) = 32%nat →
  PeerInfo_fmt i = Ok (take 4 (base64_encode (pub_key i)) ++ str_bytes "..." ++ drop 40 (base64_encode (pub_key i))).
Proof.
  intros Hk. unfold PeerInfo_fmt. pose proof (base64_length (pub_key i)) as Hl. rewrite Hk in Hl. simpl in Hl. rewrite Hl.
  rewrite slice_Ok by lia. simpl. rewrite slice_from_Ok by lia. simpl. by rewrite drop_0.
Qed.

Lemma Peer_fmt_ok self : length (pub_key (info self)) = 32%nat → is_ok (Peer_fmt self) = true.
Proof. intros Hk. unfold Peer_fmt. by rewrite PeerInfo_fmt_ok. Qed.

(** The keys of a peer stay out of its debug output. *)
Lemma Peer_debug_redacted self self' :
  endpoint (info self) = endpoint (info self') → Peer_debug self = Peer_debug self'.
Proof. unfold Peer_debug. by intros ->. Qed.
End printing.
