(* ===== verification/Timer.v ===== *)
(** * Timers (src/timer.rs)

    `send_after` spawns a future on the reactor that waits and then, unless the
    shared `canceled` flag was set, sends the message to the channel the peer
    server polls.  The state keeps the waiting futures, the flags (a
    [TimerHandle] is the address of a flag) and the channel.  The channel of
    capacity 1024 is a list: the send is itself spawned and waits for room. *)

From S2P Require Import Prelude Timestamp Router.

Inductive TimerMessage :=
| PersistentKeepAlive (p : peer_id)
| PassiveKeepAlive (p : peer_id)
| Rekey (p : peer_id) (our_index : Z)
| Wipe (p : peer_id).
#[export] Instance TimerMessage_eq_dec : EqDecision TimerMessage.
Proof. solve_decision. Defined.

Module Timer.
(** A waiting future: its deadline, its flag, its message. *)
Record delay := mkDelay { deadline : Instant; flag : nat; message : TimerMessage }.

Record t := mk {
  delays : list delay;
  canceled : gmap nat bool;
  next_flag : nat;
  rx : list TimerMessage;
}.

Definition new : t := mk [] ∅ 0 [].

(** Returns the handle. *)
Definition send_after (now : Instant) (d : Duration) (m : TimerMessage) (self : t) : t * nat :=
  let f := next_flag self in
  (mk (delays self ++ [mkDelay (now + d + TIMER_RESOLUTION * 2) f m])
      (<[f := false]> (canceled self)) (S f) (rx self), f).

(** `TimerHandle::cancel`. *)
Definition cancel (f : nat) (self : t) : t :=
  mk (delays self) (<[f := true]> (canceled self)) (next_flag self) (rx self).

(** The reactor runs the [k]-th waiting future at [now]: it completes when its
    deadline has passed. *)
Definition fire (now : Instant) (k : nat) (self : t) : t :=
  match delays self !! k with
  | Some d =>
      if deadline d <=? now then
        mk (delete k (delays self)) (canceled self) (next_flag self)
           (if default false (canceled self !! flag d) then rx self else rx self ++ [message d])
      else self
  | None => self
  end.

(** `Stream::poll`: the next message, if there is one. *)
Definition poll (self : t) : t * option TimerMessage :=
  match rx self with
  | [] => (self, None)
  | m :: rx' => (mk (delays self) (canceled self) (next_flag self) rx', Some m)
  end.
End Timer.

(* ------------------------------------------------------------------ *)
(** ** Runs *)
Section runs.
Import Timer.

(** What happens to a timer, with the clock; [EvCancel f] uses a handle that
    was returned. *)
Inductive timer_event :=
| EvSend (now : Instant) (d : Duration) (m : TimerMessage)
| EvCancel (f : nat)
| EvFire (now : Instant) (k : nat)
| EvPollRx.

Definition timer_step (e : timer_event) (self : t) : t :=
  match e with
  | EvSend now d m => (send_after now d m self).1
  | EvCancel f => if bool_decide ((f < next_flag self)%nat) then cancel f self else self
  | EvFire now k => fire now k self
  | EvPollRx => (poll self).1
  end.

(** The message an event puts in the channel, with its handle and the time. *)
Definition timer_output (e : timer_event) (self : t) : option (nat * TimerMessage * Instant) :=
  match e with
  | EvFire now k =>
      match delays self !! k with
      | Some d => if (deadline d <=? now) && negb (default false (canceled self !! flag d))
                  then Some (flag d, message d, now) else None
      | None => None
      end
  | _ => None
  end.

Fixpoint timer_outputs (evs : list timer_event) (self : t) : list (nat * TimerMessage * Instant) :=
  match evs with
  | [] => []
  | e :: evs' => option_list (timer_output e self) ++ timer_outputs evs' (timer_step e self)
  end.

(** The sends of a run, numbered by their handles from [n] on. *)
Fixpoint sends (n : nat) (evs : list timer_event) : list (nat * TimerMessage * Instant) :=
  match evs with
  | [] => []
  | EvSend now d m :: evs' => (n, m, now + d) :: sends (S n) evs'
  | _ :: evs' => sends n evs'
  end.

Record timer_wf (self : t) : Prop := {
  twf_nodup : NoDup (flag <$> delays self);
  twf_below : ∀ d, d ∈ delays self → (flag d < next_flag self)%nat;
}.

Lemma timer_wf_new : timer_wf new.
Proof. split; simpl; [apply NoDup_nil_2|set_solver]. Qed.

Lemma fire_delays now k self d :
  d ∈ delays (fire now k self) → d ∈ delays self.
Proof.
  unfold fire. destruct (delays self !! k); [|done]. case_match; [|done]. simpl.
  rewrite !list_elem_of_lookup. intros [i Hi]. rewrite list_lookup_delete in Hi. case_decide; eauto.
Qed.

Lemma timer_step_wf e self : timer_wf self → timer_wf (timer_step e self).
Proof.
  intros [H1 H2]. destruct e as [now d m|f|now k|]; simpl.
  - split; simpl.
    + rewrite fmap_app. apply NoDup_app. split; [done|]. split; [|apply NoDup_singleton].
      intros x (y & -> & Hy)%list_elem_of_fmap. apply H2 in Hy. set_solver by lia.
    + intros y [Hy| ->%list_elem_of_singleton]%elem_of_app; simpl; [apply H2 in Hy|]; lia.
  - by case_bool_decide.
  - split.
    + unfold fire. destruct (delays self !! k) eqn:?; [|done]. case_match; [|done]. simpl.
      rewrite list_fmap_delete. eapply sublist_NoDup; [exact H1|apply sublist_delete].
    + intros y Hy%fire_delays. apply H2 in Hy. unfold fire. by repeat case_match.
  - unfold poll. by destruct (rx self).
Qed.

Lemma sends_above n evs f m due : (f, m, due) ∈ sends n evs → (n ≤ f)%nat.
Proof.
  revert n. induction evs as [|[now d m'|f'|now k|] evs IH]; intros n; simpl; [set_solver|..]; try apply IH.
  intros [[= -> -> ->]|H]%elem_of_cons; [lia|]. apply IH in H. lia.
Qed.

Lemma next_flag_step e self :
  next_flag (timer_step e self) = match e with EvSend _ _ _ => S (next_flag self) | _ => next_flag self end.
Proof.
  destruct e; simpl; [done|by case_bool_decide| |].
  - unfold fire. by repeat case_match.
  - unfold poll. by destruct (rx self).
Qed.

(** Where the delays of the next state come from. *)
Lemma delays_step e self d :
  d ∈ delays (timer_step e self) →
  d ∈ delays self ∨
  ∃ now x, e = EvSend now x (message d) ∧ flag d = next_flag self ∧ deadline d = now + x + TIMER_RESOLUTION * 2.
Proof.
  destruct e; simpl.
  - intros [H| ->%list_elem_of_singleton]%elem_of_app; [by left|]. right. eauto.
  - case_bool_decide; auto.
  - intros H%fire_delays. auto.
  - unfold poll. destruct (rx self); auto.
Qed.

(** An output comes from a waiting future, which then is gone. *)
Lemma timer_output_spec e self f m t :
  timer_wf self → timer_output e self = Some (f, m, t) →
  (∃ d, d ∈ delays self ∧ flag d = f ∧ message d = m ∧ deadline d ≤ t) ∧
  (∀ d, d ∈ delays (timer_step e self) → flag d ≠ f) ∧ (f < next_flag (timer_step e self))%nat.
Proof.
  intros [Hnd Hb]. destruct e as [| |now k|]; simpl; try done.
  destruct (delays self !! k) as [d|] eqn:Hk; [|done].
  destruct (Z.leb_spec (deadline d) now) as [Hdl|]; simpl; [|done].
  destruct (negb _); [|done]. intros [= <- <- <-].
  split; [exists d; split_and!; try done; by eapply list_elem_of_lookup_2|].
  unfold fire. rewrite Hk, (proj2 (Z.leb_le _ _) Hdl). simpl. split.
  - intros x [i Hi]%list_elem_of_lookup Hf. rewrite list_lookup_delete in Hi.
    assert (∀ j, delays self !! j = Some x → j = k) as Hj.
    { intros j Hjx. eapply NoDup_lookup; [exact Hnd| |]; rewrite list_lookup_fmap.
      - rewrite Hjx. simpl. by rewrite Hf.
      - by rewrite Hk. }
    case_decide as Hik; apply Hj in Hi; lia.
  - apply Hb. by eapply list_elem_of_lookup_2.
Qed.

Lemma timer_outputs_spec evs : ∀ self, timer_wf self →
  NoDup (timer_outputs evs self).*1.*1 ∧
  ∀ f m t, (f, m, t) ∈ timer_outputs evs self →
    (∃ d, d ∈ delays self ∧ flag d = f ∧ message d = m ∧ deadline d ≤ t) ∨
    (∃ due, (f, m, due) ∈ sends (next_flag self) evs ∧ due + TIMER_RESOLUTION * 2 ≤ t).
Proof.
  induction evs as [|e evs IH]; intros self Hwf; simpl; [split; [apply NoDup_nil_2|set_solver]|].
  destruct (IH _ (timer_step_wf e self Hwf)) as [IH1 IH2]. rewrite next_flag_step in IH2.
  assert (∀ f m t, (f, m, t) ∈ timer_outputs evs (timer_step e self) →
    (∃ d, d ∈ delays self ∧ flag d = f ∧ message d = m ∧ deadline d ≤ t) ∨
    (∃ due, (f, m, due) ∈ sends (next_flag self) (e :: evs) ∧ due + TIMER_RESOLUTION * 2 ≤ t)) as Htail.
  { intros f m t Hin. destruct (IH2 _ _ _ Hin) as [(d & Hd & Hf & Hm & Ht)|(due & Hs & Ht)].
    - apply delays_step in Hd as [Hd|(now & x & -> & Hf' & Hdl)]; [left; eauto 6|].
      right. exists (now + x). simpl. subst. rewrite Hf'. split; [set_solver|lia].
    - right. exists due. split; [|done]. destruct e; simpl; set_solver. }
  destruct (timer_output e self) as [[[f m] t]|] eqn:Ho; simpl; [|done].
  destruct (timer_output_spec _ _ _ _ _ Hwf Ho) as (Hd & Hgone & Hlt). split.
  - apply NoDup_cons_2; [|done].
    intros ([f' m'] & Hf & ([[f'' m''] t''] & Heq & Hin)%list_elem_of_fmap)%list_elem_of_fmap. simplify_eq/=.
    rewrite next_flag_step in Hlt.
    destruct (IH2 _ _ _ Hin) as [(d & Hdd & Hfd & _)|(due & Hs%sends_above & _)]; [by apply (Hgone d)|]. lia.
  - intros f' m' t' [[= -> -> ->]|Hin]%elem_of_cons; [by left|by apply Htail].
Qed.

(** A flag that is set stays set, and nothing comes out of its future. *)
Lemma canceled_silent evs : ∀ self f,
  (f < next_flag self)%nat → canceled self !! f = Some true → f ∉ (timer_outputs evs self).*1.*1.
Proof.
  induction evs as [|e evs IH]; intros self f Hf Hc; simpl; [set_solver|].
  rewrite !fmap_app, not_elem_of_app. split.
  - destruct e as [| |now k|]; simpl; try set_solver. destruct (delays self !! k) as [d|]; simpl; [|set_solver].
    destruct (decide (flag d = f)) as [->|]; [rewrite Hc; simpl; rewrite andb_false_r; set_solver|].
    case_match; set_solver.
  - apply IH.
    + rewrite next_flag_step. destruct e; lia.
    + destruct e as [now d m|f'|now k|]; simpl.
      * by rewrite lookup_insert_ne by lia.
      * case_bool_decide; simpl; [|done]. destruct (decide (f' = f)) as [->|]; [by rewrite lookup_insert_eq|].
        by rewrite lookup_insert_ne.
      * unfold fire. by repeat case_match.
      * unfold poll. by destruct (rx self).
Qed.

Lemma timer_run_wf evs : ∀ self, timer_wf self → timer_wf (foldl (fun s e => timer_step e s) self evs).
Proof. induction evs as [|e evs IH]; intros self H; simpl; [done|]. by apply IH, timer_step_wf. Qed.

(** C33.  Timers: in every run, each `send_after` delivers its message at most
    once, not before its delay and twice the timer resolution have passed; and
    once its handle was cancelled before it fired, never. *)
Theorem timer_delivery evs :
  NoDup (timer_outputs evs new).*1.*1 ∧
  (∀ f m t, (f, m, t) ∈ timer_outputs evs new →
     ∃ due, (f, m, due) ∈ sends 0 evs ∧ due + TIMER_RESOLUTION * 2 ≤ t) ∧
  (∀ f evs', let self := foldl (fun s e => timer_step e s) new evs in
     (f < next_flag self)%nat → f ∉ (timer_outputs evs' (timer_step (EvCancel f) self)).*1.*1).
Proof.
  destruct (timer_outputs_spec evs new timer_wf_new) as [H1 H2]. split; [done|]. split.
  - intros f m t Hin. destruct (H2 _ _ _ Hin) as [(d & Hd & _)|H]; [set_solver|done].
  - intros f evs' self Hf. apply canceled_silent; simpl; rewrite bool_decide_eq_true_2 by done; simpl; [done|].
    by rewrite lookup_insert_eq.
Qed.
End runs.
