(* ===== verification/Udp.v ===== *)
(** * UDP sockets and the framed sink (src/udp/mod.rs, src/udp/frame.rs)

    What happens to the datagrams the peer server hands to a `UdpChannel`: the
    channel queues them, the reactor drives the sink `UdpFramed`, which buffers
    one datagram and gives it to `sendmsg`.  What the readiness tests and system
    calls answer is a list of [attempt]s.  The driver of a sink (`send_all`) is
    any sequence of its calls in the order of the queue that ends at the first
    error. *)

From S2P Require Import Prelude Types Text.

(** The error numbers `sendmsg` and `recvmsg` tell apart, and the results of
    calls through nix. *)
Inductive Errno := EAGAIN | EINVAL | EOTHER (n : Z).

Inductive nix (A : Type) : Type :=
| NixOk (a : A)
| NixSys (e : Errno)
| NixOther.
Arguments NixOk {A} a.
Arguments NixSys {A} e.
Arguments NixOther {A}.

(** `io::Result`: `WouldBlock`, the last error of the system, or `Other`. *)
Inductive io_error := WouldBlock | OsError (e : Errno) | OtherIo (msg : string).

Inductive io (A : Type) : Type :=
| IoOk (a : A)
| IoErr (e : io_error).
Arguments IoOk {A} a.
Arguments IoErr {A} e.

(** `Poll`. *)
Inductive poll_result (A : Type) : Type :=
| Ready (a : A)
| NotReady
| Failed (e : io_error).
Arguments Ready {A} a.
Arguments NotReady {A}.
Arguments Failed {A} e.

(** `try_nb!`. *)
Definition try_nb {A} (r : io A) : poll_result A :=
  match r with
  | IoOk a => Ready a
  | IoErr WouldBlock => NotReady
  | IoErr e => Failed e
  end.

(** `PktInfo`. *)
Inductive PktInfo := PktV4 (info : in_pktinfo) | PktV6 (info : in6_pktinfo).

(** A datagram as the kernel took it: the socket, the destination, the packet
    info and the bytes. *)
Record datagram := mkDatagram {
  d_v6 : bool;
  d_addr : SocketAddr;
  d_info : option PktInfo;
  d_data : bytes;
}.

(** Using a socket: it is not ready, or the call is made and returns. *)
Inductive attempt := Blocked | Called (r : nix nat).

Record Kernel := mkKernel { attempts : list attempt; taken : list datagram }.

(** A socket that nothing is said about is not ready.  A datagram is sent
    whole or not at all; the count the call returns is another matter. *)
Definition os_sendmsg (d : datagram) (k : Kernel) : Kernel * attempt :=
  match attempts k with
  | [] => (k, Blocked)
  | a :: rest =>
      (mkKernel rest (match a with Called (NixOk _) => taken k ++ [d] | _ => taken k end), a)
  end.

Module UdpSocket.

(** The calls of `bind`, for the IPv4 or the IPv6 socket. *)
Inductive bind_call :=
| CallSocket (v6 : bool)
| CallNonblocking (v6 : bool)
| CallReuseAddress (v6 : bool)
| CallOnlyV6
| CallPacketInfo (v6 : bool)
| CallBind (v6 : bool) (port : Z)
| CallFromSocket (v6 : bool)
| CallRegister (v6 : bool).

(** [bind]: the first call that fails ends it; the result of asking for packet
    infos is ignored. *)
Definition bind (call : bind_call → res unit) (port : Z) : res unit :=
  let? _ := call (CallSocket false) in
  let? _ := call (CallSocket true) in
  let? _ := call (CallNonblocking false) in
  let? _ := call (CallReuseAddress false) in
  let? _ := call (CallNonblocking true) in
  let? _ := call (CallReuseAddress true) in
  let? _ := call CallOnlyV6 in
  let _ := call (CallPacketInfo false) in
  let _ := call (CallPacketInfo true) in
  let? _ := call (CallBind false port) in
  let? _ := call (CallBind true port) in
  let? _ := call (CallFromSocket false) in
  let? _ := call (CallFromSocket true) in
  let? _ := call (CallRegister false) in
  let? _ := call (CallRegister true) in
  Ok tt.

(** `local_addrs`, over what the two sockets answer. *)
Definition local_addrs (local_addr : bool → res SocketAddr) : res (SocketAddr * SocketAddr) :=
  let? a4 := local_addr false in
  let? a6 := local_addr true in
  Ok (a4, a6).

(** `get_io`: the IPv6 socket? *)
Definition get_io (e : Endpoint.t) : bool := match e with Endpoint.V4 _ _ => false | Endpoint.V6 _ _ => true end.

Definition cmsgs (target : Endpoint.t) : option PktInfo :=
  match target with
  | Endpoint.V4 _ (Some pktinfo) => Some (PktV4 pktinfo)
  | Endpoint.V6 _ (Some pktinfo) => Some (PktV6 pktinfo)
  | _ => None
  end.

(** The body of `sendmsg`; [on_einval] is what it does after `EINVAL`. *)
Definition sendmsg_body (buf : bytes) (target : Endpoint.t) (on_einval : Kernel → Kernel * io nat) (k : Kernel)
  : Kernel * io nat :=
  let '(k', a) := os_sendmsg (mkDatagram (get_io target) (Endpoint.addr target) (cmsgs target) buf) k in
  match a with
  | Blocked => (k', IoErr WouldBlock)
  | Called (NixOk len) => (k', IoOk len)
  | Called (NixSys EAGAIN) => (k', IoErr WouldBlock)
  | Called (NixSys EINVAL) => on_einval k'
  | Called (NixSys errno) => (k', IoErr (OsError errno))
  | Called NixOther => (k', IoErr (OtherIo "nix error"))
  end.

Definition sendmsg (buf : bytes) (target : Endpoint.t) (is_retry : bool) : Kernel → Kernel * io nat :=
  let last := sendmsg_body buf (if is_retry then target else Endpoint.to_cleared_pktinfo target)
                (fun k => (k, IoErr (OsError EINVAL))) in
  if is_retry then last else sendmsg_body buf target last.

Definition send_to (buf : bytes) (target : Endpoint.t) : Kernel → Kernel * io nat := sendmsg buf target false.

(** `poll_read`, `poll_write`: one of the two sockets is ready. *)
Definition poll_read (ready4 ready6 : bool) : bool := if ready4 then true else ready6.
Definition poll_write (ready4 ready6 : bool) : bool := if ready4 then true else ready6.

(** `recvmsg`: the bytes, the source if it is an internet address, and the
    first control message if it is a packet info. *)
Record RecvMsg := mkRecvMsg {
  msg_data : bytes;
  msg_address : option SocketAddr;
  msg_cmsg : option PktInfo;
}.

(** What `recv_from` makes of the result of `recvmsg`: the buffer afterwards,
    the count and the endpoint. *)
Definition received (buf : bytes) (res : nix RecvMsg) : bytes * io (nat * Endpoint.t) :=
  match res with
  | NixOk msg =>
      let data := take (length buf) (msg_data msg) in
      let buf := overlay 0 data buf in
      match msg_address msg with
      | Some addr =>
          match msg_cmsg msg with
          | Some (PktV4 info) =>
              (buf, IoOk (length data, Endpoint.V4 addr (Some
                {| ipi_addr := 0; ipi_spec_dst := ipi_addr info; ipi_ifindex := ipi_ifindex info |})))
          | Some (PktV6 info) => (buf, IoOk (length data, Endpoint.V6 addr (Some info)))
          | None => (buf, IoErr (OtherIo "missing pktinfo"))
          end
      | None => (buf, IoErr (OtherIo "invalid source address"))
      end
  | NixSys EAGAIN => (buf, IoErr WouldBlock)
  | NixSys errno => (buf, IoErr (OsError errno))
  | NixOther => (buf, IoErr (OtherIo "nix error"))
  end.

(** [recv_from] over the readiness of the two sockets and what `recvmsg` on the
    one of them returns. *)
Definition recv_from (ready4 ready6 : bool) (recvmsg : bool → nix RecvMsg) (buf : bytes) : bytes * io (nat * Endpoint.t) :=
  if ready4 then received buf (recvmsg false)
  else if ready6 then received buf (recvmsg true)
  else (buf, IoErr WouldBlock).
End UdpSocket.

Module UdpFramed.

Record t := mk {
  socket : Kernel;
  rd : bytes;
  wr : bytes;
  out_addr : Endpoint.t;
  flushed : bool;
}.

(** `frame::new(socket)`. *)
Definition new (socket : Kernel) : t :=
  mk socket (zeros (64 * 1024)) [] (Endpoint.from_socket_addr (mkSocketAddr (IpV4 0) 0)) true.

(** `UdpSocket::framed`. *)
Definition framed (socket : Kernel) : t := new socket.

(** `VecUdpCodec`. *)
Definition decode (src : Endpoint.t) (buf : bytes) : Endpoint.t * bytes := (src, buf).
Definition encode (msg : Endpoint.t * bytes) (buf : bytes) : bytes * Endpoint.t := (buf ++ msg.2, msg.1).

(** `Stream::poll`. *)
Definition poll (ready4 ready6 : bool) (recvmsg : bool → nix UdpSocket.RecvMsg) (self : t)
  : t * poll_result (Endpoint.t * bytes) :=
  let '(rd', r) := UdpSocket.recv_from ready4 ready6 recvmsg (rd self) in
  (mk (socket self) rd' (wr self) (out_addr self) (flushed self),
   match try_nb r with
   | Ready (n, addr) => Ready (decode addr (take n rd'))
   | NotReady => NotReady
   | Failed e => Failed e
   end).

Definition poll_complete (self : t) : t * poll_result unit :=
  if flushed self then (self, Ready tt)
  else
    let '(k, r) := UdpSocket.send_to (wr self) (out_addr self) (socket self) in
    let self' := mk k (rd self) (wr self) (out_addr self) (flushed self) in
    match try_nb r with
    | Ready n =>
        let wrote_all := Nat.eqb n (length (wr self)) in
        let self' := mk k (rd self) [] (out_addr self) true in
        if wrote_all then (self', Ready tt)
        else (self', Failed (OtherIo "failed to write entire datagram to socket"))
    | NotReady => (self', NotReady)
    | Failed e => (self', Failed e)
    end.

(** `start_send`: [Ready tt] when the item was taken ([AsyncSink::Ready]),
    [NotReady] when it is handed back. *)
Definition start_send (item : Endpoint.t * bytes) (self : t) : t * poll_result unit :=
  let put (self : t) : t * poll_result unit :=
    let '(wr', addr) := encode item (wr self) in
    (mk (socket self) (rd self) wr' addr false, Ready tt) in
  if flushed self then put self
  else
    let '(self', r) := poll_complete self in
    match r with
    | Ready _ => put self'
    | NotReady => (self', NotReady)
    | Failed e => (self', Failed e)
    end.

Definition close (self : t) : t * poll_result unit := poll_complete self.

(** `get_ref` and `into_inner`, and the assignment through `get_mut`. *)
Definition into_inner (self : t) : Kernel := socket self.
Definition set_inner (k : Kernel) (self : t) : t := mk k (rd self) (wr self) (out_addr self) (flushed self).
End UdpFramed.

Module UdpChannel.

(** The queue behind `egress`, the sink, and whether the future that drives it
    still runs. *)
Record t := mk {
  queue : list (Endpoint.t * bytes);
  sink : UdpFramed.t;
  open : bool;
}.

Definition from (framed : UdpFramed.t) : t := mk [] framed true.

(** `send`: without a receiver the message is dropped, and the error ignored. *)
Definition send (message : Endpoint.t * bytes) (self : t) : t :=
  if open self then mk (queue self ++ [message]) (sink self) true else self.

(** The writing future gives the next message to the sink, or flushes it; an
    error ends the future. *)
Definition feed (self : t) : t :=
  if open self then
    match queue self with
    | [] => self
    | item :: rest =>
        let '(s, r) := UdpFramed.start_send item (sink self) in
        match r with
        | Ready _ => mk rest s true
        | NotReady => mk (queue self) s true
        | Failed _ => mk rest s false
        end
    end
  else self.

Definition flush (self : t) : t :=
  if open self then
    let '(s, r) := UdpFramed.poll_complete (sink self) in
    mk (queue self) s (match r with Failed _ => false | _ => true end)
  else self.

(** `set_mark` on Linux: both sockets, the first error ends it. *)
Definition set_mark (setsockopt : bool → Z → res unit) (mark : Z) : res unit :=
  let? _ := setsockopt false mark in
  let? _ := setsockopt true mark in
  Ok tt.
End UdpChannel.

Definition v6_mapped_to_v4 (a : Z) : option IpAddr :=
  match segments a with
  | [0; 0; 0; 0; 0; f; g; h] =>
      if f =? 65535 then
        Some (IpV4 (Z.shiftr g 8 * 2 ^ 24 + (g mod 2 ^ 8) * 2 ^ 16 + Z.shiftr h 8 * 2 ^ 8 + h mod 2 ^ 8))
      else None
  | _ => None
  end.

(* ------------------------------------------------------------------ *)
(** ** The sink and the channel *)
Section sink.
Import UdpFramed.

(** A message and a datagram, as destination and bytes. *)
Definition target_of (m : Endpoint.t * bytes) : SocketAddr * bytes := (Endpoint.addr m.1, m.2).
Definition sent_of (d : datagram) : SocketAddr * bytes := (d_addr d, d_data d).

Definition delivered (s : UdpFramed.t) : list (SocketAddr * bytes) := sent_of <$> taken (socket s).
(** The datagram the sink holds. *)
Definition in_flight (s : UdpFramed.t) : list (SocketAddr * bytes) :=
  if flushed s then [] else [target_of (out_addr s, wr s)].

Definition sink_inv (s : UdpFramed.t) : Prop := flushed s = true → wr s = [].

Lemma os_sendmsg_cases d k :
  (∃ n, os_sendmsg d k = (mkKernel (tail (attempts k)) (taken k ++ [d]), Called (NixOk n))) ∨
  ((∀ n, (os_sendmsg d k).2 ≠ Called (NixOk n)) ∧ taken (os_sendmsg d k).1 = taken k).
Proof.
  unfold os_sendmsg. destruct (attempts k) as [|[|[n|e|]] rest]; [by right| |left; by eexists|..]; by right.
Qed.

(** On success one datagram with the buffer left for the target; on an error
    none did. *)
Definition sends_whole (buf : bytes) (target : Endpoint.t) (k : Kernel) (out : Kernel * io nat) : Prop :=
  match out.2 with
  | IoOk _ => ∃ info, taken out.1 = taken k ++ [mkDatagram (UdpSocket.get_io target) (Endpoint.addr target) info buf] ∧
                      (info = UdpSocket.cmsgs target ∨ info = None)
  | IoErr _ => taken out.1 = taken k
  end.

Lemma sendmsg_body_whole buf target f k :
  (∀ k', taken k' = taken k → sends_whole buf target k (f k')) →
  sends_whole buf target k (UdpSocket.sendmsg_body buf target f k).
Proof.
  intros Hf. unfold UdpSocket.sendmsg_body.
  destruct (os_sendmsg_cases (mkDatagram (UdpSocket.get_io target) (Endpoint.addr target) (UdpSocket.cmsgs target) buf) k)
    as [[n ->]|[Hn Ht]].
  - unfold sends_whole. simpl. eauto.
  - destruct (os_sendmsg _ k) as [k' [|[n|[| |e]|]]]; simpl in *; try done; [by destruct (Hn n)|by apply Hf].
Qed.

Lemma send_to_whole buf target k : sends_whole buf target k (UdpSocket.send_to buf target k).
Proof.
  unfold UdpSocket.send_to, UdpSocket.sendmsg. apply sendmsg_body_whole. intros k' Hk'.
  pose proof (sendmsg_body_whole buf (Endpoint.to_cleared_pktinfo target) (fun k => (k, IoErr (OsError EINVAL))) k') as H.
  specialize (H ltac:(done)). unfold sends_whole in *.
  destruct (UdpSocket.sendmsg_body _ _ _ k') as [k2 [n|e]]; simpl in *; [|congruence].
  destruct H as (info & Ht & Hi). exists None. rewrite Ht, Hk'. split; [|by right].
  destruct target as [a [p|]|a [p|]]; destruct Hi as [->| ->]; done.
Qed.

Lemma poll_complete_flow s :
  sink_inv s →
  let '(s', r) := poll_complete s in
  sink_inv s' ∧ delivered s' ++ in_flight s' = delivered s ++ in_flight s ∧ (r = Ready tt → flushed s' = true).
Proof.
  intros Hs. unfold poll_complete. destruct (flushed s) eqn:Hf; [done|].
  pose proof (send_to_whole (wr s) (out_addr s) (socket s)) as Hw.
  destruct (UdpSocket.send_to (wr s) (out_addr s) (socket s)) as [k [n|e]]; unfold sends_whole in Hw; simpl in Hw.
  - destruct Hw as (info & Ht & _). simpl.
    destruct (Nat.eqb n (length (wr s))); (split; [done|]; split; [|done]);
      unfold delivered, in_flight; simpl; rewrite Hf, Ht, fmap_app, app_nil_r; done.
  - assert (delivered (mk k (rd s) (wr s) (out_addr s) (flushed s)) ++ in_flight (mk k (rd s) (wr s) (out_addr s) (flushed s))
            = delivered s ++ in_flight s) as He by (unfold delivered, in_flight; simpl; by rewrite Hw).
    rewrite Hf in He. destruct e; simpl; done.
Qed.

Lemma start_send_flow item s :
  sink_inv s →
  let '(s', r) := start_send item s in
  sink_inv s' ∧
  delivered s' ++ in_flight s' =
    delivered s ++ in_flight s ++ (match r with Ready _ => [target_of item] | _ => [] end).
Proof.
  intros Hs. unfold start_send. destruct (flushed s) eqn:Hf.
  - simpl. split; [done|]. unfold delivered, in_flight. simpl. rewrite Hf, (Hs Hf). by destruct item.
  - pose proof (poll_complete_flow s Hs) as H. destruct (poll_complete s) as [s' [[]| |e]];
      destruct H as (H1 & H2 & H3); simpl; [|rewrite app_nil_r; done..].
    split; [done|]. specialize (H3 eq_refl). unfold in_flight in H2 at 1. rewrite H3, app_nil_r in H2.
    rewrite app_assoc, <-H2. unfold delivered, in_flight. simpl. rewrite (H1 H3). by destruct item.
Qed.
End sink.

Section channel.
Import UdpChannel.

(** What happens to a channel: the server sends, the writing future feeds the
    sink or flushes it. *)
Inductive channel_event :=
| EvMessage (m : Endpoint.t * bytes)
| EvFeed
| EvFlush.

Definition channel_step (ch : t) (e : channel_event) : t :=
  match e with EvMessage m => send m ch | EvFeed => feed ch | EvFlush => flush ch end.
Definition channel_run : list channel_event → t → t := flip (foldl channel_step).
Definition messages (evs : list channel_event) : list (Endpoint.t * bytes) :=
  omap (fun e => match e with EvMessage m => Some m | _ => None end) evs.

(** While the writing future runs, what was sent is out, in the sink or in the
    queue, in this order; when it has ended, a first part is out. *)
Definition channel_inv (ms : list (SocketAddr * bytes)) (ch : t) : Prop :=
  sink_inv (sink ch) ∧
  if open ch then delivered (sink ch) ++ in_flight (sink ch) ++ (target_of <$> queue ch) = ms
  else delivered (sink ch) ++ in_flight (sink ch) `prefix_of` ms.

Lemma channel_step_inv ms ch e :
  channel_inv ms ch → channel_inv (ms ++ (target_of <$> messages [e])) (channel_step ch e).
Proof.
  intros [Hs Hi]. destruct e as [m| |]; simpl; rewrite ?app_nil_r.
  - unfold send, channel_inv. destruct (open ch) eqn:Ho; rewrite ?Ho; (split; [done|]).
    + simpl. rewrite <-Hi, fmap_app, <-!app_assoc. done.
    + by apply prefix_app_r.
  - unfold feed. destruct (open ch) eqn:Ho; [|unfold channel_inv; by rewrite Ho].
    destruct (queue ch) as [|item rest] eqn:Hq; [unfold channel_inv; by rewrite Ho, Hq|].
    pose proof (start_send_flow item (sink ch) Hs) as H.
    destruct (UdpFramed.start_send item (sink ch)) as [s' [[]| |e]]; destruct H as [H1 H2]; (split; [done|]);
      simpl; simpl in Hi; rewrite ?app_nil_r in H2.
    + rewrite app_assoc, H2, <-!app_assoc. done.
    + by rewrite app_assoc, H2, <-app_assoc.
    + rewrite H2, <-Hi, app_assoc. by apply prefix_app_r.
  - unfold flush. destruct (open ch) eqn:Ho; [|unfold channel_inv; by rewrite Ho].
    pose proof (poll_complete_flow (sink ch) Hs) as H.
    destruct (UdpFramed.poll_complete (sink ch)) as [s' [[]| |e]]; destruct H as (H1 & H2 & _); (split; [done|]); simpl.
    + by rewrite app_assoc, H2, <-app_assoc.
    + by rewrite app_assoc, H2, <-app_assoc.
    + rewrite H2, <-Hi, app_assoc. by apply prefix_app_r.
Qed.

Lemma channel_run_inv evs : ∀ ms ch,
  channel_inv ms ch → channel_inv (ms ++ (target_of <$> messages evs)) (channel_run evs ch).
Proof.
  induction evs as [|e evs IH]; intros ms ch Hi; [by rewrite app_nil_r|].
  apply (channel_step_inv _ _ e) in Hi. apply IH in Hi. rewrite <-app_assoc, <-fmap_app in Hi.
  unfold messages in *. by rewrite <-omap_app in Hi.
Qed.

(** A new channel over sockets that have sent nothing. *)
Definition channel_new (answers : list attempt) : t := from (UdpFramed.new (mkKernel answers [])).

Lemma channel_new_inv answers : channel_inv [] (channel_new answers).
Proof. by split. Qed.

(** C29.  The UDP channel: whatever the sockets answer and however the reactor
    drives the sink, the datagrams that went out are a first part of the
    messages the server sent, in the same order, each whole and to its address;
    while the writing future has not failed, what is missing is exactly the one
    datagram in the sink and those still in the queue. *)
Theorem udp_channel_in_order answers evs :
  let ch := channel_run evs (channel_new answers) in
  delivered (sink ch) `prefix_of` (target_of <$> messages evs) ∧
  (open ch = true →
   delivered (sink ch) ++ in_flight (sink ch) ++ (target_of <$> queue ch) = target_of <$> messages evs).
Proof.
  intros ch. pose proof (channel_run_inv evs [] _ (channel_new_inv answers)) as [_ H].
  change (channel_run evs (channel_new answers)) with ch in H. simpl in H.
  destruct (open ch); (split; [|done || (by intros)]).
  - rewrite <-H. by apply prefix_app_r.
  - etransitivity; [|exact H]. by apply prefix_app_r.
Qed.

(** ** Progress *)

(** The sockets let [ds] through: between them they may not be ready for a
    while, but they report no error. *)
Inductive accepts : list (SocketAddr * bytes) → list attempt → Prop :=
| accepts_nil l : accepts [] l
| accepts_blocked ds l : accepts ds l → accepts ds (Blocked :: l)
| accepts_again ds l : accepts ds l → accepts ds (Called (NixSys EAGAIN) :: l)
| accepts_sent d ds l : accepts ds l → accepts (d :: ds) (Called (NixOk (length d.2)) :: l).

Definition pending (ch : t) : list (SocketAddr * bytes) := in_flight (sink ch) ++ (target_of <$> queue ch).
Definition answers_left (ch : t) : list attempt := attempts (UdpFramed.socket (sink ch)).

(** The channel is driven without an error. *)
Definition healthy (ch : t) : Prop := open ch = true ∧ sink_inv (sink ch) ∧ accepts (pending ch) (answers_left ch).

(** One use of the socket for the datagram in the sink. *)
Lemma poll_complete_accepts s ds :
  sink_inv s → accepts (in_flight s ++ ds) (attempts (UdpFramed.socket s)) →
  let '(s', r) := UdpFramed.poll_complete s in
  accepts (in_flight s' ++ ds) (attempts (UdpFramed.socket s')) ∧
  (r = Ready tt ∧ UdpFramed.flushed s' = true ∨ r = NotReady) ∧
  (length (attempts (UdpFramed.socket s')) ≤ length (attempts (UdpFramed.socket s)))%nat ∧
  (UdpFramed.flushed s = false → (length (attempts (UdpFramed.socket s')) < length (attempts (UdpFramed.socket s)))%nat).
Proof.
  intros Hs. unfold in_flight at 1, UdpFramed.poll_complete.
  destruct (UdpFramed.flushed s) eqn:Hf; [intros Ha; unfold in_flight; rewrite Hf; split_and!; [done|by left|done|done]|].
  intros Ha. destruct s as [[l tk] rd wr addr fl]. simpl in *. subst fl.
  inversion Ha; subst; unfold UdpSocket.send_to, UdpSocket.sendmsg, UdpSocket.sendmsg_body, os_sendmsg; simpl.
  - split; [done|]. split; [auto|]. lia.
  - split; [done|]. split; [auto|]. lia.
  - rewrite Nat.eqb_refl. simpl. split; [done|]. split; [auto|]. lia.
Qed.

Lemma flush_healthy ch :
  healthy ch → healthy (flush ch) ∧ queue (flush ch) = queue ch ∧
  (length (answers_left (flush ch)) ≤ length (answers_left ch))%nat ∧
  (UdpFramed.flushed (sink ch) = false → (length (answers_left (flush ch)) < length (answers_left ch))%nat).
Proof.
  intros (Ho & Hs & Ha). unfold flush. rewrite Ho.
  pose proof (poll_complete_accepts _ _ Hs Ha) as H. pose proof (poll_complete_flow _ Hs) as Hflow.
  destruct (UdpFramed.poll_complete (sink ch)) as [s' r]. destruct H as (H1 & H2 & H3 & H4), Hflow as [H5 _].
  split_and!; try done. unfold healthy. simpl. split_and!; try done. by destruct H2 as [[-> _]| ->].
Qed.

Lemma feed_healthy ch :
  healthy ch → healthy (feed ch) ∧
  (length (answers_left (feed ch)) ≤ length (answers_left ch))%nat ∧ (length (queue (feed ch)) ≤ length (queue ch))%nat ∧
  (queue ch ≠ [] →
   (length (answers_left (feed ch)) < length (answers_left ch) ∨ length (queue (feed ch)) < length (queue ch))%nat).
Proof.
  intros (Ho & Hs & Ha). unfold feed. rewrite Ho. destruct (queue ch) as [|item rest] eqn:Hq.
  { split; [done|]. split; [done|]. split; [by rewrite Hq|done]. }
  pose proof (start_send_flow item _ Hs) as Hflow. unfold UdpFramed.start_send in *.
  destruct (UdpFramed.flushed (sink ch)) eqn:Hf.
  - destruct Hflow as [H1 _]. simpl. split; [|split; [done|split; [lia|intros _; right; lia]]].
    unfold healthy. simpl. split_and!; try done. unfold pending, in_flight in Ha. rewrite Hf, Hq in Ha.
    unfold pending, answers_left, in_flight. simpl. rewrite (Hs Hf). by destruct item.
  - unfold pending in Ha. rewrite Hq in Ha. pose proof (poll_complete_accepts _ _ Hs Ha) as H.
    pose proof (poll_complete_flow _ Hs) as Hpc.
    destruct (UdpFramed.poll_complete (sink ch)) as [s' r] eqn:E.
    destruct H as (H1 & H2 & H3 & H4), Hpc as (Hs' & _ & _). specialize (H4 Hf).
    destruct H2 as [[-> Hfl]| ->]; simpl in *; (split; [|split; [done|split; [rewrite ?Hq; simpl; lia|by left]]]).
    + destruct Hflow as [H5 _]. unfold healthy. simpl. split_and!; try done.
      unfold in_flight in H1. rewrite Hfl in H1. unfold pending, answers_left, in_flight. simpl.
      rewrite (Hs' Hfl). by destruct item.
    + done.
Qed.

Definition round (ch : t) : t := flush (feed ch).

(** C37.  Progress: in every state of the channel in which the writing future
    has not failed, if the sockets go on to let the waiting datagrams through,
    not necessarily at once, then after finitely many turns of the driver the
    queue and the sink are empty and every message sent so far is out. *)
Theorem udp_channel_drains answers evs :
  let ch := channel_run evs (channel_new answers) in
  open ch = true → accepts (pending ch) (answers_left ch) →
  ∃ n, let ch' := Nat.iter n round ch in
    pending ch' = [] ∧ delivered (sink ch') = target_of <$> messages evs.
Proof.
  intros ch Ho Ha. pose proof (channel_run_inv evs [] _ (channel_new_inv answers)) as Hinv.
  change (channel_run evs (channel_new answers)) with ch in Hinv. generalize dependent ch. intros ch Ho Ha Hinv.
  simpl in Hinv. assert (healthy ch) as Hh by (split; [done|]; split; [apply Hinv|done]). clear Ho Ha.
  remember (length (answers_left ch) + length (queue ch))%nat as m eqn:Hm.
  revert ch Hm Hinv Hh. induction (lt_wf m) as [m _ IH]. intros ch -> Hinv Hh.
  destruct (decide (pending ch = [])) as [Hp|Hp].
  { exists 0%nat. split; [done|]. destruct Hh as [Ho _]. destruct Hinv as [_ Hi]. rewrite Ho in Hi.
    change (delivered (sink ch) ++ pending ch = target_of <$> messages evs) in Hi. by rewrite Hp, app_nil_r in Hi. }
  destruct (feed_healthy ch Hh) as (H1 & H2 & H3 & H4).
  destruct (flush_healthy (feed ch) H1) as (H5 & H6 & H7 & H8).
  assert (length (answers_left (round ch)) + length (queue (round ch)) < length (answers_left ch) + length (queue ch))%nat as Hlt.
  { unfold round. rewrite H6. destruct (queue ch) as [|item rest] eqn:Hq.
    - assert (feed ch = ch) as Hfeed by (unfold feed; rewrite Hq; by destruct (open ch)).
      rewrite Hfeed in *. unfold pending, in_flight in Hp. rewrite Hq in Hp.
      destruct (UdpFramed.flushed (sink ch)); [done|]. specialize (H8 eq_refl). rewrite Hq. simpl. lia.
    - destruct (H4 ltac:(done)); lia. }
  assert (channel_inv (target_of <$> messages evs) (round ch)) as Hinv'.
  { pose proof (channel_run_inv [EvFeed; EvFlush] _ _ Hinv) as H. by rewrite app_nil_r in H. }
  destruct (IH _ Hlt (round ch) eq_refl Hinv' H5) as [n Hn]. exists (Datatypes.S n). by rewrite Nat.iter_succ_r.
Qed.

Lemma closed_run evs : ∀ ch, open ch = false → channel_run evs ch = ch.
Proof.
  induction evs as [|e evs IH]; intros ch Ho; [done|]. simpl. unfold channel_run, flip in *. simpl.
  assert (channel_step ch e = ch) as ->; [|by apply IH].
  destruct e; simpl; [unfold send|unfold feed|unfold flush]; by rewrite Ho.
Qed.

(** One failure ends the channel: when a system call for the datagram in
    the sink fails with anything but `EAGAIN` and `EINVAL` (an unreachable
    network, say), the writing future is over, and no message sent before or
    after, to whatever peer, leaves any more. *)
Lemma udp_error_is_final ch n rest evs :
  open ch = true → UdpFramed.flushed (sink ch) = false → answers_left ch = Called (NixSys (EOTHER n)) :: rest →
  let ch' := channel_run (EvFlush :: evs) ch in
  open ch' = false ∧ delivered (sink ch') = delivered (sink ch).
Proof.
  intros Ho Hf Ha.
  assert (open (flush ch) = false ∧ delivered (sink (flush ch)) = delivered (sink ch)) as [H1 H2].
  { unfold flush. rewrite Ho. destruct ch as [q [[l tk] rd wr addr fl] o]. unfold answers_left in Ha. simpl in *. subst.
    unfold UdpFramed.poll_complete, UdpSocket.send_to, UdpSocket.sendmsg, UdpSocket.sendmsg_body, os_sendmsg. done. }
  unfold channel_run, flip. simpl. change (foldl channel_step (flush ch) evs) with (channel_run evs (flush ch)).
  by rewrite closed_run.
Qed.
End channel.

Section endpoints.
Import UdpSocket.

(** Nothing is received unless a socket is ready. *)
Lemma recv_not_ready ready4 ready6 recvmsg buf :
  poll_read ready4 ready6 = false → recv_from ready4 ready6 recvmsg buf = (buf, IoErr WouldBlock).
Proof. by destruct ready4, ready6. Qed.

(** The IPv4 socket goes first: while it counts as ready and has nothing to
    read, a datagram that waits on the IPv6 socket is not received. *)
Lemma recv_stale_v4 ready6 recvmsg buf :
  recvmsg false = NixSys EAGAIN → recv_from true ready6 recvmsg buf = (buf, IoErr WouldBlock).
Proof. intros Hr. unfold recv_from. by rewrite Hr. Qed.

(** The packet info that makes a datagram leave from the address and the
    interface [msg] arrived on. *)
Definition arrival (msg : RecvMsg) : option PktInfo :=
  match msg_cmsg msg with
  | Some (PktV4 info) => Some (PktV4 {| ipi_ifindex := ipi_ifindex info; ipi_spec_dst := ipi_addr info; ipi_addr := 0 |})
  | Some (PktV6 info) => Some (PktV6 info)
  | None => None
  end.
Definition for_v6 (info : PktInfo) : bool := match info with PktV4 _ => false | PktV6 _ => true end.

(** What a system call for a datagram to [addr] adds to what left. *)
Lemma send_to_cases data ep info k :
  cmsgs ep = Some info →
  let d o := mkDatagram (for_v6 info) (Endpoint.addr ep) o data in
  match attempts k with
  | Called (NixOk len) :: rest => send_to data ep k = (mkKernel rest (taken k ++ [d (Some info)]), IoOk len)
  | Called (NixSys EINVAL) :: Called (NixOk len) :: rest =>
      send_to data ep k = (mkKernel rest (taken k ++ [d None]), IoOk len)
  | _ => taken (send_to data ep k).1 = taken k ∧ ∀ n, (send_to data ep k).2 ≠ IoOk n
  end.
Proof.
  intros Hc. assert (for_v6 info = get_io ep ∧ get_io (Endpoint.to_cleared_pktinfo ep) = get_io ep ∧
    cmsgs (Endpoint.to_cleared_pktinfo ep) = None ∧ Endpoint.addr (Endpoint.to_cleared_pktinfo ep) = Endpoint.addr ep) as (H1 & H2 & H3 & H4).
  { destruct ep as [a [x|]|a [x|]]; try done; by injection Hc as <-. }
  destruct k as [l tk]. unfold send_to, sendmsg, sendmsg_body, os_sendmsg. cbn [attempts taken]. rewrite Hc, H1, H2, H3, H4.
  destruct l as [|[|[len|[]|]] rest]; try done. by destruct rest as [|[|[len|[]|]] rest].
Qed.

(** C39.  Replies leave from where the datagram arrived: a datagram that was
    received leaves its bytes in the buffer and comes with an endpoint; what is
    sent to that endpoint goes to the datagram's source, and carries the packet
    info that makes it leave from the address and interface the datagram arrived
    on.  Only when the system refuses that with `EINVAL` is it sent again, once,
    without the info. *)
Theorem udp_reply_path ready4 ready6 recvmsg buf buf' n ep :
  recv_from ready4 ready6 recvmsg buf = (buf', IoOk (n, ep)) →
  ∃ v6 msg addr info,
    recvmsg v6 = NixOk msg ∧ msg_address msg = Some addr ∧ arrival msg = Some info ∧
    take n buf' = take (length buf) (msg_data msg) ∧
    ∀ data k,
      let d o := mkDatagram (for_v6 info) addr o data in
      match attempts k with
      | Called (NixOk len) :: rest => send_to data ep k = (mkKernel rest (taken k ++ [d (Some info)]), IoOk len)
      | Called (NixSys EINVAL) :: Called (NixOk len) :: rest =>
          send_to data ep k = (mkKernel rest (taken k ++ [d None]), IoOk len)
      | _ => taken (send_to data ep k).1 = taken k ∧ ∀ n, (send_to data ep k).2 ≠ IoOk n
      end.
Proof.
  unfold recv_from. intros H.
  assert (∃ v6, received buf (recvmsg v6) = (buf', IoOk (n, ep))) as [v6 Hv]
    by (destruct ready4; [by exists false|]; destruct ready6; [by exists true|discriminate]).
  clear H. exists v6. unfold received in Hv. destruct (recvmsg v6) as [msg|[]|]; try discriminate Hv.
  destruct (msg_address msg) as [addr|] eqn:Haddr; [|discriminate Hv]. exists msg, addr. unfold arrival.
  assert (∀ d : bytes, (length d ≤ length buf)%nat → take (length d) (overlay 0 d buf) = d) as Htake.
  { intros d Hd. unfold overlay. simpl. apply take_app_length. }
  destruct (msg_cmsg msg) as [[info|info]|]; [| |discriminate Hv];
    apply pair_eq_inv in Hv as [<- Hv]; injection Hv as <- <-; eexists; (split; [done|]); (split; [done|]); (split; [done|]);
    (split; [apply Htake; rewrite length_take; lia|]); intros data k;
    match goal with |- context [send_to data ?e k] => exact (send_to_cases data e _ k eq_refl) end.
Qed.
End endpoints.

(* ------------------------------------------------------------------ *)
(** ** Instances of the theorems *)
Section witnesses.
Import UdpChannel.

Definition ud_ep (a : Z) : Endpoint.t := Endpoint.from_socket_addr (mkSocketAddr (IpV4 a) 51820).
Definition ud_msgs : list channel_event := [EvMessage (ud_ep 1, [1; 2; 3]); EvMessage (ud_ep 2, [4]); EvFeed].

(** Two messages, the first in the sink; the socket is busy once. *)
Definition ud_ch : t :=
  channel_run ud_msgs (channel_new [Called (NixSys EAGAIN); Called (NixOk 3%nat); Blocked; Called (NixOk 1%nat)]).

Lemma udp_channel_drains_witness :
  ∃ n, pending (Nat.iter n round ud_ch) = [] ∧ delivered (sink (Nat.iter n round ud_ch)) = target_of <$> messages ud_msgs.
Proof.
  refine (udp_channel_drains [Called (NixSys EAGAIN); Called (NixOk 3%nat); Blocked; Called (NixOk 1%nat)] ud_msgs eq_refl _).
  change (accepts [(mkSocketAddr (IpV4 1) 51820, [1; 2; 3]); (mkSocketAddr (IpV4 2) 51820, [4])]
    [Called (NixSys EAGAIN); Called (NixOk 3%nat); Blocked; Called (NixOk 1%nat)]).
  apply accepts_again. refine (accepts_sent (_, [1; 2; 3]) _ _ _). apply accepts_blocked.
  refine (accepts_sent (_, [4]) _ _ _). apply accepts_nil.
Defined.

(** The same messages over a network that cannot be reached for the first. *)
Definition ud_lost : t := channel_run ud_msgs (channel_new [Called (NixSys (EOTHER 101))]).

Lemma udp_error_is_final_instance :
  let ch' := channel_run [EvFlush; EvFeed; EvFlush; EvMessage (ud_ep 3, [9]); EvFeed] ud_lost in
  open ch' = false ∧ delivered (sink ch') = delivered (sink ud_lost).
Proof.
  exact (udp_error_is_final ud_lost 101 [] [EvFeed; EvFlush; EvMessage (ud_ep 3, [9]); EvFeed] eq_refl eq_refl eq_refl).
Qed.

Definition ud_msg : UdpSocket.RecvMsg :=
  UdpSocket.mkRecvMsg [7; 8] (Some (mkSocketAddr (IpV4 5) 99))
    (Some (PktV4 {| ipi_ifindex := 2; ipi_spec_dst := 0; ipi_addr := 6 |})).
Definition ud_reply : Endpoint.t :=
  Endpoint.V4 (mkSocketAddr (IpV4 5) 99) (Some {| ipi_ifindex := 2; ipi_spec_dst := 6; ipi_addr := 0 |}).

(** The first attempt to reply goes through. *)
Definition ud_kernel : Kernel := mkKernel [Called (NixOk 1%nat)] [].
Lemma udp_reply_path_witness :
  ∃ info, arrival ud_msg = Some info ∧
    taken (UdpSocket.send_to [9] ud_reply ud_kernel).1 = [mkDatagram (for_v6 info) (mkSocketAddr (IpV4 5) 99) (Some info) [9]].
Proof.
  destruct (udp_reply_path true false (fun _ => NixOk ud_msg) (zeros 4) [7; 8; 0; 0] 2%nat ud_reply eq_refl)
    as (v6 & msg & addr & info & H1 & H2 & H3 & _ & H4).
  injection H1 as <-. injection H2 as <-. exists info. split; [exact H3|].
  specialize (H4 [9] ud_kernel). cbn [attempts ud_kernel] in H4. rewrite H4. reflexivity.
Defined.
End witnesses.
