(* ===== verification/World.v ===== *)
(** * The shared state and the reactor's view (src/interface/mod.rs)

    `SharedPeer` is a reference-counted cell: a [peer_id] is the address of a
    cell of [heap].  `State` is shared by the configuration service and the
    peer server; [World] is the state, the heap, the fields of `PeerServer`
    (src/interface/peer_server.rs), the queues it is polled on, and what it
    has sent: [wire] to the UDP channel, [tunnel] to the tunnel device. *)

From S2P Require Import Prelude Crates Reference AntiReplay Types Timestamp Message XChaCha RateLimiter Cookie Router Peer Timer.

(** `ChannelMessage`: what the configuration tells the server. *)
Inductive ChannelMessage :=
| ClearPrivateKey
| NewPrivateKey
| NewListenPort (p : Z)
| NewFwmark (mark : Z)
| NewPersistentKeepalive (p : peer_id)
| NewPeer (p : peer_id).
#[export] Instance ChannelMessage_eq_dec : EqDecision ChannelMessage.
Proof. solve_decision. Defined.

(** A bound `UdpChannel`, with the mark set on its sockets. *)
Record UdpChannel := mkUdpChannel { udp_mark : option Z }.

Section world.
Context {B : Blake2} {SN : Snow} {T : Treebitmap}.

(** `State`. *)
Record State := mkState {
  pubkey_map : gmap bytes peer_id;
  index_map : gmap Z peer_id;
  router : Router.t;
  interface_info : InterfaceInfo;
}.

Definition set_pubkey_map (v : gmap bytes peer_id) (r : State) : State :=
  mkState v (index_map r) (router r) (interface_info r).
Definition set_index_map (v : gmap Z peer_id) (r : State) : State :=
  mkState (pubkey_map r) v (router r) (interface_info r).
Definition set_router (v : Router.t) (r : State) : State :=
  mkState (pubkey_map r) (index_map r) v (interface_info r).
Definition set_interface_info (v : InterfaceInfo) (r : State) : State :=
  mkState (pubkey_map r) (index_map r) (router r) v.

Definition State_default : State := mkState ∅ ∅ Router.default InterfaceInfo_default.

(** `PeerServer`, with the heap and the queues.  [rng] holds the 32-bit numbers
    the random generator will draw. *)
Record World := mkWorld {
  heap : gmap peer_id Peer;
  next_peer : peer_id;
  state : State;
  udp : option UdpChannel;
  port : option Z;
  wire : list (Endpoint.t * bytes);
  outgoing : list UtunPacket.t;
  channel : list ChannelMessage;
  handshakes : list (Endpoint.t * Message);
  timer : Timer.t;
  tunnel : list bytes;
  validator : Validator.t;
  rate_limiter : gmap IpAddr RateLimiter.Entry;
  under_load_until : Instant;
  rng : list Z;
}.

Definition set_heap (v : gmap peer_id Peer) (r : World) : World :=
  mkWorld v (next_peer r) (state r) (udp r) (port r) (wire r) (outgoing r) (channel r) (handshakes r) (timer r) (tunnel r) (validator r) (rate_limiter r) (under_load_until r) (rng r).
Definition set_next_peer (v : peer_id) (r : World) : World :=
  mkWorld (heap r) v (state r) (udp r) (port r) (wire r) (outgoing r) (channel r) (handshakes r) (timer r) (tunnel r) (validator r) (rate_limiter r) (under_load_until r) (rng r).
Definition set_state (v : State) (r : World) : World :=
  mkWorld (heap r) (next_peer r) v (udp r) (port r) (wire r) (outgoing r) (channel r) (handshakes r) (timer r) (tunnel r) (validator r) (rate_limiter r) (under_load_until r) (rng r).
Definition set_udp (v : option UdpChannel) (r : World) : World :=
  mkWorld (heap r) (next_peer r) (state r) v (port r) (wire r) (outgoing r) (channel r) (handshakes r) (timer r) (tunnel r) (validator r) (rate_limiter r) (under_load_until r) (rng r).
Definition set_port (v : option Z) (r : World) : World :=
  mkWorld (heap r) (next_peer r) (state r) (udp r) v (wire r) (outgoing r) (channel r) (handshakes r) (timer r) (tunnel r) (validator r) (rate_limiter r) (under_load_until r) (rng r).
Definition set_wire (v : list (Endpoint.t * bytes)) (r : World) : World :=
  mkWorld (heap r) (next_peer r) (state r) (udp r) (port r) v (outgoing r) (channel r) (handshakes r) (timer r) (tunnel r) (validator r) (rate_limiter r) (under_load_until r) (rng r).
Definition set_outgoing (v : list UtunPacket.t) (r : World) : World :=
  mkWorld (heap r) (next_peer r) (state r) (udp r) (port r) (wire r) v (channel r) (handshakes r) (timer r) (tunnel r) (validator r) (rate_limiter r) (under_load_until r) (rng r).
Definition set_channel (v : list ChannelMessage) (r : World) : World :=
  mkWorld (heap r) (next_peer r) (state r) (udp r) (port r) (wire r) (outgoing r) v (handshakes r) (timer r) (tunnel r) (validator r) (rate_limiter r) (under_load_until r) (rng r).
Definition set_handshakes (v : list (Endpoint.t * Message)) (r : World) : World :=
  mkWorld (heap r) (next_peer r) (state r) (udp r) (port r) (wire r) (outgoing r) (channel r) v (timer r) (tunnel r) (validator r) (rate_limiter r) (under_load_until r) (rng r).
Definition set_timer (v : Timer.t) (r : World) : World :=
  mkWorld (heap r) (next_peer r) (state r) (udp r) (port r) (wire r) (outgoing r) (channel r) (handshakes r) v (tunnel r) (validator r) (rate_limiter r) (under_load_until r) (rng r).
Definition set_tunnel (v : list bytes) (r : World) : World :=
  mkWorld (heap r) (next_peer r) (state r) (udp r) (port r) (wire r) (outgoing r) (channel r) (handshakes r) (timer r) v (validator r) (rate_limiter r) (under_load_until r) (rng r).
Definition set_validator (v : Validator.t) (r : World) : World :=
  mkWorld (heap r) (next_peer r) (state r) (udp r) (port r) (wire r) (outgoing r) (channel r) (handshakes r) (timer r) (tunnel r) v (rate_limiter r) (under_load_until r) (rng r).
Definition set_rate_limiter (v : gmap IpAddr RateLimiter.Entry) (r : World) : World :=
  mkWorld (heap r) (next_peer r) (state r) (udp r) (port r) (wire r) (outgoing r) (channel r) (handshakes r) (timer r) (tunnel r) (validator r) v (under_load_until r) (rng r).
Definition set_under_load_until (v : Instant) (r : World) : World :=
  mkWorld (heap r) (next_peer r) (state r) (udp r) (port r) (wire r) (outgoing r) (channel r) (handshakes r) (timer r) (tunnel r) (validator r) (rate_limiter r) v (rng r).
Definition set_rng (v : list Z) (r : World) : World :=
  mkWorld (heap r) (next_peer r) (state r) (udp r) (port r) (wire r) (outgoing r) (channel r) (handshakes r) (timer r) (tunnel r) (validator r) (rate_limiter r) (under_load_until r) v.

(** The streams `PeerServer::poll` reads, and what a stream answers once the
    items that are ready are taken: `NotReady`, `Ready(None)` or an error. *)
Inductive Source := ConfigStream | TimerStream | IngressStream | OutgoingStream.
Inductive Rest := Pending | Ended | Broken.
#[export] Instance Rest_eq_dec : EqDecision Rest.
Proof. solve_decision. Defined.

(** What a handler is given: the clocks, the random bytes a cookie reply would
    use, whether `Weak::upgrade` of a peer succeeds, whether the tunnel is
    still there, the results of the system calls ([os_bind] is that of
    `UdpSocket::bind` and of the `local_addrs` that is logged after it), and the
    rest of each stream. *)
Record Env := mkEnv {
  now : Instant;
  wall : Duration;
  rand_secret : bytes;
  rand_nonce : bytes;
  upgrade : peer_id → bool;
  tunnel_open : bool;
  os_bind : Z → res unit;
  os_set_mark : Z → res unit;
  rest : Source → Rest;
}.

(** `PeerServer::new` on a fresh `State`, at time [t]. *)
Definition World_new (t : Instant) (draws : list Z) : World :=
  mkWorld ∅ 0%nat State_default None None [] [] [] [] Timer.new [] (Validator.new (zeros 32)) RateLimiter.new t draws.

(** ** Access to the parts *)

(** `peer_ref.borrow_mut()`: runs [m] on the cell. *)
Definition with_peer {A} (p : peer_id) (m : M Peer A) : M World A := fun w =>
  match heap w !! p with
  | Some self => let '(self', r) := m self in (set_heap (<[p := self']> (heap w)) w, r)
  | None => (w, Panic "dangling reference")
  end.

(** `peer_ref.borrow()`. *)
Definition read_peer {A} (p : peer_id) (f : Peer → res A) : M World A := fun w =>
  match heap w !! p with
  | Some self => (w, f self)
  | None => (w, Panic "dangling reference")
  end.

Definition map_timers (p : peer_id) (f : Timers → Timers) : M World unit :=
  with_peer p (modM (fun self => set_timers (f (timers self)) self)).

Definition map_state (f : State → State) : M World unit := modM (fun w => set_state (f (state w)) w).

Definition insert_index (i : Z) (p : peer_id) : M World unit :=
  map_state (fun st => set_index_map (<[i := p]> (index_map st)) st).

(** `if let Some(index) = dead { index_map.remove(&index) }`. *)
Definition remove_index (dead : option Z) : M World unit :=
  match dead with
  | Some i => map_state (fun st => set_index_map (delete i (index_map st)) st)
  | None => retM tt
  end.

(** `self.timer.send_after(d, m)`: the handle. *)
Definition send_after (e : Env) (d : Duration) (m : TimerMessage) : M World nat := fun w =>
  let '(t, h) := Timer.send_after (now e) d m (timer w) in (set_timer t w, Ok h).
End world.
