(* ===== verification/PeerServer.v ===== *)
(** * The peer server (src/interface/peer_server.rs)

    One definition per method of `PeerServer`, in the monad of [World].  A
    handler reads its clocks and random bytes from an [Env]. *)

From S2P Require Import Prelude Crates Reference AntiReplay Types Timestamp Message XChaCha RateLimiter Cookie Router Peer Timer World.

Module PeerServer.
Section with_crates.
Context {BO : ByteOrder} {B : Blake2} {S : Subtle} {A : Aead} {R : Rips} {T : Treebitmap} {SN : Snow}.

Definition rebind (e : Env) : M World unit :=
  let! interface := getM (fun w => interface_info (state w)) in
  match if_private_key interface with
  | None => modM (fun w => set_port None (set_udp None w))
  | Some _ =>
      let p := default 0 (if_listen_port interface) in
      let fwmark := default 0 (if_fwmark interface) in
      let! already := getM (fun w => bool_decide (port w = Some p)) in
      if already then retM tt
      else
        let! _ := liftM (os_bind e p) in
        let! mark := liftM (if negb (fwmark =? 0)
                            then let? _ := os_set_mark e fwmark in Ok (Some fwmark) else Ok None) in
        modM (fun w => set_port (Some p) (set_udp (Some (mkUdpChannel mark)) w))
  end.

Definition send_to_peer (payload : Endpoint.t * bytes) : M World unit :=
  let! channel := getM udp in
  let! _ := liftM (ok_or channel "no udp socket") in
  modM (fun w => set_wire (wire w ++ [payload]) w).

Definition send_to_tunnel (e : Env) (packet : bytes) : M World unit :=
  let! _ := liftM (ensure (tunnel_open e) "send failed because receiver is gone") in
  modM (fun w => set_tunnel (tunnel w ++ [packet]) w).

(** The loop draws until a number is not in the index map. *)
Fixpoint draw_index (used : gmap Z peer_id) (draws : list Z) : list Z * res Z :=
  match draws with
  | [] => ([], Starved)
  | tentative :: draws' =>
      match used !! tentative with
      | None => (draws', Ok tentative)
      | Some _ => draw_index used draws'
      end
  end.

Definition unused_index : M World Z := fun w =>
  let '(draws, r) := draw_index (index_map (state w)) (rng w) in (set_rng draws w, r).

Definition under_load (e : Env) : M World bool :=
  let! _ := modM (fun w =>
    if UNDER_LOAD_QUEUE_SIZE <? Z.of_nat (length (handshakes w))
    then set_under_load_until (now e + UNDER_LOAD_TIME) w else w) in
  getM (fun w => now e <? under_load_until w).

Definition send_cookie_reply (e : Env) (addr : Endpoint.t) (mac1 : bytes) (index : Z) : M World unit :=
  let! reply := (fun w =>
    let '(v, r) := Validator.generate_reply (now e) (rand_secret e) (rand_nonce e) index mac1
                     (ip_octets (Endpoint.ip addr)) (validator w) in
    (set_validator v w, r)) in
  send_to_peer (addr, reply).

Definition send_handshake_init (e : Env) (peer_ref : peer_id) : M World Z :=
  let! since := read_peer peer_ref (fun peer =>
    Ok (Timestamp.elapsed (now e) (handshake_initialized (timers peer)))) in
  let! _ := liftM (ensure (negb (since <? REKEY_TIMEOUT)) "skipping handshake init because of REKEY_TIMEOUT") in
  let! pk := getM (fun w => if_private_key (interface_info (state w))) in
  let! private_key := liftM (ok_or pk "no private key!") in
  let! new_index := unused_index in
  let! '(endpoint, init_packet, dead_index) :=
    with_peer peer_ref (PeerOps.initiate_new_session (now e) (wall e) private_key new_index) in
  let! _ := insert_index new_index peer_ref in
  let! _ := remove_index dead_index in
  let! _ := send_to_peer (endpoint, init_packet) in
  let! _ := map_timers peer_ref (set_handshake_initialized (Timestamp.now (now e))) in
  let! _ := send_after e REKEY_TIMEOUT (Rekey peer_ref new_index) in
  retM new_index.

(** The result of `verify_mac2(..).map_err(..).is_ok()`. *)
Definition mac2_verified (e : Env) (v : Validator.t) (packet : bytes) (addr : Endpoint.t) : res bool :=
  match Validator.verify_mac2 (now e) v packet (ip_octets (Endpoint.ip addr)) with
  | Ok _ => Ok true
  | Err _ => Ok false
  | Panic p => Panic p
  | Starved => Starved
  end.

(** `packet.split_at(n)`, `verify_mac1(mac_in, mac_out[..16])`. *)
Definition check_mac1 (n : nat) (packet : bytes) : M World unit :=
  let! v := getM validator in
  let! mac_in := liftM (slice 0 n packet) in
  let! mac_out := liftM (slice_from n packet) in
  let! mac := liftM (slice 0 16 mac_out) in
  liftM (Validator.verify_mac1 v mac_in mac).

(** The checks under load, the same code in both handshake handlers: a valid
    MAC2, or a cookie reply and an error; then the rate limiter. *)
Definition check_load (e : Env) (addr : Endpoint.t) (packet : bytes) (mac1 : res bytes) (sender : res Z)
    (msg : string) : M World unit :=
  let! loaded := under_load e in
  if loaded then
    let! v := getM validator in
    let! verified := liftM (mac2_verified e v packet addr) in
    if negb verified then
      let! mac1 := liftM mac1 in
      let! sender := liftM sender in
      let! _ := send_cookie_reply e addr mac1 sender in
      errM msg
    else
      let! allowed := (fun w =>
        let '(rl, ok) := RateLimiter.allow (now e) (now e) (Endpoint.ip addr) (rate_limiter w) in
        (set_rate_limiter rl w, Ok ok)) in
      liftM (ensure allowed "rejected by rate limiter.")
  else retM tt.

Definition handle_ingress_handshake_init (e : Env) (addr : Endpoint.t) (packet : bytes) : M World unit :=
  let! _ := check_mac1 116 packet in
  let! _ := check_load e addr packet (Initiation.mac1 packet) (Initiation.sender_index packet)
              "would send cookie request now" in
  let! pk := getM (fun w => if_private_key (interface_info (state w))) in
  let! private_key := liftM (ok_or pk "no private key!") in
  let! handshake := liftM (PeerOps.process_incoming_handshake private_key packet) in
  let! their_pubkey := liftM (SessionOps.their_pubkey handshake) in
  let! found := getM (fun w => pubkey_map (state w) !! their_pubkey) in
  let! peer_ref := liftM (ok_or found "unknown peer pubkey") in
  let! index := unused_index in
  let! '(response, dead_index) :=
    with_peer peer_ref (PeerOps.complete_incoming_handshake (now e) addr index handshake) in
  let! _ := remove_index dead_index in
  let! _ := insert_index index peer_ref in
  send_to_peer (addr, response).

(** `while let Some(packet) = outgoing_queue.pop_front() { send_to_peer(
    handle_outgoing_transport(packet)?)? }` on a queue with contents [q]. *)
Fixpoint drain_queue (e : Env) (peer_ref : peer_id) (q : list UtunPacket.t) : M World unit :=
  match q with
  | [] => retM tt
  | packet :: q' =>
      let! _ := with_peer peer_ref (modM (set_outgoing_queue q')) in
      let! out := with_peer peer_ref (PeerOps.handle_outgoing_transport (now e) (UtunPacket.payload packet)) in
      let! _ := send_to_peer out in
      drain_queue e peer_ref q'
  end.

Definition handle_ingress_handshake_resp (e : Env) (addr : Endpoint.t) (packet : bytes) : M World unit :=
  let! _ := check_mac1 60 packet in
  let! _ := check_load e addr packet (Response.mac1 packet) (Response.sender_index packet)
              "no valid mac2, sent cookie request." in
  let! our_index := liftM (read_u32_from 8 packet) in
  let! found := getM (fun w => index_map (state w) !! our_index) in
  let! peer_ref := liftM (ok_or found "unknown our_index") in
  let! dead_index :=
    with_peer peer_ref (PeerOps.process_incoming_handshake_response (now e) addr packet) in
  let! _ := remove_index dead_index in
  let! ready := read_peer peer_ref (PeerOps.ready_for_transport (now e)) in
  let! _ :=
    if ready then
      let! q := read_peer peer_ref (fun peer => Ok (outgoing_queue peer)) in
      match q with
      | [] =>
          let! out := with_peer peer_ref (PeerOps.handle_outgoing_transport (now e) []) in
          send_to_peer out
      | _ => drain_queue e peer_ref q
      end
    else retM tt in
  let! _ := send_after e WIPE_AFTER_TIME (Wipe peer_ref) in
  retM tt.

Definition handle_ingress_cookie_reply (e : Env) (packet : bytes) : M World unit :=
  let! idx := liftM (CookieReply.receiver_index packet) in
  let! found := getM (fun w => index_map (state w) !! idx) in
  let! peer_ref := liftM (ok_or found "unknown our_index") in
  with_peer peer_ref (PeerOps.consume_cookie_reply (now e) packet).

(** The queued packets after a transition: an encryption error is logged, a
    missing socket ends the handler. *)
Fixpoint flush_queue (e : Env) (peer_ref : peer_id) (q : list UtunPacket.t) : M World unit :=
  match q with
  | [] => retM tt
  | packet :: q' =>
      let! sealed := (fun w =>
        match with_peer peer_ref (PeerOps.handle_outgoing_transport (now e) (UtunPacket.payload packet)) w with
        | (w', Ok message) => (w', Ok (Some message))
        | (w', Err _) => (w', Ok None)
        | (w', Panic p) => (w', Panic p)
        | (w', Starved) => (w', Starved)
        end) in
      let! _ := match sealed with Some message => send_to_peer message | None => retM tt end in
      flush_queue e peer_ref q'
  end.

(** `==` of two shared peers: the public keys behind them. *)
Definition same_peer (h : gmap peer_id Peer) (p q : peer_id) : bool :=
  match h !! p, h !! q with
  | Some a, Some b => bool_decide (pub_key (info a) = pub_key (info b))
  | _, _ => false
  end.

Definition handle_ingress_transport (e : Env) (addr : Endpoint.t) (packet : bytes) : M World unit :=
  let! idx := liftM (Transport.our_index packet) in
  let! found := getM (fun w => index_map (state w) !! idx) in
  let! peer_ref := liftM (ok_or found "unknown our_index") in
  let! '(raw_packet, transition) :=
    with_peer peer_ref (PeerOps.handle_incoming_transport (now e) addr packet) in
  let! _ :=
    match transition with
    | Transition possible_dead_index =>
        let! _ := remove_index possible_dead_index in
        let! q := read_peer peer_ref (fun peer => Ok (outgoing_queue peer)) in
        let! _ := with_peer peer_ref (modM (set_outgoing_queue [])) in
        let! _ := flush_queue e peer_ref q in
        let! _ := send_after e WIPE_AFTER_TIME (Wipe peer_ref) in
        retM tt
    | NoTransition => retM tt
    end in
  let! needs_handshake := read_peer peer_ref (PeerOps.needs_new_handshake (now e) false) in
  let! _ := if needs_handshake then let! _ := send_handshake_init e peer_ref in retM tt else retM tt in
  match raw_packet with
  | [] => retM tt
  | _ =>
      let! h := getM heap in
      let! r := getM (fun w => router (state w)) in
      let! _ := liftM (Router.validate_source (same_peer h) r raw_packet peer_ref) in
      send_to_tunnel e raw_packet
  end.

Definition queue_ingress_handshake (addr : Endpoint.t) (message : Message) : M World unit :=
  modM (fun w => set_handshakes (handshakes w ++ [(addr, message)]) w).

Definition handle_ingress_packet (e : Env) (addr : Endpoint.t) (packet : bytes) : M World unit :=
  let! message := liftM (MessageParser.try_from packet) in
  match message with
  | Message_Transport packet => handle_ingress_transport e addr packet
  | _ => queue_ingress_handshake addr message
  end.

Definition handle_ingress_handshake (e : Env) (addr : Endpoint.t) (message : Message) : M World unit :=
  let! _ := under_load e in
  match message with
  | Message_Initiation packet => handle_ingress_handshake_init e addr packet
  | Message_Response packet => handle_ingress_handshake_resp e addr packet
  | Message_CookieReply packet => handle_ingress_cookie_reply e packet
  | Message_Transport _ => liftM (Panic "no transport packets allowed")
  end.

Definition handle_egress_packet (e : Env) (packet : UtunPacket.t) : M World unit :=
  let! _ := liftM (ensure (negb (Nat.eqb (length (UtunPacket.payload packet)) 0) &&
                           (Z.of_nat (length (UtunPacket.payload packet)) <=? MAX_CONTENT_SIZE))
                     "egress packet outside of size bounds") in
  let! r := getM (fun w => router (state w)) in
  let! peer_ref := liftM (ok_or (Router.route_to_peer r (UtunPacket.payload packet)) "no route to peer") in
  let! needs_handshake := read_peer peer_ref (PeerOps.needs_new_handshake (now e) true) in
  let! _ := with_peer peer_ref (modM (PeerOps.queue_egress packet)) in
  let! ready := read_peer peer_ref (PeerOps.ready_for_transport (now e)) in
  let! _ :=
    if ready then
      let! q := read_peer peer_ref (fun peer => Ok (outgoing_queue peer)) in drain_queue e peer_ref q
    else retM tt in
  if needs_handshake then let! _ := send_handshake_init e peer_ref in retM tt else retM tt.

(** `peer_ref.upgrade().ok_or_else(..)?`. *)
Definition upgraded (e : Env) (p : peer_id) : M World unit :=
  liftM (ensure (upgrade e p) "peer no longer there").

(** `Rekey`: the decision, from the session the timer was set for; on [Ok] the
    handshake is sent. *)
Definition rekey_decision (e : Env) (peer_ref : peer_id) (our_index : Z) : M World unit :=
  let! found := read_peer peer_ref (fun peer => Ok (snd <$> PeerOps.find_session our_index peer)) in
  let! tm := read_peer peer_ref (fun peer => Ok (timers peer)) in
  match found with
  | Some Next =>
      let since := Timestamp.elapsed (now e) (handshake_initialized tm) in
      if since <? REKEY_TIMEOUT then
        let! _ := send_after e (REKEY_TIMEOUT - since) (Rekey peer_ref our_index) in
        errM "too soon since last init sent"
      else if MAX_HANDSHAKE_ATTEMPTS <=? handshake_attempts tm then
        errM "REKEY_ATTEMPT_TIME exceeded, giving up."
      else map_timers peer_ref (fun tm => set_handshake_attempts (wrap64 (handshake_attempts tm + 1)) tm)
  | Some Current =>
      let since_last_send := Timestamp.elapsed (now e) (data_sent tm) in
      let since_last_auth_recv := Timestamp.elapsed (now e) (authenticated_received tm) in
      if since_last_auth_recv <? since_last_send then
        let! _ := send_after e STALE_SESSION_TIMEOUT (Rekey peer_ref our_index) in
        errM "stale rekey tick (inactive)"
      else if since_last_auth_recv <=? STALE_SESSION_TIMEOUT then
        let! _ := send_after e (STALE_SESSION_TIMEOUT - since_last_auth_recv) (Rekey peer_ref our_index) in
        errM "stale rekey tick (not enough time passed yet)"
      else retM tt
  | _ => errM "index is linked to a dead session, bailing"
  end.

(** `PassiveKeepAlive`: the decision, from the timers; on [Ok] a keepalive is
    sent.  Every other branch sets the timer again. *)
Definition passive_decision (e : Env) (peer_ref : peer_id) : M World unit :=
  let again (d : Duration) (msg : string) : M World unit :=
    let! _ := send_after e d (PassiveKeepAlive peer_ref) in errM msg in
  let! peer := read_peer peer_ref (fun peer => Ok peer) in
  match current (sessions peer), keepalive (info peer) with
  | None, _ => again KEEPALIVE_TIMEOUT "passive keepalive skip: no active session."
  | Some _, Some _ => again KEEPALIVE_TIMEOUT "passive keepalive skip: persistent keepalive set."
  | Some _, None =>
      let since_last_recv := Timestamp.elapsed (now e) (data_received (timers peer)) in
      let since_last_send := Timestamp.elapsed (now e) (data_sent (timers peer)) in
      if keepalive_sent (timers peer) then again KEEPALIVE_TIMEOUT "passive keepalive already sent"
      else if since_last_send <? since_last_recv then
        again KEEPALIVE_TIMEOUT "passive keepalive tick (last data was send not recv)"
      else if since_last_recv <? KEEPALIVE_TIMEOUT then
        again (KEEPALIVE_TIMEOUT - since_last_recv) "passive keepalive tick (due to last recv time)"
      else map_timers peer_ref (set_keepalive_sent true)
  end.

(** `self.send_to_peer(peer.handle_outgoing_transport(&[])?)?`. *)
Definition send_keepalive (e : Env) (peer_ref : peer_id) : M World unit :=
  let! out := with_peer peer_ref (PeerOps.handle_outgoing_transport (now e) []) in
  send_to_peer out.

(** `for index in peer.sessions.wipe() { index_map.remove(&index) }`. *)
Definition wipe_sessions (peer_ref : peer_id) : M World unit :=
  let! dead := with_peer peer_ref (fun self =>
    let '(ss, dead) := SessionOps.wipe (sessions self) in (set_sessions ss self, Ok dead)) in
  map_state (fun st => set_index_map (foldl (fun m i => delete i m) (index_map st) dead) st).

Definition handle_timer (e : Env) (message : TimerMessage) : M World unit :=
  match message with
  | Rekey peer_ref our_index =>
      let! _ := upgraded e peer_ref in
      let! _ := rekey_decision e peer_ref our_index in
      let! _ := send_handshake_init e peer_ref in
      retM tt
  | PassiveKeepAlive peer_ref =>
      let! _ := upgraded e peer_ref in
      let! _ := passive_decision e peer_ref in
      let! _ := send_keepalive e peer_ref in
      let! _ := send_after e KEEPALIVE_TIMEOUT (PassiveKeepAlive peer_ref) in
      retM tt
  | PersistentKeepAlive peer_ref =>
      let! _ := upgraded e peer_ref in
      let! peer := read_peer peer_ref (fun peer => Ok peer) in
      match persistent_keepalive (info peer) with
      | Some persistent =>
          let since_last_auth_any := Timestamp.elapsed (now e) (authenticated_traversed (timers peer)) in
          if since_last_auth_any <? persistent then
            let! handle := send_after e (persistent - since_last_auth_any) (PersistentKeepAlive peer_ref) in
            let! _ := map_timers peer_ref (set_persistent_timer (Some handle)) in
            errM "persistent keepalive tick (due to last authenticated packet time)"
          else
            let! _ := send_keepalive e peer_ref in
            let! handle := send_after e persistent (PersistentKeepAlive peer_ref) in
            map_timers peer_ref (set_persistent_timer (Some handle))
      | None => errM "no persistent keepalive set for peer"
      end
  | Wipe peer_ref =>
      let! _ := upgraded e peer_ref in
      let! since := read_peer peer_ref (fun peer =>
        Ok (Timestamp.elapsed (now e) (handshake_completed (timers peer)))) in
      if WIPE_AFTER_TIME <=? since then wipe_sessions peer_ref else retM tt
  end.

Definition handle_incoming_event (e : Env) (event : ChannelMessage) : M World unit :=
  match event with
  | NewPrivateKey =>
      let! pub := getM (fun w => if_pub_key (interface_info (state w))) in
      match pub with
      | Some pub_key =>
          let! _ := modM (set_validator (Validator.new pub_key)) in
          let! bound := getM (fun w => bool_decide (is_Some (udp w))) in
          if bound then retM tt
          else fun w => let '(w', r) := rebind e w in (w', unwrap_res r)
      | None => modM (fun w => set_port None (set_udp None w))
      end
  | NewPeer peer_ref =>
      let! _ := send_after e KEEPALIVE_TIMEOUT (PassiveKeepAlive peer_ref) in
      let! peer := read_peer peer_ref (fun peer => Ok peer) in
      match persistent_keepalive (info peer) with
      | Some keepalive =>
          let! handle := send_after e keepalive (PersistentKeepAlive peer_ref) in
          map_timers peer_ref (set_persistent_timer (Some handle))
      | None => retM tt
      end
  | NewPersistentKeepalive peer_ref =>
      let! peer := read_peer peer_ref (fun peer => Ok peer) in
      let! _ := match persistent_timer (timers peer) with
                | Some handle => modM (fun w => set_timer (Timer.cancel handle (timer w)) w)
                | None => retM tt
                end in
      match persistent_keepalive (info peer) with
      | Some keepalive =>
          let! handle := send_after e keepalive (PersistentKeepAlive peer_ref) in
          let! _ := map_timers peer_ref (set_persistent_timer (Some handle)) in
          send_keepalive e peer_ref
      | None => retM tt
      end
  | NewListenPort _ => rebind e
  | NewFwmark mark =>
      let! u := getM udp in
      match u with
      | Some _ =>
          let! _ := liftM (os_set_mark e mark) in
          modM (set_udp (Some (mkUdpChannel (Some mark))))
      | None => retM tt
      end
  | ClearPrivateKey => retM tt
  end.

(** ** One poll

    `Future::poll`: the configuration events, the timers, the packets from the
    network (when a socket is bound), the packets from the tunnel, then at
    most one queued handshake.  Every handler's error is logged and dropped
    ([ignoreM]); a panic ends the process; a stream that ends or fails ends the
    poll, and with it the server, with an error ([settle]).  The clock stands still within a
    poll; [ingress] are the datagrams that are ready. *)
Fixpoint each {X} (handler : X → M World unit) (xs : list X) : M World unit :=
  match xs with
  | [] => retM tt
  | x :: xs' => let! _ := ignoreM (handler x) in each handler xs'
  end.

(** The arms of a loop that leave it: `NotReady`, `Ready(None)`, `Err(e)`. *)
Definition settle (e : Env) (s : Source) (name : string) : M World unit :=
  match rest e s with
  | Pending => retM tt
  | Ended => errM (name +:+ " ended unexpectedly")
  | Broken => errM (name +:+ " error")
  end.

Definition poll_channel (e : Env) : M World unit :=
  let! events := getM channel in
  let! _ := modM (set_channel []) in
  let! _ := each (handle_incoming_event e) events in
  settle e ConfigStream "config stream".

Definition poll_timer (e : Env) : M World unit :=
  let! messages := getM (fun w => Timer.rx (timer w)) in
  let! _ := modM (fun w =>
    set_timer (Timer.mk (Timer.delays (timer w)) (Timer.canceled (timer w)) (Timer.next_flag (timer w)) []) w) in
  let! _ := each (handle_timer e) messages in
  settle e TimerStream "timer stream".

Definition poll_ingress (e : Env) (ingress : list (Endpoint.t * bytes)) : M World unit :=
  let! bound := getM (fun w => bool_decide (is_Some (udp w))) in
  if bound then
    let! _ := each (fun '(addr, packet) => handle_ingress_packet e addr packet) ingress in
    settle e IngressStream "incoming udp stream"
  else retM tt.

Definition poll_egress (e : Env) : M World unit :=
  let! packets := getM outgoing in
  let! _ := modM (set_outgoing []) in
  let! _ := each (handle_egress_packet e) packets in
  settle e OutgoingStream "outgoing udp stream".

Definition poll_handshake (e : Env) : M World unit :=
  let! hs := getM handshakes in
  match hs with
  | [] => retM tt
  | (addr, message) :: hs' =>
      let! _ := modM (set_handshakes hs') in
      ignoreM (handle_ingress_handshake e addr message)
  end.

Definition poll (e : Env) (ingress : list (Endpoint.t * bytes)) : M World unit :=
  let! _ := poll_channel e in
  let! _ := poll_timer e in
  let! _ := poll_ingress e ingress in
  let! _ := poll_egress e in
  poll_handshake e.
End with_crates.
End PeerServer.
