(* ===== verification/ServerInvariant.v ===== *)
(** * The invariant of the peer server

    The table from session indices to peers that the server keeps in
    `index_map` agrees with the sessions of the peers, whatever arrives from
    the network, the tunnel, the timers and the configuration channel. *)

From S2P Require Import Prelude Crates Reference RefSnow AntiReplay Types Timestamp Message XChaCha RateLimiter Cookie Router Peer PeerTransport PeerSessions Timer World PeerServer.

Section invariant.
Context {BO : ByteOrder} {BOL : ByteOrderLaws BO} {B : Blake2} {S : Subtle} {A : Aead} {R : Rips} {T : Treebitmap}
        {SN : Snow}.
Import PeerOps PeerServer.

(** What the server learns of a peer by itself is its endpoint; the rest of
    `PeerInfo` is configuration. *)
Definition static (self : Peer) : PeerInfo := set_endpoint None (info self).

(** The peers that are configured, how, and the routes: the server changes
    none of it. *)
Context (PM : gmap bytes peer_id) (RT : Router.t) (CF : peer_id → option PeerInfo)
        (II : InterfaceInfo) (NP : peer_id).

Definition registered (p : peer_id) : Prop := ∃ pk, PM !! pk = Some p.

Definition peer_ok (self : Peer) : Prop :=
  NoDup (indices (sessions self)) ∧ windows_ok (sessions self).

Record server_ok (w : World) : Prop := {
  ok_pubkey_map : pubkey_map (state w) = PM;
  ok_router : router (state w) = RT;
  ok_interface : interface_info (state w) = II;
  ok_next : next_peer w = NP;
  ok_routes : ∀ ip p, Router.get_peer_from_ip RT ip = Some p → registered p;
  ok_static : ∀ p, static <$> heap w !! p = CF p;
  ok_keys : ∀ pk p, PM !! pk = Some p → ∃ self, heap w !! p = Some self ∧ pub_key (info self) = pk;
  ok_peers : ∀ p self, heap w !! p = Some self → registered p → peer_ok self;
  ok_mapped : ∀ p self i, heap w !! p = Some self → registered p → i ∈ indices (sessions self) →
                index_map (state w) !! i = Some p;
  ok_index : ∀ i p, index_map (state w) !! i = Some p → registered p;
}.

(** Changing one peer and the table. *)
Definition with_table (f : gmap Z peer_id → gmap Z peer_id) (w : World) : World :=
  set_state (set_index_map (f (index_map (state w))) (state w)) w.

Lemma server_ok_update w p self self' f :
  server_ok w → heap w !! p = Some self → static self' = static self →
  (registered p → peer_ok self') →
  (registered p → ∀ i, i ∈ indices (sessions self') → f (index_map (state w)) !! i = Some p) →
  (∀ i q, q ≠ p → registered q → index_map (state w) !! i = Some q → f (index_map (state w)) !! i = Some q) →
  (∀ i q, f (index_map (state w)) !! i = Some q → registered q) →
  server_ok (with_table f (set_heap (<[p := self']> (heap w)) w)).
Proof.
  intros [H1 H2 HI HN H3 H0 H4 H5 H6 H7] Hp Hk Hok Hm Ho Hr. split; simpl; try done.
  - intros q. rewrite <-H0. destruct (decide (q = p)) as [->|]; [|by rewrite lookup_insert_ne].
    rewrite lookup_insert_eq, Hp. simpl. by rewrite Hk.
  - intros pk q Hq. destruct (H4 _ _ Hq) as (x & Hx & Hpk). destruct (decide (q = p)) as [->|].
    + exists self'. rewrite lookup_insert_eq. split; [done|].
      change (pub_key (static self') = pk). rewrite Hk. simpl. congruence.
    + exists x. by rewrite lookup_insert_ne.
  - intros q x. destruct (decide (q = p)) as [->|].
    + rewrite lookup_insert_eq. intros [= <-]. apply Hok.
    + rewrite lookup_insert_ne by done. apply H5.
  - intros q x i. destruct (decide (q = p)) as [->|].
    + rewrite lookup_insert_eq. intros [= <-] Hreg. by apply Hm.
    + rewrite lookup_insert_ne by done. intros Hx Hreg Hi. apply Ho; [done|done|]. by eapply H6.
Qed.

Lemma with_table_id w : with_table (fun m => m) w = w.
Proof. by destruct w as [? ? [] ? ? ? ? ? ? ? ? ? ? ? ?]. Qed.

(** An operation whose outcome has the same indices, or fewer. *)
Lemma server_ok_same w p self self' :
  server_ok w → heap w !! p = Some self → static self' = static self →
  (registered p → peer_ok self → peer_ok self') → (∀ i, i ∈ indices (sessions self') → i ∈ indices (sessions self)) →
  server_ok (set_heap (<[p := self']> (heap w)) w).
Proof.
  intros Hw Hp Hk Hok Hi. rewrite <-(with_table_id (set_heap _ w)).
  apply (server_ok_update w p self self' (fun m => m)); try done.
  - intros Hreg. apply Hok; [done|]. by eapply ok_peers.
  - intros Hreg i Hin. eapply ok_mapped; [done|done|done|]. by apply Hi.
  - intros i q Hq. by eapply ok_index.
Qed.

(** The table after an operation took [new] and gave back [dead]. *)
Definition swap_index (new dead : option Z) (p : peer_id) (m : gmap Z peer_id) : gmap Z peer_id :=
  let m := match new with Some i => <[i := p]> m | None => m end in
  match dead with Some d => delete d m | None => m end.

Lemma server_ok_swap w p self self' new dead :
  server_ok w → heap w !! p = Some self → registered p → static self' = static self →
  (peer_ok self → peer_ok self') →
  indices (sessions self') ++ option_list dead ≡ₚ option_list new ++ indices (sessions self) →
  (∀ i, new = Some i → index_map (state w) !! i = None ∧ dead ≠ Some i) →
  server_ok (with_table (swap_index new dead p) (set_heap (<[p := self']> (heap w)) w)).
Proof.
  intros Hw Hp Hreg Hk Hok Hperm Hnew.
  assert (peer_ok self) as Hself by (by eapply ok_peers).
  assert (∀ i, i ∈ indices (sessions self) → index_map (state w) !! i = Some p) as Hm
    by (intros; by eapply ok_mapped).
  assert (NoDup (option_list new ++ indices (sessions self))) as Hnd.
  { destruct new as [i|]; simpl; [|by destruct Hself]. apply NoDup_cons_2; [|by destruct Hself].
    intros Hi%Hm. destruct (Hnew i eq_refl) as [Hn _]. congruence. }
  rewrite <-Hperm in Hnd. apply NoDup_app in Hnd as (_ & Hdis & _).
  apply (server_ok_update w p self self' (swap_index new dead p)); try done.
  - intros _. by apply Hok.
  - intros _ i Hi. unfold swap_index.
    assert (dead ≠ Some i) as Hd by (intros ->; apply (Hdis _ Hi); set_solver).
    assert (match new with Some j => <[j := p]> (index_map (state w)) | None => index_map (state w) end !! i = Some p) as Hl.
    { assert (i ∈ option_list new ++ indices (sessions self)) as Hin by (rewrite <-Hperm; set_solver).
      destruct new as [j|]; simpl in Hin.
      - destruct (decide (j = i)) as [->|]; [by rewrite lookup_insert_eq|].
        rewrite lookup_insert_ne by done. apply Hm. set_solver.
      - by apply Hm. }
    destruct dead as [d|]; [|done]. rewrite lookup_delete_ne by congruence. done.
  - intros i q Hq Hrq Hi. unfold swap_index.
    assert (match new with Some j => <[j := p]> (index_map (state w)) | None => index_map (state w) end !! i = Some q) as Hl.
    { destruct new as [j|]; [|done]. rewrite lookup_insert_ne; [done|]. intros ->.
      destruct (Hnew i eq_refl) as [Hn _]. congruence. }
    destruct dead as [d|]; [|done]. rewrite lookup_delete_ne; [done|]. intros ->.
    assert (i ∈ option_list new ++ indices (sessions self)) as Hin by (rewrite <-Hperm; set_solver).
    destruct new as [j|]; simpl in Hin; [apply elem_of_cons in Hin as [->|Hin]|].
    + by destruct (Hnew j eq_refl) as [_ []].
    + apply Hm in Hin. congruence.
    + apply Hm in Hin. congruence.
  - intros i q. unfold swap_index.
    assert (match new with Some j => <[j := p]> (index_map (state w)) | None => index_map (state w) end !! i = Some q → registered q) as Hl.
    { destruct new as [j|]; [|by apply (ok_index w Hw)]. destruct (decide (j = i)) as [->|].
      - rewrite lookup_insert_eq. by intros [= <-].
      - rewrite lookup_insert_ne by done. by apply (ok_index w Hw). }
    destruct dead as [d|]; [|done]. intros [_ ?]%lookup_delete_Some. by apply Hl.
Qed.

(* ---- operations on one peer ---- *)

Lemma peer_step_ok f self self' : peer_step f self self' → peer_ok self → peer_ok self'.
Proof.
  intros Hst [H1 H2]. split; [by eapply peer_step_indices|].
  eapply slots_step_windows; [by eapply peer_step_slots|done].
Qed.

(** The server changes nothing of a peer's configuration but its endpoint. *)
Lemma static_frames k :
  let I self := static self = k in
  (∀ now wall pk i, keeps I (initiate_new_session now wall pk i)) ∧
  (∀ now addr i inc, keeps I (complete_incoming_handshake now addr i inc)) ∧
  (∀ now addr p, keeps I (process_incoming_handshake_response now addr p)) ∧
  (∀ now addr p, keeps I (handle_incoming_transport now addr p)) ∧
  (∀ now p, keeps I (handle_outgoing_transport now p)).
Proof.
  intros I.
  assert (∀ now input, keeps I (build_macs now input)) as Hm.
  { intros now input p Hp. unfold build_macs. by destruct (Generator.build_macs _ _ _). }
  assert (∀ s, keeps I (fun p => let '(p', d) := install_next s p in (p', Ok d))) as Hi.
  { intros s p Hp. unfold install_next. by destruct (next (sessions p)). }
  split; [|split; [|split; [|split]]].
  - intros now wall pk i. unfold initiate_new_session. keeps_run.
  - intros now addr i [their ts n]. unfold complete_incoming_handshake, get_response_packet. keeps_run.
  - intros now addr p. unfold process_incoming_handshake_response. keeps_run. by intros x Hx.
  - intros now addr p. unfold handle_incoming_transport.
    keeps_run; intros x Hx; simpl; [by destruct (receive_on_session _ _ _ _)|]. by case_decide.
  - intros now p. unfold handle_outgoing_transport. keeps_run. intros x Hx. by destruct (snow_write_message _ _ _).
Qed.

(** An operation that keeps the key, the slots well formed, and adds no index. *)
Definition tame {X} (m : M Peer X) : Prop := ∀ self,
  static (m self).1 = static self ∧
  (peer_ok self → peer_ok (m self).1) ∧
  (∀ i, i ∈ indices (sessions (m self).1) → i ∈ indices (sessions self)).

Lemma tame_outgoing now packet : tame (handle_outgoing_transport now packet).
Proof.
  intros self. destruct (static_frames (static self)) as (_ & _ & _ & _ & Hk). split; [by apply Hk|].
  split; [apply (peer_step_ok None), step_outgoing|]. by rewrite outgoing_indices.
Qed.

Lemma tame_cookie now reply : tame (consume_cookie_reply now reply).
Proof.
  intros self. unfold consume_cookie_reply. by destruct (Generator.consume_reply _ _ _).
Qed.

(** An update that leaves the key and the slots alone. *)
Lemma tame_mod f :
  (∀ self, static (f self) = static self ∧ sessions (f self) = sessions self) → tame (modM f).
Proof. intros H self. destruct (H self) as [H1 H2]. simpl. unfold peer_ok. by rewrite H1, H2. Qed.

Lemma with_peer_tame {X} p (m : M Peer X) : tame m → keeps server_ok (with_peer p m).
Proof.
  intros Hm w Hw. unfold with_peer. destruct (heap w !! p) as [self|] eqn:Hp; [|done].
  specialize (Hm self). destruct (m self) as [self' r]. simpl in *.
  apply (server_ok_same w p self self'); [done|done|tauto|tauto|tauto].
Qed.

Lemma with_peer_same {X} p (m : M Peer X) w self :
  heap w !! p = Some self →
  with_peer p m w = (set_heap (<[p := (m self).1]> (heap w)) w, (m self).2).
Proof. intros Hp. unfold with_peer. rewrite Hp. by destruct (m self). Qed.

(* ---- operations that move indices, with the update of the table ---- *)

Lemma registered_cell w p : server_ok w → registered p → ∃ self, heap w !! p = Some self.
Proof. intros Hw [pk Hpk]. destruct (ok_keys w Hw _ _ Hpk) as (self & ? & _). eauto. Qed.

Lemma installed_dead s ss i : (installed s ss).2 = Some i → i ∈ indices ss.
Proof.
  unfold installed, indices. destruct (next ss); [|done]. destruct (past ss); simpl; [|done].
  intros [= <-]. set_solver.
Qed.

(** [dead_of] picks the dead index out of the result. *)
Definition swaps {X} (new : option Z) (dead_of : X → option Z) (p : peer_id) (m : M Peer X) : Prop :=
  ∀ w, server_ok w → (∀ i, new = Some i → index_map (state w) !! i = None) →
  match with_peer p m w with
  | (w', Ok x) => server_ok (with_table (swap_index new (dead_of x) p) w') ∧ (∀ i, new = Some i → dead_of x ≠ Some i)
  | (w', _) => server_ok w'
  end.

Lemma swaps_intro {X} new dead_of p (m : M Peer X) :
  registered p →
  (∀ self, static (m self).1 = static self) →
  (∀ self, (∀ i, new = Some i → i ∉ indices (sessions self)) → peer_ok self → peer_ok (m self).1) →
  (∀ self, match (m self).2 with
           | Ok x => indices (sessions (m self).1) ++ option_list (dead_of x) ≡ₚ option_list new ++ indices (sessions self) ∧
                     (∀ i, dead_of x = Some i → i ∈ indices (sessions self))
           | _ => ∀ i, i ∈ indices (sessions (m self).1) → i ∈ indices (sessions self)
           end) →
  swaps new dead_of p m.
Proof.
  intros Hreg Hk Hok Hi w Hw Hnew. destruct (registered_cell w p Hw Hreg) as [self Hp].
  rewrite (with_peer_same p m w self Hp). specialize (Hk self). specialize (Hi self).
  assert (∀ i, new = Some i → i ∉ indices (sessions self)) as Hfresh.
  { intros i Hi' Hin. apply (ok_mapped w Hw _ _ _ Hp Hreg) in Hin. rewrite (Hnew _ Hi') in Hin. done. }
  specialize (Hok self Hfresh).
  destruct (m self) as [self' [x|e|q|]]; simpl in *; [|by apply (server_ok_same w p self self')..].
  destruct Hi as [Hperm Hdead].
  assert (∀ i, new = Some i → dead_of x ≠ Some i) as Hne by (intros i Hi Hd; by apply (Hfresh i Hi), Hdead).
  split; [|done]. apply (server_ok_swap w p self self'); try done. intros i Hi'. split; [by apply Hnew|by apply Hne].
Qed.

Lemma swaps_initiate now wall pk i p :
  registered p → swaps (Some i) snd p (initiate_new_session now wall pk i).
Proof.
  intros Hreg. apply swaps_intro; [done|..]; intros self.
  - destruct (static_frames (static self)) as (Hk & _). by apply Hk.
  - intros Hi. apply (peer_step_ok (Some i)), step_initiate. by apply Hi.
  - pose proof (initiate_indices now wall pk i self) as H.
    destruct (initiate_new_session now wall pk i self) as [self' r] eqn:E.
    apply initiate_installs in E as [[Hr E]|(s & v & -> & _ & _ & _ & Hd)]; simpl.
    + rewrite E. by destruct r.
    + destruct v as [[ep pkt] d]. split; [exact H|]. simpl in Hd. rewrite Hd. apply installed_dead.
Qed.

Lemma swaps_complete now addr i inc p :
  registered p → swaps (Some i) snd p (complete_incoming_handshake now addr i inc).
Proof.
  intros Hreg. apply swaps_intro; [done|..]; intros self.
  - destruct (static_frames (static self)) as (_ & Hk & _). by apply Hk.
  - intros Hi. apply (peer_step_ok (Some i)), step_complete. by apply Hi.
  - pose proof (complete_indices now addr i inc self) as H.
    destruct (complete_incoming_handshake now addr i inc self) as [self' r] eqn:E.
    apply complete_installs in E as [[Hr E]|(s & v & -> & _ & _ & _ & Hd)]; simpl.
    + rewrite E. by destruct r.
    + destruct v as [pkt d]. split; [exact H|]. simpl in Hd. rewrite Hd. apply installed_dead.
Qed.

(** The dead index of a permutation was one of the indices. *)
Lemma dead_in (l l' : list Z) (d : option Z) i : l ++ option_list d ≡ₚ l' → d = Some i → i ∈ l'.
Proof. intros <- ->. set_solver. Qed.

Lemma swaps_response now addr packet p :
  registered p → swaps None id p (process_incoming_handshake_response now addr packet).
Proof.
  intros Hreg. apply swaps_intro; [done|..]; intros self.
  - destruct (static_frames (static self)) as (_ & _ & Hk & _). by apply Hk.
  - intros _. apply (peer_step_ok None), step_response.
  - pose proof (response_indices now addr packet self) as H.
    destruct (process_incoming_handshake_response now addr packet self) as [self' [d| | |]]; simpl in *;
      [split; [done|intros i; by apply dead_in with (1:=H)]|..]; intros i Hi; rewrite <-H; set_solver.
Qed.

Lemma swaps_incoming now addr packet p :
  registered p → is_bytes packet → swaps None (fun x => dead_of x.2) p (handle_incoming_transport now addr packet).
Proof.
  intros Hreg Hb. apply swaps_intro; [done|..]; intros self.
  - destruct (static_frames (static self)) as (_ & _ & _ & Hk & _). by apply Hk.
  - intros _. by apply (peer_step_ok None), step_incoming.
  - pose proof (incoming_indices now addr packet self) as H.
    destruct (handle_incoming_transport now addr packet self) as [self' [[raw tr]| | |]]; simpl in *;
      [split; [done|intros i; by apply dead_in with (1:=H)]|..]; intros i Hi; by rewrite <-H.
Qed.

(* ---- the handlers ---- *)

(** A step that changes neither the heap nor the shared state. *)
Lemma server_ok_frame w w' :
  heap w' = heap w → state w' = state w → next_peer w' = next_peer w → server_ok w → server_ok w'.
Proof. intros Hh Hs Hn [H1 H2 HI HN H3 H0 H4 H5 H6 H7]. split; rewrite ?Hh, ?Hs, ?Hn; done. Qed.

Lemma keeps_frame {X} (m : M World X) :
  (∀ w, heap (m w).1 = heap w ∧ state (m w).1 = state w ∧ next_peer (m w).1 = next_peer w) → keeps server_ok m.
Proof. intros H w Hw. destruct (H w) as (? & ? & ?). by eapply server_ok_frame. Qed.

Lemma keeps_mod_frame f :
  (∀ w, heap (f w) = heap w ∧ state (f w) = state w ∧ next_peer (f w) = next_peer w) → keeps server_ok (modM f).
Proof. intros H. by apply keeps_frame. Qed.

Lemma keeps_read_peer {X} p (f : Peer → res X) : keeps server_ok (read_peer p f).
Proof. apply keeps_frame. intros w. unfold read_peer. by destruct (heap w !! p). Qed.

Lemma keeps_send_to_peer payload : keeps server_ok (send_to_peer payload).
Proof. unfold send_to_peer. keeps_run. by apply server_ok_frame with w. Qed.

Lemma keeps_send_to_tunnel e packet : keeps server_ok (send_to_tunnel e packet).
Proof. unfold send_to_tunnel. keeps_run. by apply server_ok_frame with w. Qed.

Lemma keeps_send_after e d m : keeps server_ok (send_after e d m).
Proof. apply keeps_frame. intros w. unfold send_after. by destruct (Timer.send_after _ _ _ _). Qed.

Lemma keeps_under_load e : keeps server_ok (under_load e).
Proof.
  unfold under_load. keeps_run. case_match; [|done]. by apply server_ok_frame with w.
Qed.

Lemma keeps_map_timers p f : keeps server_ok (map_timers p f).
Proof. apply with_peer_tame, tame_mod. done. Qed.

Lemma keeps_set_queue p q : keeps server_ok (with_peer p (modM (set_outgoing_queue q))).
Proof. apply with_peer_tame, tame_mod. done. Qed.

Lemma keeps_queue_egress p packet : keeps server_ok (with_peer p (modM (queue_egress packet))).
Proof. apply with_peer_tame, tame_mod. intros self. unfold queue_egress. by case_match. Qed.

Lemma keeps_outgoing p t packet : keeps server_ok (with_peer p (handle_outgoing_transport t packet)).
Proof. apply with_peer_tame, tame_outgoing. Qed.

Lemma keeps_send_cookie_reply e addr mac1 i : keeps server_ok (send_cookie_reply e addr mac1 i).
Proof.
  unfold send_cookie_reply. apply keeps_bind; [|intros reply; apply keeps_send_to_peer].
  apply keeps_frame. intros w. by destruct (Validator.generate_reply _ _ _ _ _ _ _).
Qed.

Lemma keeps_check_mac1 n packet : keeps server_ok (check_mac1 n packet).
Proof. unfold check_mac1. keeps_run. Qed.

Lemma keeps_check_load e addr packet mac1 sender msg : keeps server_ok (check_load e addr packet mac1 sender msg).
Proof.
  unfold check_load. keeps_run; [apply keeps_under_load|apply keeps_send_cookie_reply|].
  apply keeps_frame. intros w. by destruct (RateLimiter.allow _ _ _ _).
Qed.

Lemma keeps_rebind e : keeps server_ok (rebind e).
Proof. unfold rebind. keeps_run; by apply server_ok_frame with w. Qed.

#[local] Hint Resolve keeps_read_peer keeps_send_to_peer keeps_send_to_tunnel keeps_send_after keeps_under_load
  keeps_map_timers keeps_set_queue keeps_queue_egress keeps_outgoing keeps_send_cookie_reply keeps_check_mac1
  keeps_check_load keeps_rebind : wg.
Ltac keeps_auto := repeat (keeps_step || (progress eauto with wg nocore)).

(** The index drawn is not in the table. *)
Lemma draw_index_fresh used draws rest i : draw_index used draws = (rest, Ok i) → used !! i = None ∧ i ∈ draws.
Proof.
  revert rest i. induction draws as [|d draws IH]; intros rest i; simpl; [done|].
  destruct (used !! d) eqn:Hd; [|intros [= <- <-]; split; [done|set_solver]].
  intros H. destruct (IH _ _ H). split; [done|set_solver].
Qed.

(** Drawing an index for a new session of a peer and entering it in the table;
    [K] is the rest of the handler, which starts with the update. *)
Lemma keeps_alloc {X Y} p (m : Z → M Peer X) (dead : X → option Z) (K : Z → X → M World Y) :
  (∀ i, swaps (Some i) dead p (m i)) →
  (∀ i x w, server_ok (with_table (swap_index (Some i) (dead x) p) w) → dead x ≠ Some i → server_ok (K i x w).1) →
  keeps server_ok (let! i := unused_index in let! x := with_peer p (m i) in K i x).
Proof.
  intros Hm HK w Hw. unfold bindM at 1, unused_index.
  destruct (draw_index (index_map (state w)) (rng w)) as [draws [i|e|q|]] eqn:Hd;
    [|by apply server_ok_frame with w..].
  apply draw_index_fresh in Hd as [Hd _].
  specialize (Hm i (set_rng draws w)). unfold bindM.
  destruct (with_peer p (m i) (set_rng draws w)) as [w' [x|e|q|]]; simpl;
    [|apply Hm; [by apply server_ok_frame with w|by intros ? [= <-]]..].
  destruct Hm as [H1 H2]; [by apply server_ok_frame with w|by intros ? [= <-]|].
  apply HK; [done|by apply H2].
Qed.

(** The two updates of the table, in either order. *)
Lemma insert_remove_run i dead p w :
  (let! _ := insert_index i p in remove_index dead) w = (with_table (swap_index (Some i) dead p) w, Ok tt).
Proof. destruct w as [? ? [] ? ? ? ? ? ? ? ? ? ? ? ?]. by destruct dead. Qed.

Lemma remove_insert_run i dead p w :
  dead ≠ Some i →
  (let! _ := remove_index dead in insert_index i p) w = (with_table (swap_index (Some i) dead p) w, Ok tt).
Proof.
  intros Hne. destruct w as [? ? [pm im rt ii] ? ? ? ? ? ? ? ? ? ? ? ?]. destruct dead as [d|]; [|done].
  unfold bindM, remove_index, insert_index, map_state, modM, with_table. simpl.
  by rewrite delete_insert_ne by congruence.
Qed.

Lemma bindM_assoc {W X Y Z'} (m : M W X) (f : X → M W Y) (g : Y → M W Z') w :
  bindM m (fun x => bindM (f x) g) w = bindM (bindM m f) g w.
Proof. unfold bindM. by destruct (m w) as [w' [x|e|q|]]. Qed.

Lemma keeps_send_handshake_init e p : registered p → keeps server_ok (send_handshake_init e p).
Proof.
  intros Hreg. unfold send_handshake_init. do 4 (apply keeps_bind; [by eauto with wg|intros ?]).
  apply (keeps_alloc p _ snd (fun new_index '(endpoint, init_packet, dead_index) =>
    let! _ := insert_index new_index p in
    let! _ := remove_index dead_index in
    let! _ := send_to_peer (endpoint, init_packet) in
    let! _ := map_timers p (set_handshake_initialized (Timestamp.now (now e))) in
    let! _ := send_after e REKEY_TIMEOUT (Rekey p new_index) in
    retM new_index)); [intros; by apply swaps_initiate|].
  intros i [[ep pkt] dead] w Hw _. rewrite bindM_assoc.
  erewrite bindM_run by apply insert_remove_run.
  match goal with |- server_ok (?m _).1 => assert (keeps server_ok m) as Hk; [|by apply Hk] end. keeps_auto.
Qed.
#[local] Hint Resolve keeps_send_handshake_init : wg.

Lemma keeps_handshake_init e addr packet : keeps server_ok (handle_ingress_handshake_init e addr packet).
Proof.
  unfold handle_ingress_handshake_init. do 6 (apply keeps_bind; [by eauto with wg|intros ?]).
  apply (keeps_bind_yields _ (fun found => ∀ p, found = Some p → registered p)).
  { apply yields_get. intros w Hw p Hp. rewrite (ok_pubkey_map w Hw) in Hp. by eexists. }
  intros found Hreg. apply (keeps_bind_yields _ registered).
  { apply yields_lift. intros p Hp%ok_or_Ok. by apply Hreg. }
  intros p Hp.
  apply (keeps_alloc p _ snd (fun index '(response, dead_index) =>
    let! _ := remove_index dead_index in
    let! _ := insert_index index p in
    send_to_peer (addr, response))); [intros; by apply swaps_complete|].
  intros i [response dead] w Hw Hne. rewrite bindM_assoc.
  erewrite bindM_run by (by apply remove_insert_run). by apply keeps_send_to_peer.
Qed.

Lemma keeps_release {X Y} p (m : M Peer X) (dead : X → option Z) (K : X → M World Y) :
  swaps None dead p m →
  (∀ x w, server_ok (with_table (swap_index None (dead x) p) w) → server_ok (K x w).1) →
  keeps server_ok (let! x := with_peer p m in K x).
Proof.
  intros Hm HK w Hw. specialize (Hm w Hw). unfold bindM.
  destruct (with_peer p m w) as [w' [x|e|q|]]; simpl; [|by apply Hm..]. apply HK. by apply Hm.
Qed.

Lemma remove_run dead p w : remove_index dead w = (with_table (swap_index None dead p) w, Ok tt).
Proof. destruct w as [? ? [] ? ? ? ? ? ? ? ? ? ? ? ?]. by destruct dead. Qed.

(** An index of the table belongs to a registered peer. *)
Lemma yields_index idx :
  yields server_ok (fun found => ∀ p, found = Some p → registered p) (getM (fun w => index_map (state w) !! idx)).
Proof. apply yields_get. intros w Hw p Hp. by eapply ok_index. Qed.

Lemma yields_ok_or (found : option peer_id) msg :
  (∀ p, found = Some p → registered p) → yields server_ok registered (liftM (ok_or found msg)).
Proof. intros H. apply yields_lift. intros p Hp%ok_or_Ok. by apply H. Qed.

Lemma keeps_drain_queue e p q : keeps server_ok (drain_queue e p q).
Proof. induction q as [|x q IH]; simpl; keeps_auto. Qed.

Lemma keeps_flush_queue e p q : keeps server_ok (flush_queue e p q).
Proof.
  induction q as [|x q IH]; simpl; keeps_auto. intros w Hw.
  pose proof (keeps_outgoing p (now e) (UtunPacket.payload x) w Hw) as H.
  by destruct (with_peer _ _ w) as [w' [y|y|y|]].
Qed.
#[local] Hint Resolve keeps_drain_queue keeps_flush_queue : wg.

Lemma keeps_handshake_resp e addr packet : keeps server_ok (handle_ingress_handshake_resp e addr packet).
Proof.
  unfold handle_ingress_handshake_resp. do 3 (apply keeps_bind; [by eauto with wg|intros ?]).
  eapply keeps_bind_yields; [apply yields_index|]. intros found Hf.
  eapply keeps_bind_yields; [by apply yields_ok_or|]. intros p Hp.
  apply (keeps_release p _ id); [by apply swaps_response|].
  intros dead w Hw. erewrite bindM_run by apply (remove_run _ p).
  match goal with |- server_ok (?m _).1 => assert (keeps server_ok m) as Hk; [|by apply Hk] end. keeps_auto.
Qed.

Lemma keeps_cookie_reply e packet : keeps server_ok (handle_ingress_cookie_reply e packet).
Proof.
  unfold handle_ingress_cookie_reply. keeps_run. apply with_peer_tame, tame_cookie.
Qed.

Lemma keeps_transport e addr packet : is_bytes packet → keeps server_ok (handle_ingress_transport e addr packet).
Proof.
  intros Hb. unfold handle_ingress_transport. apply keeps_bind; [by eauto with wg|intros idx].
  eapply keeps_bind_yields; [apply yields_index|]. intros found Hf.
  eapply keeps_bind_yields; [by apply yields_ok_or|]. intros p Hp.
  apply (keeps_release p _ (fun x => dead_of x.2)); [by apply swaps_incoming|].
  intros [raw tr] w Hw. simpl in Hw.
  assert (∀ m : M World unit, keeps server_ok m → ∀ k : unit → M World unit, (∀ u, keeps server_ok (k u)) →
            ∀ w, server_ok w → server_ok (bindM m k w).1) as Hbind.
  { intros m Hm k Hk w1 Hw1. by apply (keeps_bind _ m k Hm Hk). }
  destruct tr as [|d]; simpl in Hw.
  - rewrite with_table_id in Hw. apply Hbind; [keeps_auto|intros; keeps_auto|done].
  - rewrite <-(bindM_assoc (remove_index d)). erewrite bindM_run by apply (remove_run _ p).
    apply Hbind; [keeps_auto|intros; keeps_auto|done].
Qed.

Lemma keeps_ingress e addr packet : is_bytes packet → keeps server_ok (handle_ingress_packet e addr packet).
Proof.
  intros Hb. unfold handle_ingress_packet.
  apply (keeps_bind_yields _ (fun m => packet_of m = packet)).
  { apply yields_lift. by intros m [? _]%try_from_Ok. }
  intros m Hm. assert (∀ m, keeps server_ok (queue_ingress_handshake addr m)) as Hq.
  { intros m'. apply keeps_mod_frame. done. }
  destruct m; try apply Hq. apply keeps_transport. simpl in Hm. by rewrite Hm.
Qed.

Lemma keeps_handshake e addr message : keeps server_ok (handle_ingress_handshake e addr message).
Proof.
  unfold handle_ingress_handshake. apply keeps_bind; [apply keeps_under_load|intros _].
  destruct message; [apply keeps_handshake_init|apply keeps_handshake_resp|apply keeps_cookie_reply|apply keeps_lift].
Qed.

Lemma keeps_egress e packet : keeps server_ok (handle_egress_packet e packet).
Proof.
  unfold handle_egress_packet. apply keeps_bind; [by eauto with wg|intros _].
  apply (keeps_bind_yields _ (fun r => r = RT)); [apply yields_get; intros w Hw; by apply ok_router|].
  intros r ->.
  apply (keeps_bind_yields _ registered); [|intros p Hp; keeps_auto].
  intros w Hw. split; [done|]. intros p Hp%ok_or_Ok. unfold Router.route_to_peer in Hp.
  destruct (IpPacket.new _); [|done]. by eapply ok_routes.
Qed.

(** `Weak::upgrade` gives a peer only while it is configured. *)
Definition env_ok (e : Env) : Prop := ∀ p, upgrade e p = true → registered p.

Lemma wipe_indices ss : (SessionOps.wipe ss).2 = indices ss.
Proof. by destruct ss as [[] [] []]. Qed.

Lemma keeps_wipe_sessions p : registered p → keeps server_ok (wipe_sessions p).
Proof.
  intros Hreg w Hw. destruct (registered_cell w p Hw Hreg) as [self Hp].
  unfold wipe_sessions. erewrite bindM_run by (rewrite (with_peer_same p _ w self Hp); reflexivity).
  apply (server_ok_update w p self _ (fun m => foldl (fun m i => delete i m) m (SessionOps.wipe (sessions self)).2)
           Hw Hp); [done|..].
  - intros _. split; [apply NoDup_nil_2|]. by intros [].
  - intros _ i Hi. by apply not_elem_of_nil in Hi.
  - intros i q Hne Hq Hi. rewrite foldl_delete_lookup, wipe_indices. case_decide as Hd; [|done].
    apply (ok_mapped w Hw _ _ _ Hp Hreg) in Hd. congruence.
  - intros i q. rewrite foldl_delete_lookup. case_decide; [done|]. by apply ok_index.
Qed.
#[local] Hint Resolve keeps_wipe_sessions : wg.

Lemma yields_upgraded e p : env_ok e → yields server_ok (fun _ => registered p) (upgraded e p).
Proof. intros He. apply yields_lift. intros _ H%ensure_Ok. by apply He. Qed.

Lemma keeps_handle_timer e message : env_ok e → keeps server_ok (handle_timer e message).
Proof.
  intros He. destruct message as [p|p|p i|p]; unfold handle_timer;
    (eapply keeps_bind_yields; [by apply yields_upgraded|]; intros ? Hp; cbv beta in Hp).
  - unfold send_keepalive. keeps_auto.
  - unfold send_keepalive, passive_decision. keeps_auto.
  - unfold rekey_decision. keeps_auto.
  - keeps_auto.
Qed.

Lemma keeps_event e event : keeps server_ok (handle_incoming_event e event).
Proof.
  assert (∀ w, server_ok w → server_ok (let '(w', r) := rebind e w in (w', unwrap_res r)).1) as Hrebind.
  { intros w Hw. pose proof (keeps_rebind e w Hw). by destruct (rebind e w). }
  destruct event; unfold handle_incoming_event, send_keepalive; keeps_auto;
    first [exact Hrebind | eapply server_ok_frame; [| | |eassumption]; done].
Qed.

Lemma keeps_each {X} (handler : X → M World unit) xs :
  (∀ x, x ∈ xs → keeps server_ok (handler x)) → keeps server_ok (each handler xs).
Proof.
  induction xs as [|x xs IH]; intros H; simpl; [apply keeps_ret|].
  apply keeps_bind; [apply keeps_ignore, H; set_solver|intros _]. apply IH. set_solver.
Qed.

Lemma keeps_settle e s name : keeps server_ok (settle e s name).
Proof. unfold settle. case_match; [apply keeps_ret|apply keeps_err|apply keeps_err]. Qed.

Lemma keeps_poll e ingress :
  env_ok e → Forall (fun '(_, packet) => is_bytes packet) ingress → keeps server_ok (poll e ingress).
Proof.
  intros He Hb.
  assert (∀ f : World → World, (∀ w, heap (f w) = heap w ∧ state (f w) = state w ∧ next_peer (f w) = next_peer w) → keeps server_ok (modM f)) as Hf
    by apply keeps_mod_frame.
  unfold poll, poll_channel, poll_timer, poll_ingress, poll_egress, poll_handshake.
  repeat (apply keeps_bind; [|intros ?]); try first [by apply Hf | by apply keeps_get | by apply keeps_settle].
  - apply keeps_each. intros x _. apply keeps_event.
  - apply keeps_each. intros x _. by apply keeps_handle_timer.
  - case_match; [|apply keeps_ret]. apply keeps_bind; [|intros _; apply keeps_settle]. apply keeps_each. intros [addr packet] Hin.
    apply keeps_ingress. rewrite Forall_forall in Hb. by apply (Hb (addr, packet)).
  - apply keeps_each. intros x _. apply keeps_egress.
  - case_match; [apply keeps_ret|]. case_match. apply keeps_bind; [by apply Hf|intros _].
    apply keeps_ignore, keeps_handshake.
Qed.
End invariant.

(* ------------------------------------------------------------------ *)
(** ** Guarantees *)
Section guarantees.
Context {BO : ByteOrder} {BOL : ByteOrderLaws BO} {B : Blake2} {S : Subtle} {A : Aead} {R : Rips} {T : Treebitmap}
        {SN : Snow}.
Import PeerOps PeerServer.

(** [server_ok] for the peers and routes the world has. *)
Definition world_ok (w : World) : Prop :=
  server_ok (pubkey_map (state w)) (router (state w)) (fun p => static <$> heap w !! p)
    (interface_info (state w)) (next_peer w) w.

(** The configuration is read off the world. *)
Lemma server_ok_world pm rt cf ii np w : server_ok pm rt cf ii np w → world_ok w.
Proof. intros [H1 H2 HI HN H3 H0 H4 H5 H6 H7]. unfold world_ok. rewrite H1, H2. by split. Qed.

(** C14.  The table of sessions: one poll of the server, whatever the
    configuration events, timers, datagrams, tunnel packets and handshakes it
    handles, and whether the handlers succeed or fail, keeps the invariant:
    every session of a configured peer is reachable through `index_map` under
    its index and only as that peer's, the indices and anti-replay windows of
    each peer are well formed, the keys of `pubkey_map` are the peers' keys,
    and the table mentions configured peers only; of the configuration of a
    peer only its endpoint may change. *)
Theorem server_poll_invariant e ingress w :
  world_ok w → (∀ p, upgrade e p = true → registered (pubkey_map (state w)) p) →
  Forall (fun '(_, packet) => is_bytes packet) ingress →
  world_ok (poll e ingress w).1 ∧
  (∀ p, static <$> heap (poll e ingress w).1 !! p = static <$> heap w !! p).
Proof.
  intros Hw He Hb. pose proof (keeps_poll _ _ _ _ _ e ingress He Hb w Hw) as H.
  split; [by eapply server_ok_world|]. apply (ok_static _ _ _ _ _ _ H).
Qed.

(** Steps that leave the tunnel, the routes and the keys of the peers alone. *)
Definition silent (t : list bytes) (pm : gmap bytes peer_id) (r : Router.t) (w : World) : Prop :=
  tunnel w = t ∧ router (state w) = r ∧
  ∀ pk p, pm !! pk = Some p → ∃ self, heap w !! p = Some self ∧ pub_key (info self) = pk.

Lemma silent_with_peer {X} t pm r p (m : M Peer X) :
  (∀ k, keeps (fun self => static self = k) m) → keeps (silent t pm r) (with_peer p m).
Proof.
  intros Hm w (H1 & H2 & H3). unfold with_peer. destruct (heap w !! p) as [x|] eqn:Hp; [|done].
  specialize (Hm (static x) x eq_refl). destruct (m x) as [x' res]. split; [done|]. split; [done|].
  intros pk q Hq. destruct (H3 _ _ Hq) as (self & Hs & Hk). simpl. destruct (decide (q = p)) as [->|].
  - exists x'. rewrite lookup_insert_eq. split; [done|].
    simpl in Hm.
    change (pub_key (static x') = pk). rewrite Hm. simpl. congruence.
  - exists self. by rewrite lookup_insert_ne.
Qed.
Lemma silent_read_peer {X} t pm r p (f : Peer → res X) : keeps (silent t pm r) (read_peer p f).
Proof. intros w Hw. unfold read_peer. by destruct (heap w !! p). Qed.
Lemma silent_remove t pm r d : keeps (silent t pm r) (remove_index d).
Proof. intros w Hw. by destruct d. Qed.
Lemma silent_send_after t pm r e d m : keeps (silent t pm r) (send_after e d m).
Proof. intros w Hw. unfold send_after. by destruct (Timer.send_after _ _ _ _). Qed.
Lemma silent_send_to_peer t pm r x : keeps (silent t pm r) (send_to_peer x).
Proof. unfold send_to_peer. keeps_run. Qed.
Lemma silent_unused t pm r : keeps (silent t pm r) unused_index.
Proof. intros w Hw. unfold unused_index. by destruct (draw_index _ _). Qed.
Lemma silent_mod_peer t pm r p f :
  (∀ self, info (f self) = info self) → keeps (silent t pm r) (with_peer p (modM f)).
Proof. intros Hf. apply silent_with_peer. intros k self <-. unfold static. simpl. by rewrite Hf. Qed.
Lemma silent_outgoing t pm r p now packet : keeps (silent t pm r) (with_peer p (handle_outgoing_transport now packet)).
Proof. apply silent_with_peer. intros k. by destruct (static_frames k) as (_ & _ & _ & _ & ?). Qed.
#[local] Hint Resolve silent_read_peer silent_remove silent_send_after silent_send_to_peer silent_unused
  silent_mod_peer silent_outgoing : wg.

Lemma silent_init t pm r e p : keeps (silent t pm r) (send_handshake_init e p).
Proof.
  unfold send_handshake_init, map_timers, insert_index, map_state. keeps_run; eauto with wg.
  apply silent_with_peer. intros k. by destruct (static_frames k) as (? & _).
Qed.

Lemma silent_flush t pm r e p q : keeps (silent t pm r) (flush_queue e p q).
Proof.
  induction q as [|x q IH]; simpl; keeps_run; eauto with wg. intros w Hw.
  pose proof (silent_outgoing t pm r p (now e) (UtunPacket.payload x) w Hw) as H.
  by destruct (with_peer _ _ w) as [w' [y|y|y|]].
Qed.
#[local] Hint Resolve silent_init silent_flush : wg.

(** A step that fails, or goes on in a silent world. *)
Lemma silent_bind {X Y} t pm r (m : M World X) (k : X → M World Y) w (Q : World → Prop) :
  keeps (silent t pm r) m → silent t pm r w →
  (∀ w', silent t pm r w' → Q w') → (∀ x w', silent t pm r w' → Q (k x w').1) → Q (bindM m k w).1.
Proof.
  intros Hm Hw Hfail Hk. specialize (Hm w Hw). unfold bindM.
  destruct (m w) as [w' [x|e|q|]]; simpl in *; auto.
Qed.

(** The last step: the source check and the tunnel. *)
Lemma deliver_source t pm rt e raw p w x :
  silent t pm rt w → (∀ ip q, Router.get_peer_from_ip rt ip = Some q → registered pm q) → registered pm p →
  let w' := (let! h := getM heap in
             let! r := getM (fun w => router (state w)) in
             let! _ := liftM (Router.validate_source (same_peer h) r (x :: raw) p) in
             send_to_tunnel e (x :: raw)) w in
  tunnel w'.1 = t ∨
  ∃ ip, IpPacket.new (x :: raw) = Some ip ∧ Router.get_peer_from_ip rt (IpPacket.source ip) = Some p ∧
        tunnel w'.1 = t ++ [x :: raw].
Proof.
  intros (Ht & Hr & Hk) Hroutes [pk Hpk]. do 2 erewrite bindM_run by reflexivity. rewrite Hr.
  unfold bindM at 1, liftM at 1, Router.validate_source.
  destruct (IpPacket.new (x :: raw)) as [ip|] eqn:Hip; [|by left].
  destruct (Router.get_peer_from_ip rt (IpPacket.source ip)) as [q|] eqn:Hq; [|by left]. cbn [ok_or bind_res].
  destruct (same_peer (heap w) q p) eqn:Hsame; [|by left]. cbn [ensure].
  assert (q = p) as ->.
  { destruct (Hroutes _ _ Hq) as [pkq Hpkq].
    destruct (Hk _ _ Hpk) as (sp & Hsp & Ep). destruct (Hk _ _ Hpkq) as (sq & Hsq & Eq).
    unfold same_peer in Hsame. rewrite Hsp, Hsq in Hsame. apply bool_decide_eq_true in Hsame. congruence. }
  unfold send_to_tunnel, bindM, liftM. destruct (tunnel_open e); [|by left]. cbn [ensure].
  right. exists ip. split; [done|]. split; [done|]. simpl. by rewrite Ht.
Qed.

(** From [w] to [w'] the tunnel got nothing, or one packet that [packet]
    carried. *)
Definition tunnel_delivery (e : Env) (addr : Endpoint.t) (packet : bytes) (w w' : World) : Prop :=
  tunnel w' = tunnel w ∨
  ∃ idx p self raw tr ip,
    Transport.our_index packet = Ok idx ∧ index_map (state w) !! idx = Some p ∧ heap w !! p = Some self ∧
    (handle_incoming_transport (now e) addr packet self).2 = Ok (raw, tr) ∧ raw ≠ [] ∧
    IpPacket.new raw = Some ip ∧ Router.get_peer_from_ip (router (state w)) (IpPacket.source ip) = Some p ∧
    tunnel w' = tunnel w ++ [raw].

(** C11.  What reaches the tunnel: a datagram makes the server hand at most one
    packet to the tunnel, and only one that the peer owning the receiver index
    decrypted, and whose source address routes to that same peer
    (cryptokey routing on input). *)
Theorem tunnel_only_authentic e addr packet w :
  world_ok w → tunnel_delivery e addr packet w (handle_ingress_packet e addr packet w).1.
Proof.
  intros Hw. unfold handle_ingress_packet. unfold bindM at 1, liftM at 1.
  destruct (MessageParser.try_from packet) as [m| | |] eqn:Ht; try by left.
  apply try_from_Ok in Ht as [Hm _]. destruct m as [x|x|x|x]; try by left. simpl in Hm. subst x.
  unfold handle_ingress_transport. unfold bindM at 1, liftM at 1.
  destruct (Transport.our_index packet) as [idx| | |] eqn:Hidx; try by left.
  erewrite bindM_run by reflexivity. unfold bindM at 1, liftM at 1.
  destruct (index_map (state w) !! idx) as [p|] eqn:Hp; [|by left]. cbn [ok_or].
  pose proof (ok_index _ _ _ _ _ _ Hw _ _ Hp) as Hreg.
  destruct (registered_cell _ _ _ _ _ _ _ Hw Hreg) as [self Hself].
  assert (silent (tunnel w) (pubkey_map (state w)) (router (state w)) w) as Hsil.
  { split; [done|]. split; [done|]. apply (ok_keys _ _ _ _ _ _ Hw). }
  pose proof (silent_with_peer (tunnel w) (pubkey_map (state w)) (router (state w)) p
    (handle_incoming_transport (now e) addr packet)) as Hstep.
  specialize (Hstep ltac:(intros k; by destruct (static_frames k) as (_ & _ & _ & ? & _)) w Hsil).
  unfold bindM at 1. rewrite (with_peer_same p _ w self Hself) in *. cbn [fst] in Hstep.
  destruct ((handle_incoming_transport (now e) addr packet self).2) as [[raw tr]| | |] eqn:Hin; try (left; apply Hstep).
  assert (∀ w', silent (tunnel w) (pubkey_map (state w)) (router (state w)) w' → tunnel w' = tunnel w) as Hleft
    by (by intros w' [? _]).
  apply (silent_bind (tunnel w) (pubkey_map (state w)) (router (state w)));
    [destruct tr; keeps_run; eauto with wg|exact Hstep|by left; apply Hleft|]. intros _ w1 H1.
  apply (silent_bind (tunnel w) (pubkey_map (state w)) (router (state w)));
    [eauto with wg|done|by left; apply Hleft|]. intros needs w2 H2.
  apply (silent_bind (tunnel w) (pubkey_map (state w)) (router (state w)));
    [destruct needs; keeps_run; eauto with wg|done|by left; apply Hleft|]. intros _ w3 H3.
  destruct raw as [|x raw]; [left; by apply Hleft|].
  destruct (deliver_source _ _ _ e raw p w3 x H3 (ok_routes _ _ _ _ _ _ Hw) Hreg) as [Hd|(ip & Hip & Hsrc & Hd)]; [by left|].
  right. exists idx, p, self, (x :: raw), tr, ip. done.
Qed.
End guarantees.

(* ------------------------------------------------------------------ *)
(** ** Instances of the theorems *)
Section witnesses.
#[local] Existing Instance refByteOrder.
#[local] Existing Instance refBlake2.
#[local] Existing Instance refAead.
#[local] Existing Instance refSubtle.
#[local] Existing Instance refX25519.
#[local] Existing Instance refSnow.
#[local] Existing Instance refRips.
#[local] Existing Instance refTreebitmap.
Import PeerServer.

Definition iv_env (t : Instant) : Env :=
  mkEnv t (secs 1600000000) (zeros 16) (zeros 24) (fun p => Nat.eqb p 0) true (fun _ => Ok tt) (fun _ => Ok tt) (fun _ => Pending).

(** A configured server with one peer that has a session in transport mode,
    under the index 6, and owns all of 10.0.0.0/8. *)
Definition iv_key : bytes := replicate 32 1.
Definition iv_peer : Peer :=
  PeerOps.put_session Current (demo_session toy_b 6 5 0) (PeerOps.new {|
    pub_key := iv_key; psk := None; endpoint := Some demo_addr;
    allowed_ips := [(IpV4 167772160, 8)]; keepalive := None |}).
Definition iv_world : World :=
  let w := World_new 0 [7; 8; 9] in
  set_heap {[ 0%nat := iv_peer ]} (set_next_peer 1%nat (set_udp (Some (mkUdpChannel None)) (set_port (Some 0)
    (set_state (mkState {[ iv_key := 0%nat ]} {[ 6 := 0%nat ]}
       (Router.add_allowed_ips [(IpV4 167772160, 8)] 0%nat Router.default)
       {| if_private_key := Some (replicate 32 7); if_pub_key := Some (generate_public (replicate 32 7));
          if_listen_port := None; if_fwmark := None |}) w)))).

Lemma iv_registered : registered (pubkey_map (state iv_world)) 0%nat.
Proof. exists iv_key. apply lookup_singleton_eq. Qed.

Lemma iv_routes ip p :
  Router.get_peer_from_ip (router (state iv_world)) ip = Some p → p = 0%nat.
Proof.
  assert (represents (router (state iv_world)) (Routes.add [(IpV4 167772160, 8)] 0%nat ∅)) as Hr.
  { apply represents_add; [by_decide|apply represents_default]. }
  rewrite (represents_lookup _ _ _ Hr). intros [k Hk]%routes_lookup_in. cbn [Routes.add foldl] in Hk.
  apply lookup_insert_Some in Hk as [[_ <-]|[_ Hk]]; [done|]. by rewrite lookup_empty in Hk.
Qed.

Lemma iv_maps :
  pubkey_map (state iv_world) = {[ iv_key := 0%nat ]} ∧ index_map (state iv_world) = {[ 6 := 0%nat ]} ∧
  heap iv_world = {[ 0%nat := iv_peer ]}.
Proof. done. Qed.

Lemma iv_ok : world_ok iv_world.
Proof.
  destruct iv_maps as (Hpm & Him & Hh). split; [reflexivity|reflexivity|reflexivity|reflexivity|..].
  - intros ip p ->%iv_routes. apply iv_registered.
  - reflexivity.
  - intros pk p. rewrite Hpm, Hh. intros [<- <-]%lookup_singleton_Some.
    exists iv_peer. split; [apply lookup_singleton_eq|reflexivity].
  - intros p self. rewrite Hh. intros [<- <-]%lookup_singleton_Some _. split; [apply NoDup_singleton|].
    intros [] s Hs; [discriminate Hs| |discriminate Hs]. injection Hs as <-. exists Window.new. apply refines_new.
  - intros p self i. rewrite Hh, Him. intros [<- <-]%lookup_singleton_Some _ ->%list_elem_of_singleton.
    apply lookup_singleton_eq.
  - intros i p. rewrite Him. intros [<- <-]%lookup_singleton_Some. apply iv_registered.
Qed.

(** A poll that gets a transport packet for the session. *)
Definition iv_packet : bytes := transport_header 6 0 ++ zeros 16.

Lemma server_poll_invariant_witness : world_ok (poll (iv_env 5) [(demo_addr, iv_packet)] iv_world).1.
Proof.
  refine (proj1 (server_poll_invariant (iv_env 5) [(demo_addr, iv_packet)] iv_world iv_ok _ _)).
  - intros p Hp. apply Nat.eqb_eq in Hp. subst p. apply iv_registered.
  - apply Forall_singleton. by_decide.
Defined.

Lemma tunnel_only_authentic_witness :
  tunnel_delivery (iv_env 5) demo_addr iv_packet iv_world
    (handle_ingress_packet (iv_env 5) demo_addr iv_packet iv_world).1.
Proof. exact (tunnel_only_authentic (iv_env 5) demo_addr iv_packet iv_world iv_ok). Defined.
End witnesses.
