(* ===== verification/ServerFrame.v ===== *)
(** * What the peer server never touches

    Whatever a poll is given, and whether its handlers fail or panic, it leaves
    the configuration alone: the keys of the peers, the routes, the settings of
    the interface and all of `PeerInfo` but the endpoint; and the session table
    it leaves behind mentions peers that exist.  Nothing is assumed of the state
    or of the environment. *)

From S2P Require Import Prelude Crates AntiReplay Types Timestamp Message XChaCha RateLimiter Cookie Router Peer PeerTransport PeerSessions Timer World PeerServer ServerInvariant.

Section frame.
Context {BO : ByteOrder} {B : Blake2} {S : Subtle} {A : Aead} {R : Rips} {T : Treebitmap} {SN : Snow}.
Context (PM : gmap bytes peer_id) (RT : Router.t) (CF : peer_id → option PeerInfo) (II : InterfaceInfo) (NP : peer_id).
Import PeerOps PeerServer.

Record framed (w : World) : Prop := {
  fr_pubkey_map : pubkey_map (state w) = PM;
  fr_router : router (state w) = RT;
  fr_interface : interface_info (state w) = II;
  fr_next : next_peer w = NP;
  fr_static : ∀ p, static <$> heap w !! p = CF p;
  fr_index : ∀ i p, index_map (state w) !! i = Some p → is_Some (CF p);
}.

Lemma framed_same w w' :
  heap w' = heap w → state w' = state w → next_peer w' = next_peer w → framed w → framed w'.
Proof. intros Hh Hs Hn [H1 H2 H3 H4 H5 H6]. split; rewrite ?Hh, ?Hs, ?Hn; done. Qed.
Lemma framed_table w m :
  framed w → (∀ i p, m !! i = Some p → is_Some (CF p)) → framed (set_state (set_index_map m (state w)) w).
Proof. by intros [] ?. Qed.

Lemma keeps_same_frame {X} (m : M World X) :
  (∀ w, heap (m w).1 = heap w ∧ state (m w).1 = state w ∧ next_peer (m w).1 = next_peer w) → keeps framed m.
Proof. intros H w Hw. destruct (H w) as (? & ? & ?). by eapply framed_same. Qed.

(** An operation on a peer that keeps its configuration; when it returns, the
    peer exists. *)
Definition fixed {X} (m : M Peer X) : Prop := ∀ k, keeps (fun self => static self = k) m.

Lemma yields_with_peer {X} p (m : M Peer X) : fixed m → yields framed (fun _ => is_Some (CF p)) (with_peer p m).
Proof.
  intros Hm w Hw. unfold with_peer. pose proof (fr_static w Hw p) as Hp. destruct (heap w !! p) as [self|] eqn:E; [|done].
  specialize (Hm (static self) self eq_refl). destruct (m self) as [self' r]. simpl in Hm, Hp |- *.
  split; [|intros _ _; by rewrite <-Hp]. destruct Hw as [H1 H2 H3 H4 H5 H6]. split; try done. intros q. simpl.
  destruct (decide (q = p)) as [->|]; [by rewrite lookup_insert_eq, <-Hp; simpl; rewrite Hm|by rewrite lookup_insert_ne].
Qed.
Lemma frame_with_peer {X} p (m : M Peer X) : fixed m → keeps framed (with_peer p m).
Proof. intros Hm. by eapply yields_keeps, yields_with_peer. Qed.
Lemma fixed_mod f : (∀ self, static (f self) = static self) → fixed (modM f).
Proof. intros Hf k self <-. apply Hf. Qed.
Lemma fixed_outgoing t packet : fixed (handle_outgoing_transport t packet).
Proof. intros k. by destruct (static_frames k) as (_ & _ & _ & _ & ?). Qed.
Lemma fixed_initiate t wall pk i : fixed (initiate_new_session t wall pk i).
Proof. intros k. by destruct (static_frames k) as (? & _). Qed.
Lemma fixed_complete t addr i inc : fixed (complete_incoming_handshake t addr i inc).
Proof. intros k. by destruct (static_frames k) as (_ & ? & _). Qed.
Lemma fixed_response t addr packet : fixed (process_incoming_handshake_response t addr packet).
Proof. intros k. by destruct (static_frames k) as (_ & _ & ? & _). Qed.
Lemma fixed_incoming t addr packet : fixed (handle_incoming_transport t addr packet).
Proof. intros k. by destruct (static_frames k) as (_ & _ & _ & ? & _). Qed.
Lemma fixed_cookie t reply : fixed (consume_cookie_reply t reply).
Proof. intros k self <-. unfold consume_cookie_reply. by destruct (Generator.consume_reply _ _ _). Qed.
Lemma fixed_wipe : fixed (fun self => let '(ss, dead) := SessionOps.wipe (sessions self) in (set_sessions ss self, Ok dead)).
Proof. by intros k self <-. Qed.
Lemma fixed_queue packet : fixed (modM (queue_egress packet)).
Proof. apply fixed_mod. intros self. unfold queue_egress. by case_match. Qed.

Lemma frame_read_peer {X} p (f : Peer → res X) : keeps framed (read_peer p f).
Proof. apply keeps_same_frame. intros w. unfold read_peer. by destruct (heap w !! p). Qed.
Lemma frame_map_timers p f : keeps framed (map_timers p f).
Proof. by apply frame_with_peer, fixed_mod. Qed.
Lemma frame_set_queue p q : keeps framed (with_peer p (modM (set_outgoing_queue q))).
Proof. by apply frame_with_peer, fixed_mod. Qed.
Lemma frame_send_to_peer payload : keeps framed (send_to_peer payload).
Proof. unfold send_to_peer. keeps_run. by apply framed_same with w. Qed.
Lemma frame_send_to_tunnel e packet : keeps framed (send_to_tunnel e packet).
Proof. unfold send_to_tunnel. keeps_run. by apply framed_same with w. Qed.
Lemma frame_send_after e d m : keeps framed (send_after e d m).
Proof. apply keeps_same_frame. intros w. unfold send_after. by destruct (Timer.send_after _ _ _ _). Qed.
Lemma frame_under_load e : keeps framed (under_load e).
Proof. unfold under_load. keeps_run. case_match; [|done]. by apply framed_same with w. Qed.
Lemma frame_unused_index : keeps framed unused_index.
Proof. apply keeps_same_frame. intros w. unfold unused_index. by destruct (draw_index _ _). Qed.
Lemma frame_insert_index i p : is_Some (CF p) → keeps framed (insert_index i p).
Proof.
  intros Hp w Hw. apply framed_table; [done|]. intros j q. rewrite lookup_insert_Some.
  intros [[_ <-]|[_ Hj]]; [done|]. by eapply fr_index.
Qed.
Lemma frame_remove_index d : keeps framed (remove_index d).
Proof.
  intros w Hw. destruct d as [i|]; [|done]. apply framed_table; [done|]. intros j q [_ Hj]%lookup_delete_Some. by eapply fr_index.
Qed.
Lemma frame_rebind e : keeps framed (rebind e).
Proof. unfold rebind. keeps_run; by apply framed_same with w. Qed.
Lemma frame_send_cookie_reply e addr mac1 i : keeps framed (send_cookie_reply e addr mac1 i).
Proof.
  unfold send_cookie_reply. apply keeps_bind; [|intros reply; apply frame_send_to_peer].
  apply keeps_same_frame. intros w. by destruct (Validator.generate_reply _ _ _ _ _ _ _).
Qed.
Lemma frame_check_load e addr packet mac1 sender msg : keeps framed (check_load e addr packet mac1 sender msg).
Proof.
  unfold check_load. keeps_run; [apply frame_under_load|apply frame_send_cookie_reply|].
  apply keeps_same_frame. intros w. by destruct (RateLimiter.allow _ _ _ _).
Qed.
Create HintDb frame.
#[local] Hint Resolve frame_with_peer fixed_outgoing fixed_initiate fixed_complete fixed_response fixed_incoming fixed_cookie
  fixed_wipe fixed_queue frame_read_peer frame_map_timers frame_set_queue frame_send_to_peer frame_send_to_tunnel frame_send_after frame_under_load
  frame_unused_index frame_insert_index frame_remove_index frame_rebind frame_send_cookie_reply frame_check_load : frame.
Ltac frame_auto := repeat (keeps_step || (progress eauto with frame nocore)).

Lemma frame_send_handshake_init e p : keeps framed (send_handshake_init e p).
Proof.
  unfold send_handshake_init. do 5 (apply keeps_bind; [frame_auto|intros ?]).
  eapply keeps_bind_yields; [apply yields_with_peer, fixed_initiate|]. intros [[ep packet] dead] Hp. frame_auto.
Qed.
#[local] Hint Resolve frame_send_handshake_init : frame.

Lemma frame_handshake_init e addr packet : keeps framed (handle_ingress_handshake_init e addr packet).
Proof.
  unfold handle_ingress_handshake_init, check_mac1. do 9 (apply keeps_bind; [frame_auto|intros ?]).
  eapply keeps_bind_yields; [apply yields_with_peer, fixed_complete|]. intros [response dead] Hp. frame_auto.
Qed.

Lemma frame_drain_queue e p q : keeps framed (drain_queue e p q).
Proof. induction q as [|x q IH]; simpl; frame_auto. Qed.
Lemma frame_flush_queue e p q : keeps framed (flush_queue e p q).
Proof.
  induction q as [|x q IH]; simpl; frame_auto. intros w Hw.
  pose proof (frame_with_peer p _ (fixed_outgoing (now e) (UtunPacket.payload x)) w Hw) as H.
  by destruct (with_peer _ _ w) as [w' [y|y|y|]].
Qed.
#[local] Hint Resolve frame_drain_queue frame_flush_queue frame_handshake_init : frame.

Lemma frame_handshake e addr message : keeps framed (handle_ingress_handshake e addr message).
Proof.
  unfold handle_ingress_handshake. apply keeps_bind; [apply frame_under_load|intros _]. destruct message; [frame_auto|..].
  - unfold handle_ingress_handshake_resp, check_mac1. frame_auto.
  - unfold handle_ingress_cookie_reply. frame_auto.
  - frame_auto.
Qed.

Lemma frame_ingress e addr packet : keeps framed (handle_ingress_packet e addr packet).
Proof.
  unfold handle_ingress_packet. apply keeps_bind; [frame_auto|]. intros m.
  assert (∀ m, keeps framed (queue_ingress_handshake addr m)) as Hq by (intros m'; by apply keeps_same_frame).
  destruct m; try apply Hq. unfold handle_ingress_transport. frame_auto.
Qed.

Lemma frame_egress e packet : keeps framed (handle_egress_packet e packet).
Proof. unfold handle_egress_packet. frame_auto. Qed.

Lemma frame_timer e message : keeps framed (handle_timer e message).
Proof.
  destruct message; unfold handle_timer, upgraded, rekey_decision, passive_decision, send_keepalive, wipe_sessions; frame_auto.
  intros w Hw. apply framed_table; [done|]. intros i q. rewrite foldl_delete_lookup. case_decide; [done|]. by apply fr_index.
Qed.

Lemma frame_event e event : keeps framed (handle_incoming_event e event).
Proof.
  assert (keeps framed (fun w => let '(w', r) := rebind e w in (w', unwrap_res r))) as Hrebind.
  { intros w Hw. pose proof (frame_rebind e w Hw). by destruct (rebind e w). }
  destruct event; unfold handle_incoming_event, send_keepalive; frame_auto;
    first [exact Hrebind | by apply framed_same with w].
Qed.

Lemma frame_each {X} (handler : X → M World unit) xs : (∀ x, keeps framed (handler x)) → keeps framed (each handler xs).
Proof.
  intros H. induction xs as [|x xs IH]; simpl; [apply keeps_ret|].
  apply keeps_bind; [apply keeps_ignore, H|intros _; exact IH].
Qed.

Lemma frame_poll e ingress : keeps framed (poll e ingress).
Proof.
  assert (∀ f : World → World, (∀ w, heap (f w) = heap w ∧ state (f w) = state w ∧ next_peer (f w) = next_peer w) →
            keeps framed (modM f)) as Hf by (intros f H; by apply (keeps_same_frame (modM f))).
  assert (∀ s name, keeps framed (settle e s name)) as Hs by (intros; unfold settle; frame_auto).
  unfold poll, poll_channel, poll_timer, poll_ingress, poll_egress, poll_handshake.
  repeat (apply keeps_bind; [|intros ?]); try first [by apply Hf | by apply keeps_get | by apply Hs].
  - apply frame_each, frame_event.
  - apply frame_each, frame_timer.
  - case_match; [|apply keeps_ret]. apply keeps_bind; [|intros _; apply Hs]. apply frame_each. intros []. apply frame_ingress.
  - apply frame_each, frame_egress.
  - case_match; [apply keeps_ret|]. case_match. apply keeps_bind; [by apply Hf|intros _]. apply keeps_ignore, frame_handshake.
Qed.
End frame.
