(* ===== verification/ServerBehaviour.v ===== *)
(** * What the handlers of the peer server do

    Load, rekeying and queueing: theorems about single handlers of
    src/interface/peer_server.rs. *)

From S2P Require Import Prelude Crates Reference RefSnow AntiReplay Types Timestamp Message XChaCha RateLimiter Cookie Router Peer PeerTransport PeerSessions Timer World PeerServer ServerInvariant.

Section load.
Context {BO : ByteOrder} {B : Blake2} {S : Subtle} {A : Aead} {R : Rips} {T : Treebitmap} {SN : Snow}.
Import PeerOps PeerServer.

(** What a refused handshake may touch: the load clock, the cookie secret, and
    one datagram to the sender, which is the cookie reply to the packet's MAC1
    and sender index. *)
Definition only_replied (e : Env) (addr : Endpoint.t) (mac1 : res bytes) (sender : res Z) (w w' : World) : Prop :=
  heap w' = heap w ∧ state w' = state w ∧ rng w' = rng w ∧ timer w' = timer w ∧ tunnel w' = tunnel w ∧
  rate_limiter w' = rate_limiter w ∧
  (wire w' = wire w ∨
   ∃ m i reply, mac1 = Ok m ∧ sender = Ok i ∧
     Validator.generate_reply (now e) (rand_secret e) (rand_nonce e) i m (ip_octets (Endpoint.ip addr)) (validator w)
       = (validator w', Ok reply) ∧
     wire w' = wire w ++ [(addr, reply)]).

Lemma only_replied_refl e addr mac1 sender w : only_replied e addr mac1 sender w w.
Proof. unfold only_replied. auto 10. Qed.

Lemma check_mac1_pure n packet w : (check_mac1 n packet w).1 = w.
Proof.
  unfold check_mac1, bindM, getM, liftM.
  destruct (slice 0 n packet); [|done..]. destruct (slice_from n packet) as [x| | |]; [|done..].
  by destruct (slice 0 16 x).
Qed.

(** The server counts itself under load. *)
Definition loaded (e : Env) (w : World) : Prop :=
  UNDER_LOAD_QUEUE_SIZE < Z.of_nat (length (handshakes w)) ∨ now e < under_load_until w.

Lemma under_load_run e w :
  loaded e w → ∃ t, under_load e w = (set_under_load_until t w, Ok true).
Proof.
  intros Hl. unfold under_load, bindM, modM, getM. destruct (Z.ltb_spec UNDER_LOAD_QUEUE_SIZE (Z.of_nat (length (handshakes w)))) as [H|H].
  - exists (now e + UNDER_LOAD_TIME). do 2 f_equal. apply Z.ltb_lt. simpl. change UNDER_LOAD_TIME with 1000000000. lia.
  - exists (under_load_until w). destruct Hl as [|Hl]; [lia|]. rewrite (proj2 (Z.ltb_lt _ _) Hl). by destruct w.
Qed.

Lemma check_load_refuses e addr packet mac1 sender msg w :
  loaded e w → (∀ u, Validator.verify_mac2 (now e) (validator w) packet (ip_octets (Endpoint.ip addr)) ≠ Ok u) →
  is_ok (check_load e addr packet mac1 sender msg w).2 = false ∧
  only_replied e addr mac1 sender w (check_load e addr packet mac1 sender msg w).1.
Proof.
  intros Hl Hv. destruct (under_load_run e w Hl) as [t Ht]. unfold check_load.
  erewrite bindM_run by exact Ht. cbv iota. erewrite bindM_run by reflexivity.
  change (validator (set_under_load_until t w)) with (validator w).
  assert (only_replied e addr mac1 sender w (set_under_load_until t w)) as Hw by (by split_and!; auto).
  unfold mac2_verified. destruct (Validator.verify_mac2 _ _ _ _) as [u|err|p|]; [by destruct (Hv u)|..];
    [|split; done..].
  erewrite bindM_run by reflexivity. cbn [negb].
  unfold bindM at 1, liftM at 1. destruct mac1 as [m| | |]; [|split; done..].
  unfold bindM at 1, liftM at 1. destruct sender as [i| | |]; [|split; done..].
  unfold send_cookie_reply, send_to_peer, bindM, getM, liftM, modM, errM.
  destruct (Validator.generate_reply _ _ _ _ _ _ _) as [v [reply| | |]] eqn:E; simpl; [|split; [done|by split_and!; auto]..].
  destruct (udp w); simpl; (split; [done|]); split_and!; auto; []. right. by exists m, i, reply.
Qed.

Lemma checked_refuses {X} n e addr packet mac1 sender msg w (k : M World X) :
  loaded e w → (∀ u, Validator.verify_mac2 (now e) (validator w) packet (ip_octets (Endpoint.ip addr)) ≠ Ok u) →
  let '(w', r) := (let! _ := check_mac1 n packet in
                   let! _ := check_load e addr packet mac1 sender msg in k) w in
  is_ok r = false ∧ only_replied e addr mac1 sender w w'.
Proof.
  intros Hl Hv. unfold bindM at 1. pose proof (check_mac1_pure n packet w) as Hpure.
  destruct (check_mac1 n packet w) as [w1 [u| | |]]; simpl in Hpure; subst w1;
    [|split; [done|apply only_replied_refl]..].
  destruct (check_load_refuses e addr packet mac1 sender msg w Hl Hv) as [H1 H2]. unfold bindM.
  by destruct (check_load e addr packet mac1 sender msg w) as [w1 [| | |]].
Qed.

(** C28.  Under load: while the server is under load, a handshake initiation or
    response without a valid MAC2 changes no peer, no table and no timer, draws
    no index and is answered with at most one datagram to its sender: the
    cookie reply for the MAC1 and the index the packet is read to carry. *)
Theorem under_load_keeps_state e addr packet w :
  loaded e w → (∀ u, Validator.verify_mac2 (now e) (validator w) packet (ip_octets (Endpoint.ip addr)) ≠ Ok u) →
  (let '(w', r) := handle_ingress_handshake_init e addr packet w in
   is_ok r = false ∧ only_replied e addr (Initiation.mac1 packet) (Initiation.sender_index packet) w w') ∧
  (let '(w', r) := handle_ingress_handshake_resp e addr packet w in
   is_ok r = false ∧ only_replied e addr (Response.mac1 packet) (Response.sender_index packet) w w').
Proof. intros Hl Hv. split; by apply checked_refuses. Qed.
End load.

Section rekey.
Context {BO : ByteOrder} {B : Blake2} {S : Subtle} {A : Aead} {R : Rips} {T : Treebitmap} {SN : Snow}.
Import PeerOps PeerServer.

Lemma with_peer_Ok {X} p (m : M Peer X) w w' x :
  with_peer p m w = (w', Ok x) →
  ∃ self self', heap w !! p = Some self ∧ m self = (self', Ok x) ∧ w' = set_heap (<[p := self']> (heap w)) w.
Proof.
  unfold with_peer. destruct (heap w !! p) as [self|]; [|done]. destruct (m self) as [self' r] eqn:E.
  intros [= <- ->]. eauto.
Qed.

Lemma read_peer_Ok {X} p (f : Peer → res X) w w' x :
  read_peer p f w = (w', Ok x) → w' = w ∧ ∃ self, heap w !! p = Some self ∧ f self = Ok x.
Proof. unfold read_peer. destruct (heap w !! p); [|done]. intros [= <- ?]. eauto. Qed.

Lemma draw_index_unused used draws rest i :
  draw_index used draws = (rest, Ok i) → used !! i = None.
Proof.
  revert rest i. induction draws as [|d draws IH]; intros rest i; simpl; [done|].
  destruct (used !! d) eqn:Hd; [apply IH|]. by intros [= <- <-].
Qed.

(** The loop of `unused_index` stops at the first number that is not in the
    table, and among more numbers than the table has there is one. *)
Lemma draw_index_first used seen i rest :
  Forall (fun j => is_Some (used !! j)) seen → used !! i = None →
  draw_index used (seen ++ i :: rest) = (rest, Ok i).
Proof. intros Hs Hi. induction Hs as [|j seen [p Hj] _ IH]; simpl; [by rewrite Hi|by rewrite Hj]. Qed.

Lemma first_unused (used : gmap Z peer_id) draws :
  Exists (fun j => used !! j = None) draws →
  ∃ seen i rest, draws = seen ++ i :: rest ∧ Forall (fun j => is_Some (used !! j)) seen ∧ used !! i = None.
Proof.
  induction draws as [|j draws IH]; intros He; [by apply Exists_nil in He|].
  destruct (used !! j) as [p|] eqn:Hj; [|by exists [], j, draws].
  apply Exists_cons in He as [He|He]; [congruence|].
  destruct (IH He) as (seen & i & rest & -> & Hs & Hi). exists (j :: seen), i, rest. split_and!; [done| |done].
  apply Forall_cons. split; [by exists p|done].
Qed.

Lemma draws_unused (used : gmap Z peer_id) (draws : list Z) :
  (size used < size (list_to_set draws : gset Z))%nat → Exists (fun j => used !! j = None) draws.
Proof.
  intros Hsize. destruct (decide (Exists (fun j => used !! j = None) draws)) as [|Hn]; [done|exfalso].
  assert ((list_to_set draws : gset Z) ⊆ dom used) as Hsub.
  { intros j Hj%elem_of_list_to_set. apply elem_of_dom. destruct (used !! j) eqn:E; [done|].
    destruct Hn. apply Exists_exists. eauto. }
  apply subseteq_size in Hsub. rewrite size_dom in Hsub. lia.
Qed.

(** C38.  The search for an index ends: when the random numbers to come have
    more different values than the table has entries, `unused_index` returns
    the first of them that is not in the table, having consumed the numbers up
    to it and changed nothing else. *)
Theorem unused_index_terminates w :
  (size (index_map (state w)) < size (list_to_set (rng w) : gset Z))%nat →
  ∃ seen i rest, rng w = seen ++ i :: rest ∧ Forall (fun j => is_Some (index_map (state w) !! j)) seen ∧
                 index_map (state w) !! i = None ∧ unused_index w = (set_rng rest w, Ok i).
Proof.
  intros H%draws_unused%first_unused. destruct H as (seen & i & rest & E & Hs & Hi). exists seen, i, rest.
  split_and!; [done..|]. unfold unused_index. by rewrite E, draw_index_first.
Qed.

(** C27.  Starting a handshake: when `send_handshake_init` succeeds, it used an
    index that no session had, entered it in the table for this peer, sent one
    datagram, set the timer that retries after REKEY-TIMEOUT, and for that
    time every further attempt for this peer is refused and changes nothing. *)
Theorem handshake_init_once e p w w1 i :
  send_handshake_init e p w = (w1, Ok i) →
  index_map (state w) !! i = None ∧
  (∃ self ep pkt dead,
     heap w !! p = Some self ∧
     (∃ pk s', initiate_new_session (now e) (wall e) pk i self = (s', Ok (ep, pkt, dead))) ∧
     wire w1 = wire w ++ [(ep, pkt)] ∧
     index_map (state w1) = (match dead with Some d => delete d | None => id end) (<[i := p]> (index_map (state w)))) ∧
  Timer.delays (timer w1) = Timer.delays (timer w) ++
    [Timer.mkDelay (now e + REKEY_TIMEOUT + TIMER_RESOLUTION * 2) (Timer.next_flag (timer w)) (Rekey p i)] ∧
  ∀ e', now e ≤ now e' < now e + REKEY_TIMEOUT → ∃ err, send_handshake_init e' p w1 = (w1, Err err).
Proof.
  unfold send_handshake_init at 1. intros H. run_ok.
  match goal with H : read_peer _ _ _ = _ |- _ => apply read_peer_Ok in H as (-> & self0 & Hself0 & _) end.
  match goal with H : unused_index _ = _ |- _ => unfold unused_index in H;
    destruct (draw_index _ _) as [rest d] eqn:Hd; apply pair_eq_inv in H as [<- ->]; apply draw_index_unused in Hd end.
  match goal with H : with_peer _ (initiate_new_session _ _ _ _) _ = _ |- _ =>
    apply with_peer_Ok in H as (self & self' & Hself & Hinit & ->) end.
  match goal with H : insert_index _ _ _ = _ |- _ => apply modM_Ok in H as <- end.
  match goal with H : remove_index ?o ?a = (?b, _) |- _ =>
    assert (b = set_state (set_index_map ((match o with Some d => delete d | None => id end) (index_map (state a))) (state a)) a) as ->
      by (destruct o; apply pair_eq_inv in H as [<- _]; [done|by destruct a as [? ? []]]) end.
  match goal with H : send_to_peer _ _ = _ |- _ => unfold send_to_peer in H; run_ok end.
  match goal with H : map_timers _ _ _ = _ |- _ => apply with_peer_Ok in H as (self1 & self1' & Hself1 & Ht & ->) end.
  apply modM_Ok in Ht as <-.
  match goal with H : send_after _ _ _ _ = _ |- _ => apply pair_eq_inv in H as [<- _] end.
  simpl in *. simplify_eq. split; [done|]. split; [|split; [done|]].
  - exists self0. do 3 eexists. split; [done|]. split; [eauto|]. done.
  - intros e' He'. eexists. unfold send_handshake_init. erewrite bindM_run.
    2: { unfold read_peer. simpl. rewrite lookup_insert_eq. reflexivity. }
    apply bindM_err, ensure_fail. simpl. apply negb_false_iff, Z.ltb_lt.
    unfold Timestamp.elapsed, Timestamp.now. lia.
Qed.
End rekey.

Section egress.
Context {BO : ByteOrder} {B : Blake2} {S : Subtle} {A : Aead} {R : Rips} {T : Treebitmap} {SN : Snow}.
Import PeerOps PeerServer.

(** The packets sealed one after the other on the peer's current session. *)
Fixpoint seal_all (t : Instant) (packets : list UtunPacket.t) : M Peer (list (Endpoint.t * bytes)) :=
  match packets with
  | [] => retM []
  | packet :: packets' =>
      let! out := handle_outgoing_transport t (UtunPacket.payload packet) in
      let! outs := seal_all t packets' in
      retM (out :: outs)
  end.

(** Sealing neither reads nor writes the queue. *)
Lemma outgoing_queue_frame t packet q self :
  handle_outgoing_transport t packet (set_outgoing_queue q self) =
  (set_outgoing_queue q (handle_outgoing_transport t packet self).1, (handle_outgoing_transport t packet self).2).
Proof.
  unfold handle_outgoing_transport, bindM, getM, liftM, modM, retM. simpl.
  repeat (match goal with
          | |- context [let '(_, _) := snow_write_message ?n ?m ?k in _] => destruct (snow_write_message n m k)
          | |- context [match ?x with Ok _ => _ | _ => _ end] => destruct x as [?| | |]
          end; simpl; try done).
Qed.

Lemma seal_all_queue t q : ∀ s s' r, seal_all t q s = (s', r) → outgoing_queue s = [] → outgoing_queue s' = [].
Proof.
  induction q as [|x q IH]; intros s s' r; simpl; [by intros [<- _]%pair_eq_inv|].
  unfold bindM at 1. pose proof (outgoing_queue_frame t (UtunPacket.payload x) [] s) as F.
  destruct (handle_outgoing_transport t (UtunPacket.payload x) s) as [s1 r1] eqn:E. intros H Hq.
  assert (set_outgoing_queue [] s = s) as Hid by (destruct s; simpl in *; by subst). rewrite Hid, E in F.
  apply pair_eq_inv in F as [F _]. assert (outgoing_queue s1 = []) as Hq1 by (by rewrite F).
  destruct r1; [|apply pair_eq_inv in H as [<- _]; done..]. unfold bindM in H.
  destruct (seal_all t q s1) as [s2 r2] eqn:E2. apply IH in E2; [|done].
  destruct r2; by apply pair_eq_inv in H as [<- _].
Qed.

Lemma drain_queue_run e p q : ∀ w u self self' outs,
  udp w = Some u → heap w !! p = Some self → outgoing_queue self = q →
  seal_all (now e) q (set_outgoing_queue [] self) = (self', Ok outs) →
  drain_queue e p q w = (set_wire (wire w ++ outs) (set_heap (<[p := self']> (heap w)) w), Ok tt).
Proof.
  induction q as [|packet q IH]; intros w u self self' outs Hu Hp Hq Hs; simpl in Hs.
  - apply pair_eq_inv in Hs as [<- [= <-]]. rewrite app_nil_r. cbn [drain_queue].
    rewrite insert_id by (rewrite Hp; f_equal; by destruct self; simpl in *; subst). by destruct w.
  - destruct (handle_outgoing_transport (now e) (UtunPacket.payload packet) (set_outgoing_queue [] self)) as [s1 r1] eqn:E1.
    unfold bindM at 1 in Hs. rewrite E1 in Hs. destruct r1 as [out| | |]; try discriminate.
    unfold bindM at 1 in Hs. destruct (seal_all (now e) q s1) as [s2 [outs2| | |]] eqn:E2; try discriminate.
    apply pair_eq_inv in Hs as [<- [= <-]]. cbn [drain_queue].
    pose proof (outgoing_queue_frame (now e) (UtunPacket.payload packet) [] self) as F1. rewrite E1 in F1.
    pose proof (outgoing_queue_frame (now e) (UtunPacket.payload packet) q self) as F2.
    destruct (handle_outgoing_transport (now e) (UtunPacket.payload packet) self) as [s0 r0].
    apply pair_eq_inv in F1 as [F1a F1b]. simpl in F1a, F1b, F2. subst s1 r0.
    erewrite bindM_run by (unfold with_peer; rewrite Hp; reflexivity).
    erewrite bindM_run by (unfold with_peer; simpl; rewrite lookup_insert_eq, F2; reflexivity).
    erewrite bindM_run by (unfold send_to_peer, bindM, getM, liftM; simpl; rewrite Hu; reflexivity).
    rewrite (IH _ u (set_outgoing_queue q s0) s2 outs2); [|done|simpl; by rewrite lookup_insert_eq|done|exact E2].
    simpl. destruct w; simpl. by rewrite !insert_insert_eq, <-app_assoc.
Qed.

(** A packet for a peer with a live session. *)
Lemma egress_run e packet w u p self self' outs :
  (1 ≤ length (UtunPacket.payload packet))%nat → Z.of_nat (length (UtunPacket.payload packet)) ≤ MAX_CONTENT_SIZE →
  udp w = Some u →
  Router.route_to_peer (router (state w)) (UtunPacket.payload packet) = Some p → heap w !! p = Some self →
  needs_new_handshake (now e) true self = Ok false → ready_for_transport (now e) self = Ok true →
  (length (outgoing_queue self) < MAX_QUEUED_PACKETS)%nat →
  seal_all (now e) (outgoing_queue self ++ [packet]) (set_outgoing_queue [] (queue_egress packet self)) = (self', Ok outs) →
  handle_egress_packet e packet w = (set_wire (wire w ++ outs) (set_heap (<[p := self']> (heap w)) w), Ok tt) ∧
  outgoing_queue self' = [].
Proof.
  intros H1 H2 Hu Hr Hp Hn Hready Hroom Hs. split.
  - unfold handle_egress_packet. erewrite bindM_run.
    2: { unfold liftM. rewrite (proj2 (Nat.eqb_neq _ _)) by lia. rewrite (proj2 (Z.leb_le _ _)) by lia. reflexivity. }
    erewrite bindM_run by reflexivity. rewrite Hr. erewrite bindM_run by reflexivity.
    erewrite bindM_run by (unfold read_peer; rewrite Hp, Hn; reflexivity).
    erewrite bindM_run by (unfold with_peer; rewrite Hp; reflexivity).
    assert (ready_for_transport (now e) (queue_egress packet self) = Ok true) as Hready'.
    { unfold queue_egress. case_match; exact Hready. }
    assert (outgoing_queue (queue_egress packet self) = outgoing_queue self ++ [packet]) as Hq.
    { unfold queue_egress. by rewrite (proj2 (Nat.ltb_lt _ _) Hroom). }
    erewrite bindM_run by (unfold read_peer; simpl; rewrite lookup_insert_eq, Hready'; reflexivity).
    cbv iota. erewrite bindM_run; [reflexivity|].
    erewrite bindM_run by (unfold read_peer; simpl; rewrite lookup_insert_eq; reflexivity).
    rewrite Hq. erewrite drain_queue_run; [|done|simpl; by rewrite lookup_insert_eq|done|exact Hs].
    simpl. destruct w; simpl. by rewrite !insert_insert_eq.
  - by eapply seal_all_queue.
Qed.

(** C21.  Sending: a packet from the tunnel that fits, is routed to a peer with
    a live session and needs no new handshake is sealed behind the packets that
    waited for this peer, in the order they were queued; all of them go out,
    in that order, and the queue is left empty. *)
Theorem egress_in_order e packet w u p self self' outs :
  (1 ≤ length (UtunPacket.payload packet))%nat → Z.of_nat (length (UtunPacket.payload packet)) ≤ MAX_CONTENT_SIZE →
  udp w = Some u →
  Router.route_to_peer (router (state w)) (UtunPacket.payload packet) = Some p → heap w !! p = Some self →
  needs_new_handshake (now e) true self = Ok false → ready_for_transport (now e) self = Ok true →
  (length (outgoing_queue self) < MAX_QUEUED_PACKETS)%nat →
  seal_all (now e) (outgoing_queue self ++ [packet]) (set_outgoing_queue [] (queue_egress packet self)) = (self', Ok outs) →
  handle_egress_packet e packet w = (set_wire (wire w ++ outs) (set_heap (<[p := self']> (heap w)) w), Ok tt) ∧
  outgoing_queue self' = [].
Proof. apply egress_run. Qed.
End egress.

(* ------------------------------------------------------------------ *)
(** ** Instances of the theorems *)
Section witnesses.
#[local] Existing Instance refByteOrder.
#[local] Existing Instance refBlake2.
#[local] Existing Instance refAead.
#[local] Existing Instance refSubtle.
#[local] Existing Instance refX25519.
#[local] Existing Instance refSnow.
#[local] Existing Instance refRips.
#[local] Existing Instance refTreebitmap.
Import PeerServer.

Definition sv_env (t : Instant) : Env :=
  mkEnv t (secs 1600000000) (zeros 16) (zeros 24) (fun _ => true) true (fun _ => Ok tt) (fun _ => Ok tt) (fun _ => Pending).

(** A server with a private key, a socket and one peer, without a session. *)
Definition sv_peer : Peer := PeerOps.new {|
  pub_key := generate_public (replicate 32 7); psk := None; endpoint := Some demo_addr;
  allowed_ips := []; keepalive := None |}.
Definition sv_world : World :=
  let w := World_new 0 [7; 8; 9] in
  set_heap {[ 0%nat := sv_peer ]} (set_next_peer 1%nat (set_udp (Some (mkUdpChannel None)) (set_port (Some 0)
    (set_state (mkState {[ generate_public (replicate 32 7) := 0%nat ]} ∅ Router.default
       {| if_private_key := Some (zeros 32); if_pub_key := Some (generate_public (zeros 32));
          if_listen_port := None; if_fwmark := None |}) w)))).

Definition sv_init : World * res Z := send_handshake_init (sv_env 5) 0 sv_world.

Lemma sv_init_is_ok : is_ok sv_init.2 = true.
Proof. vm_cast_no_check (eq_refl true). Qed.
Lemma sv_init_eq : sv_init = (sv_init.1, Ok (ok_get 0 sv_init.2)).
Proof. apply run_ok_get, sv_init_is_ok. Qed.

Lemma handshake_init_once_witness :
  index_map (state sv_world) !! ok_get 0 sv_init.2 = None ∧
  ∃ err, send_handshake_init (sv_env 6) 0 sv_init.1 = (sv_init.1, Err err).
Proof.
  destruct (handshake_init_once (sv_env 5) 0 sv_world sv_init.1 (ok_get 0 sv_init.2) sv_init_eq) as (H1 & _ & _ & H2).
  split; [exact H1|]. apply H2. split; by_decide.
Defined.

(** The first draw is taken, the second is not. *)
Definition draw_world : World :=
  set_rng [7; 7; 9; 4] (set_state (set_index_map {[7 := 0%nat]} (state sv_world)) sv_world).

Lemma unused_index_terminates_witness : ∃ i rest, unused_index draw_world = (set_rng rest draw_world, Ok i).
Proof.
  destruct (unused_index_terminates draw_world ltac:(by_decide)) as (seen & i & rest & _ & _ & _ & E).
  exists i, rest. exact E.
Defined.

(** Under load: the load clock is ahead. *)
Definition sv_loaded : World := set_under_load_until 10 sv_world.

Definition sv_packet : bytes := 1 :: zeros 147.

Lemma sv_is_loaded : loaded (sv_env 5) sv_loaded.
Proof. right. by_decide. Qed.
Lemma sv_no_mac2 u :
  Validator.verify_mac2 (now (sv_env 5)) (validator sv_loaded) sv_packet (ip_octets (Endpoint.ip demo_addr)) ≠ Ok u.
Proof. discriminate. Qed.

Lemma under_load_keeps_state_witness :
  (let '(w', r) := handle_ingress_handshake_init (sv_env 5) demo_addr sv_packet sv_loaded in
   is_ok r = false ∧ only_replied (sv_env 5) demo_addr (Initiation.mac1 sv_packet) (Initiation.sender_index sv_packet) sv_loaded w') ∧
  (let '(w', r) := handle_ingress_handshake_resp (sv_env 5) demo_addr sv_packet sv_loaded in
   is_ok r = false ∧ only_replied (sv_env 5) demo_addr (Response.mac1 sv_packet) (Response.sender_index sv_packet) sv_loaded w').
Proof.
  pose proof (under_load_keeps_state (sv_env 5) demo_addr sv_packet sv_loaded sv_is_loaded sv_no_mac2) as H.
  exact H.
Defined.

(** A peer in transport mode with one packet waiting, and a second packet to
    10.0.0.2 from the tunnel. *)
Definition eg_peer : Peer :=
  set_timers (set_handshake_completed (Timestamp.now 3) (timers iv_peer))
    (set_outgoing_queue [UtunPacket.Inet4 demo_packet] iv_peer).
Definition eg_world : World := set_heap {[ 0%nat := eg_peer ]} iv_world.
Definition eg_packet : UtunPacket.t := UtunPacket.Inet4 (demo_packet ++ [7]).
Definition eg_run : Peer * res (list (Endpoint.t * bytes)) :=
  seal_all 5 [UtunPacket.Inet4 demo_packet; eg_packet] (set_outgoing_queue [] (PeerOps.queue_egress eg_packet eg_peer)).
Definition eg_outs : list (Endpoint.t * bytes) := ok_get [] eg_run.2.

Lemma eg_run_is_ok : is_ok eg_run.2 = true.
Proof. vm_cast_no_check (eq_refl true). Qed.
Lemma eg_run_eq : eg_run = (eg_run.1, Ok eg_outs).
Proof. apply run_ok_get, eg_run_is_ok. Qed.

Lemma egress_in_order_witness :
  handle_egress_packet (sv_env 5) eg_packet eg_world =
    (set_wire (wire eg_world ++ eg_outs) (set_heap (<[0%nat := eg_run.1]> (heap eg_world)) eg_world), Ok tt) ∧
  outgoing_queue eg_run.1 = [].
Proof.
  pose proof (egress_in_order (sv_env 5) eg_packet eg_world (mkUdpChannel None) 0%nat eg_peer eg_run.1 eg_outs
    ltac:(by_decide) ltac:(by_decide) eq_refl ltac:(vm_cast_no_check (eq_refl (Some 0%nat))) eq_refl
    ltac:(vm_cast_no_check (eq_refl (Ok false))) ltac:(vm_cast_no_check (eq_refl (Ok true))) ltac:(by_decide) eg_run_eq) as H.
  exact H.
Defined.
End witnesses.
