(* ===== verification/EndToEnd.v ===== *)
(** * Two servers, end to end

    A packet that enters the tunnel of one server leaves the tunnel of the
    other: four polls (src/interface/peer_server.rs) carry the initiation, the
    response, and the packet that waited for the session. *)

From S2P Require Import Prelude Crates Reference RefSnow AntiReplay Types Timestamp Message XChaCha RateLimiter Cookie Router Peer PeerTransport PeerSessions PeerHandshake Timer World PeerServer ServerInvariant ServerBehaviour.

Section runs.
Context {BO : ByteOrder} {BOL : ByteOrderLaws BO} {B : Blake2} {S : Subtle} {A : Aead} {R : Rips} {T : Treebitmap}
        {SN : Snow} {SL : SnowLaws SN} {SC : SnowChannel SN}.
Import PeerOps PeerServer.

(** ** A poll with little to do *)

(** No events, timers or handshakes wait, a socket is bound, no stream has
    ended, and the server is not under load. *)
Record resting (e : Env) (w : World) : Prop := {
  re_channel : channel w = [];
  re_timer : Timer.rx (timer w) = [];
  re_handshakes : handshakes w = [];
  re_udp : is_Some (udp w);
  re_load : under_load_until w ≤ now e;
  re_rest : ∀ s, rest e s = Pending;
}.

Lemma ignoreM_run {W X} (m : M W X) w w' x : m w = (w', Ok x) → ignoreM m w = (w', Ok tt).
Proof. unfold ignoreM. by intros ->. Qed.

Lemma settle_run e s name w : (∀ s, rest e s = Pending) → settle e s name w = (w, Ok tt).
Proof. intros Hr. unfold settle. by rewrite Hr. Qed.

Lemma poll_resting e ing w :
  resting e w →
  poll e ing w =
    (let! _ := each (fun '(addr, packet) => handle_ingress_packet e addr packet) ing in
     let! _ := settle e IngressStream "incoming udp stream" in
     let! _ := poll_egress e in poll_handshake e) w.
Proof.
  intros [Hc Ht Hh [u Hu] _ Hr]. unfold poll. erewrite bindM_run.
  2: { unfold poll_channel, bindM, getM, modM. rewrite Hc. cbn [each]. unfold retM. by apply settle_run. }
  assert (set_channel [] w = w) as -> by (destruct w; simpl in *; by subst). erewrite bindM_run.
  2: { unfold poll_timer, bindM, getM, modM. rewrite Ht. cbn [each]. unfold retM. by apply settle_run. }
  match goal with |- bindM _ _ ?x = _ => assert (x = w) as ->
    by (destruct w as [? ? ? ? ? ? ? ? ? [] ? ? ? ? ?]; simpl in *; by subst) end.
  unfold poll_ingress. unfold bindM at 1. unfold bindM at 1, getM at 1.
  rewrite bool_decide_eq_true_2 by (by rewrite Hu). cbv iota.
  unfold bindM. destruct (each _ ing w) as [w1 [[]|er|p|]]; try done.
Qed.

Lemma under_load_not e w :
  handshakes w = [] → under_load_until w ≤ now e → under_load e w = (w, Ok false).
Proof.
  intros Hh Hl. unfold under_load, bindM, modM, getM. rewrite Hh.
  change (UNDER_LOAD_QUEUE_SIZE <? Z.of_nat (length [])) with false. cbv iota. by rewrite (proj2 (Z.ltb_ge _ _) Hl).
Qed.

(** A poll that gets a handshake message handles it. *)
Lemma poll_one_handshake e addr packet m w w' x :
  resting e w → outgoing w = [] → MessageParser.try_from packet = Ok m →
  match m with Message_Transport _ => False | _ => True end →
  handle_ingress_handshake e addr m w = (w', Ok x) →
  poll e [(addr, packet)] w = (w', Ok tt).
Proof.
  intros Hre Ho Hp Hm Hrun. rewrite poll_resting by done. destruct Hre as [Hc Ht Hh Hu Hl Hr].
  set (w1 := set_handshakes [(addr, m)] w).
  assert (handle_ingress_packet e addr packet w = (w1, Ok tt)) as Hq.
  { unfold handle_ingress_packet. rewrite Hp. erewrite bindM_run by reflexivity.
    unfold w1. by destruct m; try done; unfold queue_ingress_handshake, modM; rewrite Hh. }
  erewrite bindM_run. 2: { cbn [each]. erewrite bindM_run by (by eapply ignoreM_run). reflexivity. }
  erewrite bindM_run by (by apply settle_run). erewrite bindM_run.
  2: { unfold poll_egress, bindM, getM, modM. change (outgoing w1) with (outgoing w). rewrite Ho. cbn [each]. unfold retM. by apply settle_run. }
  unfold poll_handshake, bindM, getM, modM. cbn [handshakes set_handshakes set_outgoing w1].
  match goal with |- ignoreM _ ?x = _ => assert (x = w) as -> by (destruct w; simpl in *; by subst) end.
  by eapply ignoreM_run.
Qed.

(** A poll that gets a transport packet. *)
Lemma poll_one_transport e addr packet w w' x :
  resting e w → outgoing w = [] → MessageParser.try_from packet = Ok (Message_Transport packet) →
  handle_ingress_transport e addr packet w = (w', Ok x) → outgoing w' = [] → handshakes w' = [] →
  poll e [(addr, packet)] w = (w', Ok tt).
Proof.
  intros Hre Ho Hp Hrun Ho' Hh'. rewrite poll_resting by done. destruct Hre as [Hc Ht Hh Hu Hl Hr].
  assert (handle_ingress_packet e addr packet w = (w', Ok x)) as Hq.
  { unfold handle_ingress_packet. rewrite Hp. by erewrite bindM_run by reflexivity. }
  erewrite bindM_run. 2: { cbn [each]. erewrite bindM_run by (by eapply ignoreM_run). reflexivity. }
  erewrite bindM_run by (by apply settle_run). erewrite bindM_run.
  2: { unfold poll_egress, bindM, getM, modM. rewrite Ho'. cbn [each]. unfold retM. by apply settle_run. }
  assert (set_outgoing [] w' = w') as -> by (destruct w'; simpl in *; by subst).
  unfold poll_handshake, bindM, getM. by rewrite Hh'.
Qed.

(** A poll that finds one packet from the tunnel. *)
Lemma poll_one_egress e packet w w' x :
  resting e w → outgoing w = [packet] → handle_egress_packet e packet (set_outgoing [] w) = (w', Ok x) →
  handshakes w' = [] → poll e [] w = (w', Ok tt).
Proof.
  intros Hre Ho Hrun Hh'. rewrite poll_resting by done. destruct Hre as [Hc Ht Hh Hu Hl Hr].
  erewrite bindM_run by reflexivity. erewrite bindM_run by (by apply settle_run). erewrite bindM_run.
  2: { unfold poll_egress. erewrite bindM_run by reflexivity. rewrite Ho. erewrite bindM_run by reflexivity.
       erewrite bindM_run. 2: { cbn [each]. erewrite bindM_run by (by eapply ignoreM_run). reflexivity. }
       by apply settle_run. }
  unfold poll_handshake, bindM, getM. by rewrite Hh'.
Qed.

(** ** The handlers on the way *)

(** What the steps leave alone: everything a later step of the exchange reads
    besides the peer, the table of indices and the queue of packets. *)
Definition site (w : World) :=
  (udp w, validator w, channel w, Timer.rx (timer w), handshakes w, under_load_until w,
   pubkey_map (state w), router (state w), interface_info (state w), outgoing w).

Lemma unused_index_run i rest w :
  rng w = i :: rest → index_map (state w) !! i = None → unused_index w = (set_rng rest w, Ok i).
Proof. intros Hr Hi. unfold unused_index. rewrite Hr. cbn [draw_index]. by rewrite Hi. Qed.

Lemma with_peer_run {X} p (m : M Peer X) self self' x w :
  heap w !! p = Some self → m self = (self', Ok x) → with_peer p m w = (set_heap (<[p := self']> (heap w)) w, Ok x).
Proof. intros Hp Hm. unfold with_peer. by rewrite Hp, Hm. Qed.

Lemma read_peer_run {X} p (f : Peer → res X) self x w :
  heap w !! p = Some self → f self = Ok x → read_peer p f w = (w, Ok x).
Proof. intros Hp Hf. unfold read_peer. by rewrite Hp, Hf. Qed.

Lemma send_to_peer_run payload w : is_Some (udp w) → send_to_peer payload w = (set_wire (wire w ++ [payload]) w, Ok tt).
Proof. intros [u Hu]. unfold send_to_peer, bindM, getM, liftM, modM. by rewrite Hu. Qed.

(** `send_handshake_init` for a peer whose guards hold. *)
Lemma send_init_run e p w self privA i rest self' ep init :
  heap w !! p = Some self → REKEY_TIMEOUT ≤ Timestamp.elapsed (now e) (handshake_initialized (timers self)) →
  if_private_key (interface_info (state w)) = Some privA → rng w = i :: rest → index_map (state w) !! i = None →
  is_Some (udp w) →
  initiate_new_session (now e) (wall e) privA i self = (self', Ok (ep, init, None)) →
  ∃ w', send_handshake_init e p w = (w', Ok i) ∧ wire w' = wire w ++ [(ep, init)] ∧ site w' = site w ∧
    heap w' !! p = Some (set_timers (set_handshake_initialized (Timestamp.now (now e)) (timers self')) self') ∧
    index_map (state w') !! i = Some p.
Proof.
  intros Hp Ht Hk Hr Hi Hu Hinit. eexists. split.
  { unfold send_handshake_init. erewrite bindM_run by (by eapply read_peer_run).
    erewrite bindM_run by (apply ensure_run, negb_true_iff, Z.ltb_ge, Ht).
    erewrite bindM_run by reflexivity. rewrite Hk. erewrite bindM_run by reflexivity.
    erewrite bindM_run by (by apply unused_index_run).
    erewrite bindM_run by (eapply with_peer_run; [exact Hp|exact Hinit]). cbv beta iota.
    erewrite bindM_run by reflexivity. erewrite bindM_run by reflexivity.
    erewrite bindM_run by (apply send_to_peer_run; exact Hu).
    erewrite bindM_run by (eapply with_peer_run; [simpl; apply lookup_insert_eq|reflexivity]).
    erewrite bindM_run by reflexivity. reflexivity. }
  simpl. rewrite !lookup_insert_eq. done.
Qed.

Lemma queue_egress_sessions packet self : sessions (queue_egress packet self) = sessions self.
Proof. unfold queue_egress. by case_match. Qed.

(** A packet for a peer without a session waits, and starts a handshake. *)
Lemma egress_init_run e packet w p self privA i rest self' ep init :
  (1 ≤ length (UtunPacket.payload packet))%nat → Z.of_nat (length (UtunPacket.payload packet)) ≤ MAX_CONTENT_SIZE →
  Router.route_to_peer (router (state w)) (UtunPacket.payload packet) = Some p → heap w !! p = Some self →
  next (sessions self) = None → current (sessions self) = None →
  REKEY_TIMEOUT ≤ Timestamp.elapsed (now e) (handshake_initialized (timers self)) →
  if_private_key (interface_info (state w)) = Some privA → rng w = i :: rest → index_map (state w) !! i = None →
  is_Some (udp w) →
  initiate_new_session (now e) (wall e) privA i (queue_egress packet self) = (self', Ok (ep, init, None)) →
  ∃ w', handle_egress_packet e packet w = (w', Ok tt) ∧ wire w' = wire w ++ [(ep, init)] ∧ site w' = site w ∧
    heap w' !! p = Some (set_timers (set_handshake_initialized (Timestamp.now (now e)) (timers self')) self') ∧
    index_map (state w') !! i = Some p.
Proof.
  intros H1 H2 Hr Hp Hn Hc Ht Hk Hrng Hi Hu Hinit.
  set (w1 := set_heap (<[p := queue_egress packet self]> (heap w)) w).
  destruct (send_init_run e p w1 (queue_egress packet self) privA i rest self' ep init) as (w' & Hrun & Hw & Hs & Hh & Hidx);
    [apply lookup_insert_eq|unfold queue_egress; by case_match|done..|].
  exists w'. split; [|done]. unfold handle_egress_packet. erewrite bindM_run.
  2: { unfold liftM. rewrite (proj2 (Nat.eqb_neq _ _)) by lia. rewrite (proj2 (Z.leb_le _ _)) by lia. reflexivity. }
  erewrite bindM_run by reflexivity. rewrite Hr. erewrite bindM_run by reflexivity.
  erewrite bindM_run by (eapply read_peer_run; [exact Hp|unfold needs_new_handshake; by rewrite Hn, Hc]).
  erewrite bindM_run by (eapply with_peer_run; [exact Hp|reflexivity]). fold w1.
  erewrite bindM_run.
  2: { eapply read_peer_run; [apply lookup_insert_eq|]. unfold ready_for_transport. by rewrite queue_egress_sessions, Hc. }
  cbv iota. erewrite bindM_run by reflexivity. cbv iota. by erewrite bindM_run by exact Hrun.
Qed.

Lemma check_mac1_run n packet w :
  (n + 16 ≤ length packet)%nat → Validator.verify_mac1 (validator w) (take n packet) (take 16 (drop n packet)) = Ok tt →
  check_mac1 n packet w = (w, Ok tt).
Proof.
  intros Hl Hv. unfold check_mac1. erewrite bindM_run by reflexivity.
  erewrite bindM_run by (apply liftM_run, slice_Ok; lia). erewrite bindM_run by (apply liftM_run, slice_from_Ok; lia).
  erewrite bindM_run by (apply liftM_run, slice_Ok; rewrite ?length_drop; lia).
  rewrite !drop_0, !Nat.sub_0_r. by apply liftM_run.
Qed.

Lemma check_load_run e addr packet m s msg w :
  handshakes w = [] → under_load_until w ≤ now e → check_load e addr packet m s msg w = (w, Ok tt).
Proof. intros Hh Hl. unfold check_load. by erewrite bindM_run by (by apply under_load_not). Qed.

(** The responder answers an initiation it can read from a peer it knows. *)
Lemma init_run e addr init w p self privB i rest inc pk self' resp dead :
  handshakes w = [] → under_load_until w ≤ now e → length init = 148%nat →
  Validator.verify_mac1 (validator w) (take 116 init) (take 16 (drop 116 init)) = Ok tt →
  if_private_key (interface_info (state w)) = Some privB → process_incoming_handshake privB init = Ok inc →
  SessionOps.their_pubkey inc = Ok pk → pubkey_map (state w) !! pk = Some p → heap w !! p = Some self →
  rng w = i :: rest → index_map (state w) !! i = None → is_Some (udp w) →
  complete_incoming_handshake (now e) addr i inc self = (self', Ok (resp, dead)) →
  ∃ w', handle_ingress_handshake e addr (Message_Initiation init) w = (w', Ok tt) ∧
    wire w' = wire w ++ [(addr, resp)] ∧ site w' = site w ∧ heap w' !! p = Some self' ∧
    index_map (state w') !! i = Some p ∧ tunnel w' = tunnel w.
Proof.
  intros Hh Hl Hlen Hm Hk Hinc Hpk Hfound Hp Hr Hi Hu Hc. eexists. split.
  { unfold handle_ingress_handshake. erewrite bindM_run by (by apply under_load_not).
    unfold handle_ingress_handshake_init. erewrite bindM_run by (apply check_mac1_run; [lia|done]).
    erewrite bindM_run by (by apply check_load_run). erewrite bindM_run by reflexivity. rewrite Hk.
    erewrite bindM_run by reflexivity. erewrite bindM_run by (by apply liftM_run). erewrite bindM_run by (by apply liftM_run).
    erewrite bindM_run by reflexivity. rewrite Hfound. erewrite bindM_run by reflexivity.
    erewrite bindM_run by (by apply unused_index_run).
    erewrite bindM_run by (eapply with_peer_run; [exact Hp|exact Hc]). cbv beta iota.
    erewrite bindM_run. 2: { instantiate (1 := tt). instantiate (1 := match dead with Some d => _ | None => _ end). destruct dead; reflexivity. }
    erewrite bindM_run by reflexivity. apply send_to_peer_run. by destruct dead. }
  destruct dead; simpl; rewrite !lookup_insert_eq; done.
Qed.

(** The initiator takes a response, and what waited goes out. *)
Lemma resp_run e addr resp w p self i self' dead q self3 outs :
  handshakes w = [] → under_load_until w ≤ now e → length resp = 92%nat →
  Validator.verify_mac1 (validator w) (take 60 resp) (take 16 (drop 60 resp)) = Ok tt →
  Response.receiver_index resp = Ok i → index_map (state w) !! i = Some p → heap w !! p = Some self → is_Some (udp w) →
  process_incoming_handshake_response (now e) addr resp self = (self', Ok dead) →
  ready_for_transport (now e) self' = Ok true → outgoing_queue self' = q → q ≠ [] →
  seal_all (now e) q (set_outgoing_queue [] self') = (self3, Ok outs) →
  ∃ w', handle_ingress_handshake e addr (Message_Response resp) w = (w', Ok tt) ∧ wire w' = wire w ++ outs.
Proof.
  intros Hh Hl Hlen Hm Hi Hidx Hp [u Hu] Hrun Hready Hq Hne Hs.
  assert (∀ w1, heap w1 !! p = Some self' → udp w1 = Some u →
    drain_queue e p q w1 = (set_wire (wire w1 ++ outs) (set_heap (<[p := self3]> (heap w1)) w1), Ok tt)) as Hdrain
    by (intros; by eapply drain_queue_run).
  unfold handle_ingress_handshake. erewrite bindM_run by (by apply under_load_not).
  unfold handle_ingress_handshake_resp. erewrite bindM_run by (apply check_mac1_run; [lia|done]).
  erewrite bindM_run by (by apply check_load_run). erewrite bindM_run by (apply liftM_run, Hi).
  erewrite bindM_run by reflexivity. rewrite Hidx. erewrite bindM_run by reflexivity.
  erewrite bindM_run by (eapply with_peer_run; [exact Hp|exact Hrun]).
  set (w1 := set_heap _ _).
  assert (∃ w2, remove_index dead w1 = (w2, Ok tt) ∧ heap w2 !! p = Some self' ∧ udp w2 = Some u ∧ wire w2 = wire w)
    as (w2 & Hrem & H2 & H3 & H4).
  { destruct dead; (eexists; split; [reflexivity|]); (split; [apply lookup_insert_eq|done]). }
  erewrite bindM_run by exact Hrem. erewrite bindM_run by (by eapply read_peer_run). cbv iota.
  erewrite bindM_run.
  2: { erewrite bindM_run by (by eapply read_peer_run). rewrite Hq.
       transitivity (drain_queue e p q w2); [by destruct q|]. by apply Hdrain. }
  erewrite bindM_run by reflexivity. eexists. split; [reflexivity|]. simpl. by rewrite H4.
Qed.

(** What receiving the first packet on a new session leaves. *)
Lemma incoming_transition now addr packet self self' raw d :
  handle_incoming_transport now addr packet self = (self', Ok (raw, Transition d)) →
  outgoing_queue self' = outgoing_queue self ∧ next (sessions self') = None ∧
  handshake_completed (timers self') = Timestamp.now now ∧ pub_key (info self') = pub_key (info self).
Proof.
  unfold handle_incoming_transport. intros Hrun. run_ok.
  match goal with H : (if decide (?ty = Next) then _ else _) = _ |- _ => destruct (decide (ty = Next)) as [->|]; [|discriminate H];
    injection H as <- _ end.
  match goal with H : _ = (_, Ok raw) |- _ => destruct (receive_on_session _ _ _ _) as [s' rr]; injection H as <- _ end.
  by destruct raw.
Qed.

(** The first packet on a session that just became current, without packets
    waiting in the other direction. *)
Lemma transport_run e addr out w p self i self' raw dead :
  Transport.our_index out = Ok i → index_map (state w) !! i = Some p → heap w !! p = Some self →
  handle_incoming_transport (now e) addr out self = (self', Ok (raw, Transition dead)) →
  outgoing_queue self = [] → needs_new_handshake (now e) false self' = Ok false →
  raw ≠ [] → tunnel_open e = true →
  (∃ ip, IpPacket.new raw = Some ip ∧ Router.get_peer_from_ip (router (state w)) (IpPacket.source ip) = Some p) →
  ∃ w', handle_ingress_transport e addr out w = (w', Ok tt) ∧ tunnel w' = tunnel w ++ [raw] ∧
    outgoing w' = outgoing w ∧ handshakes w' = handshakes w.
Proof.
  intros Hi Hidx Hp Hin Hq Hneeds Hne Hopen (ip & Hip & Hroute). unfold handle_ingress_transport.
  destruct (incoming_transition _ _ _ _ _ _ _ Hin) as (Hq' & _). rewrite Hq in Hq'.
  erewrite bindM_run by (by apply liftM_run). erewrite bindM_run by reflexivity. rewrite Hidx.
  erewrite bindM_run by reflexivity. erewrite bindM_run by (eapply with_peer_run; [exact Hp|exact Hin]). cbv beta iota.
  set (w1 := set_heap _ _).
  assert (∃ w2, remove_index dead w1 = (w2, Ok tt) ∧ heap w2 !! p = Some self' ∧ router (state w2) = router (state w) ∧
            tunnel w2 = tunnel w ∧ outgoing w2 = outgoing w ∧ handshakes w2 = handshakes w)
    as (w2 & Hrem & H2 & H3 & H4 & H5 & H6).
  { destruct dead; (eexists; split; [reflexivity|]); (split; [apply lookup_insert_eq|done]). }
  set (w3 := set_heap (<[p := set_outgoing_queue [] self']> (heap w2)) w2).
  erewrite bindM_run.
  2: { erewrite bindM_run by exact Hrem. erewrite bindM_run by (by eapply read_peer_run). rewrite Hq'.
       erewrite bindM_run by (eapply with_peer_run; [exact H2|reflexivity]). fold w3. cbn [flush_queue].
       erewrite bindM_run by reflexivity. erewrite bindM_run by reflexivity. reflexivity. }
  erewrite bindM_run by (eapply read_peer_run; [simpl; apply lookup_insert_eq|exact Hneeds]). cbv iota.
  erewrite bindM_run by reflexivity. destruct raw as [|x raw]; [done|].
  erewrite bindM_run by reflexivity. erewrite bindM_run by reflexivity. erewrite bindM_run.
  2: { apply (liftM_run _ _ tt). unfold Router.validate_source. rewrite Hip. simpl. rewrite H3, Hroute. simpl.
       apply ensure_Ok. unfold same_peer. simpl. rewrite lookup_insert_eq. by apply bool_decide_eq_true. }
  unfold send_to_tunnel. rewrite Hopen. erewrite bindM_run by reflexivity.
  eexists. split; [reflexivity|]. simpl. by rewrite H4.
Qed.
End runs.

(* ------------------------------------------------------------------ *)
(** ** The exchange *)
Section end_to_end.
Context {BO : ByteOrder} {BOL : ByteOrderLaws BO} {B : Blake2} {BL : Blake2Laws B} {A : Aead}
        {S : Subtle} {SSL : SubtleLaws S} {X : X25519} {R : Rips} {T : Treebitmap}
        {SN : Snow} {SL : SnowLaws SN} {SC : SnowChannel SN} {IK : SnowIK SN SC X}.
Import PeerOps PeerServer.

(** A server at rest, with a private key, for which the peer [p] is configured
    with the key [k], and whose next random number is the free index [i]. *)
Record ready_site (e : Env) (w : World) (p : peer_id) (self : Peer) (priv other k : bytes) (i : Z) : Prop := {
  rs_resting : resting e w;
  rs_heap : heap w !! p = Some self;
  rs_queue : outgoing_queue self = [];
  rs_psk : default (zeros 32) (psk (info self)) = k;
  rs_cookie : generator_for other (cookie self);
  rs_private : if_private_key (interface_info (state w)) = Some priv;
  rs_private_length : length priv = 32%nat;
  rs_validator : validator_for (generate_public priv) (validator w);
  rs_rng : head (rng w) = Some i;
  rs_index : index_map (state w) !! i = None;
  rs_u32 : is_u32 i;
}.

(** The calling side: a packet from the tunnel is routed to the peer, which has
    an endpoint and no session, and no handshake was started lately. *)
Record caller (e : Env) (w : World) (p : peer_id) (self : Peer) (other : bytes) (ep : Endpoint.t) (packet : UtunPacket.t) : Prop := {
  ca_outgoing : outgoing w = [packet];
  ca_route : Router.route_to_peer (router (state w)) (UtunPacket.payload packet) = Some p;
  ca_next : next (sessions self) = None;
  ca_current : current (sessions self) = None;
  ca_timer : REKEY_TIMEOUT ≤ Timestamp.elapsed (now e) (handshake_initialized (timers self));
  ca_endpoint : endpoint (info self) = Some ep;
  ca_key : pub_key (info self) = other;
  ca_wall : Tai64n.in_range (wall e);
}.

(** The called side: the caller's key is that of the peer, whose last handshake
    is older than the caller's clock, and the source of the packet is routed
    to it. *)
Record callee (w : World) (p : peer_id) (self : Peer) (other : bytes) (clock : Duration) (packet : UtunPacket.t) : Prop := {
  ce_outgoing : outgoing w = [];
  ce_key : pubkey_map (state w) !! other = Some p;
  ce_last : ∀ l ts, last_handshake_tai64n self = Some l → Tai64n.now clock = Ok ts → Tai64n.gt ts l = true;
  ce_route : ∃ ip, IpPacket.new (UtunPacket.payload packet) = Some ip ∧
               Router.get_peer_from_ip (router (state w)) (IpPacket.source ip) = Some p;
}.

(** The frame of [site] at another time. *)
Lemma resting_site e e' w w' :
  resting e w → site w' = site w → now e ≤ now e' → (∀ s, rest e' s = Pending) → resting e' w'.
Proof. intros [] [=] ? ?. split; try congruence; lia. Qed.

(** A fresh link carries the packet that waits, and what both ends need. *)
Lemma first_packet A2 Q1 sA sB packet t t' addr ep i :
  linked A2 Q1 sA sB Next 0 → endpoint (info A2) = Some ep → outgoing_queue A2 = [packet] → outgoing_queue Q1 = [] →
  birthday sA = Timestamp.now t → Timestamp.elapsed t' (birthday sB) < REJECT_AFTER_TIME →
  snow_sending_nonce (s_noise sB) = Ok 0 → their_index sA = i →
  ip_framed (UtunPacket.payload packet) → Z.of_nat (length (UtunPacket.payload packet)) ≤ MAX_CONTENT_SIZE - 16 →
  ready_for_transport t A2 = Ok true ∧
  ∃ A3 Q2 out d,
    seal_all t [packet] (set_outgoing_queue [] A2) = (A3, Ok [(ep, out)]) ∧
    MessageParser.try_from out = Ok (Message_Transport out) ∧ Transport.our_index out = Ok i ∧
    handle_incoming_transport t' addr out Q1 = (Q2, Ok (UtunPacket.payload packet, Transition d)) ∧
    needs_new_handshake t' false Q2 = Ok false.
Proof.
  intros Hl Hep Hq Hq' Hb Hb' Hn Hi Hip Hlen. pose proof Hl as (Hc & _ & Hu & Ho & Hn0 & _). split.
  { unfold ready_for_transport. rewrite Hc, Hb, Timestamp.elapsed_now, Hn0. done. }
  destruct (linked_send (set_outgoing_queue [] A2) Q1 sA sB Next 0 t t' addr ep (UtunPacket.payload packet)) as
    (A3 & Q2 & out & s' & r' & Hout & Hin & Hl' & _ & _ & _ & Hr'); [done..|by rewrite Hb, Timestamp.elapsed_now|done|].
  exists A3, Q2, out, (our_index <$> past (sessions Q1)). split.
  { unfold seal_all. erewrite bindM_run by exact Hout. reflexivity. }
  apply outgoing_Ok_inv in Hout as (s & nonce & n' & m & Hs & _ & Hnonce & _ & _ & Hw & _ & ->);
    [|intros s Hs; simpl in Hs; rewrite Hc in Hs; by injection Hs as <-].
  simpl in Hs. rewrite Hc in Hs. injection Hs as <-.
  pose proof (snow_write_transport_length _ _ _ _ _ (proj1 (snow_opens_finished _ _ Ho)) Hw) as Hml.
  destruct (transport_header_fields (their_index sA) nonce m Hu (snow_sending_nonce_u64 _ _ Hnonce)) as (H1 & _ & _ & H2).
  specialize (H2 ltac:(lia)).
  split; [exact H2|]. split; [by rewrite <-Hi|]. split; [exact Hin|].
  destruct (incoming_transition _ _ _ _ _ _ _ Hin) as (_ & Hnx & Hhc & _).
  destruct Hl' as (_ & Hf & _). apply find_session_spec in Hf as (Hcur & _).
  rewrite decide_True in Hcur by done. simpl in Hcur.
  unfold needs_new_handshake. rewrite Hnx.
  rewrite Hcur, Hhc, Timestamp.elapsed_now, Hr', Hn. done.
Qed.

(** The servers end to end: a packet that arrives in the tunnel of a server that
    has no session with the peer it is for leaves the tunnel of the other
    server, unchanged, after four polls: the first sends an initiation, the poll
    of the other server that gets it a response, the poll that gets the response
    the packet that waited, and the last one delivers it.  Each poll sends
    exactly that one datagram. *)
Lemma servers_end_to_end eA eB eA' eB' wA wB pA pB PA PB privA privB k iA iB ep addrA addrA' addrB packet :
  ready_site eA wA pA PA privA (generate_public privB) k iA →
  caller eA wA pA PA (generate_public privB) ep packet →
  ready_site eB wB pB PB privB (generate_public privA) k iB →
  callee wB pB PB (generate_public privA) (wall eA) packet →
  length k = 32%nat → UtunPacket.payload packet ≠ [] → ip_framed (UtunPacket.payload packet) →
  Z.of_nat (length (UtunPacket.payload packet)) ≤ MAX_CONTENT_SIZE - 16 →
  now eA ≤ now eA' → now eB ≤ now eB' → now eB' - now eB < REJECT_AFTER_TIME →
  (∀ s, rest eA' s = Pending) → (∀ s, rest eB' s = Pending) → tunnel_open eB' = true →
  ∃ init resp out wA1 wB1 wA2 wB2,
    poll eA [] wA = (wA1, Ok tt) ∧ wire wA1 = wire wA ++ [(ep, init)] ∧
    poll eB [(addrA, init)] wB = (wB1, Ok tt) ∧ wire wB1 = wire wB ++ [(addrA, resp)] ∧
    poll eA' [(addrB, resp)] wA1 = (wA2, Ok tt) ∧ wire wA2 = wire wA1 ++ [(addrB, out)] ∧
    poll eB' [(addrA', out)] wB1 = (wB2, Ok tt) ∧ tunnel wB2 = tunnel wB ++ [UtunPacket.payload packet].
Proof.
  intros [A1 A2 A3 A4 A5 A6 A7 A8 A9 A10 A11] [C1 C2 C3 C4 C5 C6 C7 C8]
         [B1 B2 B3 B4 B5 B6 B7 B8 B9 B10 B11] [D1 D2 D3 D4] Hk Hne Hip Hlen HtA HtB Ht HrA HrB Hopen.
  destruct (rng wA) as [|iA' restA] eqn:RA; [done|]. injection A9 as ->.
  destruct (rng wB) as [|iB' restB] eqn:RB; [done|]. injection B9 as ->.
  set (PA0 := queue_egress packet PA).
  assert (info PA0 = info PA ∧ cookie PA0 = cookie PA ∧ sessions PA0 = sessions PA ∧ outgoing_queue PA0 = [packet]) as (I1 & I2 & I3 & I4).
  { unfold PA0, queue_egress. rewrite A3. done. }
  destruct (handshake_exchange (now eA) (now eB) (now eA') (wall eA) privA privB iA iB addrA addrB ep k
              (validator wA) (validator wB) PA0 PB) as
    (P1 & Q1 & init & resp & inc & d1 & d2 & sA & sB & E1 & [E2 E3] & E4 & E5 & E6 & (E7 & E8 & E9) & (F1 & F2 & F3 & F4 & F5 & F6 & F7 & F8 & F9 & F10) & G);
    try done; try congruence.
  assert (d1 = None) as -> by (apply F6; congruence).
  pose proof (proj2 (proj1 (try_from_Ok _ _) E2)) as [_ L1]. pose proof (proj2 (proj1 (try_from_Ok _ _) E7)) as [_ L2].
  (* the initiation *)
  destruct (egress_init_run eA packet (set_outgoing [] wA) pA PA privA iA restA P1 ep init) as (wA1 & HA1 & WA1 & SA1 & HpA1 & XA1);
    try done; [destruct (UtunPacket.payload packet); simpl; [done|lia]|lia|apply A1|].
  (* the response *)
  destruct (init_run eB addrA init wB pB PB privB iB restB inc (generate_public privA) Q1 resp d2) as
    (wB1 & HB1 & WB1 & SB1 & HpB1 & XB1 & TB1); try done; [apply B1..|].
  (* the packet *)
  set (P1' := set_timers (set_handshake_initialized (Timestamp.now (now eA)) (timers P1)) P1) in *.
  destruct (G P1' eq_refl) as (P2 & d3 & G1 & G2 & G3 & G4).
  destruct (first_packet P2 Q1 sA sB packet (now eA') (now eB') addrA' addrB iB) as
    (Hready & P3 & Q2 & out & d & S1 & S2 & S3 & S4 & S5); try done; [rewrite G4; simpl; by rewrite F3|by rewrite F4|rewrite F2; simpl; lia|].
  (* the polls *)
  assert (resting eA (set_outgoing [] wA)) as RA0 by (destruct A1; by split).
  pose proof (resting_site _ eA' _ _ RA0 SA1 HtA HrA) as RA1. pose proof (resting_site _ eB' _ _ B1 SB1 HtB HrB) as RB1.
  injection SA1 as U1 U2 U3 U4 U5 U6 U7 U8 U9 U10. injection SB1 as V1 V2 V3 V4 V5 V6 V7 V8 V9 V10.
  destruct (resp_run eA' addrB resp wA1 pA P1' iA P2 d3 [packet] P3 [(addrB, out)]) as (wA2 & HA2 & WA2);
    try done; [apply RA1|apply RA1|by rewrite U2|apply RA1|rewrite G4; simpl; by rewrite F3|].
  destruct (transport_run eB' addrA' out wB1 pB Q1 iB Q2 (UtunPacket.payload packet) d) as (wB2 & HB2 & WB2 & O1 & O2);
    try done; [by rewrite F4|by rewrite V8|].
  exists init, resp, out, wA1, wB1, wA2, wB2. split; [|split; [exact WA1|]].
  { eapply poll_one_egress; [exact A1|exact C1|exact HA1|]. apply RA1. }
  split; [|split; [exact WB1|]].
  { eapply poll_one_handshake; [exact B1|exact D1|exact E2|done|exact HB1]. }
  split; [|split; [exact WA2|]].
  { eapply poll_one_handshake; [exact RA1|exact U10|exact E7|done|exact HA2]. }
  split; [|by rewrite WB2, TB1].
  eapply poll_one_transport; [exact RB1|congruence|exact S2|exact HB2|congruence|rewrite O2; apply RB1].
Qed.
End end_to_end.

(* ------------------------------------------------------------------ *)
(** ** Instances of the theorems *)
Section witnesses.
#[local] Existing Instance refByteOrder.
#[local] Existing Instance refByteOrderLaws.
#[local] Existing Instance refBlake2.
#[local] Existing Instance refBlake2Laws.
#[local] Existing Instance refAead.
#[local] Existing Instance refSubtle.
#[local] Existing Instance refSubtleLaws.
#[local] Existing Instance refX25519.
#[local] Existing Instance refSnow.
#[local] Existing Instance refRips.
#[local] Existing Instance refTreebitmap.
Import PeerOps PeerServer.

(** Two servers: 10.0.0.1 behind one and 10.0.0.2 behind the other. *)
Definition e2e_key (n : Z) : bytes := replicate 32 n.
Definition e2e_peer (theirs : Z) : Peer := PeerOps.new {|
  pub_key := generate_public (e2e_key theirs); psk := None; endpoint := Some demo_addr;
  allowed_ips := []; keepalive := None |}.
Definition e2e_world (ours theirs net i : Z) (out : list UtunPacket.t) : World :=
  let pub := generate_public (e2e_key ours) in
  set_outgoing out (set_validator (Validator.new pub)
    (set_heap {[ 0%nat := e2e_peer theirs ]} (set_next_peer 1%nat (set_udp (Some (mkUdpChannel None)) (set_port (Some 0)
    (set_state (mkState {[ generate_public (e2e_key theirs) := 0%nat ]} ∅
       (Router.add_allowed_ips [(IpV4 net, 32)] 0%nat Router.default)
       {| if_private_key := Some (e2e_key ours); if_pub_key := Some pub; if_listen_port := None; if_fwmark := None |})
       (World_new 0 [i]))))))).
Definition e2e_packet : UtunPacket.t := UtunPacket.Inet4 demo_packet.
Definition e2e_A : World := e2e_world 3 7 167772162 11 [e2e_packet].
Definition e2e_B : World := e2e_world 7 3 167772161 12 [].

Lemma e2e_ready (ours theirs net i : Z) out t :
  0 ≤ t → is_u32 i →
  ready_site (sv_env t) (e2e_world ours theirs net i out) 0 (e2e_peer theirs) (e2e_key ours)
    (generate_public (e2e_key theirs)) (zeros 32) i.
Proof. intros Ht Hi. by split. Qed.

Lemma e2e_caller : caller (sv_env 5) e2e_A 0 (e2e_peer 7) (generate_public (e2e_key 7)) demo_addr e2e_packet.
Proof.
  by split.
Qed.

Lemma e2e_callee : callee e2e_B 0 (e2e_peer 3) (generate_public (e2e_key 3)) (wall (sv_env 5)) e2e_packet.
Proof.
  split; try done. eexists. split; [reflexivity|]. vm_cast_no_check (eq_refl (Some 0%nat)).
Qed.
End witnesses.
