(* ===== verification/Burst.v ===== *)
(** * An established tunnel

    What two servers (src/interface/peer_server.rs) with a session between them
    do to a burst of packets: one poll sends all of them, one poll of the other
    server delivers them. *)

From S2P Require Import Prelude Crates Reference RefSnow AntiReplay Types Timestamp Message XChaCha RateLimiter Cookie Router Peer PeerTransport PeerSessions PeerHandshake Timer World PeerServer ServerInvariant ServerBehaviour EndToEnd.

Section burst.
Context {BO : ByteOrder} {BOL : ByteOrderLaws BO} {B : Blake2} {S : Subtle} {A : Aead} {R : Rips} {T : Treebitmap}
        {SN : Snow} {SL : SnowLaws SN} {SC : SnowChannel SN}.
Import PeerOps PeerServer.

(** What receiving a packet on the current session leaves. *)
Lemma incoming_steady now addr packet self self' raw :
  handle_incoming_transport now addr packet self = (self', Ok (raw, NoTransition)) →
  outgoing_queue self' = outgoing_queue self ∧ next (sessions self) = next (sessions self') ∧
  handshake_completed (timers self') = handshake_completed (timers self) ∧ pub_key (info self') = pub_key (info self).
Proof.
  unfold handle_incoming_transport. intros Hrun. run_ok.
  match goal with H : (if decide (?ty = Next) then _ else _) = _ |- _ =>
    destruct (decide (ty = Next)) as [->|Hty]; [by destruct (rotate _ _)|]; injection H as <- end.
  match goal with H : _ = (_, Ok raw) |- _ => destruct (receive_on_session _ _ _ _) as [s' rr]; injection H as <- _ end.
  match goal with H : ?ty ≠ Next |- _ => destruct ty; try done end; by destruct raw.
Qed.

(** A transport packet on the current session, delivered to the tunnel. *)
Lemma transport_steady e addr out w p self i self' raw :
  MessageParser.try_from out = Ok (Message_Transport out) → Transport.our_index out = Ok i →
  index_map (state w) !! i = Some p → heap w !! p = Some self →
  handle_incoming_transport (now e) addr out self = (self', Ok (raw, NoTransition)) →
  needs_new_handshake (now e) false self' = Ok false → raw ≠ [] → tunnel_open e = true →
  (∃ ip, IpPacket.new raw = Some ip ∧ Router.get_peer_from_ip (router (state w)) (IpPacket.source ip) = Some p) →
  handle_ingress_packet e addr out w = (set_tunnel (tunnel w ++ [raw]) (set_heap (<[p := self']> (heap w)) w), Ok tt).
Proof.
  intros Hm Hi Hidx Hp Hin Hneeds Hne Hopen (ip & Hip & Hroute). unfold handle_ingress_packet. rewrite Hm.
  erewrite bindM_run by reflexivity. unfold handle_ingress_transport.
  erewrite bindM_run by (by apply liftM_run). erewrite bindM_run by reflexivity. rewrite Hidx.
  erewrite bindM_run by reflexivity. erewrite bindM_run by (eapply with_peer_run; [exact Hp|exact Hin]). cbv beta iota.
  erewrite bindM_run by reflexivity.
  erewrite bindM_run by (eapply read_peer_run; [simpl; apply lookup_insert_eq|exact Hneeds]). cbv iota.
  erewrite bindM_run by reflexivity. destruct raw as [|x raw]; [done|].
  do 2 erewrite bindM_run by reflexivity. erewrite bindM_run.
  2: { apply (liftM_run _ _ tt). unfold Router.validate_source. rewrite Hip. simpl. rewrite Hroute. simpl.
       apply ensure_Ok. unfold same_peer. simpl. rewrite lookup_insert_eq. by apply bool_decide_eq_true. }
  unfold send_to_tunnel. rewrite Hopen. by erewrite bindM_run by reflexivity.
Qed.

(** No handshake is needed while the session is young and its counter low. *)
Lemma needs_none t (sending : bool) self s n :
  next (sessions self) = None → current (sessions self) = Some s →
  Timestamp.elapsed t (handshake_completed (timers self)) ≤ (if sending then REKEY_AFTER_TIME else REKEY_AFTER_TIME_RECV) →
  snow_sending_nonce (s_noise s) = Ok n → n < REKEY_AFTER_MESSAGES →
  needs_new_handshake t sending self = Ok false.
Proof.
  intros Hn Hc Ha Hs Hlt. unfold needs_new_handshake. rewrite Hn, Hc, Hs. simpl.
  apply Z.ltb_ge in Ha. apply Z.leb_gt in Hlt. destruct sending; simpl; by rewrite Ha, Hlt.
Qed.

Lemma ready_young t self s n :
  current (sessions self) = Some s → Timestamp.elapsed t (birthday s) < REJECT_AFTER_TIME →
  snow_sending_nonce (s_noise s) = Ok n → n < REJECT_AFTER_MESSAGES → ready_for_transport t self = Ok true.
Proof.
  intros Hc Hb Hs Hlt. unfold ready_for_transport. apply Z.ltb_lt in Hb, Hlt.
  rewrite Hc, Hs, Hb. simpl. by rewrite Hlt.
Qed.

(** A packet sent when nothing waits: queueing it only resets the counter of
    attempts. *)
Definition attempts_reset (self : Peer) : Peer := set_timers (set_handshake_attempts 0 (timers self)) self.

Lemma seal_one t packet self self' out :
  outgoing_queue self = [] → handle_outgoing_transport t (UtunPacket.payload packet) (attempts_reset self) = (self', Ok out) →
  seal_all t (outgoing_queue self ++ [packet]) (set_outgoing_queue [] (queue_egress packet self)) = (self', Ok [out]).
Proof.
  intros Hq Hrun. assert (set_outgoing_queue [] (queue_egress packet self) = attempts_reset self) as ->.
  { unfold queue_egress. rewrite Hq. destruct self; simpl in *; by subst. }
  rewrite Hq. cbn [seal_all app]. by erewrite bindM_run by exact Hrun.
Qed.

Context (eA eB : Env) (pA pB : peer_id) (ep addr : Endpoint.t).

(** The peers of the two servers have a session that is young and current on
    both sides, with the counter of the sender at [n], and nothing waits. *)
Record flowing (wA wB : World) (PA PB : Peer) (s r : Session) (n : Z) : Prop := {
  fl_udp : is_Some (udp wA);
  fl_A : heap wA !! pA = Some PA;
  fl_B : heap wB !! pB = Some PB;
  fl_link : linked PA PB s r Current n;
  fl_index : index_map (state wB) !! their_index s = Some pB;
  fl_endpoint : endpoint (info PA) = Some ep;
  fl_queue : outgoing_queue PA = [];
  fl_nextA : next (sessions PA) = None;
  fl_nextB : next (sessions PB) = None;
  fl_ageA : Timestamp.elapsed (now eA) (handshake_completed (timers PA)) ≤ REKEY_AFTER_TIME;
  fl_ageB : Timestamp.elapsed (now eB) (handshake_completed (timers PB)) ≤ REKEY_AFTER_TIME_RECV;
  fl_birthA : Timestamp.elapsed (now eA) (birthday s) < REJECT_AFTER_TIME;
  fl_birthB : Timestamp.elapsed (now eB) (birthday r) < REJECT_AFTER_TIME;
  fl_nonceB : ∃ m, snow_sending_nonce (s_noise r) = Ok m ∧ m < REKEY_AFTER_MESSAGES;
}.

(** A packet for the tunnel: an IP packet that fits, routed to the peer on one
    side, from an address that is routed to the peer on the other. *)
Definition carried (rA rB : Router.t) (packet : UtunPacket.t) : Prop :=
  let raw := UtunPacket.payload packet in
  raw ≠ [] ∧ ip_framed raw ∧ Z.of_nat (length raw) ≤ MAX_CONTENT_SIZE - 16 ∧
  Router.route_to_peer rA raw = Some pA ∧
  ∃ ip, IpPacket.new raw = Some ip ∧ Router.get_peer_from_ip rB (IpPacket.source ip) = Some pB.

Definition after_egress (PA : Peer) (out : bytes) (w : World) : World :=
  set_wire (wire w ++ [(ep, out)]) (set_heap (<[pA := PA]> (heap w)) w).
Definition after_ingress (PB : Peer) (raw : bytes) (w : World) : World :=
  set_tunnel (tunnel w ++ [raw]) (set_heap (<[pB := PB]> (heap w)) w).

(** One packet. *)
Lemma flow_step wA wB PA PB s r n packet :
  flowing wA wB PA PB s r n → n < REKEY_AFTER_MESSAGES → carried (router (state wA)) (router (state wB)) packet →
  tunnel_open eB = true →
  ∃ out PA' PB' s' r',
    handle_egress_packet eA packet wA = (after_egress PA' out wA, Ok tt) ∧
    handle_ingress_packet eB addr out wB = (after_ingress PB' (UtunPacket.payload packet) wB, Ok tt) ∧
    flowing (after_egress PA' out wA) (after_ingress PB' (UtunPacket.payload packet) wB) PA' PB' s' r' (n + 1).
Proof.
  intros [[u Hu] HA HB Hl Hidx Hep Hq HnA HnB HaA HaB HbA HbB (m & Hm & Hmlt)] Hn (Hne & Hip & Hmax & Hra & Hrb) Hopen.
  assert (n < REJECT_AFTER_MESSAGES) as Hn' by (unfold REKEY_AFTER_MESSAGES, REJECT_AFTER_MESSAGES in *; lia).
  set (P0 := attempts_reset PA). assert (linked P0 PB s r Current n) as Hl0 by exact Hl.
  destruct (linked_send P0 PB s r Current n (now eA) (now eB) addr ep (UtunPacket.payload packet))
    as (PA' & PB' & out & s' & r' & Hout & Hin & Hl' & Hep' & Hbs & Hbr & Hnr); try done.
  pose proof Hl as (Hs & Hf & Hi & Ho & Hsn & _). pose proof Hl' as (Hs' & Hf' & _).
  assert (current (sessions P0) = Some s) as Hs0 by exact Hs.
  pose proof Hout as Hout'. apply outgoing_Ok_inv in Hout' as (x & nonce & n' & c & Hx & _ & Hnonce & _ & _ & Hw & HPA & Hobytes);
    [|intros x; rewrite Hs0; by intros [= <-]].
  rewrite Hs0 in Hx. injection Hx as <-.
  assert (s' = set_s_noise n' s) as -> by (rewrite HPA in Hs'; by injection Hs').
  destruct (incoming_steady _ _ _ _ _ _ Hin) as (Hq' & Hnx & Hhc & Hpk).
  pose proof (snow_write_transport_length _ _ _ _ _ (proj1 (snow_opens_finished _ _ Ho)) Hw) as Hml.
  destruct (transport_header_fields (their_index s) nonce c Hi (snow_sending_nonce_u64 _ _ Hnonce)) as (H1 & _ & _ & H2).
  rewrite <-Hobytes in H1, H2. specialize (H2 ltac:(lia)).
  exists out, PA', PB', (set_s_noise n' s), r'. split_and!.
  - destruct (egress_run eA packet wA u pA PA PA' [(ep, out)]) as [E _]; try done; [| | | | |by apply seal_one].
    + destruct (UtunPacket.payload packet); [done|simpl; lia].
    + lia.
    + by apply (needs_none _ true PA s n).
    + by apply (ready_young _ PA s n).
    + rewrite Hq. simpl. unfold MAX_QUEUED_PACKETS. lia.
  - apply (transport_steady eB addr out wB pB PB (their_index s)); try done.
    apply find_session_spec in Hf' as (Hc' & _). by apply (needs_none _ false PB' r' m); [congruence|exact Hc'|rewrite Hhc|congruence|].
  - split; try done; simpl; try first [apply lookup_insert_eq | by rewrite HPA | congruence | by rewrite Hhc | by rewrite Hbr].
    + rewrite HPA. unfold after_send. by destruct (UtunPacket.payload packet).
    + exists m. by rewrite Hnr.
Qed.

(** What neither side touches besides its peer and its output. *)
Definition rest_of (w : World) := (state w, udp w, handshakes w, outgoing w).

Lemma flow_all packets : ∀ wA wB PA PB s r n,
  flowing wA wB PA PB s r n → n + Z.of_nat (length packets) ≤ REKEY_AFTER_MESSAGES →
  Forall (carried (router (state wA)) (router (state wB))) packets → tunnel_open eB = true →
  ∃ outs wA' wB',
    each (handle_egress_packet eA) packets wA = (wA', Ok tt) ∧ wire wA' = wire wA ++ ((ep,.) <$> outs) ∧
    each (fun '(a, out) => handle_ingress_packet eB a out) ((addr,.) <$> outs) wB = (wB', Ok tt) ∧
    tunnel wB' = tunnel wB ++ (UtunPacket.payload <$> packets) ∧ length outs = length packets ∧
    rest_of wA' = rest_of wA ∧ rest_of wB' = rest_of wB.
Proof.
  induction packets as [|packet packets IH]; intros wA wB PA PB s r n Hf Hn Hall Hopen.
  { exists [], wA, wB. by rewrite !app_nil_r. }
  apply Forall_cons in Hall as [Hp Hall]. cbn [length] in Hn.
  destruct (flow_step wA wB PA PB s r n packet Hf ltac:(lia) Hp Hopen) as (out & PA' & PB' & s' & r' & H1 & H2 & Hf').
  destruct (IH _ _ _ _ _ _ _ Hf' ltac:(lia) Hall Hopen) as (outs & wA' & wB' & E1 & W & E2 & Tn & L & F1 & F2).
  exists (out :: outs), wA', wB'. cbn [each fmap list_fmap length].
  erewrite bindM_run by (by eapply ignoreM_run). erewrite bindM_run by (by eapply ignoreM_run).
  split_and!; [done|rewrite W; simpl; by rewrite <-app_assoc|done|rewrite Tn; simpl; by rewrite <-app_assoc|by rewrite L|done|done].
Qed.

(** C4.  An established tunnel carries a burst: when the peers of two servers
    have a session, and a list of packets, however long, is in the tunnel of the
    one, its next poll sends one datagram for each and the poll of the other
    that gets them puts exactly these packets, unchanged and in order, into its
    tunnel, as long as the session needs no rekeying. *)
Theorem tunnel_burst packets wA wB PA PB s r n :
  resting eA wA → outgoing wA = packets → resting eB wB → outgoing wB = [] →
  flowing wA wB PA PB s r n → n + Z.of_nat (length packets) ≤ REKEY_AFTER_MESSAGES →
  Forall (carried (router (state wA)) (router (state wB))) packets → tunnel_open eB = true →
  ∃ outs wA' wB',
    poll eA [] wA = (wA', Ok tt) ∧ wire wA' = wire wA ++ ((ep,.) <$> outs) ∧ length outs = length packets ∧
    poll eB ((addr,.) <$> outs) wB = (wB', Ok tt) ∧ tunnel wB' = tunnel wB ++ (UtunPacket.payload <$> packets).
Proof.
  intros HrA HoA HrB HoB Hf Hn Hall Hopen.
  assert (flowing (set_outgoing [] wA) wB PA PB s r n) as Hf0 by (by destruct Hf).
  destruct (flow_all packets _ _ _ _ _ _ _ Hf0 Hn Hall Hopen) as (outs & wA' & wB' & E1 & W & E2 & Tn & L & F1 & F2).
  injection F1 as _ _ FA1 _. injection F2 as _ _ FB1 FB2.
  exists outs, wA', wB'. split; [|split; [exact W|split; [exact L|split; [|exact Tn]]]].
  - rewrite poll_resting by done. destruct HrA as [_ _ Hh _ _ Hr]. erewrite bindM_run by reflexivity.
    erewrite bindM_run by (by apply settle_run). erewrite bindM_run.
    2: { unfold poll_egress, bindM, getM, modM. rewrite HoA, E1. by apply settle_run. }
    unfold poll_handshake, bindM, getM. by rewrite FA1, Hh.
  - rewrite poll_resting by done. destruct HrB as [_ _ Hh _ _ Hr]. erewrite bindM_run by exact E2.
    erewrite bindM_run by (by apply settle_run). erewrite bindM_run.
    2: { unfold poll_egress, bindM, getM, modM. rewrite FB2, HoB. cbn [each]. unfold retM. by apply settle_run. }
    assert (set_outgoing [] wB' = wB') as -> by (rewrite HoB in FB2; clear -FB2; destruct wB'; simpl in *; by subst).
    unfold poll_handshake, bindM, getM. by rewrite FB1, Hh.
Qed.
End burst.

(* ------------------------------------------------------------------ *)
(** ** An instance *)
Section witnesses.
#[local] Existing Instance refByteOrder.
#[local] Existing Instance refByteOrderLaws.
#[local] Existing Instance refBlake2.
#[local] Existing Instance refAead.
#[local] Existing Instance refSubtle.
#[local] Existing Instance refX25519.
#[local] Existing Instance refSnow.
#[local] Existing Instance refRips.
#[local] Existing Instance refTreebitmap.
Import PeerServer.

(** Two servers with a session; three packets wait in the tunnel of one. *)
Definition bu_peer (n : toy_noise) (ours theirs : Z) : Peer :=
  let self := PeerOps.put_session Current (demo_session n ours theirs 0) (e2e_peer 7) in
  set_timers (set_handshake_completed (Timestamp.now 0) (timers self)) self.
Definition bu_world (n : toy_noise) (ours theirs net : Z) (out : list UtunPacket.t) : World :=
  let w := e2e_world 3 7 net 11 out in
  set_heap {[ 0%nat := bu_peer n ours theirs ]} (set_state (set_index_map {[ ours := 0%nat ]} (state w)) w).
Definition bu_packets : list UtunPacket.t := [e2e_packet; e2e_packet; e2e_packet].
Definition bu_A : World := bu_world toy_a 5 6 167772162 bu_packets.
Definition bu_B : World := bu_world toy_b 6 5 167772161 [].

Lemma bu_flowing : flowing (sv_env 5) (sv_env 6) 0 0 demo_addr bu_A bu_B (bu_peer toy_a 5 6) (bu_peer toy_b 6 5)
    (demo_session toy_a 5 6 0) (demo_session toy_b 6 5 0) 0.
Proof.
  split; try done; try by eexists.
  do 5 (split; [done|]).
  exists Window.new. split; [apply refines_new|]. intros m Hm. unfold Window.fresh. simpl.
  destruct (Z.ltb_spec 0 m); [done|]. simpl. replace m with 0 by lia. done.
Qed.

Lemma tunnel_burst_witness :
  ∃ outs wA' wB', poll (sv_env 5) [] bu_A = (wA', Ok tt) ∧ length outs = 3%nat ∧
    poll (sv_env 6) ((demo_addr,.) <$> outs) bu_B = (wB', Ok tt) ∧ tunnel wB' = [demo_packet; demo_packet; demo_packet].
Proof.
  destruct (tunnel_burst (sv_env 5) (sv_env 6) 0 0 demo_addr demo_addr bu_packets bu_A bu_B _ _ _ _ 0
    ltac:(by split) eq_refl ltac:(by split) eq_refl bu_flowing ltac:(by_decide)) as (outs & wA' & wB' & H1 & _ & H2 & H3 & H4).
  - repeat (apply Forall_cons_2; [split; [done|]; split; [exact demo_framed|]; split; [by_decide|];
      split; [vm_cast_no_check (eq_refl (Some 0%nat))|]; eexists; split; [reflexivity|vm_cast_no_check (eq_refl (Some 0%nat))]|]).
    by apply Forall_nil_2.
  - done.
  - exists outs, wA', wB'. exact (conj H1 (conj H2 (conj H3 H4))).
Defined.
End witnesses.
