(* ===== verification/Config.v ===== *)
(** * Configuration (src/interface/config.rs)

    `ConfigurationService::handle_update` applies one event of a `set` command
    to the shared state; the command sends the resulting messages to the peer
    server's channel.  The text protocol around it is in ConfigText.v. *)

From S2P Require Import Prelude Crates Reference RefSnow AntiReplay Types Text Timestamp Message XChaCha RateLimiter Cookie Router Peer PeerTransport PeerSessions Timer World PeerServer ServerInvariant.

(** `UpdateEvent`. *)
Inductive UpdateEvent :=
| Ev_PrivateKey (private_key : bytes)
| Ev_Fwmark (mark : Z)
| Ev_ListenPort (port : Z)
| Ev_UpdatePeer (info : PeerInfo) (replace_allowed_ips : bool)
| Ev_RemovePeer (pub_key : bytes)
| Ev_RemoveAllPeers.

Module Config.
Section with_crates.
Context {B : Blake2} {SN : Snow} {T : Treebitmap} {X : X25519}.

Definition map_interface (f : InterfaceInfo → InterfaceInfo) : M World unit :=
  map_state (fun st => set_interface_info (f (interface_info st)) st).

Definition set_keys (private_key pub_key : option bytes) (i : InterfaceInfo) : InterfaceInfo :=
  {| if_private_key := private_key; if_pub_key := pub_key;
     if_listen_port := if_listen_port i; if_fwmark := if_fwmark i |}.
Definition set_listen_port (p : Z) (i : InterfaceInfo) : InterfaceInfo :=
  {| if_private_key := if_private_key i; if_pub_key := if_pub_key i;
     if_listen_port := Some p; if_fwmark := if_fwmark i |}.
Definition set_fwmark (m : Z) (i : InterfaceInfo) : InterfaceInfo :=
  {| if_private_key := if_private_key i; if_pub_key := if_pub_key i;
     if_listen_port := if_listen_port i; if_fwmark := Some m |}.

(** `clear_peer_refs(state, peer)`. *)
Definition clear_peer_refs (peer : Peer) (st : State) : State :=
  let st := set_index_map (foldl (fun m i => delete i m) (index_map st) (PeerOps.get_mapped_indices peer)) st in
  set_router (Router.remove_allowed_ips (allowed_ips (info peer)) (router st)) st.

(** `a.or(b)`. *)
Definition or {X} (a b : option X) : option X := match a with Some _ => a | None => b end.

(** The info of an updated peer: [i] is the new one, [old] the peer's. *)
Definition merge_info (replace : bool) (i old : PeerInfo) : PeerInfo := {|
  pub_key := pub_key i;
  psk := or (psk i) (psk old);
  endpoint := or (endpoint i) (endpoint old);
  allowed_ips := if replace then allowed_ips i else allowed_ips i ++ allowed_ips old;
  keepalive := or (keepalive i) (keepalive old);
|}.

(** `Rc::new(RefCell::new(peer))`. *)
Definition alloc_peer (peer : Peer) : M World peer_id := fun w =>
  let p := next_peer w in
  (set_next_peer (S p) (set_heap (<[p := peer]> (heap w)) w), Ok p).

(** Drops a peer from `pubkey_map` and clears its references. *)
Definition remove_peer (pk : bytes) (p : peer_id) : M World unit :=
  let! _ := map_state (fun st => set_pubkey_map (delete pk (pubkey_map st)) st) in
  let! peer := read_peer p (fun peer => Ok peer) in
  map_state (clear_peer_refs peer).

Definition update_existing (p : peer_id) (i : PeerInfo) (replace : bool) : M World (option ChannelMessage) :=
  let! peer := read_peer p (fun peer => Ok peer) in
  let! _ := if replace
            then map_state (fun st => set_router (Router.remove_allowed_ips (allowed_ips (info peer)) (router st)) st)
            else retM tt in
  let ret := if bool_decide (is_Some (keepalive i)) && negb (bool_decide (keepalive (info peer) = keepalive i))
             then Some (NewPersistentKeepalive p) else None in
  let i' := merge_info replace i (info peer) in
  let! _ := map_state (fun st => set_router (Router.add_allowed_ips (allowed_ips i') p (router st)) st) in
  let! _ := with_peer p (modM (set_info i')) in
  retM ret.

Definition add_peer (i : PeerInfo) : M World (option ChannelMessage) :=
  let! own := getM (fun w => if_pub_key (interface_info (state w))) in
  if bool_decide (own = Some (pub_key i)) then retM None
  else
    let! count := getM (fun w => Z.of_nat (size (pubkey_map (state w)))) in
    let! _ := liftM (ensure (negb (MAX_PEERS_PER_DEVICE <=? count)) "already at max peers per device") in
    let! p := alloc_peer (PeerOps.new i) in
    let! _ := map_state (fun st => set_pubkey_map (<[pub_key i := p]> (pubkey_map st)) st) in
    let! _ := map_state (fun st => set_router (Router.add_allowed_ips (allowed_ips i) p (router st)) st) in
    retM (Some (NewPeer p)).

Definition handle_update (event : UpdateEvent) : M World (option ChannelMessage) :=
  match event with
  | Ev_PrivateKey private_key =>
      if bool_decide (private_key = zeros 32) then
        let! _ := map_interface (set_keys None None) in
        retM (Some ClearPrivateKey)
      else
        let pub := generate_public private_key in
        let! _ := map_interface (set_keys (Some private_key) (Some pub)) in
        let! self_peer := getM (fun w => pubkey_map (state w) !! pub) in
        let! _ := match self_peer with Some p => remove_peer pub p | None => retM tt end in
        retM (Some NewPrivateKey)
  | Ev_ListenPort p =>
      let! _ := map_interface (set_listen_port p) in retM (Some (NewListenPort p))
  | Ev_Fwmark mark =>
      let! _ := map_interface (set_fwmark mark) in retM (Some (NewFwmark mark))
  | Ev_UpdatePeer i replace =>
      let! existing_peer := getM (fun w => pubkey_map (state w) !! pub_key i) in
      match existing_peer with
      | Some p => update_existing p i replace
      | None => add_peer i
      end
  | Ev_RemoveAllPeers =>
      let! _ := map_state (fun st => mkState ∅ ∅ (Router.clear (router st)) (interface_info st)) in
      retM None
  | Ev_RemovePeer pk =>
      let! found := getM (fun w => pubkey_map (state w) !! pk) in
      let! p := liftM (ok_or found "trying to remove nonexistent peer") in
      let! _ := remove_peer pk p in
      retM None
  end.

Definition errno0 : bytes := str_bytes "errno=0" ++ [LF] ++ str_bytes "errno=0" ++ [LF; LF].
Definition errno1 : bytes := str_bytes "errno=1" ++ [LF] ++ str_bytes "errno=1" ++ [LF; LF].

(** The `Command::Set` arm: the events in order, each message sent to the
    channel; the first error ends the command. *)
Fixpoint handle_set (items : list UpdateEvent) : M World bytes :=
  match items with
  | [] => retM errno0
  | item :: items' => fun w =>
      match handle_update item w with
      | (w', Ok (Some msg)) => handle_set items' (set_channel (channel w' ++ [msg]) w')
      | (w', Ok None) => handle_set items' w'
      | (w', Err _) => (w', Ok errno1)
      | (w', Panic p) => (w', Panic p)
      | (w', Starved) => (w', Starved)
      end
  end.
End with_crates.
End Config.

(* ------------------------------------------------------------------ *)
(** ** The invariant of the configured system *)
Section invariant.
Context {B : Blake2} {SN : Snow} {T : Treebitmap} {TL : TreebitmapLaws T} {X : X25519}.
Import Config.

(** Every route leads to a configured peer that lists it. *)
Definition routes_ok (w : World) (m : gmap (Z * (Z * Z)) peer_id) : Prop :=
  represents (router (state w)) m ∧
  ∀ k p, m !! k = Some p →
    registered (pubkey_map (state w)) p ∧
    ∃ self ip len, heap w !! p = Some self ∧ (ip, len) ∈ allowed_ips (info self) ∧ Routes.key ip len = k.

(** What holds whatever happens: keys and routes belong to configured peers, the
    table of sessions to peers that exist. *)
Record config_ok (w : World) : Prop := {
  cf_keys : ∀ pk p, pubkey_map (state w) !! pk = Some p → ∃ self, heap w !! p = Some self ∧ pub_key (info self) = pk;
  cf_routes : ∃ m, routes_ok w m;
  cf_valid : ∀ p self, heap w !! p = Some self → registered (pubkey_map (state w)) p →
               Routes.valid (allowed_ips (info self));
  cf_index : ∀ i p, index_map (state w) !! i = Some p → is_Some (heap w !! p);
  cf_fresh : ∀ p self, heap w !! p = Some self → (p < next_peer w)%nat;
  cf_limit : Z.of_nat (size (pubkey_map (state w))) ≤ MAX_PEERS_PER_DEVICE;
  cf_self : ∀ pk, if_pub_key (interface_info (state w)) = Some pk → pubkey_map (state w) !! pk = None;
}.

(** ** Routes *)

Lemma routes_remove_lookup allowed : ∀ m k p,
  Routes.remove allowed m !! k = Some p →
  m !! k = Some p ∧ ∀ ip len, (ip, len) ∈ allowed → Routes.key ip len ≠ k.
Proof.
  induction allowed as [|[ip len] allowed IH]; intros m k p; [set_solver|]. cbn [Routes.remove foldl].
  intros H. apply IH in H as [[Hne Hm]%lookup_delete_Some H]. split; [done|].
  intros ip' len' [[= -> ->]|Hin]%elem_of_cons; [done|by apply H].
Qed.

Lemma routes_add_lookup allowed p : ∀ m k q,
  Routes.add allowed p m !! k = Some q →
  (q = p ∧ ∃ ip len, (ip, len) ∈ allowed ∧ Routes.key ip len = k) ∨ m !! k = Some q.
Proof.
  induction allowed as [|[ip len] allowed IH]; intros m k q; [by right|]. cbn [Routes.add foldl].
  intros H. apply IH in H as [(-> & ip' & len' & Hin & Hk)|[[<- <-]|[_ H]]%lookup_insert_Some].
  - left. split; [done|]. exists ip', len'. set_solver.
  - left. split; [done|]. exists ip, len. set_solver.
  - by right.
Qed.

Lemma routes_ok_lookup w m ip p :
  routes_ok w m → Router.get_peer_from_ip (router (state w)) ip = Some p → registered (pubkey_map (state w)) p.
Proof.
  intros [Hr Hm]. rewrite (represents_lookup _ _ _ Hr). intros [k Hk]%routes_lookup_in. by eapply Hm.
Qed.

(** Two keys of `pubkey_map` never name the same peer. *)
Lemma pubkey_inj w pk pk' p :
  config_ok w → pubkey_map (state w) !! pk = Some p → pubkey_map (state w) !! pk' = Some p → pk = pk'.
Proof.
  intros Hw H1 H2. destruct (cf_keys _ Hw _ _ H1) as (a & Ha & <-).
  destruct (cf_keys _ Hw _ _ H2) as (b & Hb & <-). congruence.
Qed.
Lemma registered_gone w pk p :
  config_ok w → pubkey_map (state w) !! pk = Some p → ¬ registered (delete pk (pubkey_map (state w))) p.
Proof. intros Hw Hp [pk' [Hne Hq]%lookup_delete_Some]. by apply Hne, (pubkey_inj w pk pk' p). Qed.

Lemma config_route w ip p :
  config_ok w → Router.get_peer_from_ip (router (state w)) ip = Some p → registered (pubkey_map (state w)) p.
Proof. intros Hw. destruct (cf_routes _ Hw) as [m Hm]. by apply (routes_ok_lookup w m). Qed.

(** ** Removing a peer *)

(** The table knows the peer by the indices of its sessions only. *)
Definition no_stale (w : World) (p : peer_id) : Prop :=
  ∀ i self, index_map (state w) !! i = Some p → heap w !! p = Some self → i ∈ indices (sessions self).

Definition removed (pk : bytes) (self : Peer) (w : World) : World :=
  set_state (clear_peer_refs self (set_pubkey_map (delete pk (pubkey_map (state w))) (state w))) w.

Lemma remove_peer_run pk p self w :
  heap w !! p = Some self → remove_peer pk p w = (removed pk self w, Ok tt).
Proof.
  intros Hp. unfold remove_peer. erewrite bindM_run by reflexivity.
  erewrite bindM_run by (unfold read_peer; simpl; rewrite Hp; reflexivity).
  by destruct w as [? ? [] ? ? ? ? ? ? ? ? ? ? ? ?].
Qed.

Lemma registered_delete pm pk p q : pm !! pk = Some p → q ≠ p → registered pm q → registered (delete pk pm) q.
Proof.
  intros Hp Hne [pk' Hq]. exists pk'. rewrite lookup_delete_ne; [done|]. intros ->. congruence.
Qed.
Lemma registered_deleted pm pk q : registered (delete pk pm) q → registered pm q.
Proof. intros [pk' [_ Hq]%lookup_delete_Some]. by exists pk'. Qed.

Lemma config_ok_remove w pk p self :
  config_ok w → pubkey_map (state w) !! pk = Some p → heap w !! p = Some self → config_ok (removed pk self w).
Proof.
  intros Hw Hpk Hp. pose proof Hw as [Hk (m & Hr & Hm) Hv Hi Hf Hl Hs].
  assert (Routes.valid (allowed_ips (info self))) as Hva by (eapply Hv; [done|by exists pk]).
  split; try done; simpl.
  - intros pk' q [_ Hq]%lookup_delete_Some. by apply Hk.
  - exists (Routes.remove (allowed_ips (info self)) m).
    split; [by apply represents_remove|]. intros k q [Hkq Hno]%routes_remove_lookup.
    destruct (Hm _ _ Hkq) as (Hq & x & ip & len & Hx & Hin & Hkey).
    split; [|by exists x, ip, len]. apply (registered_delete _ pk p); [done| |done].
    intros ->. rewrite Hp in Hx. injection Hx as <-. by apply (Hno ip len).
  - intros q x Hx Hq. eapply Hv; [done|]. exact (registered_deleted _ _ _ Hq).
  - intros i q. rewrite foldl_delete_lookup. case_decide; [done|]. apply Hi.
  - rewrite map_size_delete, Hpk. simpl. lia.
  - intros pk' Hpk'. apply lookup_delete_None. right. by apply Hs.
Qed.

Lemma world_ok_remove w pk p self :
  config_ok w → world_ok w → pubkey_map (state w) !! pk = Some p → heap w !! p = Some self →
  world_ok (removed pk self w) ↔ no_stale w p.
Proof.
  intros Hc Hw Hpk Hp. pose proof (config_ok_remove w pk p self Hc Hpk Hp) as Hc'.
  pose proof (registered_gone w pk p Hc Hpk) as Hgone. split.
  { intros Hw' i x Hi Hx. rewrite Hp in Hx. injection Hx as <-. destruct (decide (i ∈ indices (sessions self))) as [|Hn]; [done|].
    destruct Hgone. apply (ok_index _ _ _ _ _ _ Hw' i). simpl.
    by rewrite foldl_delete_lookup, get_mapped_indices_slots, decide_False. }
  intros Hstale. destruct Hw as [H1 H2 HI HN H3 H0 H4 H5 H6 H7]. split; try done.
  - intros ip q Hq. by apply (config_route (removed pk self w) ip q Hc').
  - apply (cf_keys _ Hc').
  - intros q x Hx Hq. apply (H5 q); [done|]. exact (registered_deleted _ _ _ Hq).
  - intros q x i Hx Hq Hi. simpl. rewrite foldl_delete_lookup, get_mapped_indices_slots.
    assert (index_map (state w) !! i = Some q) as Hiq by (eapply H6; [done|exact (registered_deleted _ _ _ Hq)|done]).
    case_decide as Hd; [|done]. exfalso. apply Hgone.
    assert (index_map (state w) !! i = Some p) by (eapply H6; [done|by exists pk|done]).
    assert (q = p) as -> by congruence. exact Hq.
  - intros i q. simpl. rewrite foldl_delete_lookup, get_mapped_indices_slots. case_decide as Hd; [done|].
    intros Hiq. apply (registered_delete _ pk p); [done| |by eapply H7].
    intros ->. apply Hd. by eapply Hstale.
Qed.

(** ** Updating a peer *)

Definition updated (p : peer_id) (self : Peer) (i : PeerInfo) (replace : bool) (w : World) : World :=
  let i' := merge_info replace i (info self) in
  let r := if replace then Router.remove_allowed_ips (allowed_ips (info self)) (router (state w)) else router (state w) in
  set_heap (<[p := set_info i' self]> (heap w))
    (set_state (set_router (Router.add_allowed_ips (allowed_ips i') p r) (state w)) w).

Lemma update_existing_run p self i replace w :
  heap w !! p = Some self →
  (update_existing p i replace w).1 = updated p self i replace w.
Proof.
  intros Hp. unfold update_existing.
  erewrite bindM_run by (unfold read_peer; rewrite Hp; reflexivity).
  destruct w as [h ? [] ? ? ? ? ? ? ? ? ? ? ? ?]. simpl in Hp.
  destruct replace; unfold bindM, map_state, modM, retM, with_peer; simpl; by rewrite Hp.
Qed.

Lemma updated_cell p self i replace w q x :
  heap w !! p = Some self → heap (updated p self i replace w) !! q = Some x →
  ∃ y, heap w !! q = Some y ∧ sessions x = sessions y ∧
       (q = p ∧ info x = merge_info replace i (info self) ∨ x = y).
Proof.
  intros Hp. simpl. destruct (decide (q = p)) as [->|].
  - rewrite lookup_insert_eq. intros [= <-]. exists self. auto.
  - rewrite lookup_insert_ne by done. eauto.
Qed.

Lemma config_ok_updated w p self i replace :
  config_ok w → pubkey_map (state w) !! pub_key i = Some p → heap w !! p = Some self →
  Routes.valid (allowed_ips i) → config_ok (updated p self i replace w).
Proof.
  intros Hw Hpk Hp Hvi. pose proof Hw as [HK (m & Hr & Hm) Hv Hidx Hf Hl Hs].
  assert (registered (pubkey_map (state w)) p) as Hreg by (by eexists).
  pose proof (Hv _ _ Hp Hreg) as Hvo.
  set (i' := merge_info replace i (info self)).
  assert (Routes.valid (allowed_ips i')) as Hv'.
  { unfold i', merge_info. simpl. destruct replace; [done|]. by apply Forall_app. }
  set (m1 := if replace then Routes.remove (allowed_ips (info self)) m else m).
  assert (∀ k q, m1 !! k = Some q →
            m !! k = Some q ∧ (q = p → ∃ ip len, (ip, len) ∈ allowed_ips i' ∧ Routes.key ip len = k)) as Hm1.
  { intros k q Hk. unfold m1 in Hk. destruct replace.
    - apply routes_remove_lookup in Hk as [Hk Hno]. split; [done|]. intros ->.
      destruct (Hm _ _ Hk) as (_ & x & ip & len & Hx & Hin & Hk'). rewrite Hp in Hx. injection Hx as <-.
      by destruct (Hno ip len).
    - split; [done|]. intros ->. destruct (Hm _ _ Hk) as (_ & x & ip & len & Hx & Hin & Hk').
      rewrite Hp in Hx. injection Hx as <-. exists ip, len. split; [|done]. simpl. set_solver. }
  assert (routes_ok (updated p self i replace w) (Routes.add (allowed_ips i') p m1)) as Hrts.
  { split.
    - apply represents_add; [done|]. unfold m1. destruct replace; [by apply represents_remove|done].
    - intros k q [(-> & ip & len & Hin & Hk)|[Hk Hown]%Hm1]%routes_add_lookup.
      + split; [done|]. exists (set_info i' self), ip, len. simpl. by rewrite lookup_insert_eq.
      + destruct (Hm _ _ Hk) as (Hq & x & ip & len & Hx & Hin & Hk'). split; [done|].
        destruct (decide (q = p)) as [->|Hne].
        * destruct Hown as (ip' & len' & Hin' & Hk''); [done|].
          exists (set_info i' self), ip', len'. simpl. by rewrite lookup_insert_eq.
        * exists x, ip, len. simpl. by rewrite lookup_insert_ne. }
  pose proof (updated_cell p self i replace w) as Hcell.
  split; try done.
  - intros pk q Hq. destruct (HK _ _ Hq) as (x & Hx & Hkx). simpl. destruct (decide (q = p)) as [->|].
    + exists (set_info i' self). rewrite lookup_insert_eq. split; [done|]. simpl. by apply (pubkey_inj w _ _ p).
    + exists x. by rewrite lookup_insert_ne.
  - by eexists.
  - intros q x Hx Hq. destruct (Hcell q x Hp Hx) as (y & Hy & _ & [[-> ->]| ->]); [done|by eapply Hv].
  - intros j q Hj. simpl. destruct (decide (q = p)) as [->|]; [by rewrite lookup_insert_eq|].
    rewrite lookup_insert_ne by done. by eapply Hidx.
  - intros q x Hx. destruct (Hcell q x Hp Hx) as (y & Hy & _). by eapply Hf.
Qed.

Lemma world_ok_updated w p self i replace :
  config_ok w → world_ok w → pubkey_map (state w) !! pub_key i = Some p → heap w !! p = Some self →
  Routes.valid (allowed_ips i) → world_ok (updated p self i replace w).
Proof.
  intros Hc Hw Hpk Hp Hvi. pose proof (config_ok_updated w p self i replace Hc Hpk Hp Hvi) as Hc'.
  destruct Hw as [H1 H2 HI HN H3 H0 H4 H5 H6 H7]. split; try done.
  - intros ip q Hq. by apply (config_route _ ip q Hc').
  - apply (cf_keys _ Hc').
  - intros q x Hx Hq. destruct (updated_cell p self i replace w q x Hp Hx) as (y & Hy & Hss & _).
    unfold peer_ok. rewrite Hss. by eapply H5.
  - intros q x j Hx Hq. destruct (updated_cell p self i replace w q x Hp Hx) as (y & Hy & Hss & _).
    rewrite Hss. by eapply H6.
Qed.

(** ** Adding a peer *)

Definition added (i : PeerInfo) (w : World) : World :=
  let p := next_peer w in
  set_next_peer (S p) (set_heap (<[p := PeerOps.new i]> (heap w))
    (set_state (set_router (Router.add_allowed_ips (allowed_ips i) p (router (state w)))
       (set_pubkey_map (<[pub_key i := p]> (pubkey_map (state w))) (state w))) w)).

Lemma registered_insert pm pk p q : pm !! pk = None → registered pm q → registered (<[pk := p]> pm) q.
Proof. intros Hn [pk' Hq]. exists pk'. rewrite lookup_insert_ne; [done|]. intros ->. congruence. Qed.

Lemma added_cell i w q x :
  heap (added i w) !! q = Some x →
  q = next_peer w ∧ x = PeerOps.new i ∨ q ≠ next_peer w ∧ heap w !! q = Some x.
Proof.
  simpl. destruct (decide (q = next_peer w)) as [->|].
  - rewrite lookup_insert_eq. intros [= <-]. auto.
  - rewrite lookup_insert_ne by done. auto.
Qed.
Lemma added_registered i w q :
  registered (pubkey_map (state (added i w))) q → q = next_peer w ∨ registered (pubkey_map (state w)) q.
Proof. intros [pk Hq]. simpl in Hq. apply lookup_insert_Some in Hq as [[_ <-]|[_ Hq]]; [by left|right; by eexists]. Qed.

Lemma config_ok_added w i :
  config_ok w → pubkey_map (state w) !! pub_key i = None →
  if_pub_key (interface_info (state w)) ≠ Some (pub_key i) →
  Z.of_nat (size (pubkey_map (state w))) < MAX_PEERS_PER_DEVICE →
  Routes.valid (allowed_ips i) → config_ok (added i w).
Proof.
  intros [Hk (m & Hr & Hm) Hv Hidx Hf Hl Hs] Hpk Hown Hsize Hvi. set (p := next_peer w).
  assert (∀ q x, heap w !! q = Some x → heap (added i w) !! q = Some x) as Hkeep.
  { intros q x Hx. simpl. rewrite lookup_insert_ne; [done|]. intros <-. apply Hf in Hx. lia. }
  assert (heap (added i w) !! p = Some (PeerOps.new i)) as Hnew by apply lookup_insert_eq.
  split.
  - intros pk q Hq. simpl in Hq. apply lookup_insert_Some in Hq as [[<- <-]|[_ Hq]]; [by exists (PeerOps.new i)|].
    destruct (Hk _ _ Hq) as (x & Hx & Hkx). exists x. split; [by apply Hkeep|done].
  - exists (Routes.add (allowed_ips i) p m). split; [by apply represents_add|].
    intros k q [(-> & ip & len & Hin & Hkey)|Hkq]%routes_add_lookup.
    + split; [exists (pub_key i); apply lookup_insert_eq|]. by exists (PeerOps.new i), ip, len.
    + destruct (Hm _ _ Hkq) as (Hq & x & ip & len & Hx & Hin & Hk'). split; [by apply registered_insert|].
      exists x, ip, len. split; [by apply Hkeep|done].
  - intros q x [[-> ->]|[Hqp Hx]]%added_cell Hq; [done|].
    destruct (added_registered _ _ _ Hq) as [->|Hq']; [done|by eapply Hv].
  - intros j q [x Hx]%Hidx. by exists x; apply Hkeep.
  - intros q x [[-> ->]|[Hqp Hx]]%added_cell; simpl; [lia|]. apply Hf in Hx. lia.
  - simpl. rewrite map_size_insert_None by done. lia.
  - intros pk Hpk'. simpl in *. rewrite lookup_insert_ne; [by apply Hs|]. congruence.
Qed.

Lemma world_ok_added w i :
  config_ok (added i w) → world_ok w → pubkey_map (state w) !! pub_key i = None → world_ok (added i w).
Proof.
  intros Hc' [H1 H2 HI HN H3 H0 H4 H5 H6 H7] Hpk. split; try done.
  - intros ip q Hq. by apply (config_route _ ip q Hc').
  - apply (cf_keys _ Hc').
  - intros q x [[-> ->]|[Hqp Hx]]%added_cell Hq; [split; [apply NoDup_nil_2|by intros []]|].
    destruct (added_registered _ _ _ Hq) as [->|Hq']; [done|by eapply H5].
  - intros q x j [[-> ->]|[Hqp Hx]]%added_cell Hq; [by intros ?%not_elem_of_nil|].
    destruct (added_registered _ _ _ Hq) as [->|Hq']; [done|by eapply H6].
  - intros j q Hj. apply registered_insert; [done|]. by eapply H7.
Qed.

(** ** Interface settings and clearing *)

Lemma config_ok_interface w f :
  config_ok w →
  (∀ pk, if_pub_key (f (interface_info (state w))) = Some pk → pubkey_map (state w) !! pk = None) →
  config_ok (set_state (set_interface_info (f (interface_info (state w))) (state w)) w).
Proof. by intros [] ?. Qed.
Lemma world_ok_interface w f :
  world_ok w ↔ world_ok (set_state (set_interface_info (f (interface_info (state w))) (state w)) w).
Proof. split; by intros []. Qed.

Definition cleared (w : World) : World :=
  set_state (mkState ∅ ∅ (Router.clear (router (state w))) (interface_info (state w))) w.

Lemma none_registered p : ¬ registered (∅ : gmap bytes peer_id) p.
Proof. intros [pk Hp]. by rewrite lookup_empty in Hp. Qed.

Lemma config_ok_cleared w : config_ok w → config_ok (cleared w).
Proof.
  intros [Hk (m & Hr & Hm) Hv Hidx Hf Hl Hs]. split; try done.
  - exists ∅. split; [apply represents_default|]. intros k p Hk'. by rewrite lookup_empty in Hk'.
  - intros p x _ []%none_registered.
Qed.
Lemma world_ok_cleared w : config_ok (cleared w) → world_ok w → world_ok (cleared w).
Proof.
  intros Hc [H1 H2 HI HN H3 H0 H4 H5 H6 H7]. split; try done.
  - intros ip p Hp. by apply (config_route _ ip p Hc).
  - intros p x _ []%none_registered.
  - intros p x i _ []%none_registered.
Qed.

(** ** The updates *)

(** The masks fit their addresses: the lookup tables know no others. *)
Definition masks_fit (event : UpdateEvent) : Prop :=
  match event with Ev_UpdatePeer i _ => Routes.valid (allowed_ips i) | _ => True end.
#[export] Instance masks_fit_dec e : Decision (masks_fit e).
Proof. destruct e; simpl; apply _. Defined.

(** A peer that the update removes has no stale index. *)
Definition clean (event : UpdateEvent) (w : World) : Prop :=
  match event with
  | Ev_RemovePeer pk => ∀ p, pubkey_map (state w) !! pk = Some p → no_stale w p
  | Ev_PrivateKey k => k ≠ zeros 32 → ∀ p, pubkey_map (state w) !! generate_public k = Some p → no_stale w p
  | _ => True
  end.

(** What an update does to the state, by cases. *)
Inductive update_cases (event : UpdateEvent) (w : World) : World → Prop :=
| case_interface f :
    (∀ pk, if_pub_key (f (interface_info (state w))) = Some pk → pubkey_map (state w) !! pk = None) → clean event w →
    update_cases event w (set_state (set_interface_info (f (interface_info (state w))) (state w)) w)
| case_own k p self :
    event = Ev_PrivateKey k → k ≠ zeros 32 →
    pubkey_map (state w) !! generate_public k = Some p → heap w !! p = Some self →
    update_cases event w (set_state (set_interface_info (set_keys (Some k) (Some (generate_public k))
      (interface_info (state (removed (generate_public k) self w)))) (state (removed (generate_public k) self w)))
      (removed (generate_public k) self w))
| case_updated i replace p self :
    event = Ev_UpdatePeer i replace → pubkey_map (state w) !! pub_key i = Some p → heap w !! p = Some self →
    update_cases event w (updated p self i replace w)
| case_added i replace :
    event = Ev_UpdatePeer i replace → pubkey_map (state w) !! pub_key i = None →
    if_pub_key (interface_info (state w)) ≠ Some (pub_key i) →
    Z.of_nat (size (pubkey_map (state w))) < MAX_PEERS_PER_DEVICE → update_cases event w (added i w)
| case_same : clean event w → update_cases event w w
| case_removed pk p self :
    event = Ev_RemovePeer pk → pubkey_map (state w) !! pk = Some p → heap w !! p = Some self →
    update_cases event w (removed pk self w)
| case_cleared : event = Ev_RemoveAllPeers → update_cases event w (cleared w).

Lemma handle_update_cases event w : config_ok w → update_cases event w (handle_update event w).1.
Proof.
  intros Hw.
  assert (∀ pk p, pubkey_map (state w) !! pk = Some p → ∃ self, heap w !! p = Some self) as Hcell.
  { intros pk p Hp. destruct (cf_keys _ Hw _ _ Hp) as (x & Hx & _). eauto. }
  destruct event as [k|mark|port|i replace|pk|]; simpl.
  - case_bool_decide as Hz; [by apply (case_interface _ w (set_keys None None)); [|intros []]|].
    erewrite bindM_run by reflexivity. erewrite bindM_run by reflexivity. simpl.
    destruct (pubkey_map (state w) !! generate_public k) as [p|] eqn:Hp.
    + destruct (Hcell _ _ Hp) as [self Hs].
      erewrite bindM_run by (apply (remove_peer_run _ _ self); exact Hs). by apply (case_own _ w k p self).
    + apply (case_interface _ w (set_keys (Some k) (Some (generate_public k)))); simpl; [by intros pk [= <-]|]. by rewrite Hp.
  - apply (case_interface _ w (set_fwmark mark)); [apply (cf_self _ Hw)|done].
  - apply (case_interface _ w (set_listen_port port)); [apply (cf_self _ Hw)|done].
  - erewrite bindM_run by reflexivity. destruct (pubkey_map (state w) !! pub_key i) as [p|] eqn:Hp.
    + destruct (Hcell _ _ Hp) as [self Hs]. rewrite (update_existing_run p self) by done. by eapply case_updated.
    + unfold add_peer. erewrite bindM_run by reflexivity. case_bool_decide as Hown; [by apply case_same|].
      erewrite bindM_run by reflexivity. unfold bindM at 1, liftM at 1.
      destruct (Z.leb_spec MAX_PEERS_PER_DEVICE (Z.of_nat (size (pubkey_map (state w))))); [by apply case_same|].
      simpl. by eapply (case_added _ w i).
  - erewrite bindM_run by reflexivity. unfold bindM at 1, liftM at 1.
    destruct (pubkey_map (state w) !! pk) as [p|] eqn:Hp; [|apply case_same; simpl; by rewrite Hp].
    destruct (Hcell _ _ Hp) as [self Hs].
    simpl. erewrite bindM_run by (apply (remove_peer_run _ _ self); exact Hs). by eapply case_removed.
  - by apply case_cleared.
Qed.

Lemma update_config event w : config_ok w → masks_fit event → config_ok (handle_update event w).1.
Proof.
  intros Hw Hm. destruct (handle_update_cases event w Hw) as [f Hf Hc|k p self -> Hz Hp Hs|i r p self -> Hp Hs|i r -> Hp Ho Hl|Hc|pk p self -> Hp Hs| ->].
  - by apply config_ok_interface.
  - pose proof (config_ok_remove w _ p self Hw Hp Hs) as Hrem.
    apply (config_ok_interface _ (set_keys (Some k) (Some (generate_public k))) Hrem).
    simpl. intros pk [= <-]. apply lookup_delete_eq.
  - by apply config_ok_updated.
  - by apply config_ok_added.
  - done.
  - by eapply config_ok_remove.
  - by apply config_ok_cleared.
Qed.

(** The session table stays exact exactly when the peer that is removed, if
    there is one, had no stale index. *)
Lemma update_exact event w :
  config_ok w → world_ok w → masks_fit event → world_ok (handle_update event w).1 ↔ clean event w.
Proof.
  intros Hw Hx Hm. pose proof (update_config event w Hw Hm) as Hw'. revert Hw'.
  destruct (handle_update_cases event w Hw) as [f Hf Hc|k p self -> Hz Hp Hs|i r p self -> Hp Hs|i r -> Hp Ho Hl|Hc|pk p self -> Hp Hs| ->];
    intros Hw'.
  - split; [done|]. intros _. by apply world_ok_interface.
  - rewrite <-(world_ok_interface _ (set_keys (Some k) (Some (generate_public k)))), (world_ok_remove w _ p self) by done.
    simpl. rewrite Hp. naive_solver.
  - split; [done|]. intros _. by apply world_ok_updated.
  - split; [done|]. intros _. by apply world_ok_added.
  - done.
  - rewrite (world_ok_remove w _ p self) by done. simpl. rewrite Hp. naive_solver.
  - split; [done|]. intros _. by apply world_ok_cleared.
Qed.

(** C23.  Configuration: every `handle_update` whose masks fit their addresses,
    whether it succeeds or fails, keeps what holds whatever happens: every route
    leads to a configured peer that lists it, the keys of `pubkey_map` are the
    peers' keys, there are never more than `MAX_PEERS_PER_DEVICE` peers, the
    interface is never its own peer.  An exact session table stays exact if and
    only if a peer that the update removes had no stale index, one that an
    invalid handshake response left behind. *)
Theorem config_update_invariant event w :
  config_ok w → masks_fit event →
  config_ok (handle_update event w).1 ∧ (world_ok w → (world_ok (handle_update event w).1 ↔ clean event w)).
Proof. intros Hw Hm. split; [by apply update_config|]. intros Hx. by apply update_exact. Qed.

End invariant.

(* ------------------------------------------------------------------ *)
(** ** A peer that is removed *)
Section removal.
Context {BO : ByteOrder} {BOL : ByteOrderLaws BO} {B : Blake2} {S : Subtle} {A : Aead} {R : Rips} {T : Treebitmap}
        {TL : TreebitmapLaws T} {X : X25519} {SN : Snow}.
Import PeerOps PeerServer Config.

(** A transport packet for an index that is not one of the peer's sessions. *)
Lemma transport_stale e addr packet i p self w :
  MessageParser.try_from packet = Ok (Message_Transport packet) → Transport.our_index packet = Ok i →
  index_map (state w) !! i = Some p → heap w !! p = Some self → i ∉ indices (sessions self) →
  ∃ err, handle_ingress_packet e addr packet w = (w, Err err).
Proof.
  intros Hm Hi Hip Hp Hn. pose proof (message_accessors_safe _ _ Hm) as (_ & [n Hnonce] & _).
  assert (find_session i self = None) as Hf.
  { destruct (find_session i self) as [[s ty]|] eqn:E; [|done]. apply find_session_spec in E as (Hs & Hidx & _).
    destruct Hn. unfold indices. destruct ty; simpl in Hs; rewrite Hs; simpl; set_solver. }
  unfold handle_ingress_packet. rewrite Hm. erewrite bindM_run by reflexivity.
  unfold handle_ingress_transport. rewrite Hi. do 2 erewrite bindM_run by reflexivity. rewrite Hip.
  erewrite bindM_run by reflexivity. unfold bindM at 1. rewrite (with_peer_same p _ w self Hp).
  unfold handle_incoming_transport. rewrite Hnonce, Hi. do 3 erewrite bindM_run by reflexivity. rewrite Hf. simpl.
  rewrite insert_id by done. eexists. by destruct w.
Qed.

(** C22.  Removing a configured peer succeeds and forgets it: its key and the
    indices of its sessions are gone, nothing else is gone from these tables, and
    no route leads to it.  An index that an invalid handshake response left
    behind (one of no session) stays in the table; a transport packet for any
    index of the removed peer is an error that changes nothing.  When the session
    table is exact, the other peers keep their indices. *)
Theorem remove_peer_forgets pk p w :
  config_ok w → pubkey_map (state w) !! pk = Some p →
  ∃ self w', heap w !! p = Some self ∧ handle_update (Ev_RemovePeer pk) w = (w', Ok None) ∧
    heap w' = heap w ∧ pubkey_map (state w') = delete pk (pubkey_map (state w)) ∧
    (∀ i, index_map (state w') !! i = if decide (i ∈ indices (sessions self)) then None else index_map (state w) !! i) ∧
    (∀ ip, Router.get_peer_from_ip (router (state w')) ip ≠ Some p) ∧
    (no_stale w p → ∀ i, index_map (state w') !! i ≠ Some p) ∧
    (world_ok w → ∀ i q x, q ≠ p → heap w !! q = Some x → registered (pubkey_map (state w)) q →
       i ∈ indices (sessions x) → index_map (state w') !! i = Some q) ∧
    (∀ e addr packet i, MessageParser.try_from packet = Ok (Message_Transport packet) →
       Transport.our_index packet = Ok i → index_map (state w) !! i = Some p →
       ∃ err, handle_ingress_packet e addr packet w' = (w', Err err)).
Proof.
  intros Hw Hp. destruct (cf_keys _ Hw _ _ Hp) as (self & Hs & _).
  pose proof (config_ok_remove w pk p self Hw Hp Hs) as Hw'. pose proof (registered_gone w pk p Hw Hp) as Hgone.
  assert (∀ i, index_map (state (removed pk self w)) !! i =
            if decide (i ∈ indices (sessions self)) then None else index_map (state w) !! i) as Hidx.
  { intros i. simpl. by rewrite foldl_delete_lookup, get_mapped_indices_slots. }
  exists self, (removed pk self w). split; [done|]. split; [|split; [done|split; [done|split; [exact Hidx|]]]].
  { simpl. erewrite bindM_run by reflexivity. rewrite Hp. simpl.
    erewrite bindM_run by reflexivity. by erewrite bindM_run by (apply remove_peer_run; exact Hs). }
  split_and!.
  - intros ip Hip. exact (Hgone (config_route _ ip p Hw' Hip)).
  - intros Hstale i. rewrite Hidx. case_decide as Hi; [done|]. intros Hip. by apply Hi, (Hstale i self).
  - intros Hx i q x Hne Hq Hreg Hi. rewrite Hidx. pose proof (ok_mapped _ _ _ _ _ _ Hx q x i Hq Hreg Hi) as Hiq.
    case_decide as Hd; [|done]. destruct Hne. pose proof (ok_mapped _ _ _ _ _ _ Hx p self i Hs (ex_intro _ pk Hp) Hd). congruence.
  - intros e addr packet i Hm Hi Hip. destruct (decide (i ∈ indices (sessions self))) as [Hd|Hd].
    + unfold handle_ingress_packet. rewrite Hm. erewrite bindM_run by reflexivity.
      unfold handle_ingress_transport. rewrite Hi. do 2 erewrite bindM_run by reflexivity.
      rewrite Hidx, decide_True by done. by eexists.
    + apply (transport_stale e addr packet i p self); [done|done| |done|done]. by rewrite Hidx, decide_False.
Qed.
End removal.
