(* ===== verification/ConfigText.v ===== *)
(** * The configuration protocol as text (src/interface/config.rs)

    The codec of the configuration socket, the parser of `set` commands
    (`UpdateEvent::from`), and the replies: the result of a `set`, and for a
    `get` the text of the interface and its peers (`Peer::to_config_string` of
    src/peer.rs). *)

From S2P Require Import Prelude Crates Reference RefSnow AntiReplay Types Text Timestamp Message XChaCha RateLimiter Cookie Router Peer PeerTransport PeerSessions Timer World PeerServer ServerInvariant Config.

(** `Command`. *)
Inductive Command :=
| Command_Set (version : Z) (items : list UpdateEvent)
| Command_Get (version : Z).

Module ConfigText.
Section parsing.
Context {H : Hex}.

Definition USIZE_MAX : Z := 2 ^ 64 - 1.

(** The locals of `UpdateEvent::from`. *)
Record progress := mkProgress {
  events : list UpdateEvent;
  pending_peer : bool;
  remove_pending_peer : bool;
  replace_allowed_ips : bool;
  pinfo : PeerInfo;
}.

Definition start : progress := mkProgress [] false false false PeerInfo_default.

Definition push (e : UpdateEvent) (p : progress) : progress :=
  mkProgress (events p ++ [e]) (pending_peer p) (remove_pending_peer p) (replace_allowed_ips p) (pinfo p).
Definition with_info (i : PeerInfo) (p : progress) : progress :=
  mkProgress (events p) (pending_peer p) (remove_pending_peer p) (replace_allowed_ips p) i.

(** The event of the peer whose lines came last. *)
Definition flush_peer (p : progress) : list UpdateEvent :=
  match pending_peer p, remove_pending_peer p with
  | true, true => [Ev_RemovePeer (pub_key (pinfo p))]
  | true, false => [Ev_UpdatePeer (pinfo p) (replace_allowed_ips p)]
  | _, _ => []
  end.

Definition parse_allowed_ip (value : bytes) : res (IpAddr * Z) :=
  let? '(ip, cidr) := ok_or (split_find SLASH value) "ip/cidr format error" in
  let? ip := parse_ip ip in
  let? cidr := slice_from 1 cidr in
  let? mask := parse_uint (2 ^ 32 - 1) cidr in
  Ok (ip, mask).

Definition is_key (key : bytes) (name : string) : bool := bool_decide (key = str_bytes name).

(** One turn of the loop of `UpdateEvent::from`. *)
Definition from_item (key value : bytes) (p : progress) : res progress :=
  let i := pinfo p in
  if is_key key "private_key" then let? k := from_hex32 value in Ok (push (Ev_PrivateKey k) p)
  else if is_key key "listen_port" then let? port := parse_uint 65535 value in Ok (push (Ev_ListenPort port) p)
  else if is_key key "fwmark" then let? mark := parse_uint (2 ^ 32 - 1) value in Ok (push (Ev_Fwmark mark) p)
  else if is_key key "replace_peers" then Ok (push Ev_RemoveAllPeers p)
  else if is_key key "preshared_key" then
    let? k := from_hex32 value in
    Ok (with_info {| pub_key := pub_key i; psk := Some k; endpoint := endpoint i; allowed_ips := allowed_ips i; keepalive := keepalive i |} p)
  else if is_key key "persistent_keepalive_interval" then
    let? n := parse_uint 65535 value in
    Ok (with_info {| pub_key := pub_key i; psk := psk i; endpoint := endpoint i; allowed_ips := allowed_ips i; keepalive := Some n |} p)
  else if is_key key "endpoint" then
    let? addr := parse_socket_addr value in
    Ok (with_info {| pub_key := pub_key i; psk := psk i; endpoint := Some (Endpoint.from_socket_addr addr); allowed_ips := allowed_ips i; keepalive := keepalive i |} p)
  else if is_key key "replace_allowed_ips" then
    Ok (mkProgress (events p) (pending_peer p) (remove_pending_peer p) true i)
  else if is_key key "remove" then
    Ok (mkProgress (events p) (pending_peer p) true (replace_allowed_ips p) i)
  else if is_key key "public_key" then
    let? k := from_hex32 value in
    Ok (mkProgress (events p ++ flush_peer p) true false false
         {| pub_key := k; psk := psk PeerInfo_default; endpoint := endpoint PeerInfo_default;
            allowed_ips := allowed_ips PeerInfo_default; keepalive := keepalive PeerInfo_default |})
  else if is_key key "allowed_ip" then
    let? ip := parse_allowed_ip value in
    Ok (with_info {| pub_key := pub_key i; psk := psk i; endpoint := endpoint i; allowed_ips := allowed_ips i ++ [ip]; keepalive := keepalive i |} p)
  else Ok p.

Fixpoint from_items (items : list (bytes * bytes)) (p : progress) : res progress :=
  match items with
  | [] => Ok p
  | (key, value) :: items' => let? p := from_item key value p in from_items items' p
  end.

(** `UpdateEvent::from(items)`. *)
Definition from (items : list (bytes * bytes)) : res (list UpdateEvent) :=
  let? p := from_items items start in Ok (events p ++ flush_peer p).

(** The two pieces of a line that are kept; a line without `=` panics. *)
Definition parse_line (line : bytes) : res (bytes * bytes) :=
  match split_on EQUALS line with
  | key :: value :: _ => Ok (key, value)
  | _ => Panic "unwrap on None"
  end.

Fixpoint parse_lines (lines : list bytes) : res (list (bytes * bytes)) :=
  match lines with
  | [] => Ok []
  | line :: lines' => let? item := parse_line line in let? items := parse_lines lines' in Ok (item :: items)
  end.

Definition command_of (cmd version : bytes) (items : list (bytes * bytes)) : res (option Command) :=
  if is_key cmd "get" then let? v := parse_uint USIZE_MAX version in Ok (Some (Command_Get v))
  else if is_key cmd "set" then
    let? v := parse_uint USIZE_MAX version in let? evs := from items in Ok (Some (Command_Set v evs))
  else Err "invalid command".

(** `ConfigurationCodec::decode`: the buffer it leaves, and the command. *)
Definition decode (buf : bytes) : bytes * res (option Command) :=
  if negb (is_utf8 buf) then (buf, Panic "unwrap on Err")
  else
    match split_blank buf with
    | None => (buf, Ok None)
    | Some (blob, _) =>
        match parse_lines (split_on LF blob) with
        | Ok items =>
            let buf := drop (length blob + 1) buf in
            match items with
            | (cmd, version) :: items => (buf, command_of cmd version items)
            | [] => (buf, Panic "removal index out of range")
            end
        | Err e => (buf, Err e)
        | Panic p => (buf, Panic p)
        | Starved => (buf, Starved)
        end
    end.

(** `ConfigurationCodec::encode`. *)
Definition encode (msg buf : bytes) : bytes := buf ++ msg ++ [LF; LF].
End parsing.

Section printing.
Context {H : Hex} {B : Blake2} {SN : Snow} {T : Treebitmap} {X : X25519}.

(** The pairs `Peer::to_config_string` prints, at the monotonic time [now] and
    the system time [wall]. *)
Definition peer_items (now : Instant) (wall : Duration) (self : Peer) : list (bytes * bytes) :=
  let i := info self in
  [(str_bytes "public_key", hex_encode (pub_key i))] ++
  match psk i with Some k => [(str_bytes "preshared_key", hex_encode k)] | None => [] end ++
  match endpoint i with
  | Some e => [(str_bytes "endpoint", print_ip (Endpoint.ip e) ++ [COLON] ++ to_string (Endpoint.port e))]
  | None => []
  end ++
  match keepalive i with Some n => [(str_bytes "persistent_keepalive_interval", to_string n)] | None => [] end ++
  ((fun '(ip, cidr) => (str_bytes "allowed_ip", print_ip ip ++ [SLASH] ++ to_string cidr)) <$> allowed_ips i) ++
  [(str_bytes "tx_bytes", to_string (tx_bytes self)); (str_bytes "rx_bytes", to_string (rx_bytes self))] ++
  (if Timestamp.is_set (handshake_completed (timers self)) then
     let time := wall - Timestamp.elapsed now (handshake_completed (timers self)) in
     if 0 <=? time then
       [(str_bytes "last_handshake_time_sec", to_string (as_secs time));
        (str_bytes "last_handshake_time_nsec", to_string (subsec_nanos time))]
     else []
   else []).

Definition line_of (item : bytes * bytes) : bytes := item.1 ++ [EQUALS] ++ item.2.

(** `Peer::to_config_string`: each pair on a line. *)
Definition to_config_string (now : Instant) (wall : Duration) (self : Peer) : bytes :=
  unlines (line_of <$> peer_items now wall self).

Definition interface_items (i : InterfaceInfo) : list (bytes * bytes) :=
  match if_private_key i with Some k => [(str_bytes "private_key", hex_encode k)] | None => [] end ++
  match if_listen_port i with Some p => [(str_bytes "listen_port", to_string p)] | None => [] end.

(** The reply to `get`: [peers] are the peers in the order the map is
    iterated in. *)
Definition get_reply (now : Instant) (wall : Duration) (i : InterfaceInfo) (peers : list Peer) : bytes :=
  unlines (line_of <$> interface_items i) ++ mjoin (to_config_string now wall <$> peers) ++
  str_bytes "errno=0" ++ [LF; LF].

(** A command and its reply; [iter] is the order in which `pubkey_map` is
    iterated. *)
Definition respond (e : Env) (iter : list peer_id) (command : Command) : M World bytes :=
  match command with
  | Command_Set _ items => Config.handle_set items
  | Command_Get _ => fun w =>
      (w, Ok (get_reply (now e) (wall e) (interface_info (state w)) (omap (fun p => heap w !! p) iter)))
  end.
End printing.
End ConfigText.

(* ------------------------------------------------------------------ *)
(** ** Framing *)
Section framing.
Context {H : Hex}.
Import ConfigText.

(** Lines with newlines between them. *)
Fixpoint join_lines (ls : list bytes) : bytes :=
  match ls with
  | [] => []
  | [l] => l
  | l :: ls' => l ++ LF :: join_lines ls'
  end.

Lemma join_cons l l' ls : join_lines (l :: l' :: ls) = l ++ LF :: join_lines (l' :: ls).
Proof. done. Qed.

Lemma unlines_join l ls : unlines (l :: ls) = join_lines (l :: ls) ++ [LF].
Proof.
  revert l. induction ls as [|l' ls IH]; intros l; [done|]. cbn [unlines join_lines].
  cbn [unlines] in IH. rewrite IH. by rewrite <-app_assoc.
Qed.

Lemma split_on_join ls : ls ≠ [] → Forall (fun l => LF ∉ l) ls → split_on LF (join_lines ls) = ls.
Proof.
  intros Hne Hls. induction Hls as [|l ls Hl Hls IH]; [done|]. destruct ls as [|l' ls]; [by apply split_on_none|].
  rewrite join_cons, split_on_app by done. f_equal. by apply IH.
Qed.

Lemma split_blank_skip l s : LF ∉ l → split_blank (l ++ s) = prod_map (app l) id <$> split_blank s.
Proof.
  induction l as [|x l IH]; intros Hl; [cbn [app]; by destruct (split_blank s) as [[]|]|].
  apply not_elem_of_cons in Hl as [Hx Hl]. specialize (IH Hl). cbn [app].
  assert (split_blank (x :: l ++ s) = prod_map (cons x) id <$> split_blank (l ++ s)) as ->.
  { cbn [split_blank]. destruct (l ++ s); [done|]. by rewrite (proj2 (Z.eqb_neq x LF)) by congruence. }
  rewrite IH. by destruct (split_blank s) as [[]|].
Qed.

Lemma split_blank_cons x y s :
  split_blank (x :: y :: s) =
  if (x =? LF) && (y =? LF) then Some ([], s) else prod_map (cons x) id <$> split_blank (y :: s).
Proof. done. Qed.

(** The text up to the first blank line. *)
Lemma split_blank_lines ls rest :
  ls ≠ [] → Forall (fun l => LF ∉ l ∧ l ≠ []) ls →
  split_blank (join_lines ls ++ LF :: LF :: rest) = Some (join_lines ls, rest).
Proof.
  intros Hne Hls. induction Hls as [|l ls [Hl Hnil] Hls IH]; [done|]. destruct ls as [|l' ls].
  - cbn [join_lines]. rewrite split_blank_skip by done. simpl. by rewrite app_nil_r.
  - rewrite join_cons, <-app_assoc. cbn [app]. rewrite split_blank_skip by done.
    assert (∃ c t, join_lines (l' :: ls) = c :: t ∧ c ≠ LF) as (c & t & E & Hc).
    { apply Forall_cons_1 in Hls as [[Hl' Hn'] _]. destruct l' as [|c t]; [done|].
      apply not_elem_of_cons in Hl' as [Hc _]. destruct ls as [|l'' ls]; [exists c, t|exists c, (t ++ LF :: join_lines (l'' :: ls))];
        split; done || congruence. }
    specialize (IH ltac:(done)). rewrite E in IH |- *. cbn [app] in IH |- *.
    rewrite split_blank_cons, (proj2 (Z.eqb_neq c LF)) by done. rewrite andb_false_r. by rewrite IH.
Qed.

(** Pairs that survive being a line: no newline, and no `=` inside. *)
Definition item_ok (item : bytes * bytes) : Prop :=
  LF ∉ item.1 ∧ EQUALS ∉ item.1 ∧ LF ∉ item.2 ∧ EQUALS ∉ item.2.

Lemma parse_line_of item : item_ok item → parse_line (line_of item) = Ok item.
Proof.
  destruct item as [k v]. intros (_ & Hk & _ & Hv). unfold parse_line, line_of. simpl in *.
  by rewrite split_on_app, split_on_none by done.
Qed.

Lemma parse_lines_of items : Forall item_ok items → parse_lines (line_of <$> items) = Ok items.
Proof.
  induction 1 as [|item items Hi _ IH]; [done|]. cbn [fmap list_fmap parse_lines]. rewrite parse_line_of by done.
  simpl. by rewrite IH.
Qed.

Lemma line_of_ok item : item_ok item → LF ∉ line_of item ∧ line_of item ≠ [].
Proof.
  destruct item as [k v]. intros (Hk & _ & Hv & _). unfold line_of. simpl in *. split; [|by intros []%app_nil].
  rewrite elem_of_app, elem_of_cons. intros [?|[?|?]]; done.
Qed.

(** A command whose lines are [items], in a buffer with more behind it. *)
Lemma decode_items cmd version items rest :
  Forall item_ok ((cmd, version) :: items) →
  is_utf8 (unlines (line_of <$> (cmd, version) :: items) ++ LF :: rest) = true →
  decode (unlines (line_of <$> (cmd, version) :: items) ++ LF :: rest) = (LF :: rest, command_of cmd version items).
Proof.
  intros Hok Hutf. unfold decode. rewrite Hutf. cbn [negb].
  set (ls := line_of <$> (cmd, version) :: items) in *.
  assert (Forall (fun l => LF ∉ l ∧ l ≠ []) ls) as Hls.
  { apply Forall_fmap. eapply Forall_impl; [exact Hok|]. apply line_of_ok. }
  assert (unlines ls ++ LF :: rest = join_lines ls ++ LF :: LF :: rest) as Heq.
  { unfold ls. cbn [fmap list_fmap]. by rewrite unlines_join, <-app_assoc. }
  rewrite Heq, split_blank_lines by done.
  rewrite split_on_join; [|done|eapply Forall_impl; [exact Hls|]; by intros ? []].
  unfold ls at 1. rewrite parse_lines_of by done. f_equal.
  rewrite drop_app_ge, Nat.add_comm, Nat.add_sub by lia. done.
Qed.

(** Text without a blank line is kept until more arrives; a command is taken
    out together with one of the two newlines behind it. *)
Lemma split_blank_app buf blob rest : split_blank buf = Some (blob, rest) → buf = blob ++ LF :: LF :: rest.
Proof.
  revert blob rest. induction buf as [|x buf IH]; intros blob rest; [done|].
  destruct buf as [|y buf]; [done|]. rewrite split_blank_cons. destruct ((x =? LF) && (y =? LF)) eqn:E.
  - apply andb_true_iff in E as [->%Z.eqb_eq ->%Z.eqb_eq]. by intros [= <- <-].
  - destruct (split_blank (y :: buf)) as [[b r]|]; [|done]. intros [= <- <-]. cbn [app]. f_equal. by apply IH.
Qed.

Lemma decode_rest buf buf' r :
  decode buf = (buf', r) → r ≠ Ok None → is_panic r = false → ∃ rest, buf' = LF :: rest.
Proof.
  unfold decode. destruct (negb (is_utf8 buf)); [by intros [<- <-]%pair_eq_inv|].
  destruct (split_blank buf) as [[blob rest]|] eqn:E; [|by intros [<- <-]%pair_eq_inv].
  apply split_blank_app in E.
  assert (drop (length blob + 1) buf = LF :: rest) as Hdrop.
  { rewrite E, drop_app_ge, Nat.add_comm, Nat.add_sub by lia. done. }
  assert (∀ ls, is_err (parse_lines ls) = false ∧ parse_lines ls ≠ Starved) as Hlines.
  { induction ls as [|l ls [IH1 IH2]]; [done|]. cbn [parse_lines]. unfold parse_line.
    destruct (split_on EQUALS l) as [|k [|v t]]; try done. simpl. by destruct (parse_lines ls). }
  destruct (Hlines (split_on LF blob)) as [H1 H2].
  destruct (parse_lines (split_on LF blob)) as [[|[cmd v] items]|e|p|]; try done.
  - intros [<- <-]%pair_eq_inv _ ?. done.
  - rewrite Hdrop. intros [<- _]%pair_eq_inv _ _. eauto.
  - by intros [_ <-]%pair_eq_inv.
Qed.

(** One command per connection: after a command was taken out of the
    buffer, a newline of its blank line is left in front.  Whatever text then
    arrives, once it holds another complete command, the codec panics on the
    empty line it starts with. *)
Lemma config_second_command_panics buf buf' r more :
  decode buf = (buf', r) → r ≠ Ok None → is_panic r = false →
  is_utf8 (buf' ++ more) = true → split_blank (buf' ++ more) ≠ None →
  is_panic (decode (buf' ++ more)).2 = true.
Proof.
  intros Hd Hr Hp Hu Hs. destruct (decode_rest _ _ _ Hd Hr Hp) as [rest ->]. unfold decode. rewrite Hu. cbn [negb app] in *.
  destruct (split_blank (LF :: rest ++ more)) as [[blob after]|] eqn:E; [|done]. apply split_blank_app in E.
  assert (∃ ls, split_on LF blob = [] :: ls) as [ls ->].
  { destruct blob as [|x blob]; [by exists []|]. injection E as <- _. simpl. eauto. }
  done.
Qed.
End framing.

(* ------------------------------------------------------------------ *)
(** ** Peers in a command *)
Section peers.
Context {H : Hex}.
Import ConfigText.

(** The keys of the peers that events are about, and the keys of the
    `public_key` lines. *)
Definition peer_key (e : UpdateEvent) : option bytes :=
  match e with
  | Ev_UpdatePeer i _ => Some (pub_key i)
  | Ev_RemovePeer k => Some k
  | _ => None
  end.
Definition line_key (item : bytes * bytes) : option bytes :=
  if is_key item.1 "public_key" then match from_hex32 item.2 with Ok k => Some k | _ => None end else None.

Definition keys_so_far (p : progress) : list bytes := omap peer_key (events p ++ flush_peer p).

Lemma keys_push e p : peer_key e = None → keys_so_far (push e p) = keys_so_far p.
Proof.
  intros He. unfold keys_so_far. rewrite !omap_app. simpl. rewrite omap_app. simpl. by rewrite He, app_nil_r.
Qed.

Lemma keys_with_info i p : pub_key i = pub_key (pinfo p) → keys_so_far (with_info i p) = keys_so_far p.
Proof.
  intros Hi. unfold keys_so_far. rewrite !omap_app. f_equal. unfold flush_peer. simpl.
  destruct (pending_peer p), (remove_pending_peer p); simpl; by rewrite ?Hi.
Qed.

Lemma bind_Ok {A' B'} (m : res A') (k : A' → res B') b : bind_res m k = Ok b → ∃ a, m = Ok a ∧ k a = Ok b.
Proof. destruct m; try discriminate. eauto. Qed.

Lemma keys_flags p r q :
  keys_so_far (mkProgress (events p) (pending_peer p) r q (pinfo p)) = keys_so_far p.
Proof.
  unfold keys_so_far. rewrite !omap_app. f_equal. unfold flush_peer. simpl.
  by destruct (pending_peer p), r, (remove_pending_peer p).
Qed.

(** A `public_key` line starts a peer; no other line adds, drops or renames
    one. *)
Lemma from_item_keys key value p p' :
  from_item key value p = Ok p' → keys_so_far p' = keys_so_far p ++ option_list (line_key (key, value)).
Proof.
  unfold line_key. simpl fst. simpl snd. destruct (is_key key "public_key") eqn:E.
  - apply bool_decide_eq_true in E as ->. intros (k & Hk & [= <-])%bind_Ok. rewrite Hk. unfold keys_so_far.
    by rewrite omap_app.
  - unfold from_item. rewrite E. rewrite app_nil_r.
    repeat match goal with |- (if ?b then _ else _) = _ → _ => destruct b end;
      first [ intros (x & _ & [= <-])%bind_Ok | intros [= <-] ];
      first [ by apply keys_push | by apply keys_with_info | by apply keys_flags | done ].
Qed.

Lemma from_items_keys items : ∀ p p',
  from_items items p = Ok p' → keys_so_far p' = keys_so_far p ++ omap line_key items.
Proof.
  induction items as [|[k v] items IH]; intros p p'; cbn [from_items]; [intros [= <-]; by rewrite app_nil_r|].
  intros (q & Hq & Hp')%bind_Ok. rewrite (IH _ _ Hp'), (from_item_keys _ _ _ _ Hq), <-app_assoc. f_equal.
  simpl. by destruct (line_key (k, v)).
Qed.

(** The peers of a command: when a `set` command is read, its peer events
    (updates and removals) are one for each `public_key` line, with that key, in
    the order of the lines. *)
Lemma config_from_peers items evs : from items = Ok evs → omap peer_key evs = omap line_key items.
Proof. intros (p & Hp & [= <-])%bind_Ok. exact (from_items_keys _ _ _ Hp). Qed.
End peers.

(* ------------------------------------------------------------------ *)
(** ** What `get` prints, `set` reads *)
Section roundtrip.
Context {H : Hex} {HL : HexLaws H} {B : Blake2} {SN : Snow}.
Import ConfigText.

(** Characters of a key or a value. *)
Definition texty (c : Z) : Prop := 0 ≤ c ≤ 127 ∧ c ≠ LF ∧ c ≠ EQUALS.
Definition item_texty (item : bytes * bytes) : Prop := Forall texty item.1 ∧ Forall texty item.2.

#[local] Instance texty_dec c : Decision (texty c).
Proof. unfold texty. apply _. Defined.

Lemma plain_texty b : Forall plain b → Forall texty b.
Proof. intros Hb. eapply Forall_impl; [exact Hb|]. unfold texty. by intros c (? & ? & ? & _). Qed.

Lemma item_texty_ok item : item_texty item → item_ok item.
Proof.
  intros [H1 H2]. rewrite Forall_forall in H1, H2.
  split_and!; intros Hin; [apply H1 in Hin|apply H1 in Hin|apply H2 in Hin|apply H2 in Hin]; by destruct Hin as (_ & ? & ?).
Qed.

Lemma unlines_app a b : unlines (a ++ b) = unlines a ++ unlines b.
Proof. induction a as [|l a IH]; [done|]. simpl. by rewrite IH, <-app_assoc. Qed.

Lemma unlines_ascii items : Forall item_texty items → is_ascii (unlines (line_of <$> items)).
Proof.
  assert (∀ b, Forall texty b → is_ascii b) as Ht.
  { intros b Hb. eapply Forall_impl; [exact Hb|]. by intros c [? _]. }
  induction 1 as [|[k v] items [Hk Hv] _ IH]; [by apply Forall_nil|]. cbn [fmap list_fmap unlines]. unfold line_of. simpl in *.
  apply Forall_app. split; [apply Forall_app; split; [by apply Ht|]|].
  - apply Forall_cons. split; [done|by apply Ht].
  - apply Forall_cons. split; [done|exact IH].
Qed.

(** A command made of text lines, alone in the buffer. *)
Lemma decode_texty cmd version items :
  Forall item_texty ((cmd, version) :: items) →
  decode (unlines (line_of <$> (cmd, version) :: items) ++ [LF]) = ([LF], command_of cmd version items).
Proof.
  intros Ht. apply decode_items; [eapply Forall_impl; [exact Ht|]; apply item_texty_ok|].
  apply ascii_utf8, Forall_app. split; [by apply unlines_ascii|by apply Forall_singleton].
Qed.

Definition key_ok (k : bytes) : Prop := is_bytes k ∧ length k = 32%nat.

Definition endpoint_ok (e : Endpoint.t) : Prop := ip_valid (Endpoint.ip e) ∧ 0 ≤ Endpoint.port e < 65536.

(** A peer whose fields have the widths of their types, at a time that is not
    off the end of the clock. *)
Record printable (now : Instant) (wall : Duration) (self : Peer) : Prop := {
  pr_key : key_ok (pub_key (info self));
  pr_psk : ∀ k, psk (info self) = Some k → key_ok k;
  pr_endpoint : ∀ e, endpoint (info self) = Some e → endpoint_ok e;
  pr_keepalive : ∀ n, keepalive (info self) = Some n → is_u16 n;
  pr_allowed : Forall (fun '(ip, mask) => ip_valid ip ∧ is_u32 mask) (allowed_ips (info self));
  pr_counters : is_u64 (tx_bytes self) ∧ is_u64 (rx_bytes self);
  pr_time : as_secs (wall - Timestamp.elapsed now (handshake_completed (timers self))) < 2 ^ 64;
}.

(** The peer has no IPv6 endpoint. *)
Definition reads_back (self : Peer) : bool :=
  match Endpoint.ip <$> endpoint (info self) with Some (IpV6 _) => false | _ => true end.

(** The configuration as it is read back: the source address the kernel chose
    for the endpoint is not part of the text. *)
Definition reread (i : PeerInfo) : PeerInfo :=
  set_endpoint ((fun e => Endpoint.from_socket_addr (Endpoint.deref e)) <$> endpoint i) i.

Lemma from_items_app a : ∀ b p, from_items (a ++ b) p = (let? q := from_items a p in from_items b q).
Proof.
  induction a as [|[k v] a IH]; intros b p; [done|]. cbn [app from_items].
  destruct (from_item k v p); simpl; [apply IH|done..].
Qed.

Lemma from_hex_printed k : key_ok k → from_hex32 (hex_encode k) = Ok k.
Proof. intros []. by apply from_hex32_encode. Qed.

Lemma texty_hex k : key_ok k → Forall texty (hex_encode k).
Proof.
  intros [Hk _]. eapply Forall_impl; [by apply hex_encode_chars|]. unfold texty, LF, EQUALS. simpl. lia.
Qed.

(** A peer whose lines are being read. *)
Definition reading (evs : list UpdateEvent) (i : PeerInfo) : progress := mkProgress evs true false false i.

(** What the printed lines of one field do to the peer being read. *)
Definition psk_items (o : option bytes) : list (bytes * bytes) :=
  match o with Some k => [(str_bytes "preshared_key", hex_encode k)] | None => [] end.
Definition endpoint_items (o : option Endpoint.t) : list (bytes * bytes) :=
  match o with
  | Some e => [(str_bytes "endpoint", print_ip (Endpoint.ip e) ++ [COLON] ++ to_string (Endpoint.port e))]
  | None => []
  end.
Definition keepalive_items (o : option Z) : list (bytes * bytes) :=
  match o with Some n => [(str_bytes "persistent_keepalive_interval", to_string n)] | None => [] end.

Lemma from_psk o evs k : (∀ x, o = Some x → key_ok x) →
  from_items (psk_items o) (reading evs {| pub_key := k; psk := None; endpoint := None; allowed_ips := []; keepalive := None |}) =
  Ok (reading evs {| pub_key := k; psk := o; endpoint := None; allowed_ips := []; keepalive := None |}).
Proof.
  intros Ho. destruct o as [x|]; [|done]. cbn [psk_items from_items].
  change (from_item (str_bytes "preshared_key") ?v (reading evs ?i)) with
    (let? x := from_hex32 v in
     Ok (reading evs {| pub_key := k; psk := Some x; endpoint := None; allowed_ips := []; keepalive := None |})).
  by rewrite from_hex_printed by auto.
Qed.

Lemma from_endpoint o evs k ps :
  (∀ e, o = Some e → endpoint_ok e) → match Endpoint.ip <$> o with Some (IpV6 _) => false | _ => true end = true →
  from_items (endpoint_items o) (reading evs {| pub_key := k; psk := ps; endpoint := None; allowed_ips := []; keepalive := None |}) =
  Ok (reading evs {| pub_key := k; psk := ps; endpoint := (fun e => Endpoint.from_socket_addr (Endpoint.deref e)) <$> o;
                     allowed_ips := []; keepalive := None |}).
Proof.
  intros Ho H4. destruct o as [e|]; [|done]. destruct (Ho e eq_refl) as [Hip Hport]. cbn [endpoint_items from_items].
  change (from_item (str_bytes "endpoint") ?v (reading evs ?i)) with
    (let? addr := parse_socket_addr v in
     Ok (reading evs {| pub_key := k; psk := ps; endpoint := Some (Endpoint.from_socket_addr addr); allowed_ips := []; keepalive := None |})).
  unfold Endpoint.ip, Endpoint.port in *. cbn [fmap option_fmap option_map] in *.
  destruct (Endpoint.deref e) as [[a|a] port]; [|done]. cbn [sock_ip sock_port ip_valid] in *.
  by rewrite parse_print_socket4 by lia.
Qed.

Lemma from_keepalive o evs k ps e : (∀ n, o = Some n → is_u16 n) →
  from_items (keepalive_items o) (reading evs {| pub_key := k; psk := ps; endpoint := e; allowed_ips := []; keepalive := None |}) =
  Ok (reading evs {| pub_key := k; psk := ps; endpoint := e; allowed_ips := []; keepalive := o |}).
Proof.
  intros Ho. destruct o as [n|]; [|done]. specialize (Ho n eq_refl). unfold is_u16 in Ho. cbn [keepalive_items from_items].
  change (from_item (str_bytes "persistent_keepalive_interval") ?v (reading evs ?i)) with
    (let? n := parse_uint 65535 v in
     Ok (reading evs {| pub_key := k; psk := ps; endpoint := e; allowed_ips := []; keepalive := Some n |})).
  by rewrite parse_to_string by lia.
Qed.

Lemma parse_printed_allowed ip mask : ip_valid ip → is_u32 mask →
  parse_allowed_ip (print_ip ip ++ [SLASH] ++ to_string mask) = Ok (ip, mask).
Proof.
  intros Hip Hm. unfold is_u32 in Hm. unfold parse_allowed_ip. cbn [app].
  rewrite split_find_app by (apply plain_not_in; [apply plain_ip|auto]). cbn [ok_or bind_res].
  rewrite parse_print_ip by done. cbn [bind_res].
  rewrite slice_from_Ok by (simpl; lia). cbn [bind_res].
  change (drop 1 (SLASH :: ?x)) with x.
  by rewrite parse_to_string by lia.
Qed.

Lemma from_allowed ips : ∀ evs i,
  Forall (fun '(ip, mask) => ip_valid ip ∧ is_u32 mask) ips →
  from_items ((fun '(ip, cidr) => (str_bytes "allowed_ip", print_ip ip ++ [SLASH] ++ to_string cidr)) <$> ips) (reading evs i) =
  Ok (reading evs {| pub_key := pub_key i; psk := psk i; endpoint := endpoint i; allowed_ips := allowed_ips i ++ ips; keepalive := keepalive i |}).
Proof.
  induction ips as [|[ip mask] ips IH]; intros evs i Hips.
  - rewrite app_nil_r. by destruct i.
  - apply Forall_cons in Hips as [[Hip Hm] Hips]. cbn [fmap list_fmap from_items].
    change (from_item (str_bytes "allowed_ip") ?v (reading evs i)) with
      (let? ip := parse_allowed_ip v in
       Ok (reading evs {| pub_key := pub_key i; psk := psk i; endpoint := endpoint i; allowed_ips := allowed_ips i ++ [ip]; keepalive := keepalive i |})).
    rewrite parse_printed_allowed by done. cbn [bind_res]. rewrite IH by done. simpl. by rewrite <-app_assoc.
Qed.

(** An IPv6 endpoint is printed without the brackets its syntax needs: the
    lines of such a peer are refused when they are sent back. *)
Lemma config_ipv6_endpoint_refused e p :
  ip_valid (Endpoint.ip e) → (∃ a, Endpoint.ip e = IpV6 a) →
  is_err (from_items (endpoint_items (Some e)) p) = true.
Proof.
  intros Hv [a Ha]. cbn [endpoint_items from_items]. rewrite Ha in Hv |- *.
  pose proof (parse_print_socket6 a (Endpoint.port e) Hv) as Hs.
  change (from_item (str_bytes "endpoint") ?v p) with
    (let? addr := parse_socket_addr v in
     Ok (with_info (set_endpoint (Some (Endpoint.from_socket_addr addr)) (pinfo p)) p)).
  by destruct (parse_socket_addr (print_ip (IpV6 a) ++ [COLON] ++ to_string (Endpoint.port e))).
Qed.
(** The lines of a peer, read back: they end the peer before and start this
    one; those of an IPv6 endpoint are refused. *)
Lemma peer_items_from now wall self p :
  printable now wall self →
  if reads_back self
  then from_items (peer_items now wall self) p = Ok (reading (events p ++ flush_peer p) (reread (info self)))
  else is_err (from_items (peer_items now wall self) p) = true.
Proof.
  intros Hp. unfold peer_items. rewrite !from_items_app. cbn [from_items].
  change (from_item (str_bytes "public_key") ?v p) with
    (let? k := from_hex32 v in
     Ok (reading (events p ++ flush_peer p) {| pub_key := k; psk := None; endpoint := None; allowed_ips := []; keepalive := None |})).
  rewrite from_hex_printed by apply Hp. cbn [bind_res].
  destruct Hp as [_ Hpsk He Hka Hips _ _].
  fold (psk_items (psk (info self))) (endpoint_items (endpoint (info self))) (keepalive_items (keepalive (info self))).
  rewrite from_items_app, from_psk by done. cbn [bind_res]. rewrite from_items_app. unfold reads_back.
  destruct (match Endpoint.ip <$> endpoint (info self) with Some (IpV6 _) => false | _ => true end) eqn:H4.
  - rewrite from_endpoint by done. cbn [bind_res].
    rewrite from_items_app, from_keepalive by done. cbn [bind_res]. rewrite from_items_app, from_allowed by done. cbn [bind_res].
    destruct (Timestamp.is_set _); [|done]. by destruct (0 <=? _).
  - destruct (endpoint (info self)) as [e|]; [|done]. simpl in H4.
    assert (is_err (from_items (endpoint_items (Some e)) (reading (events p ++ flush_peer p)
      {| pub_key := pub_key (info self); psk := psk (info self); endpoint := None; allowed_ips := []; keepalive := None |})) = true) as Hr.
    { apply config_ipv6_endpoint_refused; [by apply He|]. destruct (Endpoint.ip e); [done|eauto]. }
    by destruct (from_items (endpoint_items (Some e)) _).
Qed.

(** Every line printed is text. *)
Lemma texty_number n : is_u64 n → Forall texty (to_string n).
Proof. intros Hn. by apply plain_texty, plain_to_string. Qed.

Lemma texty_char_cons c b : texty c → Forall texty b → Forall texty ([c] ++ b).
Proof. intros. by apply Forall_cons. Qed.

Ltac texty_key := cbn [fst snd]; refine (bool_decide_eq_true_1 _ _); vm_cast_no_check (eq_refl true).

Lemma texty_peer_items now wall self : printable now wall self → Forall item_texty (peer_items now wall self).
Proof.
  intros [Hk Hpsk He Hka Hips [Htx Hrx] Htime]. unfold peer_items.
  repeat (apply Forall_app; split).
  - apply Forall_singleton. split; [texty_key|by apply texty_hex].
  - destruct (psk (info self)); [|done]. apply Forall_singleton. split; [texty_key|by apply texty_hex; auto].
  - destruct (endpoint (info self)) as [e|]; [|done]. destruct (He e eq_refl) as [_ Hport].
    apply Forall_singleton. split; [texty_key|]. apply Forall_app. split; [apply plain_texty, plain_ip|].
    apply texty_char_cons; [done|]. apply texty_number. unfold is_u64. lia.
  - destruct (keepalive (info self)) as [n|]; [|done]. specialize (Hka n eq_refl). apply Forall_singleton.
    split; [texty_key|]. apply texty_number. unfold is_u16, is_u64 in *. lia.
  - apply Forall_fmap. eapply Forall_impl; [exact Hips|]. intros [ip mask] [_ Hm]. split; [texty_key|].
    apply Forall_app. split; [apply plain_texty, plain_ip|]. apply texty_char_cons; [done|].
    apply texty_number. unfold is_u32, is_u64 in *. lia.
  - apply Forall_cons. split; [|apply Forall_singleton]; (split; [texty_key|by apply texty_number]).
  - destruct (Timestamp.is_set _); [|done]. destruct (0 <=? _) eqn:E; [|done]. apply Z.leb_le in E.
    apply Forall_cons. split; [|apply Forall_singleton]; (split; [texty_key|]); apply texty_number; unfold is_u64.
    + split; [apply Z.div_pos; done|done].
    + unfold subsec_nanos. pose proof (Z.mod_pos_bound (wall - Timestamp.elapsed now (handshake_completed (timers self))) NANOS ltac:(done)).
      unfold NANOS in *. lia.
Qed.

(** The interface as `get` prints it. *)
Definition interface_ok (i : InterfaceInfo) : Prop :=
  (∀ k, if_private_key i = Some k → key_ok k) ∧ (∀ p, if_listen_port i = Some p → is_u16 p).

Definition interface_events (i : InterfaceInfo) : list UpdateEvent :=
  option_list (Ev_PrivateKey <$> if_private_key i) ++ option_list (Ev_ListenPort <$> if_listen_port i).

Lemma texty_interface_items i : interface_ok i → Forall item_texty (interface_items i).
Proof.
  intros [Hk Hp]. unfold interface_items. apply Forall_app. split.
  - destruct (if_private_key i); [|done]. apply Forall_singleton. split; [texty_key|by apply texty_hex; auto].
  - destruct (if_listen_port i) as [n|]; [|done]. specialize (Hp n eq_refl). apply Forall_singleton.
    split; [texty_key|]. apply texty_number. unfold is_u16, is_u64 in *. lia.
Qed.

Lemma interface_items_from i : interface_ok i →
  from_items (interface_items i) start = Ok (mkProgress (interface_events i) false false false PeerInfo_default).
Proof.
  intros [Hk Hp]. unfold interface_items, interface_events. rewrite from_items_app.
  assert (∀ k, if_private_key i = Some k →
            from_items [(str_bytes "private_key", hex_encode k)] start = Ok (push (Ev_PrivateKey k) start)) as H1.
  { intros k E. cbn [from_items]. change (from_item (str_bytes "private_key") ?v start) with
      (let? k := from_hex32 v in Ok (push (Ev_PrivateKey k) start)). by rewrite from_hex_printed by auto. }
  assert (∀ p n, if_listen_port i = Some n →
            from_items [(str_bytes "listen_port", to_string n)] p = Ok (push (Ev_ListenPort n) p)) as H2.
  { intros p n E. specialize (Hp n E). unfold is_u16 in Hp. cbn [from_items].
    change (from_item (str_bytes "listen_port") ?v p) with
      (let? n := parse_uint 65535 v in Ok (push (Ev_ListenPort n) p)). by rewrite parse_to_string by lia. }
  destruct (if_private_key i) as [k|]; [rewrite H1 by done; cbn [bind_res]|change (from_items [] start) with (Ok start : res progress); cbn [bind_res]];
    (destruct (if_listen_port i) as [n|]; [rewrite H2 by done|]); done.
Qed.

(** The events of a list of peers. *)
Definition peer_events (peers : list Peer) : list UpdateEvent :=
  (fun p => Ev_UpdatePeer (reread (info p)) false) <$> peers.

Lemma peers_from now wall peers : ∀ p,
  Forall (printable now wall) peers →
  if forallb reads_back peers
  then ∃ q, from_items (mjoin (peer_items now wall <$> peers)) p = Ok q ∧
            events q ++ flush_peer q = (events p ++ flush_peer p) ++ peer_events peers
  else is_err (from_items (mjoin (peer_items now wall <$> peers)) p) = true.
Proof.
  induction peers as [|self peers IH]; intros p Hp; [exists p; by rewrite app_nil_r|].
  apply Forall_cons in Hp as [Hself Hp]. cbn [fmap list_fmap mjoin list_join forallb]. rewrite from_items_app.
  pose proof (peer_items_from now wall self p Hself) as Hf. destruct (reads_back self); cbn [andb].
  2: { by destruct (from_items (peer_items now wall self) p). }
  rewrite Hf. cbn [bind_res]. specialize (IH (reading (events p ++ flush_peer p) (reread (info self))) Hp).
  destruct (forallb reads_back peers); [|exact IH]. destruct IH as (q & Hq & E).
  exists q. split; [done|]. rewrite E. simpl. by rewrite <-!app_assoc.
Qed.

(** The reply to `get` is the text of its lines. *)
Definition reply_items (now : Instant) (wall : Duration) (i : InterfaceInfo) (peers : list Peer) : list (bytes * bytes) :=
  interface_items i ++ mjoin (peer_items now wall <$> peers) ++ [(str_bytes "errno", str_bytes "0")].

Lemma mjoin_config_strings now wall peers :
  mjoin (to_config_string now wall <$> peers) = unlines (line_of <$> mjoin (peer_items now wall <$> peers)).
Proof.
  induction peers as [|self peers IH]; [done|]. rewrite !fmap_cons. change (mjoin (?x :: ?y)) with (x ++ mjoin y). rewrite fmap_app, unlines_app, <-IH. done.
Qed.

Lemma get_reply_lines now wall i peers :
  get_reply now wall i peers = unlines (line_of <$> reply_items now wall i peers) ++ [LF].
Proof.
  unfold get_reply, reply_items. rewrite !fmap_app, !unlines_app, <-!app_assoc, mjoin_config_strings. done.
Qed.

(** C30.  `get` and `set` agree but for IPv6 endpoints: the reply to `get`, sent
    back behind the line `set=1`, is read as a `set` command with the interface's
    key and port and, for every peer in order, an update with the peer's
    configuration (its key, psk, endpoint address, keep-alive interval and
    allowed IPs), when no peer has an IPv6 endpoint; when one has, the command is
    an error.  The source address kept with an endpoint is not printed, and
    neither is `fwmark`. *)
Theorem config_get_set_roundtrip now wall i peers :
  interface_ok i → Forall (printable now wall) peers →
  let text := str_bytes "set=1" ++ [LF] ++ get_reply now wall i peers in
  if forallb reads_back peers
  then decode text = ([LF], Ok (Some (Command_Set 1 (interface_events i ++ peer_events peers))))
  else ∃ err, decode text = ([LF], Err err).
Proof.
  intros Hi Hp. cbv zeta. rewrite get_reply_lines.
  change (str_bytes "set=1" ++ [LF] ++ unlines ?ls ++ [LF]) with
    (unlines (line_of (str_bytes "set", str_bytes "1") :: ls) ++ [LF]).
  rewrite <-(fmap_cons line_of), decode_texty.
  - unfold command_of, from. cbn -[from_items reply_items events start]. unfold reply_items.
    rewrite from_items_app, interface_items_from by done. cbn [bind_res]. rewrite from_items_app.
    pose proof (peers_from now wall peers (mkProgress (interface_events i) false false false PeerInfo_default) Hp) as Hf.
    destruct (forallb reads_back peers).
    + destruct Hf as (q & -> & E). f_equal.
      cbn [bind_res]. change (from_items [(str_bytes "errno", str_bytes "0")] q) with (Ok q : res progress).
      cbn [bind_res]. rewrite E. cbn [events flush_peer pending_peer]. by rewrite app_nil_r.
    + destruct (from_items (mjoin (peer_items now wall <$> peers)) _); try done. by eexists.
  - apply Forall_cons. split; [split; texty_key|]. unfold reply_items. rewrite !Forall_app. split_and!.
    + by apply texty_interface_items.
    + induction Hp as [|self peers Hs _ IH]; [done|]. cbn [fmap list_fmap mjoin list_join].
      apply Forall_app. split; [by apply texty_peer_items|exact IH].
    + apply Forall_singleton. split; texty_key.
Qed.

End roundtrip.

(* ------------------------------------------------------------------ *)
(** ** Instances of the theorems *)

(** Hexadecimal text. *)
Definition hex_chars (b : bytes) : bytes := b ≫= fun x => [char_of (x / 16); char_of (x mod 16)].
Fixpoint hex_read (s : bytes) : option bytes :=
  match s with
  | [] => Some []
  | [_] => None
  | hi :: lo :: s' =>
      match digit_of 16 hi, digit_of 16 lo, hex_read s' with
      | Some h, Some l, Some b => Some (h * 16 + l :: b)
      | _, _, _ => None
      end
  end.
Definition refHex : Hex := {|
  hex_encode := hex_chars;
  from_hex32 := fun s =>
    match hex_read s with
    | Some b => if bool_decide (length b = 32%nat) then Ok b else Err "invalid string length"
    | None => Err "invalid character"
    end;
|}.

Lemma hex_read_chars b : is_bytes b → hex_read (hex_chars b) = Some b.
Proof.
  induction 1 as [|x b Hx _ IH]; [done|]. change (hex_chars (x :: b)) with ([char_of (x / 16); char_of (x mod 16)] ++ hex_chars b).
  cbn [app hex_read]. unfold is_u8 in Hx.
  rewrite !digit_char, IH by (done || (split; [apply Z.div_pos; lia|apply Z.div_lt_upper_bound; lia]) || (apply Z.mod_pos_bound; lia)).
  do 2 f_equal. rewrite (Z.div_mod x 16) at 3 by lia. lia.
Qed.

Lemma digit_of_range r c d : digit_of r c = Some d → 0 ≤ d < r.
Proof.
  unfold digit_of. destruct ((48 <=? c) && (c <=? 57)) eqn:E1; [|destruct ((97 <=? c) && (c <=? 122)) eqn:E2;
    [|destruct ((65 <=? c) && (c <=? 90)) eqn:E3; [|done]]].
  all: match goal with |- (if ?b then _ else _) = _ → _ => destruct b eqn:E end; [|done]; intros [= <-]; lia.
Qed.

Lemma hex_read_bytes : ∀ n s b, (length s ≤ n)%nat → hex_read s = Some b → is_bytes b.
Proof.
  induction n as [|n IH]; intros s b Hn.
  - destruct s; [|simpl in Hn; lia]. intros [= <-]. by apply Forall_nil.
  - destruct s as [|h [|l s]]; [intros [= <-]; by apply Forall_nil|done|]. cbn [hex_read]. simpl in Hn.
    destruct (digit_of 16 h) as [dh|] eqn:Eh; [|done]. destruct (digit_of 16 l) as [dl|] eqn:El; [|done].
    destruct (hex_read s) as [b'|] eqn:E; [|done]. intros [= <-]. apply digit_of_range in Eh, El.
    apply Forall_cons. split; [unfold is_u8; lia|]. apply (IH s); [lia|done].
Qed.

#[export] Instance refHexLaws : HexLaws refHex.
Proof.
  split.
  - intros b Hb. simpl. induction Hb as [|x b Hx _ IH]; [by apply Forall_nil|].
    change (hex_chars (x :: b)) with ([char_of (x / 16); char_of (x mod 16)] ++ hex_chars b).
    assert (∀ d, 0 ≤ d < 16 → 48 ≤ char_of d ≤ 57 ∨ 97 ≤ char_of d ≤ 102) as Hc.
    { intros d Hd. unfold char_of. destruct (d <? 10) eqn:E; lia. }
    unfold is_u8 in Hx. apply Forall_app. split; [|exact IH].
    apply Forall_cons; split; [|apply Forall_singleton]; apply Hc.
    + split; [apply Z.div_pos; lia|apply Z.div_lt_upper_bound; lia].
    + apply Z.mod_pos_bound; lia.
  - intros b Hb Hl. simpl. rewrite hex_read_chars by done. by rewrite bool_decide_eq_true_2.
  - intros s. simpl. destruct (hex_read s) as [b|] eqn:E; [|by right]. case_bool_decide; [|by right].
    left. exists b. split_and!; [done..|]. by eapply hex_read_bytes.
Qed.

Section witnesses.
#[local] Existing Instance refHex.
#[local] Existing Instance refBlake2.
#[local] Existing Instance refSnow.
Import ConfigText.

(** A `get`, and another one on the same connection. *)
Definition get_text : bytes := str_bytes "get=1" ++ [LF; LF].

Lemma config_second_command_panics_instance : is_panic (decode ([LF] ++ get_text)).2 = true.
Proof. apply (config_second_command_panics get_text [LF] (Ok (Some (Command_Get 1))) get_text); by vm_compute. Qed.

(** A command that updates one peer and removes another. *)
Definition peer_a : bytes := replicate 32 17.
Definition peer_b : bytes := replicate 32 202.
Definition set_items : list (bytes * bytes) :=
  [(str_bytes "listen_port", str_bytes "51820"); (str_bytes "public_key", hex_chars peer_a);
   (str_bytes "allowed_ip", str_bytes "10.0.0.0/8"); (str_bytes "public_key", hex_chars peer_b);
   (str_bytes "remove", str_bytes "true")].
Definition set_events : list UpdateEvent :=
  [Ev_ListenPort 51820;
   Ev_UpdatePeer {| pub_key := peer_a; psk := None; endpoint := None; allowed_ips := [(IpV4 167772160, 8)]; keepalive := None |} false;
   Ev_RemovePeer peer_b].

(** An interface with a peer that has every field. *)
Definition text_interface : InterfaceInfo := {|
  if_private_key := Some (replicate 32 7); if_pub_key := None; if_listen_port := Some 51820; if_fwmark := None |}.
Definition text_peer : Peer := PeerOps.new {|
  pub_key := peer_a; psk := Some peer_b;
  endpoint := Some (Endpoint.V4 {| sock_ip := IpV4 3232235777; sock_port := 51820 |} None);
  allowed_ips := [(IpV4 167772160, 8); (IpV6 (2 ^ 125), 3)]; keepalive := Some 25 |}.

Lemma text_peer_printable : printable 5 (secs 1600000000) text_peer.
Proof.
  split; try by_decide; try (intros ? [= <-]; by_decide).
Qed.

Lemma config_get_set_roundtrip_witness :
  decode (str_bytes "set=1" ++ [LF] ++ get_reply 5 (secs 1600000000) text_interface [text_peer]) =
    ([LF], Ok (Some (Command_Set 1 (interface_events text_interface ++ peer_events [text_peer])))).
Proof.
  refine (config_get_set_roundtrip 5 (secs 1600000000) text_interface [text_peer] _ _).
  - split; intros ? [= <-]; by_decide.
  - apply Forall_singleton. exact text_peer_printable.
Defined.
End witnesses.
