(* ===== verification/System.v ===== *)
(** * The running system

    The reactor (src/interface/mod.rs) interleaves the configuration service,
    the waiting timers, the tunnel and the polls of the peer server on one
    thread.  [system_step] is one turn of it, with any datagrams, events and
    answers of the environment; the one condition is that the masks of allowed
    IPs fit their addresses, since the lookup tables are not defined on others.
    [config_ok] holds in every state it reaches.

    The session table can go stale: an invalid handshake response destroys a
    session and leaves its index behind (src/peer.rs:321), and when the peer is
    then removed the entry keeps a peer alive that is not configured.  The runs
    of [exact_step] are those in which no peer is removed with a stale index,
    and `Weak::upgrade` succeeds for configured peers only; in them the table
    stays exact. *)

From S2P Require Import Prelude Crates Reference RefSnow AntiReplay Types Timestamp Message XChaCha RateLimiter Cookie Router Peer PeerTransport PeerSessions Timer World PeerServer ServerInvariant ServerFrame Config.

Section system.
Context {BO : ByteOrder} {BOL : ByteOrderLaws BO} {B : Blake2} {S : Subtle} {A : Aead} {R : Rips} {T : Treebitmap}
        {TL : TreebitmapLaws T} {X : X25519} {SN : Snow}.
Import PeerOps PeerServer Config.

Inductive system_step : World → World → Prop :=
| step_set items w : Forall masks_fit items → system_step w (handle_set items w).1
| step_timer now k w : system_step w (set_timer (Timer.fire now k (timer w)) w)
| step_tunnel packet w : system_step w (set_outgoing (outgoing w ++ [packet]) w)
| step_poll e ingress w : system_step w (poll e ingress w).1.

(** The states a new server gets to. *)
Definition system_reachable (t : Instant) (draws : list Z) : World → Prop := rtc system_step (World_new t draws).

(** The updates of a command that remove no peer with a stale index, each where
    it is applied. *)
Fixpoint clean_set (items : list UpdateEvent) (w : World) : Prop :=
  match items with
  | [] => True
  | item :: items' =>
      clean item w ∧
      match handle_update item w with
      | (w', Ok (Some msg)) => clean_set items' (set_channel (channel w' ++ [msg]) w')
      | (w', Ok None) => clean_set items' w'
      | _ => True
      end
  end.

Inductive exact_step : World → World → Prop :=
| exact_set items w : Forall masks_fit items → clean_set items w → exact_step w (handle_set items w).1
| exact_timer now k w : exact_step w (set_timer (Timer.fire now k (timer w)) w)
| exact_tunnel packet w : exact_step w (set_outgoing (outgoing w ++ [packet]) w)
| exact_poll e ingress w :
    env_ok (pubkey_map (state w)) e → Forall (fun '(_, packet) => is_bytes packet) ingress →
    exact_step w (poll e ingress w).1.
Definition exact_reachable (t : Instant) (draws : list Z) : World → Prop := rtc exact_step (World_new t draws).

Lemma exact_system w w' : exact_step w w' → system_step w w'.
Proof. intros [items w0 Hm _|now k w0|packet w0|e ingress w0 _ _]; by constructor. Qed.

(** ** What holds whatever happens *)

Lemma config_ok_new t draws : config_ok (World_new t draws).
Proof.
  split; try done. exists ∅. split; [apply represents_default|]. intros k p Hk. by rewrite lookup_empty in Hk.
Qed.

(** It reads the heap and the shared state only. *)
Lemma config_ok_frame w w' :
  heap w' = heap w → state w' = state w → next_peer w' = next_peer w → config_ok w → config_ok w'.
Proof.
  intros Hh Hs Hn [H1 (m & Hr & Hm) H3 H4 H5 H6 H7]. split; rewrite ?Hh, ?Hs, ?Hn; try done.
  exists m. unfold routes_ok. by rewrite Hs, Hh.
Qed.

Lemma config_ok_set items : ∀ w, config_ok w → Forall masks_fit items → config_ok (handle_set items w).1.
Proof.
  induction items as [|item items IH]; intros w Hw Hok; [done|]. apply Forall_cons in Hok as [Hok Hrest].
  cbn [handle_set]. pose proof (update_config item w Hw Hok) as Hw'.
  destruct (handle_update item w) as [w' [[msg|]| | |]]; try done; [|by apply IH].
  apply IH; [|done]. by apply (config_ok_frame w').
Qed.

(** A poll leaves the configuration of the peers alone. *)
Lemma poll_frame e ingress w :
  config_ok w →
  framed (pubkey_map (state w)) (router (state w)) (fun p => static <$> heap w !! p) (interface_info (state w)) (next_peer w)
    (poll e ingress w).1.
Proof. intros Hw. apply frame_poll. split; try done. intros i p [x Hx]%(cf_index _ Hw). simpl. by rewrite Hx. Qed.

Lemma config_ok_poll e ingress w : config_ok w → config_ok (poll e ingress w).1.
Proof.
  intros Hw. destruct (poll_frame e ingress w Hw) as [H1 H2 HI HN H0 H3]. destruct Hw as [Hk (m & Hr & Hm) Hv _ Hf Hl Hself].
  set (w' := (poll e ingress w).1) in *.
  assert (∀ p self', heap w' !! p = Some self' → ∃ self, heap w !! p = Some self ∧ static self' = static self) as Hback.
  { intros p self' Hp. specialize (H0 p). rewrite Hp in H0. destruct (heap w !! p) as [self|]; [|done].
    exists self. by apply (inj Some) in H0. }
  assert (∀ p self, heap w !! p = Some self → ∃ self', heap w' !! p = Some self' ∧ static self' = static self) as Hforth.
  { intros p self Hp. specialize (H0 p). rewrite Hp in H0. destruct (heap w' !! p) as [self'|]; [|done].
    exists self'. by apply (inj Some) in H0. }
  assert (∀ a b : Peer, static a = static b → allowed_ips (info a) = allowed_ips (info b) ∧ pub_key (info a) = pub_key (info b)) as Hst.
  { intros a b Hab. exact (conj (f_equal allowed_ips Hab) (f_equal pub_key Hab)). }
  split; rewrite ?H1, ?HI, ?HN; try done.
  - intros pk p Hp. destruct (Hk _ _ Hp) as (self & Hs & <-). destruct (Hforth _ _ Hs) as (self' & Hs' & E).
    exists self'. split; [done|]. by apply Hst.
  - exists m. unfold routes_ok. rewrite H1, H2. split; [done|]. intros k p Hkp.
    destruct (Hm _ _ Hkp) as (Hreg & self & ip & len & Hp & Hin & Hkey). split; [done|].
    destruct (Hforth _ _ Hp) as (self' & Hp' & E). exists self', ip, len. by rewrite (proj1 (Hst _ _ E)).
  - intros p self' Hp Hreg. destruct (Hback _ _ Hp) as (self & Hp0 & E). rewrite (proj1 (Hst _ _ E)). by eapply Hv.
  - intros i p Hi. apply H3 in Hi. simpl in Hi. rewrite <-H0 in Hi. by apply fmap_is_Some in Hi.
  - intros p self' Hp. destruct (Hback _ _ Hp) as (self & Hp0 & _). by eapply Hf.
Qed.

Lemma config_ok_step w w' : system_step w w' → config_ok w → config_ok w'.
Proof.
  intros [items w0 H|now k w0|packet w0|e ingress w0] Hw.
  - by apply config_ok_set.
  - by apply (config_ok_frame w0).
  - by apply (config_ok_frame w0).
  - by apply config_ok_poll.
Qed.

Lemma config_ok_steps w w' : rtc system_step w w' → config_ok w → config_ok w'.
Proof. induction 1 as [|w0 w1 w2 Hst _ IH]; [done|]. intros Hw. by eapply IH, config_ok_step. Qed.

(** ** The runs with exact tables *)

Lemma world_ok_new t draws : world_ok (World_new t draws).
Proof. split; try done. intros ip p Hp. by apply (config_route _ ip p (config_ok_new t draws)). Qed.

Lemma world_ok_frame w w' :
  heap w' = heap w → state w' = state w → next_peer w' = next_peer w → world_ok w → world_ok w'.
Proof. intros Hh Hs Hn Hw. by eapply server_ok_world, server_ok_frame. Qed.

Lemma world_ok_set items : ∀ w,
  config_ok w → world_ok w → Forall masks_fit items → clean_set items w → world_ok (handle_set items w).1.
Proof.
  induction items as [|item items IH]; intros w Hw Hx Hm Hc; [done|]. apply Forall_cons in Hm as [Hm Hms].
  cbn [handle_set clean_set] in *. destruct Hc as [Hc Hcs]. pose proof (update_config item w Hw Hm) as Hw'.
  pose proof (proj2 (update_exact item w Hw Hx Hm) Hc) as Hx'.
  destruct (handle_update item w) as [w' [[msg|]| | |]]; try done; [|by apply IH].
  apply IH; [by apply (config_ok_frame w')|by apply (world_ok_frame w')|done|done].
Qed.

Lemma world_ok_step w w' : exact_step w w' → config_ok w → world_ok w → world_ok w'.
Proof.
  intros [items w0 Hm Hc|now k w0|packet w0|e ingress w0 He Hb] Hw Hx.
  - by apply world_ok_set.
  - by apply (world_ok_frame w0).
  - by apply (world_ok_frame w0).
  - eapply server_ok_world. by apply keeps_poll.
Qed.

(** C5.  Every state the system reaches from its start, by configuration
    commands whose masks fit, timers that run out, packets from the tunnel and
    polls of the server with whatever datagrams and answers of the environment,
    in any order, has a consistent configuration: every route leads to a
    configured peer that lists it, the keys of `pubkey_map` are the peers' keys,
    the session table mentions peers that exist, the limit on peers holds and no
    peer is the interface itself.  In a run in which no peer is removed while a
    stale index is left for it, and `Weak::upgrade` succeeds for configured
    peers only, the session table is exact as well. *)
Theorem system_invariant t draws w :
  system_reachable t draws w → config_ok w ∧ (exact_reachable t draws w → world_ok w).
Proof.
  intros H. split; [exact (config_ok_steps _ _ H (config_ok_new t draws))|]. clear H. intros H.
  cut (config_ok w ∧ world_ok w); [by intros []|].
  pose proof (conj (config_ok_new t draws) (world_ok_new t draws)) as H0. unfold exact_reachable in H.
  revert H0. induction H as [|w0 w1 w2 Hst _ IH]; [done|]. intros [Hw Hx]. apply IH.
  split; [by eapply config_ok_step, Hw; apply exact_system|by eapply world_ok_step].
Qed.
End system.

(* ------------------------------------------------------------------ *)
(** ** Instances of the theorems *)
Section witnesses.
#[local] Existing Instance refByteOrder.
#[local] Existing Instance refByteOrderLaws.
#[local] Existing Instance refBlake2.
#[local] Existing Instance refAead.
#[local] Existing Instance refSubtle.
#[local] Existing Instance refX25519.
#[local] Existing Instance refSnow.
#[local] Existing Instance refRips.
#[local] Existing Instance refTreebitmap.
#[local] Existing Instance refTreebitmapLaws.
Import PeerServer Config.

(** A command that sets the private key and adds a peer. *)
Definition sys_key : bytes := replicate 32 1.
Definition sys_peer : PeerInfo := {|
  pub_key := sys_key; psk := None; endpoint := Some demo_addr;
  allowed_ips := [(IpV4 167772160, 8)]; keepalive := Some 25 |}.
Definition sys_start : World := World_new 0 [7; 8; 9].
Definition sys_added : World := (handle_update (Ev_UpdatePeer sys_peer false) sys_start).1.

Lemma sys_peer_valid : Routes.valid (allowed_ips sys_peer).
Proof. by_decide. Qed.

Lemma sys_added_ok : config_ok sys_added.
Proof. exact (update_config (Ev_UpdatePeer sys_peer false) sys_start (config_ok_new 0 [7; 8; 9]) sys_peer_valid). Qed.

Lemma config_update_invariant_witness : config_ok sys_added ∧ world_ok sys_added.
Proof.
  destruct (config_update_invariant (Ev_UpdatePeer sys_peer false) sys_start (config_ok_new 0 [7; 8; 9]) sys_peer_valid) as [H1 H2].
  split; [exact H1|exact (proj2 (H2 (world_ok_new 0 [7; 8; 9])) I)].
Defined.

Lemma sys_added_key : pubkey_map (state sys_added) !! sys_key = Some 0%nat.
Proof. vm_cast_no_check (eq_refl (Some 0%nat)). Qed.

Lemma remove_peer_forgets_witness :
  ∃ w', handle_update (Ev_RemovePeer sys_key) sys_added = (w', Ok None) ∧
        (∀ ip, Router.get_peer_from_ip (router (state w')) ip ≠ Some 0%nat).
Proof.
  destruct (remove_peer_forgets sys_key 0%nat sys_added sys_added_ok sys_added_key)
    as (self & w' & _ & H1 & _ & _ & _ & H2 & _).
  exists w'. split; [exact H1|exact H2].
Defined.

(** The command, then a poll that gets a datagram. *)
Definition sys_items : list UpdateEvent := [Ev_PrivateKey (replicate 32 7); Ev_UpdatePeer sys_peer false].
Definition sys_env : Env :=
  mkEnv 5 (secs 1600000000) (zeros 16) (zeros 24) (fun _ => false) true (fun _ => Ok tt) (fun _ => Ok tt) (fun _ => Pending).
Definition sys_set : World := (handle_set sys_items sys_start).1.
Definition sys_polled : World := (poll sys_env [(demo_addr, 1 :: zeros 147)] sys_set).1.

Lemma sys_items_fit : Forall masks_fit sys_items.
Proof. by_decide. Qed.
Lemma sys_items_clean : clean_set sys_items sys_start.
Proof. split; [intros _ p Hp; simpl in Hp; by rewrite lookup_empty in Hp|]. split; exact I. Qed.

Lemma sys_run : system_reachable 0 [7; 8; 9] sys_polled.
Proof. eapply rtc_l; [exact (step_set sys_items sys_start sys_items_fit)|]. apply rtc_once, step_poll. Qed.
Lemma sys_exact_run : exact_reachable 0 [7; 8; 9] sys_polled.
Proof.
  eapply rtc_l; [exact (exact_set sys_items sys_start sys_items_fit sys_items_clean)|].
  apply rtc_once, exact_poll; [by intros p Hp|]. apply Forall_singleton. by_decide.
Qed.

Lemma system_invariant_witness : config_ok sys_polled ∧ world_ok sys_polled.
Proof.
  destruct (system_invariant 0 [7; 8; 9] sys_polled sys_run) as [H1 H2]. split; [exact H1|exact (H2 sys_exact_run)].
Defined.
End witnesses.
