(* ===== verification/Cryptokey.v ===== *)
(** * Cryptokey routing

    The router, the peers and the server together (src/router.rs,
    src/peer.rs:39, src/interface/peer_server.rs): a packet from the tunnel goes
    to the peer that owns its destination and to no other, and a packet from a
    peer is let into the tunnel only with a source address the peer owns. *)

From S2P Require Import Prelude Crates Reference RefSnow AntiReplay Types Timestamp Message XChaCha RateLimiter Cookie Router Peer PeerTransport PeerSessions Timer World PeerServer ServerInvariant ServerFrame Config System.

Section only.
Context {BO : ByteOrder} {B : Blake2} {S : Subtle} {A : Aead} {R : Rips} {T : Treebitmap} {SN : Snow}.
Context (p : peer_id) (self0 : Peer) (w0 : World).
Import PeerOps PeerServer.

(** From [w0], nothing happened but to [p], and nothing was sent but to its
    endpoint. *)
Record only_to (w : World) : Prop := {
  ot_others : ∀ q, q ≠ p → heap w !! q = heap w0 !! q;
  ot_peer : ∃ self, heap w !! p = Some self ∧ info self = info self0;
  ot_wire : ∃ outs, wire w = wire w0 ++ outs ∧ Forall (fun '(ep, _) => endpoint (info self0) = Some ep) outs;
  ot_tunnel : tunnel w = tunnel w0;
}.

Lemma only_frame w w' :
  heap w' = heap w → wire w' = wire w → tunnel w' = tunnel w → only_to w → only_to w'.
Proof. intros E1 E2 E3 []. split; rewrite ?E1, ?E2, ?E3; done. Qed.
Lemma keeps_only {X} (m : M World X) :
  (∀ w, heap (m w).1 = heap w ∧ wire (m w).1 = wire w ∧ tunnel (m w).1 = tunnel w) → keeps only_to m.
Proof. intros H w Hw. destruct (H w) as (? & ? & ?). by apply (only_frame w). Qed.

Definition same_info (self : Peer) : Prop := info self = info self0.

Lemma yields_only {X} (phi : X → Prop) (m : M Peer X) : yields same_info phi m → yields only_to phi (with_peer p m).
Proof.
  intros Hm w Hw. destruct (ot_peer _ Hw) as (self & Hp & Hi). unfold with_peer. rewrite Hp.
  destruct (Hm self Hi) as [H1 H2]. destruct (m self) as [self' r]. split; [|exact H2].
  destruct Hw as [Ho _ Hw Ht]. split; try done; simpl.
  - intros q Hq. rewrite lookup_insert_ne by done. by apply Ho.
  - exists self'. by rewrite lookup_insert_eq.
Qed.
Lemma only_with_peer {X} (m : M Peer X) : keeps same_info m → keeps only_to (with_peer p m).
Proof. intros Hm. eapply yields_keeps, yields_only, keeps_yields, Hm. Qed.

Lemma info_build_macs t input : keeps same_info (build_macs t input).
Proof. intros x Hx. unfold build_macs. by destruct (Generator.build_macs _ _ _). Qed.
Lemma info_install s : keeps same_info (fun x => let '(x', d) := install_next s x in (x', Ok d)).
Proof. intros x Hx. unfold install_next. by destruct (next (sessions x)). Qed.

(** What the peer hands out is for its endpoint. *)
Lemma outgoing_endpoint t packet :
  yields same_info (fun '(ep, _) => endpoint (info self0) = Some ep) (handle_outgoing_transport t packet).
Proof.
  unfold handle_outgoing_transport.
  eapply (yields_bind _ same_info); [by apply yields_get|]. intros self Hself.
  apply yields_any; [apply keeps_lift|]. intros session.
  eapply (yields_bind _ (fun ep => endpoint (info self0) = Some ep)).
  { apply yields_lift. intros ep Hep%ok_or_Ok. by rewrite <-Hself. }
  intros ep Hep. cbv zeta. do 6 (apply yields_any; [apply keeps_lift|intros ?]).
  apply yields_any; [intros x Hx; by destruct (snow_write_message _ _ _)|]. intros written.
  apply yields_any; [by apply keeps_mod|]. intros _. by apply yields_ret.
Qed.

Lemma initiate_endpoint t wall pk i :
  yields same_info (fun '(ep, _, _) => endpoint (info self0) = Some ep) (initiate_new_session t wall pk i).
Proof.
  unfold initiate_new_session.
  eapply (yields_bind _ same_info); [by apply yields_get|]. intros self Hself.
  apply yields_any; [apply keeps_lift|]. intros n. cbv zeta.
  eapply (yields_bind _ (fun ep => endpoint (info self0) = Some ep)).
  { apply yields_lift. intros ep Hep%ok_or_Ok. by rewrite <-Hself. }
  intros ep Hep. do 3 (apply yields_any; [apply keeps_lift|intros ?]).
  destruct (snow_write_message _ _ _) as [n' written].
  do 2 (apply yields_any; [apply keeps_lift|intros ?]). apply yields_any; [apply info_build_macs|]. intros [mac1 mac2].
  do 2 (apply yields_any; [apply keeps_lift|intros ?]). apply yields_any; [apply info_install|]. intros dead. by apply yields_ret.
Qed.

Lemma only_send_to_peer ep out : endpoint (info self0) = Some ep → keeps only_to (send_to_peer (ep, out)).
Proof.
  intros He. unfold send_to_peer. apply keeps_bind; [apply keeps_get|]. intros u. apply keeps_bind; [apply keeps_lift|]. intros _.
  apply keeps_mod. intros w [H1 H2 (outs & H3 & H4) H5]. split; try done. simpl. exists (outs ++ [(ep, out)]).
  rewrite H3, app_assoc. split; [done|]. apply Forall_app. split; [done|by apply Forall_singleton].
Qed.
Lemma only_read_peer {X} q (f : Peer → res X) : keeps only_to (read_peer q f).
Proof. apply keeps_only. intros w. unfold read_peer. by destruct (heap w !! q). Qed.
Lemma only_map_timers f : keeps only_to (map_timers p f).
Proof. by apply only_with_peer, keeps_mod. Qed.
Lemma only_send_after e d m : keeps only_to (send_after e d m).
Proof. apply keeps_only. intros w. unfold send_after. by destruct (Timer.send_after _ _ _ _). Qed.
Lemma only_unused_index : keeps only_to unused_index.
Proof. apply keeps_only. intros w. unfold unused_index. by destruct (draw_index _ _). Qed.
Lemma only_map_state f : keeps only_to (map_state f).
Proof. by apply keeps_only. Qed.
Lemma only_remove_index d : keeps only_to (remove_index d).
Proof. apply keeps_only. intros w. by destruct d. Qed.
Create HintDb only.
#[local] Hint Resolve only_read_peer only_map_timers only_send_after only_unused_index only_map_state only_remove_index : only.

Lemma only_send_handshake_init e : keeps only_to (send_handshake_init e p).
Proof.
  unfold send_handshake_init. do 5 (apply keeps_bind; [first [solve [eauto with only]|keeps_run]|intros ?]).
  eapply keeps_bind_yields; [apply yields_only, initiate_endpoint|]. intros [[ep packet] dead] Hep.
  do 2 (apply keeps_bind; [eauto with only|intros _]). apply keeps_bind; [by apply only_send_to_peer|intros _].
  do 2 (apply keeps_bind; [eauto with only|intros _]). apply keeps_ret.
Qed.

Lemma only_drain_queue e q : keeps only_to (drain_queue e p q).
Proof.
  induction q as [|x q IH]; cbn [drain_queue]; [apply keeps_ret|].
  apply keeps_bind; [by apply only_with_peer, keeps_mod|intros _].
  eapply keeps_bind_yields; [apply yields_only, outgoing_endpoint|]. intros [ep out] Hep.
  apply keeps_bind; [by apply only_send_to_peer|intros _; exact IH].
Qed.

(** The handler, once the peer is found. *)
Lemma only_egress e packet : keeps only_to
  (let! needs_handshake := read_peer p (needs_new_handshake (now e) true) in
   let! _ := with_peer p (modM (queue_egress packet)) in
   let! ready := read_peer p (ready_for_transport (now e)) in
   let! _ := if ready then let! q := read_peer p (fun peer => Ok (outgoing_queue peer)) in drain_queue e p q else retM tt in
   if needs_handshake then let! _ := send_handshake_init e p in retM tt else retM tt).
Proof.
  apply keeps_bind; [eauto with only|]. intros needs.
  apply keeps_bind; [apply only_with_peer, keeps_mod; intros x Hx; unfold queue_egress; by case_match|intros _].
  apply keeps_bind; [eauto with only|]. intros ready. apply keeps_bind; [|intros _].
  - destruct ready; [|apply keeps_ret]. apply keeps_bind; [eauto with only|]. intros q. apply only_drain_queue.
  - destruct needs; [|apply keeps_ret]. apply keeps_bind; [apply only_send_handshake_init|intros _; apply keeps_ret].
Qed.
End only.

Section cryptokey.
Context {BO : ByteOrder} {B : Blake2} {S : Subtle} {A : Aead} {R : Rips} {T : Treebitmap} {TL : TreebitmapLaws T} {SN : Snow}.
Import PeerOps PeerServer.

Lemma only_refl p self w : heap w !! p = Some self → only_to p self w w.
Proof. intros Hp. split; [done|by exists self|exists []; by rewrite app_nil_r|done]. Qed.

(** `Peer::eq` on configured peers. *)
Lemma same_peer_eq w p q :
  config_ok w → registered (pubkey_map (state w)) p → registered (pubkey_map (state w)) q →
  same_peer (heap w) p q = true → p = q.
Proof.
  intros Hw [pk Hp] [pk' Hq] Hsame. destruct (cf_keys _ Hw _ _ Hp) as (a & Ha & <-). destruct (cf_keys _ Hw _ _ Hq) as (b & Hb & <-).
  unfold same_peer in Hsame. rewrite Ha, Hb in Hsame. apply bool_decide_eq_true in Hsame. congruence.
Qed.

(** C31.  Cryptokey routing, in a state with a consistent configuration.  A
    packet from the tunnel whose destination a peer owns, that is, the longest
    prefix of it in the table is one of the peer's allowed IPs, changes no other
    peer and is sent to no other endpoint; one that is not IP or whose
    destination no peer owns is an error that changes nothing.  A decrypted
    packet from a configured peer is let through exactly when it is IP and that
    peer owns its source: `Peer::eq` compares the peers' keys, which are
    different for different peers. *)
Theorem cryptokey_routing e packet w m :
  config_ok w → routes_ok w m →
  (match IpPacket.new (UtunPacket.payload packet) with
   | Some ip =>
       (∀ p, owns m (IpPacket.destination ip) p →
          ∃ self net len, heap w !! p = Some self ∧ (net, len) ∈ allowed_ips (info self) ∧
            Routes.key net len = Routes.key (IpPacket.destination ip) len ∧
            only_to p self w (handle_egress_packet e packet w).1) ∧
       ((∀ p, ¬ owns m (IpPacket.destination ip) p) → ∃ err, handle_egress_packet e packet w = (w, Err err))
   | None => ∃ err, handle_egress_packet e packet w = (w, Err err)
   end) ∧
  (∀ p raw, registered (pubkey_map (state w)) p →
     Router.validate_source (same_peer (heap w)) (router (state w)) raw p = Ok tt ↔
     ∃ ip, IpPacket.new raw = Some ip ∧ owns m (IpPacket.source ip) p).
Proof.
  intros Hw [Hr Hm].
  assert (∀ ip p, Router.get_peer_from_ip (router (state w)) ip = Some p ↔ owns m ip p) as Hown.
  { intros ip p. by apply represents_owns. }
  assert (∀ p, Router.route_to_peer (router (state w)) (UtunPacket.payload packet) = Some p →
            ∀ self, heap w !! p = Some self → only_to p self w (handle_egress_packet e packet w).1) as Hto.
  { intros p Hp self Hs. unfold handle_egress_packet, bindM at 1, liftM at 1.
    destruct (ensure _ _); try by apply only_refl. erewrite bindM_run by reflexivity. rewrite Hp.
    erewrite bindM_run by reflexivity. apply only_egress. by apply only_refl. }
  assert (Router.route_to_peer (router (state w)) (UtunPacket.payload packet) = None →
            ∃ err, handle_egress_packet e packet w = (w, Err err)) as Hno.
  { intros Hp. unfold handle_egress_packet. case_eq (ensure (negb (Nat.eqb (length (UtunPacket.payload packet)) 0) &&
      (Z.of_nat (length (UtunPacket.payload packet)) <=? MAX_CONTENT_SIZE)) "egress packet outside of size bounds");
      unfold ensure; destruct (_ && _); try done; intros ? _; (eexists; unfold bindM, liftM, getM; rewrite ?Hp; reflexivity). }
  unfold Router.route_to_peer in Hto, Hno. split.
  - destruct (IpPacket.new (UtunPacket.payload packet)) as [ip|]; [|by apply Hno]. split.
    + intros p Ho. destruct Ho as (len & Hl & Hk & Hlong).
      destruct (Hm _ _ Hk) as (_ & self & net & len' & Hs & Hin & Hkey). pose proof Hkey as [= _ _ ->].
      exists self, net, len. split_and!; [done|done|done|]. apply Hto; [|done]. apply Hown. by exists len.
    + intros Hnone. apply Hno. destruct (Router.get_peer_from_ip _ _) as [p|] eqn:E; [|done]. apply Hown in E. by destruct (Hnone p).
  - intros p raw Hreg. unfold Router.validate_source. destruct (IpPacket.new raw) as [ip|]; [|split; [done|by intros (? & ? & _)]].
    split.
    + destruct (Router.get_peer_from_ip _ _) as [q|] eqn:E; [|done]. cbn [ok_or bind_res]. intros Hsame%ensure_Ok.
      exists ip. split; [done|]. apply Hown. by rewrite E, (same_peer_eq w q p Hw (config_route w _ q Hw E) Hreg Hsame).
    + intros (ip' & [= <-] & Ho). apply Hown in Ho. rewrite Ho. cbn [ok_or bind_res]. apply ensure_Ok.
      destruct Hreg as [pk Hpk]. destruct (cf_keys _ Hw _ _ Hpk) as (self & Hs & _). unfold same_peer. rewrite Hs. by apply bool_decide_true.
Qed.
End cryptokey.

(* ------------------------------------------------------------------ *)
(** ** An instance *)
Section witnesses.
#[local] Existing Instance refByteOrder.
#[local] Existing Instance refByteOrderLaws.
#[local] Existing Instance refBlake2.
#[local] Existing Instance refAead.
#[local] Existing Instance refSubtle.
#[local] Existing Instance refX25519.
#[local] Existing Instance refSnow.
#[local] Existing Instance refRips.
#[local] Existing Instance refTreebitmap.
#[local] Existing Instance refTreebitmapLaws.
Import PeerServer.

(** The peer of [sys_added] owns 10.0.0.0/8; the packet is for 10.0.0.2, and
    comes back from 10.0.0.1. *)
Definition ck_packet : UtunPacket.t := UtunPacket.Inet4 demo_packet.

Lemma ck_route : Router.get_peer_from_ip (router (state sys_added)) (IpV4 167772162) = Some 0%nat.
Proof. vm_cast_no_check (eq_refl (Some 0%nat)). Qed.
Lemma ck_valid : Router.validate_source (same_peer (heap sys_added)) (router (state sys_added)) demo_packet 0 = Ok tt.
Proof. vm_cast_no_check (eq_refl (Ok tt : res unit)). Qed.

Lemma cryptokey_routing_witness :
  (∃ self, only_to 0 self sys_added (handle_egress_packet sys_env ck_packet sys_added).1) ∧
  ∃ ip m, IpPacket.new demo_packet = Some ip ∧ owns m (IpPacket.source ip) 0%nat.
Proof.
  destruct (cf_routes _ sys_added_ok) as [m Hm].
  destruct (cryptokey_routing sys_env ck_packet sys_added m sys_added_ok Hm) as [H1 H2].
  change (IpPacket.new (UtunPacket.payload ck_packet)) with (Some (IpPacket.V4 demo_packet)) in H1. destruct H1 as [H1 _]. split.
  - destruct (H1 0%nat) as (self & net & len & _ & _ & _ & H).
    + change (IpPacket.destination (IpPacket.V4 demo_packet)) with (IpV4 167772162).
      exact (proj1 (represents_owns _ m _ _ (proj1 Hm)) ck_route).
    + exists self. exact H.
  - destruct (proj1 (H2 0%nat demo_packet (ex_intro _ sys_key sys_added_key)) ck_valid) as (ip & H3 & H4).
    exists ip, m. exact (conj H3 H4).
Defined.
End witnesses.
