(* ===== verification/ServerTimers.v ===== *)
(** * The timers of the peer server

    What `handle_timer` (src/interface/peer_server.rs) makes of the messages of
    src/timer.rs: retries of a handshake end, sessions are wiped, and a peer
    has one passive keepalive timer, which goes on. *)

From S2P Require Import Prelude Crates Reference RefSnow AntiReplay Types Timestamp Message XChaCha RateLimiter Cookie Router Peer PeerTransport PeerSessions Timer World PeerServer ServerInvariant ServerFrame ServerBehaviour Config System.

(* ------------------------------------------------------------------ *)
(** ** Counting timers *)
Section counting.
Context {BO : ByteOrder} {B : Blake2} {S : Subtle} {A : Aead} {R : Rips} {T : Treebitmap} {SN : Snow} {X : X25519}.
Import PeerOps PeerServer Config.
Context (p : peer_id).

Definition count_of {Y} `{EqDecision Y} (y : Y) (l : list Y) : nat := length (filter (eq y) l).

Lemma count_app {Y} `{EqDecision Y} (y : Y) l l' : count_of y (l ++ l') = (count_of y l + count_of y l')%nat.
Proof. unfold count_of. by rewrite filter_app, length_app. Qed.
Lemma count_cons {Y} `{EqDecision Y} (y x : Y) l : count_of y (x :: l) = ((if decide (y = x) then 1 else 0) + count_of y l)%nat.
Proof. unfold count_of. rewrite filter_cons. by case_decide. Qed.

(** The messages of a timer that wait or are delivered. *)
Definition underway (t : Timer.t) : list TimerMessage := (Timer.message <$> Timer.delays t) ++ Timer.rx t.

Definition announces (c : ChannelMessage) : bool :=
  match c with NewPeer q => bool_decide (q = p) | _ => false end.

(** The passive keepalive timers of [p]: those under way, and one for each
    event in the channel that will start one. *)
Definition passive (w : World) : nat :=
  (count_of (PassiveKeepAlive p) (underway (timer w)) + length (List.filter announces (channel w)))%nat.

(** [adds k m]: [m] starts at most [k] of them. *)
Definition adds {Y} (k : nat) (m : M World Y) : Prop := ∀ w, (passive (m w).1 ≤ passive w + k)%nat.

Lemma adds_bind {Y Y'} k k' (m : M World Y) (f : Y → M World Y') :
  adds k m → (∀ y, adds k' (f y)) → adds (k + k') (bindM m f).
Proof.
  intros Hm Hf w. specialize (Hm w). unfold bindM. destruct (m w) as [w' [y|e|q|]]; simpl in *; try lia.
  specialize (Hf y w'). lia.
Qed.
Lemma adds_then {Y Y'} k (m : M World Y) (f : Y → M World Y') : adds 0 m → (∀ y, adds k (f y)) → adds k (bindM m f).
Proof. apply (adds_bind 0). Qed.
Lemma adds_more {Y} k k' (m : M World Y) : adds k m → (k ≤ k')%nat → adds k' m.
Proof. intros Hm Hk w. specialize (Hm w). lia. Qed.
Lemma adds_same {Y} k (m : M World Y) : (∀ w, timer (m w).1 = timer w ∧ channel (m w).1 = channel w) → adds k m.
Proof. intros Hm w. destruct (Hm w) as [H1 H2]. unfold passive. rewrite H1, H2. lia. Qed.
Lemma adds_ignore {Y} k (m : M World Y) : adds k m → adds k (ignoreM m).
Proof. intros Hm w. specialize (Hm w). unfold ignoreM. by destruct (m w) as [w' []]. Qed.

Lemma adds_ret {Y} k (y : Y) : adds k (retM y).
Proof. by apply adds_same. Qed.
Lemma adds_err {Y} k msg : adds (Y:=Y) k (errM msg).
Proof. by apply adds_same. Qed.
Lemma adds_lift {Y} k (r : res Y) : adds k (liftM r).
Proof. by apply adds_same. Qed.
Lemma adds_get {Y} k (f : World → Y) : adds k (getM f).
Proof. by apply adds_same. Qed.
Lemma adds_with_peer {Y} k q (m : M Peer Y) : adds k (with_peer q m).
Proof. apply adds_same. intros w. unfold with_peer. destruct (heap w !! q); [|done]. by destruct (m p0). Qed.
Lemma adds_read_peer {Y} k q (f : Peer → res Y) : adds k (read_peer q f).
Proof. apply adds_same. intros w. unfold read_peer. by destruct (heap w !! q). Qed.
Lemma adds_map_timers k q f : adds k (map_timers q f).
Proof. apply adds_with_peer. Qed.
Lemma adds_remove_index k d : adds k (remove_index d).
Proof. apply adds_same. by destruct d. Qed.
Lemma adds_unused_index k : adds k unused_index.
Proof. apply adds_same. intros w. unfold unused_index. by destruct (draw_index _ _). Qed.
Lemma adds_send_to_peer k x : adds k (send_to_peer x).
Proof. apply adds_same. intros w. unfold send_to_peer, bindM, getM, liftM. by destruct (udp w). Qed.

Lemma passive_send_after e d m w :
  passive (send_after e d m w).1 = (passive w + if decide (PassiveKeepAlive p = m) then 1 else 0)%nat.
Proof.
  unfold passive, send_after, underway. simpl. rewrite fmap_app, !count_app. simpl. rewrite count_cons.
  change (count_of (PassiveKeepAlive p) []) with 0%nat. lia.
Qed.
Lemma adds_send_after e d m : PassiveKeepAlive p ≠ m → adds 0 (send_after e d m).
Proof. intros Hm w. rewrite passive_send_after, decide_False by done. lia. Qed.
Lemma adds_send_after_any e d m : adds 1 (send_after e d m).
Proof. intros w. rewrite passive_send_after. case_decide; lia. Qed.
End counting.

#[export] Hint Resolve adds_ret adds_err adds_lift adds_get adds_with_peer adds_read_peer adds_map_timers adds_remove_index
  adds_unused_index adds_send_to_peer adds_send_after : wg.

(** Follows a handler; what starts a timer is left. *)
Ltac adds_run :=
  repeat first
    [ progress auto with wg
    | lazymatch goal with
      | |- adds _ _ (bindM _ _) => apply adds_then; [|intros ?]
      | |- adds _ _ (match ?x with _ => _ end) => destruct x
      | |- adds _ _ (ignoreM _) => apply adds_ignore
      | |- adds _ _ (modM _) => by apply adds_same
      | |- adds _ _ (map_state _) => by apply adds_same
      | |- adds _ _ (insert_index _ _) => by apply adds_same
      | |- adds _ _ (let _ := _ in _) => cbv zeta
      end ].

Section handlers.
Context {BO : ByteOrder} {B : Blake2} {S : Subtle} {A : Aead} {R : Rips} {T : Treebitmap} {SN : Snow} {X : X25519}.
Import PeerOps PeerServer Config.
Context (p : peer_id).

Lemma adds_send_handshake_init e q : adds p 0 (send_handshake_init e q).
Proof. unfold send_handshake_init. adds_run. Qed.
Lemma adds_send_keepalive k e q : adds p k (send_keepalive e q).
Proof. unfold send_keepalive. adds_run. Qed.
#[local] Hint Resolve adds_send_handshake_init adds_send_keepalive : wg.

Lemma adds_drain_queue e q l : adds p 0 (drain_queue e q l).
Proof. induction l as [|packet l IH]; simpl; adds_run. Qed.
Lemma adds_flush_queue e q l : adds p 0 (flush_queue e q l).
Proof.
  induction l as [|packet l IH]; simpl; adds_run.
  pose proof (adds_with_peer p 0 q (handle_outgoing_transport (now e) (UtunPacket.payload packet))) as Hw.
  intros w. specialize (Hw w). by destruct (with_peer q _ w) as [w' []].
Qed.
#[local] Hint Resolve adds_drain_queue adds_flush_queue : wg.

Lemma adds_under_load e : adds p 0 (under_load e).
Proof. unfold under_load. adds_run. apply adds_same. intros w. simpl. by case_match. Qed.
#[local] Hint Resolve adds_under_load : wg.

Lemma adds_check_load e addr packet mac1 sender msg : adds p 0 (check_load e addr packet mac1 sender msg).
Proof.
  unfold check_load, send_cookie_reply. adds_run.
  - apply adds_same. intros w. by destruct (Validator.generate_reply _ _ _ _ _ _ _).
  - apply adds_same. intros w. by destruct (RateLimiter.allow _ _ _ _).
Qed.
#[local] Hint Resolve adds_check_load : wg.

Lemma adds_ingress e addr packet : adds p 0 (handle_ingress_packet e addr packet).
Proof. unfold handle_ingress_packet, handle_ingress_transport, queue_ingress_handshake, send_to_tunnel. adds_run. Qed.
Lemma adds_handshake e addr message : adds p 0 (handle_ingress_handshake e addr message).
Proof.
  unfold handle_ingress_handshake, handle_ingress_handshake_init, handle_ingress_handshake_resp, handle_ingress_cookie_reply,
    check_mac1. adds_run.
Qed.
Lemma adds_egress e packet : adds p 0 (handle_egress_packet e packet).
Proof. unfold handle_egress_packet. adds_run. Qed.

(** The timer's own message: when the decision was to wait, the timer is set
    again and the handler ends; else it is set after the keepalive was sent. *)
Definition own_message (m : TimerMessage) : nat := if decide (PassiveKeepAlive p = m) then 1 else 0.

Lemma passive_decision_adds e q w :
  (passive p (passive_decision e q w).1 ≤ passive p w + if is_ok (passive_decision e q w).2 then 0 else own_message (PassiveKeepAlive q))%nat.
Proof.
  unfold passive_decision. destruct (heap w !! q) as [self|] eqn:Hq.
  2: { unfold bindM, read_peer. rewrite Hq. simpl. lia. }
  erewrite bindM_run by (unfold read_peer; rewrite Hq; reflexivity).
  repeat match goal with |- context [match ?x with _ => _ end w] => destruct x end;
    try (pose proof (passive_send_after p e) as Hs; unfold bindM; simpl in *; rewrite Hs; unfold own_message; lia).
  pose proof (adds_map_timers p 0 q (set_keepalive_sent true) w). lia.
Qed.

Lemma adds_handle_timer e m : adds p (own_message m) (handle_timer e m).
Proof.
  destruct m as [q|q|q i|q]; unfold handle_timer, upgraded; (apply adds_then; [adds_run|intros _]).
  - adds_run.
  - intros w. pose proof (passive_decision_adds e q w) as Hd. unfold bindM at 1.
    destruct (passive_decision e q w) as [w' [u|er|pa|]]; simpl in Hd |- *; try lia.
    assert (adds p (own_message (PassiveKeepAlive q))
      (let! _ := send_keepalive e q in let! _ := send_after e KEEPALIVE_TIMEOUT (PassiveKeepAlive q) in retM tt)) as Hm.
    { apply adds_then; [adds_run|intros _]. rewrite <-(Nat.add_0_r (own_message (PassiveKeepAlive q))). apply adds_bind; [|intros ?; adds_run].
      intros w0. rewrite passive_send_after. done. }
    specialize (Hm w'). lia.
  - unfold rekey_decision. adds_run.
  - unfold wipe_sessions. adds_run.
Qed.

Lemma adds_rebind k e : adds p k (rebind e).
Proof. unfold rebind. adds_run. Qed.

Lemma adds_event e c : adds p (if announces p c then 1 else 0) (handle_incoming_event e c).
Proof.
  destruct c as [| |n|n|q|q]; cbn [handle_incoming_event announces]; [adds_run|adds_run|apply adds_rebind|adds_run|adds_run|].
  - intros w. pose proof (adds_rebind 0 e w). by destruct (rebind e w).
  - intros w. change (passive p w ≤ passive p w + 0)%nat. lia.
  - match goal with |- adds _ ?k _ => replace k with (k + 0)%nat by lia end. apply adds_bind; [|intros ?; adds_run].
    intros w. rewrite passive_send_after. repeat case_match; try lia. case_bool_decide; congruence.
Qed.

Definition total {Y} (f : Y → nat) (xs : list Y) : nat := foldr (fun x n => f x + n)%nat 0%nat xs.

Lemma adds_each {Y} (f : Y → nat) (handler : Y → M World unit) xs :
  (∀ x, adds p (f x) (handler x)) → adds p (total f xs) (each handler xs).
Proof.
  intros Hh. induction xs as [|x xs IH]; simpl; [apply adds_ret|].
  apply adds_bind; [apply adds_ignore, Hh|by intros _].
Qed.
Lemma adds_each_none {Y} (handler : Y → M World unit) xs :
  (∀ x, adds p 0 (handler x)) → adds p 0 (each handler xs).
Proof.
  intros Hh. induction xs as [|x xs IH]; simpl; [apply adds_ret|]. apply adds_then; [apply adds_ignore, Hh|by intros _].
Qed.

Lemma total_events cs : total (fun c => if announces p c then 1 else 0)%nat cs = length (List.filter (announces p) cs).
Proof. induction cs as [|c cs IH]; [done|]. unfold total in *. simpl. rewrite IH. by destruct (announces p c). Qed.
Lemma total_messages ms : total own_message ms = count_of (PassiveKeepAlive p) ms.
Proof. induction ms as [|m ms IH]; [done|]. unfold total in *. simpl. by rewrite IH, count_cons. Qed.

Lemma adds_settle e s name : adds p 0 (settle e s name).
Proof. unfold settle. adds_run. Qed.
#[local] Hint Resolve adds_settle adds_ingress adds_handshake adds_egress : wg.

(** A queue that is taken out and handled. *)
Lemma adds_poll_channel e : adds p 0 (poll_channel e).
Proof.
  intros w. unfold poll_channel. unfold bindM at 1, getM. unfold bindM at 1, modM.
  pose proof (adds_bind p _ 0 _ (fun _ => settle e ConfigStream "config stream") (adds_each _ _ (channel w) (adds_event e))
    ltac:(intros; apply adds_settle) (set_channel [] w)) as Hm.
  rewrite total_events in Hm. unfold passive in *. simpl in *. lia.
Qed.
Lemma adds_poll_timer e : adds p 0 (poll_timer e).
Proof.
  intros w. unfold poll_timer. unfold bindM at 1, getM. unfold bindM at 1, modM.
  pose proof (adds_bind p _ 0 _ (fun _ => settle e TimerStream "timer stream") (adds_each _ _ (Timer.rx (timer w)) (adds_handle_timer e))
    ltac:(intros; apply adds_settle)) as Hm.
  match goal with |- context [bindM (each _ _) _ ?w'] => specialize (Hm w') end.
  rewrite total_messages in Hm. unfold passive, underway in *. simpl in *. rewrite !count_app in *. simpl in *.
  unfold count_of in *. simpl in *. lia.
Qed.

Lemma adds_poll e ingress : adds p 0 (poll e ingress).
Proof.
  unfold poll. apply adds_then; [apply adds_poll_channel|intros _]. apply adds_then; [apply adds_poll_timer|intros _].
  unfold poll_ingress, poll_egress, poll_handshake. adds_run; apply adds_each_none; [intros []|]; auto with wg.
Qed.
End handlers.

(* ------------------------------------------------------------------ *)
(** ** One passive keepalive timer *)
Section unique.
Context {BO : ByteOrder} {BOL : ByteOrderLaws BO} {B : Blake2} {S : Subtle} {A : Aead} {R : Rips} {T : Treebitmap}
        {TL : TreebitmapLaws T} {X : X25519} {SN : Snow}.
Import PeerOps PeerServer Config.

(** An update leaves timers and channel alone; it allocates a peer exactly when
    it announces one, under its new address. *)
Definition allocates (w w' : World) (r : res (option ChannelMessage)) : Prop :=
  timer w' = timer w ∧ channel w' = channel w ∧
  ((next_peer w' = next_peer w ∧ ∀ p m, r = Ok (Some m) → announces p m = false) ∨
   (next_peer w' = Datatypes.S (next_peer w) ∧ r = Ok (Some (NewPeer (next_peer w))))).

Lemma allocates_none w w' r :
  timer w' = timer w → channel w' = channel w → next_peer w' = next_peer w →
  match r with Ok (Some (NewPeer _)) => False | _ => True end → allocates w w' r.
Proof.
  intros Ht Hc Hn Hr. split_and!; [done..|]. left. split; [done|]. intros p m ->. by destruct m.
Qed.

Lemma handle_update_alloc event w : let '(w', r) := handle_update event w in allocates w w' r.
Proof.
  assert (∀ pk q w0, let '(w', _) := remove_peer pk q w0 in
    timer w' = timer w0 ∧ channel w' = channel w0 ∧ next_peer w' = next_peer w0) as Hrm.
  { intros pk q w0. unfold remove_peer, bindM, map_state, modM, read_peer. simpl. by destruct (heap w0 !! q). }
  destruct event as [k|mark|port|i replace|pk|]; cbn [handle_update]; try by apply allocates_none.
  - case_bool_decide; [by apply allocates_none|].
    unfold map_interface, map_state, bindM, modM, getM. simpl.
    destruct (pubkey_map (state w) !! generate_public k) as [q|]; [|by apply allocates_none].
    match goal with |- context [remove_peer ?pk ?q ?w0] => specialize (Hrm pk q w0); destruct (remove_peer pk q w0) as [w' [[]|er|pa|]] end;
      destruct Hrm as (H1 & H2 & H3); by apply allocates_none.
  - unfold bindM at 1, getM. destruct (pubkey_map (state w) !! pub_key i) as [q|].
    + unfold update_existing, bindM, read_peer. destruct (heap w !! q) as [self|] eqn:Hq; [|by apply allocates_none].
      destruct replace; unfold map_state, modM, retM, with_peer; simpl; rewrite Hq; simpl; apply allocates_none; try done; by destruct (_ && _).
    + unfold add_peer, bindM, getM. case_bool_decide; [by apply allocates_none|]. unfold liftM.
      destruct (ensure _ _); simpl; [|by apply allocates_none..]. split_and!; [done..|by right].
  - unfold bindM, getM, liftM. destruct (pubkey_map (state w) !! pk) as [q|]; simpl; [|by apply allocates_none].
    specialize (Hrm pk q w). destruct (remove_peer pk q w) as [w' [[]|er|pa|]]; destruct Hrm as (H1 & H2 & H3); by apply allocates_none.
Qed.

Definition one_timer (p : peer_id) (w : World) : Prop :=
  (passive p w ≤ 1)%nat ∧ ((next_peer w ≤ p)%nat → passive p w = 0%nat).

Lemma one_timer_mono p w w' : (passive p w' ≤ passive p w)%nat → (next_peer w ≤ next_peer w')%nat → one_timer p w → one_timer p w'.
Proof. intros Hp Hn [H1 H2]. split; [lia|]. intros Hle. specialize (H2 ltac:(lia)). lia. Qed.

Lemma passive_announce p m w :
  passive p (set_channel (channel w ++ [m]) w) = (passive p w + if announces p m then 1 else 0)%nat.
Proof. unfold passive. simpl. rewrite List.filter_app, length_app. simpl. destruct (announces p m); simpl; lia. Qed.

Lemma one_timer_set p items : ∀ w, one_timer p w → one_timer p (handle_set items w).1.
Proof.
  induction items as [|item items IH]; intros w Hw; [done|]. cbn [handle_set].
  pose proof (handle_update_alloc item w) as H. destruct (handle_update item w) as [w' r]. destruct H as (Ht & Hc & H).
  assert (passive p w' = passive p w) as Hp by (unfold passive; by rewrite Ht, Hc).
  assert (one_timer p w') as Hw' by (destruct H as [[H _]|[H _]]; apply (one_timer_mono p w); try done; lia).
  destruct r as [[m|]|er|pa|]; try done; [|by apply IH]. apply IH.
  destruct H as [[_ Hm]|[Hn [= ->]]].
  - apply (one_timer_mono p w'); [|done|done]. rewrite passive_announce, (Hm p m eq_refl). lia.
  - destruct Hw as [H1 H2]. split; rewrite passive_announce, Hp; simpl; case_bool_decide as Hq; rewrite ?Hn; try lia.
Qed.

Lemma passive_fire p t k w : (passive p (set_timer (Timer.fire t k (timer w)) w) ≤ passive p w)%nat.
Proof.
  unfold passive, underway, Timer.fire. simpl. destruct (Timer.delays (timer w) !! k) as [d|] eqn:Hk; [|done].
  case_match; [|done]. simpl. rewrite !count_app.
  assert (count_of (PassiveKeepAlive p) (Timer.message <$> Timer.delays (timer w)) =
          count_of (PassiveKeepAlive p) (Timer.message d :: (Timer.message <$> delete k (Timer.delays (timer w))))) as ->.
  { unfold count_of. apply Permutation_length, filter_Permutation. rewrite <-fmap_cons. by apply fmap_Permutation, delete_Permutation. }
  rewrite count_cons. case_match; [lia|]. rewrite count_app, count_cons. simpl. unfold count_of at 3. simpl. lia.
Qed.

Lemma one_timer_step p w w' : system_step w w' → config_ok w → one_timer p w → one_timer p w'.
Proof.
  intros [items w0 Hi|now k w0|packet w0|e ingress w0] Hok Hone.
  - by apply one_timer_set.
  - apply (one_timer_mono p w0); [apply passive_fire|done|done].
  - done.
  - pose proof (adds_poll p e ingress w0).
    apply (one_timer_mono p w0); [lia|by rewrite (fr_next _ _ _ _ _ _ (poll_frame e ingress w0 Hok))|done].
Qed.

(** C16.  The passive keepalive timer of a peer does not multiply: in every
    state the system reaches, at most one is waiting, delivered, or about to be
    started by the event that announces the peer. *)
Theorem passive_timer_unique t draws w p : system_reachable t draws w → (passive p w ≤ 1)%nat.
Proof.
  intros Hw. cut (one_timer p w); [by intros [? _]|].
  assert (one_timer p (World_new t draws)) as H0 by (split; [change (0 ≤ 1)%nat; lia|done]).
  pose proof (config_ok_new t draws) as Hok.
  unfold system_reachable in Hw. revert Hok H0. induction Hw as [|w0 w1 w2 Hst _ IH]; [done|].
  intros Hok H0. apply IH; [by eapply config_ok_step|by eapply one_timer_step].
Qed.
End unique.

(* ------------------------------------------------------------------ *)
(** ** Retries of a handshake *)
Section retries.
Context {BO : ByteOrder} {B : Blake2} {S : Subtle} {A : Aead} {R : Rips} {T : Treebitmap} {SN : Snow}.
Import PeerOps PeerServer.
Context (p : peer_id).

(** A peer without a session that has tried [a] times. *)
Definition unanswered (a : Z) (self : Peer) : Prop :=
  current (sessions self) = None ∧ handshake_attempts (timers self) = a.

Lemma unanswered_initiate a now wall pk i : keeps (unanswered a) (initiate_new_session now wall pk i).
Proof.
  unfold initiate_new_session, build_macs. keeps_run.
  - intros self [H1 H2]. by destruct (Generator.build_macs _ _ _).
  - intros self [H1 H2]. unfold install_next. simpl. by destruct (next (sessions self)).
Qed.

(** The state of the peer, and a bound on the datagrams sent. *)
Definition trying (a : Z) (n : nat) (w : World) : Prop :=
  ∃ self, heap w !! p = Some self ∧ unanswered a self ∧ (length (wire w) ≤ n)%nat.

Lemma trying_more a n w : trying a n w → trying a (Datatypes.S n) w.
Proof. intros (self & Hp & Hs & Hn). exists self. split_and!; [done..|lia]. Qed.

Lemma trying_frame a n {Y} (m : M World Y) :
  (∀ w, heap (m w).1 = heap w ∧ wire (m w).1 = wire w) → keeps (trying a n) m.
Proof. intros Hm w (self & Hp & Hs & Hn). destruct (Hm w) as [H1 H2]. exists self. by rewrite H1, H2. Qed.
Lemma trying_with_peer a n {Y} (m : M Peer Y) : keeps (unanswered a) m → keeps (trying a n) (with_peer p m).
Proof.
  intros Hm w (self & Hp & Hs & Hn). specialize (Hm self Hs). unfold with_peer. rewrite Hp. destruct (m self) as [self' r].
  exists self'. split_and!; [apply lookup_insert_eq|done|done].
Qed.
Lemma trying_send a n x w : trying a n w → trying a (Datatypes.S n) (send_to_peer x w).1.
Proof.
  intros (self & Hp & Hs & Hn). exists self. unfold send_to_peer, bindM, getM, liftM.
  destruct (udp w); simpl; split_and!; try done; rewrite ?length_app; simpl; lia.
Qed.

(** One step keeps [P], and from [P] the rest leads to [Q]. *)
Lemma leads_bind {Y Y'} (P Q : World → Prop) (m : M World Y) (k : Y → M World Y') :
  (∀ w, P w → Q w) → keeps P m → (∀ y w, P w → Q (k y w).1) → ∀ w, P w → Q (bindM m k w).1.
Proof. intros HPQ Hm Hk w Hw. specialize (Hm w Hw). unfold bindM. destruct (m w) as [w' [y|e|q|]]; simpl in *; auto. Qed.

Ltac leads_step :=
  lazymatch goal with
  | |- ∀ w, trying ?a ?n w → _ =>
      apply (leads_bind (trying a n));
      [apply trying_more
      |first [apply trying_with_peer, unanswered_initiate
             |apply trying_frame; intros ?; unfold read_peer, unused_index, remove_index; by repeat case_match]
      |intros ?; repeat match goal with |- context [match ?x with _ => _ end] => is_var x; destruct x end]
  end.

(** An attempt sends one datagram at most. *)
Lemma trying_init a n e : ∀ w, trying a n w → trying a (Datatypes.S n) (send_handshake_init e p w).1.
Proof.
  unfold send_handshake_init. do 8 leads_step.
  intros w Hw. unfold bindM at 1. match goal with |- context [send_to_peer ?x w] => apply (trying_send a n x) in Hw end.
  destruct (send_to_peer _ w) as [w' [u|er|q|]]; try done.
  match goal with |- trying _ _ (?m w').1 => assert (keeps (trying a (Datatypes.S n)) m) as Hk; [|by apply Hk] end.
  keeps_run; [apply trying_with_peer; keeps_run|by apply trying_frame].
Qed.

(** The timer of a handshake: when it decides for an attempt, that is counted. *)
Lemma rekey_decision_trying a n e i w :
  trying a n w → 0 ≤ a → let '(w', r) := rekey_decision e p i w in
  (is_ok r = false ∧ trying a n w') ∨ (a < MAX_HANDSHAKE_ATTEMPTS ∧ trying (a + 1) n w').
Proof.
  intros Hw Ha. pose proof Hw as (self & Hp & [Hc Hs] & Hn).
  assert (∀ d m, trying a n (set_timer (Timer.send_after (now e) d m (timer w)).1 w)) as Htimer by (by exists self).
  unfold rekey_decision. do 2 erewrite bindM_run by (unfold read_peer; rewrite Hp; reflexivity). cbv zeta.
  assert (snd <$> find_session i self ≠ Some Current) as Hty.
  { unfold find_session. rewrite Hc. by repeat case_match. }
  destruct (snd <$> find_session i self) as [[]|]; try done; [by simpl; left| |by simpl; left].
  destruct (_ <? REKEY_TIMEOUT); [simpl; left; split; [done|apply Htimer]|]. rewrite Hs.
  destruct (Z.leb_spec MAX_HANDSHAKE_ATTEMPTS a) as [|Hlt]; [by simpl; left|].
  unfold map_timers, with_peer. rewrite Hp. simpl. right. split; [done|]. eexists. split_and!; [apply lookup_insert_eq| |exact Hn].
  split; [exact Hc|]. simpl. rewrite Hs, wrap64_id; [done|]. change MAX_HANDSHAKE_ATTEMPTS with 17 in Hlt. unfold is_u64. lia.
Qed.

Lemma trying_rekey a n e i w :
  trying a n w → 0 ≤ a → let w' := (handle_timer e (Rekey p i) w).1 in
  trying a n w' ∨ (a < MAX_HANDSHAKE_ATTEMPTS ∧ trying (a + 1) (Datatypes.S n) w').
Proof.
  intros Hw Ha. cbv zeta. cbn [handle_timer]. unfold upgraded. destruct (upgrade e p); [|by left].
  erewrite bindM_run by reflexivity. pose proof (rekey_decision_trying a n e i w Hw Ha) as Hd. unfold bindM at 1 3.
  destruct (rekey_decision e p i w) as [w' [u|er|q|]]; destruct Hd as [[Hr Hd]|[Hlt Hd]]; try done; try (by left).
  - right. split; [done|]. apply (trying_init _ _ e) in Hd. unfold bindM. by destruct (send_handshake_init e p w') as [w'' []].
  - right. split; [done|]. by apply trying_more.
  - right. split; [done|]. by apply trying_more.
  - right. split; [done|]. by apply trying_more.
Qed.

(** The timers of a peer's handshakes, run one after the other: each at its
    time, for the index it was set for. *)
Definition rekey_timers (evs : list (Env * Z)) : M World unit := each (fun '(e, i) => handle_timer e (Rekey p i)) evs.

Lemma rekey_timers_trying evs : ∀ a n w,
  trying a n w → 0 ≤ a →
  (length (wire (rekey_timers evs w).1) ≤ n + Z.to_nat (MAX_HANDSHAKE_ATTEMPTS - a))%nat.
Proof.
  induction evs as [|[e i] evs IH]; intros a n w Hw Ha; [destruct Hw as (? & _ & _ & ?); simpl; lia|].
  unfold rekey_timers. cbn [each]. fold (rekey_timers evs). pose proof (trying_rekey a n e i w Hw Ha) as Ht. cbv zeta in Ht.
  unfold bindM, ignoreM. destruct (handle_timer e (Rekey p i) w) as [w' [u|er|q|]]; simpl in Ht |- *;
    destruct Ht as [Ht|[Hlt Ht]];
    first [specialize (IH _ _ _ Ht ltac:(lia)); lia | destruct Ht as (? & _ & _ & ?); lia].
Qed.

(** C25.  Retries end: as long as a peer has no session, however many timers of
    its handshakes run out and whenever they do, the number of initiations they
    send is at most what is left of MAX-HANDSHAKE-ATTEMPTS. *)
Theorem rekey_attempts_bounded evs w self :
  heap w !! p = Some self → current (sessions self) = None → 0 ≤ handshake_attempts (timers self) →
  (length (wire (rekey_timers evs w).1) ≤
   length (wire w) + Z.to_nat (MAX_HANDSHAKE_ATTEMPTS - handshake_attempts (timers self)))%nat.
Proof. intros Hp Hc Ha. apply rekey_timers_trying; [|done]. exists self. by split_and!. Qed.
End retries.

(* ------------------------------------------------------------------ *)
(** ** Wiping sessions *)
Section wiping.
Context {BO : ByteOrder} {B : Blake2} {S : Subtle} {A : Aead} {R : Rips} {T : Treebitmap} {SN : Snow}.
Import PeerOps PeerServer.

Definition wiped (p : peer_id) (self : Peer) (w : World) : World :=
  set_state (set_index_map (foldl (fun m i => delete i m) (index_map (state w)) (get_mapped_indices self)) (state w))
    (set_heap (<[p := set_sessions Sessions_default self]> (heap w)) w).

Lemma wipe_sessions_run p self w : heap w !! p = Some self → wipe_sessions p w = (wiped p self w, Ok tt).
Proof.
  intros Hp. unfold wipe_sessions. erewrite bindM_run by (unfold with_peer; rewrite Hp; reflexivity).
  unfold wiped. by rewrite get_mapped_indices_slots, <-wipe_indices.
Qed.

(** C24.  Wiping: the wipe timer of a peer whose last handshake is
    WIPE-AFTER-TIME old drops all its sessions and takes their indices, and no
    others, out of the table; then no packet for one of these sessions is
    accepted, none is sent to the peer, and nothing else has changed.  Before
    that time it changes nothing. *)
Theorem wipe_forgets_sessions e p w self :
  upgrade e p = true → heap w !! p = Some self →
  if WIPE_AFTER_TIME <=? Timestamp.elapsed (now e) (handshake_completed (timers self)) then
    ∃ w', handle_timer e (Wipe p) w = (w', Ok tt) ∧
      heap w' = <[p := set_sessions Sessions_default self]> (heap w) ∧
      (∀ i, index_map (state w') !! i =
            if decide (i ∈ get_mapped_indices self) then None else index_map (state w) !! i) ∧
      pubkey_map (state w') = pubkey_map (state w) ∧ router (state w') = router (state w) ∧
      wire w' = wire w ∧ tunnel w' = tunnel w ∧ timer w' = timer w ∧
      (∀ e' addr packet i, MessageParser.try_from packet = Ok (Message_Transport packet) →
         Transport.our_index packet = Ok i → i ∈ get_mapped_indices self →
         ∃ err, handle_ingress_packet e' addr packet w' = (w', Err err)) ∧
      (∀ e' packet, ∃ err, with_peer p (handle_outgoing_transport (now e') packet) w' = (w', Err err))
  else handle_timer e (Wipe p) w = (w, Ok tt).
Proof.
  intros Hu Hp. cbn [handle_timer]. unfold upgraded. rewrite Hu. cbn [ensure].
  do 2 erewrite bindM_run by first [reflexivity | unfold read_peer; rewrite Hp; reflexivity].
  destruct (WIPE_AFTER_TIME <=? _); [|done]. rewrite (wipe_sessions_run p self) by done.
  eexists. split; [reflexivity|]. split; [done|].
  assert (∀ i, index_map (state (wiped p self w)) !! i =
    if decide (i ∈ get_mapped_indices self) then None else index_map (state w) !! i) as Hidx.
  { intros i. apply foldl_delete_lookup. }
  split; [exact Hidx|]. do 5 (split; [done|]). split.
  - intros e' addr packet i Hm Hi Hin. unfold handle_ingress_packet. rewrite Hm. erewrite bindM_run by reflexivity.
    unfold handle_ingress_transport. rewrite Hi. do 2 erewrite bindM_run by reflexivity.
    rewrite Hidx, decide_True by done. by eexists.
  - intros e' packet. eexists. unfold with_peer. simpl. rewrite lookup_insert_eq. simpl. unfold wiped. simpl.
    rewrite insert_insert_eq. reflexivity.
Qed.
End wiping.

(* ------------------------------------------------------------------ *)
(** ** The passive keepalive *)
Section keepalive.
Context {BO : ByteOrder} {BOL : ByteOrderLaws BO} {B : Blake2} {S : Subtle} {A : Aead} {R : Rips} {T : Treebitmap} {SN : Snow}
        {SL : SnowLaws SN}.
Import PeerOps PeerServer.

(** There is a session and no persistent keepalive, the last packet with data
    came from the peer, at least KEEPALIVE-TIMEOUT ago, and no keepalive was
    sent since. *)
Definition keepalive_due (t : Instant) (self : Peer) : bool :=
  bool_decide (is_Some (current (sessions self))) && negb (bool_decide (is_Some (keepalive (info self)))) &&
  negb (keepalive_sent (timers self)) &&
  (Timestamp.elapsed t (data_received (timers self)) <=? Timestamp.elapsed t (data_sent (timers self))) &&
  (KEEPALIVE_TIMEOUT <=? Timestamp.elapsed t (data_received (timers self))).

Definition keepalive_marked (self : Peer) : Peer := set_timers (set_keepalive_sent true (timers self)) self.

(** The timer set again, to run out in [d]. *)
Definition rearmed (e : Env) (d : Duration) (p : peer_id) (w : World) : World :=
  set_timer (Timer.send_after (now e) d (PassiveKeepAlive p) (timer w)).1 w.

Lemma passive_decision_run e p w self :
  heap w !! p = Some self → 0 ≤ Timestamp.elapsed (now e) (data_received (timers self)) →
  if keepalive_due (now e) self then passive_decision e p w = (set_heap (<[p := keepalive_marked self]> (heap w)) w, Ok tt)
  else ∃ d err, 0 < d ≤ KEEPALIVE_TIMEOUT ∧ passive_decision e p w = (rearmed e d p w, Err err).
Proof.
  intros Hp Hr. assert (0 < KEEPALIVE_TIMEOUT ≤ KEEPALIVE_TIMEOUT) as Hk by done. unfold passive_decision. erewrite bindM_run by (unfold read_peer; rewrite Hp; reflexivity). unfold keepalive_due.
  destruct (current (sessions self)) as [s|]; [|do 2 eexists; split; [exact Hk|reflexivity]].
  destruct (keepalive (info self)) as [n|]; [do 2 eexists; split; [exact Hk|reflexivity]|]. simpl.
  destruct (keepalive_sent (timers self)); [do 2 eexists; split; [exact Hk|reflexivity]|]. simpl.
  rewrite Z.leb_antisym. destruct (_ <? Timestamp.elapsed (now e) (data_received (timers self)));
    [do 2 eexists; split; [exact Hk|reflexivity]|]. simpl. rewrite Z.leb_antisym.
  destruct (Z.ltb_spec (Timestamp.elapsed (now e) (data_received (timers self))) KEEPALIVE_TIMEOUT); simpl;
    [do 2 eexists; split; [|reflexivity]; lia|].
  unfold map_timers, with_peer. by rewrite Hp.
Qed.

(** A keepalive: a transport packet without content. *)
Lemma keepalive_packet now self self' ep out s :
  current (sessions self) = Some s → is_u32 (their_index s) → snow_is_handshake_finished (s_noise s) = true →
  handle_outgoing_transport now [] self = (self', Ok (ep, out)) →
  endpoint (info self) = Some ep ∧ MessageParser.try_from out = Ok (Message_Transport out) ∧ length out = 32%nat ∧
  keepalive_sent (timers self') = keepalive_sent (timers self).
Proof.
  intros Hs Hi Hf H. apply outgoing_Ok_inv in H as (s' & nonce & n' & m & Hs' & Hep & Hn & _ & _ & Hw & -> & ->);
    [|intros s'; by rewrite Hs; intros [= <-]].
  rewrite Hs in Hs'. injection Hs' as <-. pose proof (snow_write_transport_length _ _ _ _ _ Hf Hw) as Hm. simpl in Hm.
  destruct (transport_header_fields (their_index s) nonce m Hi (snow_sending_nonce_u64 _ _ Hn)) as (_ & _ & _ & H4).
  split_and!; [done|apply H4; lia|rewrite length_app, length_transport_header; lia|done].
Qed.

Lemma send_keepalive_cases e p w self s :
  heap w !! p = Some self → current (sessions self) = Some s → is_u32 (their_index s) →
  snow_is_handshake_finished (s_noise s) = true →
  let '(w', r) := send_keepalive e p w in
  timer w' = timer w ∧
  if is_ok r then
    ∃ ep out self', endpoint (info self) = Some ep ∧ wire w' = wire w ++ [(ep, out)] ∧
      MessageParser.try_from out = Ok (Message_Transport out) ∧ length out = 32%nat ∧
      heap w' !! p = Some self' ∧ keepalive_sent (timers self') = keepalive_sent (timers self)
  else wire w' = wire w.
Proof.
  intros Hp Hs Hi Hf. unfold send_keepalive, bindM, with_peer. rewrite Hp.
  destruct (handle_outgoing_transport (now e) [] self) as [self' [[ep out]|er|q|]] eqn:E; try done.
  destruct (keepalive_packet _ _ _ _ _ _ Hs Hi Hf E) as (Hep & Hm & Hl & Hk).
  unfold send_to_peer, bindM, getM, liftM, modM. simpl. destruct (udp w); simpl; (split; [done|]); [|done].
  exists ep, out, self'. split_and!; try done. apply lookup_insert_eq.
Qed.

(** ** Until the next packet of the peer

    What the server does to a peer without accepting a transport packet from it:
    the operations of [peer_step], of which an incoming packet is refused, and
    the changes of the timers that leave the token of the passive keepalive
    alone. *)
Inductive idle_step : Peer → Peer → Prop :=
| idle_initiate t wall pk index self : idle_step self (initiate_new_session t wall pk index self).1
| idle_complete t addr index inc self : idle_step self (complete_incoming_handshake t addr index inc self).1
| idle_response t addr packet self : idle_step self (process_incoming_handshake_response t addr packet self).1
| idle_refused t addr packet self :
    is_ok (handle_incoming_transport t addr packet self).2 = false →
    idle_step self (handle_incoming_transport t addr packet self).1
| idle_outgoing t packet self : idle_step self (handle_outgoing_transport t packet self).1
| idle_cookie t reply self : idle_step self (consume_cookie_reply t reply self).1
| idle_queue packet self : idle_step self (queue_egress packet self)
| idle_wipe self : idle_step self (set_sessions (SessionOps.wipe (sessions self)).1 self)
| idle_info i self : idle_step self (set_info i self)
| idle_set_queue q self : idle_step self (set_outgoing_queue q self)
| idle_timers tm self : keepalive_sent tm = keepalive_sent (timers self) → idle_step self (set_timers tm self).

Lemma refused_timers t addr packet self :
  is_ok (handle_incoming_transport t addr packet self).2 = false →
  timers (handle_incoming_transport t addr packet self).1 = timers self.
Proof.
  unfold handle_incoming_transport, bindM, liftM, getM, modM.
  destruct (Transport.nonce packet); try done. destruct (Transport.our_index packet); try done.
  destruct (find_session _ self) as [[s ty]|]; [|done]. simpl.
  destruct (receive_on_session _ _ _ _) as [s' [raw|e|q|]]; try (intros _; by destruct ty). simpl.
  by case_decide.
Qed.

(** No operation but the receipt of a packet gives the token back. *)
Lemma idle_token self self' :
  idle_step self self' → keepalive_sent (timers self) = true → keepalive_sent (timers self') = true.
Proof.
  set (I self := keepalive_sent (timers self) = true).
  assert (∀ t input, keeps I (build_macs t input)) as Hm.
  { intros t input x Hx. unfold build_macs. by destruct (Generator.build_macs _ _ _). }
  assert (∀ s, keeps I (fun p => let '(p', d) := install_next s p in (p', Ok d))) as Hi.
  { intros s x Hx. unfold install_next. by destruct (next (sessions x)). }
  intros [t wall pk index x|t addr index [their ts n] x|t addr packet x|t addr packet x Hr|t packet x|t reply x|packet x|x|i x|q x|tm x Hk] Hx;
    try done; try (by rewrite refused_timers); try (simpl; congruence); revert x Hx.
  - unfold initiate_new_session. match goal with |- ∀ x, _ → keepalive_sent (timers (?m x).1) = true => change (keeps I m) end. keeps_run.
  - unfold complete_incoming_handshake, get_response_packet.
    match goal with |- ∀ x, _ → keepalive_sent (timers (?m x).1) = true => change (keeps I m) end. keeps_run.
  - unfold process_incoming_handshake_response.
    match goal with |- ∀ x, _ → keepalive_sent (timers (?m x).1) = true => change (keeps I m) end. keeps_run. by intros x Hx.
  - unfold handle_outgoing_transport.
    match goal with |- ∀ x, _ → keepalive_sent (timers (?m x).1) = true => change (keeps I m) end. keeps_run.
    + intros x Hx. by destruct (snow_write_message _ _ _).
    + unfold I. simpl. by destruct packet.
  - intros x Hx. unfold consume_cookie_reply. by destruct (Generator.consume_reply _ _ _).
  - intros x Hx. unfold queue_egress. by case_match.
Qed.

Lemma idle_not_due self self' t :
  rtc idle_step self self' → keepalive_sent (timers self) = true → keepalive_due t self' = false.
Proof.
  intros Hs Hk. assert (keepalive_sent (timers self') = true) as E.
  { induction Hs as [|x y z Hxy _ IH]; [done|]. by eapply IH, idle_token. }
  unfold keepalive_due. rewrite E. simpl. by rewrite !andb_false_r.
Qed.

(** C17.  The passive keepalive: the timer of a peer that is configured sends a
    packet exactly when one is due, an empty transport packet to the peer's
    endpoint, and then none is due, at any time and whatever else happens to the
    peer, until a transport packet from it is accepted (an empty one counts); the
    timer is set again to run out within KEEPALIVE-TIMEOUT, except when sending
    failed, which sends nothing. *)
Theorem passive_keepalive e p w self :
  upgrade e p = true → heap w !! p = Some self → 0 ≤ Timestamp.elapsed (now e) (data_received (timers self)) →
  (∀ s, current (sessions self) = Some s → is_u32 (their_index s) ∧ snow_is_handshake_finished (s_noise s) = true) →
  let '(w', r) := handle_timer e (PassiveKeepAlive p) w in
  if keepalive_due (now e) self then
    if is_ok r then
      ∃ ep out self', endpoint (info self) = Some ep ∧ wire w' = wire w ++ [(ep, out)] ∧
        MessageParser.try_from out = Ok (Message_Transport out) ∧ length out = 32%nat ∧
        heap w' !! p = Some self' ∧ (∀ self'' t, rtc idle_step self' self'' → keepalive_due t self'' = false) ∧
        timer w' = (Timer.send_after (now e) KEEPALIVE_TIMEOUT (PassiveKeepAlive p) (timer w)).1
    else wire w' = wire w ∧ timer w' = timer w
  else ∃ d, 0 < d ≤ KEEPALIVE_TIMEOUT ∧ w' = rearmed e d p w.
Proof.
  intros Hu Hp Hr Hs. cbn [handle_timer]. unfold upgraded. rewrite Hu. erewrite bindM_run by reflexivity.
  pose proof (passive_decision_run e p w self Hp Hr) as Hd. destruct (keepalive_due (now e) self) eqn:Hdue.
  2: { destruct Hd as (d & err & Hle & Hd). erewrite bindM_err by exact Hd. eauto. }
  rewrite (bindM_run _ _ _ _ _ Hd). unfold keepalive_due in Hdue. destruct (current (sessions self)) as [s|] eqn:Hc; [|done].
  destruct (Hs s eq_refl) as [Hi Hf].
  pose proof (send_keepalive_cases e p (set_heap (<[p:=keepalive_marked self]> (heap w)) w) (keepalive_marked self) s
    (lookup_insert_eq _ _ _) Hc Hi Hf) as H.
  unfold bindM at 1. destruct (send_keepalive e p _) as [w' [u|er|q|]]; destruct H as [Ht H]; try done.
  destruct H as (ep & out & self' & H1 & H2 & H3 & H4 & H5 & H6). exists ep, out, self'. simpl. split_and!; try done.
  - intros self'' t Hrun. by apply (idle_not_due self').
  - simpl in Ht. by rewrite Ht.
Qed.
End keepalive.

(* ------------------------------------------------------------------ *)
(** ** Instances of the theorems *)
Section witnesses.
#[local] Existing Instance refByteOrder.
#[local] Existing Instance refByteOrderLaws.
#[local] Existing Instance refBlake2.
#[local] Existing Instance refAead.
#[local] Existing Instance refSubtle.
#[local] Existing Instance refX25519.
#[local] Existing Instance refSnow.
#[local] Existing Instance refSnowLaws.
#[local] Existing Instance refRips.
#[local] Existing Instance refTreebitmap.
#[local] Existing Instance refTreebitmapLaws.
Import PeerServer.

(** After the poll that announces the peer, its timer waits. *)
Lemma passive_timer_unique_witness : passive 0 sys_polled = 1%nat ∧ (passive 0 sys_polled ≤ 1)%nat.
Proof. split; [vm_cast_no_check (eq_refl 1%nat)|exact (passive_timer_unique 0 [7; 8; 9] sys_polled 0 sys_run)]. Defined.

(** An initiation that is not answered: the timers of three sessions run out,
    each at its time; two more are sent, for there are three indices. *)
Definition retry_evs : list (Env * Z) := [(sv_env (secs 6), 7); (sv_env (secs 12), 8); (sv_env (secs 18), 7)].
Definition retry_peer : Peer := default sv_peer (heap sv_init.1 !! 0%nat).
Lemma rekey_attempts_bounded_witness :
  length (wire (rekey_timers 0 retry_evs sv_init.1).1) = 3%nat ∧
  (length (wire (rekey_timers 0 retry_evs sv_init.1).1) ≤ 1 + Z.to_nat 17)%nat.
Proof.
  split; [vm_cast_no_check (eq_refl 3%nat)|].
  refine (rekey_attempts_bounded 0 retry_evs sv_init.1 retry_peer _ _ _).
  - vm_cast_no_check (eq_refl (Some retry_peer)).
  - vm_cast_no_check (eq_refl (@None Session)).
  - by_decide.
Defined.

(** A session that is long out of use. *)
Lemma wipe_forgets_sessions_witness :
  ∃ w', handle_timer (sv_env (secs 1000)) (Wipe 0) eg_world = (w', Ok tt) ∧ wire w' = wire eg_world.
Proof.
  pose proof (wipe_forgets_sessions (sv_env (secs 1000)) 0 eg_world eg_peer eq_refl eq_refl) as H.
  assert ((WIPE_AFTER_TIME <=? Timestamp.elapsed (now (sv_env (secs 1000))) (handshake_completed (timers eg_peer))) = true) as E by by_decide.
  rewrite E in H. destruct H as (w' & H1 & _ & _ & _ & _ & H2 & _). exists w'. exact (conj H1 H2).
Defined.

(** The peer's side is silent: a keepalive is sent. *)
Definition ka_run : World * res unit := handle_timer (sv_env 5) (PassiveKeepAlive 0) eg_world.
Lemma passive_keepalive_witness : ∃ ep out, wire ka_run.1 = wire eg_world ++ [(ep, out)] ∧ length out = 32%nat.
Proof.
  pose proof (passive_keepalive (sv_env 5) 0 eg_world eg_peer eq_refl eq_refl ltac:(by_decide)) as H.
  assert (is_ok ka_run.2 = true) as Hok by (vm_cast_no_check (eq_refl true)).
  assert (keepalive_due (now (sv_env 5)) eg_peer = true) as Hdue by (vm_cast_no_check (eq_refl true)).
  rewrite Hdue in H. fold ka_run in H. destruct ka_run as [w' r]. simpl in Hok |- *. rewrite Hok in H.
  destruct H as (ep & out & self' & _ & H1 & _ & H2 & _).
  - intros s Hs. injection Hs as <-. split; [by_decide|vm_cast_no_check (eq_refl true)].
  - exists ep, out. exact (conj H1 H2).
Defined.
End witnesses.
