(* ===== verification/NoPanic.v ===== *)
(** * The server does not panic

    In the states the system reaches, no datagram, timer, tunnel packet or
    configuration event makes a handler of the peer server panic, except an
    empty datagram, a port that cannot be bound when a new private key arrives
    and a system clock before 1970:
    src/interface/peer_server.rs and src/interface/config.rs, down to the peers,
    the cookies and the message accessors they call. *)

From S2P Require Import Prelude Crates Reference RefSnow AntiReplay Types Timestamp Message XChaCha RateLimiter Cookie Router Peer PeerTransport PeerSessions PeerTotal Timer World PeerServer ServerInvariant Config System.

(** `rebind` with the settings of the interface: there is no private key, or the
    port can be bound and the mark, if there is one, set. *)
Definition bindable (e : Env) (i : InterfaceInfo) : bool :=
  match if_private_key i with
  | None => true
  | Some _ =>
      is_ok (os_bind e (default 0 (if_listen_port i))) &&
      ((default 0 (if_fwmark i) =? 0) || is_ok (os_set_mark e (default 0 (if_fwmark i))))
  end.

Section server_total.
Context {BO : ByteOrder} {BOL : ByteOrderLaws BO} {B : Blake2} {BL : Blake2Laws B} {S : Subtle} {SUL : SubtleLaws S}
        {A : Aead} {AL : AeadLaws A} {R : Rips} {T : Treebitmap} {SN : Snow} {SL : SnowLaws SN} {ST : SnowTotal SN}.
Import PeerOps PeerServer.

(** The cells of the heap, and what a poll does not change. *)
Context (D : gset peer_id) (PM : gmap bytes peer_id) (RT : Router.t) (II : InterfaceInfo).
Context (HPM : ∀ pk p, PM !! pk = Some p → p ∈ D)
        (HRT : ∀ ip p, Router.get_peer_from_ip RT ip = Some p → p ∈ D)
        (HII : ∀ k, if_private_key II = Some k → length k = 32%nat).

(** What is known of the environment when a new private key is announced. *)
Context (BD : Prop).

(** A message in the handshake queue. *)
Definition queued_ok (m : Message) : Prop :=
  is_bytes (packet_of m) ∧
  match m with
  | Message_Initiation p => length p = 148%nat
  | Message_Response p => length p = 92%nat
  | Message_CookieReply p => length p = 64%nat
  | Message_Transport _ => False
  end.

Definition event_in (cells : gset peer_id) (event : ChannelMessage) : Prop :=
  match event with NewPeer p | NewPersistentKeepalive p => p ∈ cells | _ => True end.

Record settled (w : World) : Prop := {
  st_heap : dom (heap w) = D;
  st_peers : ∀ p self, heap w !! p = Some self → peer_calm self;
  st_keys : pubkey_map (state w) = PM;
  st_router : router (state w) = RT;
  st_interface : interface_info (state w) = II;
  st_index : ∀ i p, index_map (state w) !! i = Some p → p ∈ D;
  st_handshakes : Forall (fun '(_, m) => queued_ok m) (handshakes w);
  st_channel : Forall (event_in D) (channel w);
  st_key : NewPrivateKey ∈ channel w → BD;
  st_validator : ∃ pk, validator_for pk (validator w);
  st_rng : Forall is_u32 (rng w);
}.

(** What a handler is given: live references, random bytes of the right size, a
    clock after 1970, and system calls that return. *)
Record env_calm (e : Env) : Prop := {
  ec_upgrade : ∀ p, upgrade e p = true → p ∈ D;
  ec_secret : length (rand_secret e) = 16%nat;
  ec_nonce : is_bytes (rand_nonce e) ∧ length (rand_nonce e) = 24%nat;
  ec_wall : Tai64n.in_range (wall e);
  ec_bind : ∀ p, is_panic (os_bind e p) = false;
  ec_mark : ∀ m, is_panic (os_set_mark e m) = false;
}.

(** ** Access *)

Lemma settled_peer w p self self' :
  settled w → heap w !! p = Some self → peer_calm self' → settled (set_heap (<[p := self']> (heap w)) w).
Proof.
  intros [] Hp Hs. split; try done; simpl.
  - rewrite dom_insert_L. apply elem_of_dom_2 in Hp. set_solver.
  - intros q x. destruct (decide (q = p)) as [->|]; [rewrite lookup_insert_eq; by intros [= <-]|].
    rewrite lookup_insert_ne by done. eauto.
Qed.

Lemma cell_of w p : settled w → p ∈ D → ∃ self, heap w !! p = Some self ∧ peer_calm self.
Proof.
  intros Hw Hp. rewrite <-(st_heap _ Hw) in Hp. apply elem_of_dom in Hp as [self Hp]. exists self. split; [done|].
  by eapply st_peers.
Qed.

Lemma safe_with_peer {X} (phi : X → Prop) p (m : M Peer X) :
  p ∈ D → safe peer_calm phi m → safe settled phi (with_peer p m).
Proof.
  intros Hp Hm w Hw. destruct (cell_of w p Hw Hp) as (self & Hself & Hc). unfold with_peer. rewrite Hself.
  destruct (Hm self Hc) as [H1 H2]. destruct (m self) as [self' r]. split; [by eapply settled_peer|done].
Qed.

Lemma safe_read_peer {X} (phi : X → Prop) p (f : Peer → res X) :
  p ∈ D → (∀ self, peer_calm self → calm phi (f self)) → safe settled phi (read_peer p f).
Proof.
  intros Hp Hf w Hw. destruct (cell_of w p Hw Hp) as (self & Hself & Hc). unfold read_peer. rewrite Hself.
  split; [done|by apply Hf].
Qed.

Lemma safe_mod_peer p f : p ∈ D → (∀ self, peer_calm self → peer_calm (f self)) →
  safe settled (fun _ => True) (with_peer p (modM f)).
Proof. intros Hp Hf. apply safe_with_peer; [done|]. by apply safe_mod. Qed.

Lemma safe_map_timers p f : p ∈ D → safe settled (fun _ => True) (map_timers p f).
Proof. intros Hp. apply safe_mod_peer; [done|]. intros self. apply peer_calm_timers. Qed.

(** A change of a field that [settled] does not read. *)
Lemma settled_frame w w' :
  heap w' = heap w → state w' = state w → handshakes w' = handshakes w → channel w' = channel w →
  validator w' = validator w → rng w' = rng w → settled w → settled w'.
Proof. intros E1 E2 E3 E4 E5 E6 []. split; rewrite ?E1, ?E2, ?E3, ?E4, ?E5, ?E6; done. Qed.

Lemma settled_index w m : settled w → (∀ i p, m !! i = Some p → p ∈ D) →
  settled (set_state (set_index_map m (state w)) w).
Proof. intros [] Hm. by split. Qed.

Lemma safe_insert_index i p : p ∈ D → safe settled (fun _ => True) (insert_index i p).
Proof.
  intros Hp. apply safe_mod; [|done]. intros w Hw. apply settled_index; [done|]. intros j q.
  rewrite lookup_insert_Some. intros [[_ <-]|[_ Hj]]; [done|by eapply st_index].
Qed.
Lemma safe_remove_index d : safe settled (fun _ => True) (remove_index d).
Proof.
  destruct d as [i|]; [|by apply safe_ret]. apply safe_mod; [|done]. intros w Hw. apply settled_index; [done|].
  intros j q [_ Hj]%lookup_delete_Some. by eapply st_index.
Qed.
Lemma safe_send_after e d m : safe settled (fun _ => True) (send_after e d m).
Proof.
  intros w Hw. unfold send_after. destruct (Timer.send_after _ _ _ _) as [t h]. split; [by apply (settled_frame w)|done].
Qed.
Lemma safe_send_to_peer x : safe settled (fun _ => True) (send_to_peer x).
Proof.
  unfold send_to_peer. apply safe_bind_get. intros w _. apply safe_bind_any; [apply safe_no_panic, ok_or_no_panic|].
  intros _. apply safe_mod; [|done]. intros w' Hw. by apply (settled_frame w').
Qed.
Lemma safe_send_to_tunnel e x : safe settled (fun _ => True) (send_to_tunnel e x).
Proof.
  unfold send_to_tunnel. apply safe_bind_any; [apply safe_no_panic, ensure_no_panic|].
  intros _. apply safe_mod; [|done]. intros w' Hw. by apply (settled_frame w').
Qed.
Lemma safe_unused_index : safe settled is_u32 unused_index.
Proof.
  intros w Hw. unfold unused_index. pose proof (st_rng _ Hw) as Hr.
  assert (∀ used ds, Forall is_u32 ds → Forall is_u32 (draw_index used ds).1 ∧ calm is_u32 (draw_index used ds).2) as Hd.
  { intros used ds Hds. induction Hds as [|d ds Hd Hds IH]; simpl; [done|]. by destruct (used !! d). }
  destruct (Hd (index_map (state w)) (rng w) Hr) as [H1 H2]. destruct (draw_index _ _) as [ds r].
  split; [|done]. destruct Hw. by split.
Qed.
Lemma safe_under_load e : safe settled (fun _ => True) (under_load e).
Proof.
  unfold under_load. apply safe_bind_any; [|intros _; by apply safe_get]. apply safe_mod; [|done].
  intros w Hw. destruct (_ <? _); [|done]. by apply (settled_frame w).
Qed.
Create HintDb calm.
Hint Resolve safe_with_peer safe_map_timers safe_insert_index safe_remove_index safe_send_after safe_send_to_peer
  safe_send_to_tunnel safe_under_load safe_no_panic ensure_no_panic ok_or_no_panic outgoing_safe safe_ret safe_err I : calm.

(** Steps whose value does not matter. *)
Ltac safe_go :=
  repeat lazymatch goal with
    | |- safe _ _ (errM _) => apply safe_err
    | |- safe _ _ (retM _) => apply safe_ret; exact I
    | |- safe _ _ (bindM (getM _) _) => apply safe_bind_get; intros ? ?
    | |- safe _ _ (bindM _ _) => apply safe_bind_any; [solve [eauto 6 with calm]|intros ?]
    | |- safe _ _ _ => solve [eauto 6 with calm]
    end.

(** ** Sending *)

Lemma safe_send_cookie_reply e addr mac1 i :
  env_calm e → is_u32 i → safe settled (fun _ => True) (send_cookie_reply e addr mac1 i).
Proof.
  intros He Hi. unfold send_cookie_reply. apply safe_bind_any; [|intros ?; apply safe_send_to_peer].
  intros w Hw. destruct (st_validator _ Hw) as [pk Hv].
  pose proof (generate_reply_ok pk (validator w) (now e) (rand_secret e) (rand_nonce e) i mac1 (ip_octets (Endpoint.ip addr))
    Hv Hi (ec_secret _ He) (proj1 (ec_nonce _ He)) (proj2 (ec_nonce _ He)) ltac:(apply blake2s_bytes)) as H.
  destruct (Validator.generate_reply _ _ _ _ _ _ _) as [v r]. destruct H as (Hv' & _ & _ & ct & tag & _ & _ & _ & -> & _).
  split; [|done]. destruct Hw. split; try done. by exists pk.
Qed.

Lemma safe_send_handshake_init e p : env_calm e → p ∈ D → safe settled (fun _ => True) (send_handshake_init e p).
Proof.
  intros He Hp. unfold send_handshake_init. apply safe_bind_any; [by apply safe_read_peer|]. intros since.
  apply safe_bind_any; [apply safe_no_panic, ensure_no_panic|]. intros _. apply safe_bind_get. intros w Hw.
  apply safe_bind_lift; [apply ok_or_no_panic|]. intros pk Hpk%ok_or_Ok. rewrite (st_interface _ Hw) in Hpk. apply HII in Hpk.
  eapply safe_bind; [apply safe_unused_index|]. intros i Hi.
  apply safe_bind_any; [apply safe_with_peer; [done|]; by apply initiate_safe; [..|apply He]|].
  intros [[ep packet] dead]. safe_go.
Qed.

(** ** Handshakes *)

Lemma safe_check_mac1 n packet : (n + 16 ≤ length packet)%nat → safe settled (fun _ => True) (check_mac1 n packet).
Proof.
  intros Hl. unfold check_mac1. apply safe_bind_get. intros w Hw. eapply safe_bind_ok; [apply slice_Ok; lia|].
  eapply safe_bind_ok; [apply slice_from_Ok; lia|]. eapply safe_bind_ok; [apply slice_Ok; rewrite ?length_drop; lia|].
  apply safe_no_panic. unfold Validator.verify_mac1. rewrite length_take, !length_drop, Nat.min_l by lia.
  apply ensure_no_panic.
Qed.

Lemma mac2_verified_calm e v packet addr : (16 ≤ length packet)%nat → is_panic (mac2_verified e v packet addr) = false.
Proof.
  intros Hl. unfold mac2_verified, Validator.verify_mac2. destruct (Validator.mac2_secret_time v); [|done]. cbn [ok_or bind_res].
  destruct (_ <=? COOKIE_REFRESH_TIME); [|done]. cbn [ensure bind_res]. rewrite (proj2 (Nat.ltb_ge _ _)) by done.
  rewrite slice_Ok, slice_from_Ok by lia. cbn [bind_res]. by destruct (negb _).
Qed.

Lemma safe_check_load e addr packet mac1 sender msg :
  env_calm e → (16 ≤ length packet)%nat → is_panic mac1 = false → calm is_u32 sender →
  safe settled (fun _ => True) (check_load e addr packet mac1 sender msg).
Proof.
  intros He Hl Hm Hs. unfold check_load. apply safe_bind_any; [apply safe_under_load|]. intros []; [|by apply safe_ret].
  apply safe_bind_get. intros w Hw. apply safe_bind_any; [by apply safe_no_panic, mac2_verified_calm|]. intros []; cbn [negb].
  - apply safe_bind_any; [|intros ok; apply safe_no_panic, ensure_no_panic]. intros w' Hw'.
    destruct (RateLimiter.allow _ _ _ _) as [rl ok]. split; [by apply (settled_frame w')|done].
  - apply safe_bind_any; [by apply safe_no_panic|]. intros m. eapply safe_bind; [by apply safe_lift|]. intros i Hi.
    apply safe_bind_any; [by apply safe_send_cookie_reply|]. intros _. apply safe_err.
Qed.

Lemma safe_handshake_init e addr packet :
  env_calm e → is_bytes packet → length packet = 148%nat →
  safe settled (fun _ => True) (handle_ingress_handshake_init e addr packet).
Proof.
  intros He Hb Hl. unfold handle_ingress_handshake_init. apply safe_bind_any; [apply safe_check_mac1; lia|]. intros _.
  apply safe_bind_any.
  { apply safe_check_load; [done|lia| |apply read_u32_calm; [done|lia]]. unfold Initiation.mac1. by rewrite slice_Ok by lia. }
  intros _. apply safe_bind_get. intros w Hw.
  apply safe_bind_lift; [apply ok_or_no_panic|]. intros pk Hpk%ok_or_Ok. rewrite (st_interface _ Hw) in Hpk. apply HII in Hpk.
  eapply safe_bind; [by apply safe_lift, process_incoming_calm|]. intros inc [Hi Hstatic]. 
  apply safe_bind_any.
  { apply safe_no_panic. unfold SessionOps.their_pubkey. by destruct (snow_get_remote_static (inc_noise inc)). }
  intros their. apply safe_bind_get. intros w' Hw'. rewrite (st_keys _ Hw').
  apply safe_bind_lift; [apply ok_or_no_panic|]. intros p Hp%ok_or_Ok%HPM.
  eapply safe_bind; [apply safe_unused_index|]. intros i Hi'.
  apply safe_bind_any; [apply safe_with_peer; [done|]; by apply complete_safe|]. intros [response dead]. safe_go.
Qed.

Lemma safe_drain_queue e p q : p ∈ D → safe settled (fun _ => True) (drain_queue e p q).
Proof.
  intros Hp. induction q as [|packet q IH]; cbn [drain_queue]; [by apply safe_ret|].
  apply safe_bind_any; [apply safe_mod_peer; [done|]; intros self; apply peer_calm_queue|]. intros _.
  do 2 (apply safe_bind_any; [by eauto with calm|intros ?]). exact IH.
Qed.

Lemma safe_flush_queue e p q : p ∈ D → safe settled (fun _ => True) (flush_queue e p q).
Proof.
  intros Hp. induction q as [|packet q IH]; cbn [flush_queue]; [by apply safe_ret|].
  apply safe_bind_any; [|intros [m|]; (apply safe_bind_any; [by auto with calm|intros _; exact IH])]. intros w Hw.
  destruct (safe_with_peer (fun _ => True) p _ Hp (outgoing_safe (now e) (UtunPacket.payload packet)) w Hw) as [H1 H2].
  by destruct (with_peer p _ w) as [w' [m|x|x|]].
Qed.

Lemma safe_ready e p : p ∈ D → safe settled (fun _ => True) (read_peer p (ready_for_transport (now e))).
Proof. intros Hp. apply safe_read_peer; [done|]. intros self Hs. by eapply calm_mono; [by apply calm_eq, ready_calm|]. Qed.
Lemma safe_needs e b p : p ∈ D → safe settled (fun _ => True) (read_peer p (needs_new_handshake (now e) b)).
Proof. intros Hp. apply safe_read_peer; [done|]. intros self Hs. by eapply calm_mono; [by apply calm_eq, needs_handshake_calm|]. Qed.

(** A session index leads to a cell. *)
Lemma safe_lookup_index {X} (psi : X → Prop) i msg (k : peer_id → M World X) :
  (∀ p, p ∈ D → safe settled psi (k p)) →
  safe settled psi (let! found := getM (fun w => index_map (state w) !! i) in let! p := liftM (ok_or found msg) in k p).
Proof.
  intros Hk. apply safe_bind_get. intros w Hw. apply safe_bind_lift; [apply ok_or_no_panic|].
  intros p Hp%ok_or_Ok. apply Hk. by eapply st_index.
Qed.

Lemma safe_handshake_resp e addr packet :
  env_calm e → is_bytes packet → length packet = 92%nat →
  safe settled (fun _ => True) (handle_ingress_handshake_resp e addr packet).
Proof.
  intros He Hb Hl. unfold handle_ingress_handshake_resp. apply safe_bind_any; [apply safe_check_mac1; lia|]. intros _.
  apply safe_bind_any.
  { apply safe_check_load; [done|lia| |apply read_u32_calm; [done|lia]]. unfold Response.mac1. by rewrite slice_Ok by lia. }
  intros _. eapply safe_bind_ok; [apply read_u32_from_ok; lia|]. apply safe_lookup_index. intros p Hp.
  apply safe_bind_any; [apply safe_with_peer; [done|]; by apply process_response_safe|]. intros dead.
  apply safe_bind_any; [apply safe_remove_index|]. intros _. apply safe_bind_any; [by apply safe_ready|]. intros ready.
  apply safe_bind_any; [|intros _; safe_go]. destruct ready; [|by apply safe_ret].
  apply safe_bind_any; [by apply safe_read_peer|]. intros [|x q]; [|by apply safe_drain_queue]. safe_go.
Qed.

Lemma safe_cookie_reply e packet :
  is_bytes packet → length packet = 64%nat → safe settled (fun _ => True) (handle_ingress_cookie_reply e packet).
Proof.
  intros Hb Hl. unfold handle_ingress_cookie_reply, CookieReply.receiver_index, read_u32_in. rewrite slice_Ok by lia.
  cbn [bind_res]. eapply safe_bind_ok; [apply le_read_u32_ok; rewrite length_take, length_drop; lia|].
  apply safe_lookup_index. intros p Hp. apply safe_with_peer; [done|]. by apply cookie_reply_safe.
Qed.

Lemma safe_handshake e addr m : env_calm e → queued_ok m → safe settled (fun _ => True) (handle_ingress_handshake e addr m).
Proof.
  intros He [Hb Hm]. unfold handle_ingress_handshake. apply safe_bind_any; [apply safe_under_load|]. intros _.
  destruct m; simpl in *; [by apply safe_handshake_init|by apply safe_handshake_resp|by apply safe_cookie_reply|done].
Qed.

(** ** Packets *)

Lemma safe_transport e addr packet :
  env_calm e → is_bytes packet → (32 ≤ length packet)%nat →
  safe settled (fun _ => True) (handle_ingress_transport e addr packet).
Proof.
  intros He Hb Hl. unfold handle_ingress_transport. eapply safe_bind_ok; [apply read_u32_from_ok; lia|].
  apply safe_lookup_index. intros p Hp.
  apply safe_bind_any; [apply safe_with_peer; [done|]; by apply incoming_safe|]. intros [raw tr].
  apply safe_bind_any.
  { destruct tr as [|dead]; [by apply safe_ret|]. apply safe_bind_any; [apply safe_remove_index|]. intros _.
    apply safe_bind_any; [by apply safe_read_peer|]. intros q.
    apply safe_bind_any; [apply safe_mod_peer; [done|]; intros self; apply peer_calm_queue|]. intros _.
    apply safe_bind_any; [by apply safe_flush_queue|]. intros _. safe_go. }
  intros _. apply safe_bind_any; [by apply safe_needs|]. intros needs. apply safe_bind_any.
  { destruct needs; [|by apply safe_ret]. apply safe_bind_any; [by apply safe_send_handshake_init|]. intros _. by apply safe_ret. }
  intros _. destruct raw as [|x raw]; [by apply safe_ret|]. do 2 (apply safe_bind_get; intros ? ?). apply safe_bind_any; [|intros _; apply safe_send_to_tunnel].
  apply safe_no_panic. unfold Router.validate_source. destruct (match IpPacket.new _ with Some _ => _ | None => _ end); [|done].
  apply ensure_no_panic.
Qed.

Lemma safe_ingress e addr packet :
  env_calm e → is_bytes packet → packet ≠ [] → safe settled (fun _ => True) (handle_ingress_packet e addr packet).
Proof.
  intros He Hb Hne. unfold handle_ingress_packet. apply safe_bind_lift.
  { rewrite try_from_lookup. destruct packet as [|k p]; [done|]. cbn [lookup list_lookup]. by repeat case_match. }
  intros m [Hp Hw]%try_from_Ok. subst packet. destruct m as [p|p|p|p]; cbn [packet_of well_framed] in *; destruct Hw as [_ Hl];
    try (by apply safe_transport); (apply safe_mod; [|done]; intros w []; split; try done;
      apply Forall_app; split; [done|]; apply Forall_singleton; by split).
Qed.

Lemma safe_egress e packet : env_calm e → safe settled (fun _ => True) (handle_egress_packet e packet).
Proof.
  intros He. unfold handle_egress_packet. apply safe_bind_any; [apply safe_no_panic, ensure_no_panic|]. intros _.
  apply safe_bind_get. intros w Hw. rewrite (st_router _ Hw). apply safe_bind_lift; [apply ok_or_no_panic|].
  intros p Hp%ok_or_Ok. unfold Router.route_to_peer in Hp.
  destruct (IpPacket.new _) as [ip|]; [|done]. apply HRT in Hp.
  apply safe_bind_any; [by apply safe_needs|]. intros needs.
  apply safe_bind_any; [apply safe_mod_peer; [done|]; intros self; apply queue_egress_calm|]. intros _.
  apply safe_bind_any; [by apply safe_ready|]. intros ready. apply safe_bind_any.
  { destruct ready; [|by apply safe_ret]. apply safe_bind_any; [by apply safe_read_peer|]. intros q. by apply safe_drain_queue. }
  intros _. destruct needs; [|by apply safe_ret]. apply safe_bind_any; [by apply safe_send_handshake_init|]. intros _. by apply safe_ret.
Qed.
(** ** Timers and events *)

Lemma safe_peer_itself p : p ∈ D → safe settled (fun _ => True) (read_peer p (fun peer => Ok peer)).
Proof. intros Hp. by apply safe_read_peer. Qed.
Lemma safe_keepalive e p : p ∈ D → safe settled (fun _ => True) (send_keepalive e p).
Proof. intros Hp. unfold send_keepalive. safe_go. Qed.
Hint Resolve safe_peer_itself safe_keepalive safe_send_handshake_init : calm.

Lemma safe_rekey_decision e p i : p ∈ D → safe settled (fun _ => True) (rekey_decision e p i).
Proof.
  intros Hp. unfold rekey_decision. do 2 (apply safe_bind_any; [by apply safe_read_peer|]; intros ?).
  repeat case_match; safe_go.
Qed.

Lemma safe_passive_decision e p : p ∈ D → safe settled (fun _ => True) (passive_decision e p).
Proof.
  intros Hp. unfold passive_decision. cbv zeta. apply safe_bind_any; [by apply safe_read_peer|]. intros peer.
  repeat case_match; safe_go.
Qed.

Lemma safe_wipe_sessions p : p ∈ D → safe settled (fun _ => True) (wipe_sessions p).
Proof.
  intros Hp. unfold wipe_sessions. apply safe_bind_any.
  - apply safe_with_peer; [done|]. intros self Hs. split; [by apply wipe_calm|done].
  - intros dead. apply safe_mod; [|done]. intros w Hw. apply settled_index; [done|]. intros i q.
    rewrite foldl_delete_lookup. case_decide; [done|]. by apply (st_index _ Hw).
Qed.

Lemma safe_handle_timer e m : env_calm e → safe settled (fun _ => True) (handle_timer e m).
Proof.
  intros He.
  assert (∀ p (k : unit → M World unit), (p ∈ D → safe settled (fun _ => True) (k tt)) →
            safe settled (fun _ => True) (bindM (upgraded e p) k)) as Hup.
  { intros p k Hk. unfold upgraded. apply safe_bind_lift; [apply ensure_no_panic|]. intros [] Hu%ensure_Ok.
    by apply Hk, (ec_upgrade _ He). }
  destruct m as [p|p|p i|p]; cbn [handle_timer]; apply Hup; intros Hp.
  - apply safe_bind_any; [by apply safe_read_peer|]. intros peer. repeat case_match; safe_go.
  - apply safe_bind_any; [by apply safe_passive_decision|]. intros _. safe_go.
  - apply safe_bind_any; [by apply safe_rekey_decision|]. intros _. safe_go.
  - apply safe_bind_any; [by apply safe_read_peer|]. intros since. case_match; [by apply safe_wipe_sessions|by apply safe_ret].
Qed.

Lemma safe_rebind e : env_calm e → safe settled (fun _ => True) (rebind e).
Proof.
  intros He. unfold rebind. apply safe_bind_get. intros w0 Hw0.
  assert (∀ p u, safe settled (fun _ => True) (modM (fun w => set_port p (set_udp u w)))) as Hset.
  { intros p u. apply safe_mod; [|done]. intros w Hw. by apply (settled_frame w). }
  destruct (if_private_key (interface_info (state w0))); [|apply Hset]. cbv zeta. apply safe_bind_get. intros w1 _.
  case_bool_decide; [by apply safe_ret|]. apply safe_bind_any; [apply safe_no_panic, (ec_bind _ He)|]. intros _.
  apply safe_bind_any; [|intros mark; apply Hset]. apply safe_no_panic. destruct (negb _); [|done].
  pose proof (ec_mark _ He (default 0 (if_fwmark (interface_info (state w0))))). by destruct (os_set_mark e _).
Qed.

(** Binding does not fail when the port can be bound and the mark set. *)
Lemma rebind_binds e w : settled w → env_calm e → bindable e II = true → is_err (rebind e w).2 = false.
Proof.
  intros Hw He Hb. unfold bindable in Hb. rewrite <-(st_interface _ Hw) in Hb.
  unfold rebind, bindM, getM, liftM, modM, retM. cbv beta iota.
  destruct (if_private_key (interface_info (state w))); [|done]. case_bool_decide; [done|].
  apply andb_true_iff in Hb as [Hb Hm]. destruct (os_bind e _); try done.
  destruct (default 0 (if_fwmark (interface_info (state w))) =? 0); [done|]. simpl in Hm |- *. by destruct (os_set_mark e _).
Qed.

Lemma safe_event e event :
  env_calm e → (BD → bindable e II = true) → event_in D event → (event = NewPrivateKey → BD) →
  safe settled (fun _ => True) (handle_incoming_event e event).
Proof.
  intros He Hbd Hev Hkey. pose proof (safe_rebind e He) as Hr. destruct event as [| |port|mark|p|p]; cbn [handle_incoming_event].
  - by apply safe_ret.
  - specialize (Hbd (Hkey eq_refl)). apply safe_bind_get. intros w Hw. destruct (if_pub_key _) as [pub|].
    + apply safe_bind_any.
      { apply safe_mod; [|done]. intros w' []. split; try done. exists pub. apply validator_for_new. }
      intros _. apply safe_bind_get. intros w' _. case_bool_decide; [by apply safe_ret|].
      intros w2 Hw2. destruct (Hr w2 Hw2) as [H1 H2]. pose proof (rebind_binds e w2 Hw2 He Hbd) as H3. by destruct (rebind e w2) as [w3 []].
    + apply safe_mod; [|done]. intros w' Hw'. by apply (settled_frame w').
  - exact Hr.
  - apply safe_bind_get. intros w _. destruct (udp w); [|by apply safe_ret]. apply safe_bind_any.
    + apply safe_no_panic, (ec_mark _ He).
    + intros _. apply safe_mod; [|done]. intros w' Hw'. by apply (settled_frame w').
  - simpl in Hev. apply safe_bind_any; [by apply safe_read_peer|]. intros peer. apply safe_bind_any.
    { destruct (persistent_timer (timers peer)); [|by apply safe_ret]. apply safe_mod; [|done]. intros w Hw. by apply (settled_frame w). }
    intros _. case_match; safe_go.
  - simpl in Hev. safe_go. case_match; safe_go.
Qed.

(** ** The poll *)

Lemma safe_each {X} (phi : X → Prop) (handler : X → M World unit) xs :
  (∀ x, phi x → safe settled (fun _ => True) (handler x)) → Forall phi xs → safe settled (fun _ => True) (each handler xs).
Proof.
  intros Hh Hxs. induction Hxs as [|x xs Hx _ IH]; cbn [each]; [by apply safe_ret|].
  apply safe_bind_any; [|intros _; exact IH]. eapply safe_ignore. by apply Hh.
Qed.

Lemma safe_settle e s name : safe settled (fun _ => True) (settle e s name).
Proof. unfold settle. case_match; [by apply safe_ret|apply safe_err|apply safe_err]. Qed.

Lemma safe_poll e ingress :
  env_calm e → (BD → bindable e II = true) → Forall (fun '(_, packet) => is_bytes packet ∧ packet ≠ []) ingress →
  safe settled (fun _ => True) (poll e ingress).
Proof.
  intros He Hbd Hi. unfold poll. apply safe_bind_any; [|intros _; apply safe_bind_any; [|intros _; apply safe_bind_any; [|intros _; apply safe_bind_any; [|intros _]]]].
  - unfold poll_channel. apply safe_bind_get. intros w Hw. pose proof (st_channel _ Hw) as Hc. pose proof (st_key _ Hw) as Hk. apply safe_bind_any.
    { apply safe_mod; [|done]. intros w' []. split; try done. by intros ?%not_elem_of_nil. }
    intros _. apply safe_bind_any; [|intros _; apply safe_settle].
    apply (safe_each (fun ev => event_in D ev ∧ (ev = NewPrivateKey → BD))); [intros ev []; by apply safe_event|].
    apply Forall_forall. intros ev Hin. rewrite Forall_forall in Hc. split; [by apply Hc|]. intros ->. by apply Hk.
  - unfold poll_timer. apply safe_bind_get. intros w Hw. apply safe_bind_any.
    { apply safe_mod; [|done]. intros w' Hw'. by apply (settled_frame w'). }
    intros _. apply safe_bind_any; [|intros _; apply safe_settle]. apply (safe_each (fun _ => True)); [|by apply Forall_true]. intros m _. by apply safe_handle_timer.
  - unfold poll_ingress. apply safe_bind_get. intros w Hw. case_bool_decide; [|by apply safe_ret].
    apply safe_bind_any; [|intros _; apply safe_settle]. eapply safe_each; [|exact Hi]. intros [addr packet] [Hb Hne]. by apply safe_ingress.
  - unfold poll_egress. apply safe_bind_get. intros w Hw. apply safe_bind_any.
    { apply safe_mod; [|done]. intros w' Hw'. by apply (settled_frame w'). }
    intros _. apply safe_bind_any; [|intros _; apply safe_settle]. apply (safe_each (fun _ => True)); [|by apply Forall_true]. intros m _. by apply safe_egress.
  - unfold poll_handshake. apply safe_bind_get. intros w Hw. pose proof (st_handshakes _ Hw) as Hq.
    destruct (handshakes w) as [|[addr m] hs]; [by apply safe_ret|]. apply Forall_cons in Hq as [Hm Hq]. apply safe_bind_any.
    { apply safe_mod; [|done]. intros w' []. by split. }
    intros _. eapply safe_ignore. by apply safe_handshake.
Qed.
End server_total.

(* ------------------------------------------------------------------ *)
(** ** The system *)
Section system_total.
Context {BO : ByteOrder} {BOL : ByteOrderLaws BO} {B : Blake2} {BL : Blake2Laws B} {S : Subtle} {SUL : SubtleLaws S}
        {A : Aead} {AL : AeadLaws A} {R : Rips} {T : Treebitmap} {TL : TreebitmapLaws T} {X : X25519}
        {SN : Snow} {SL : SnowLaws SN} {ST : SnowTotal SN}.
Import PeerOps PeerServer Config.

(** Every reference has a cell, and every cell and queue is in order. *)
Record quiet (w : World) : Prop := {
  qu_peers : ∀ p self, heap w !! p = Some self → peer_calm self;
  qu_keys : ∀ pk p, pubkey_map (state w) !! pk = Some p → p ∈ dom (heap w);
  qu_index : ∀ i p, index_map (state w) !! i = Some p → p ∈ dom (heap w);
  qu_routes : ∃ m, represents (router (state w)) m ∧ ∀ k p, m !! k = Some p → p ∈ dom (heap w);
  qu_private : ∀ k, if_private_key (interface_info (state w)) = Some k → length k = 32%nat;
  qu_handshakes : Forall (fun '(_, m) => queued_ok m) (handshakes w);
  qu_channel : Forall (event_in (dom (heap w))) (channel w);
  qu_validator : ∃ pk, validator_for pk (validator w);
  qu_rng : Forall is_u32 (rng w);
}.

Lemma quiet_settled w :
  quiet w →
  settled (dom (heap w)) (pubkey_map (state w)) (router (state w)) (interface_info (state w)) (NewPrivateKey ∈ channel w) w.
Proof. by intros []. Qed.

Lemma quiet_route w ip p : quiet w → Router.get_peer_from_ip (router (state w)) ip = Some p → p ∈ dom (heap w).
Proof.
  intros [_ _ _ (m & Hr & Hm) _ _ _ _ _] Hp. rewrite (represents_lookup _ m) in Hp by done.
  apply routes_lookup_in in Hp as [k Hk]. eauto.
Qed.

Lemma settled_quiet bd w w' :
  quiet w → settled (dom (heap w)) (pubkey_map (state w)) (router (state w)) (interface_info (state w)) bd w' → quiet w'.
Proof.
  intros [Q1 Q2 Q3 Q4 Q5 Q6 Q7 Q8 Q9] [H1 H2 H3 H4 H5 H6 H7 H8 HK H9 H10]. split; rewrite ?H1, ?H3, ?H4, ?H5; try done.
Qed.

(** A poll. *)
Lemma quiet_poll e ingress w :
  quiet w → env_calm (dom (heap w)) e → (NewPrivateKey ∈ channel w → bindable e (interface_info (state w)) = true) →
  Forall (fun '(_, packet) => is_bytes packet ∧ packet ≠ []) ingress →
  quiet (poll e ingress w).1 ∧ is_panic (poll e ingress w).2 = false.
Proof.
  intros Hw He Hbd Hi.
  destruct (safe_poll (dom (heap w)) (pubkey_map (state w)) (router (state w)) (interface_info (state w))
    (qu_keys _ Hw) (fun ip p => quiet_route w ip p Hw) (qu_private _ Hw) (NewPrivateKey ∈ channel w) e ingress He Hbd Hi
    w (quiet_settled w Hw)) as [H1 H2].
  split; [by eapply settled_quiet|by eapply calm_no_panic].
Qed.

(** ** Configuration *)

(** The types of the configuration: keys have 32 bytes; and masks fit. *)
Definition update_typed (event : UpdateEvent) : Prop :=
  match event with
  | Ev_PrivateKey k => length k = 32%nat
  | Ev_UpdatePeer i _ => info_calm i
  | _ => True
  end.

Lemma quiet_interface w f :
  quiet w → (∀ k, if_private_key (f (interface_info (state w))) = Some k → length k = 32%nat) →
  quiet (set_state (set_interface_info (f (interface_info (state w))) (state w)) w).
Proof. by intros [] ?. Qed.

Lemma quiet_removed w pk p self : quiet w → heap w !! p = Some self → quiet (removed pk self w).
Proof.
  intros [Q1 Q2 Q3 (m & Hr & Hm) Q5 Q6 Q7 Q8 Q9] Hp. destruct (pc_info _ (Q1 _ _ Hp)) as (_ & _ & Hv). split; try done; simpl.
  - intros pk' q [_ Hq]%lookup_delete_Some. by eapply Q2.
  - intros i q. rewrite foldl_delete_lookup. case_decide; [done|]. apply Q3.
  - exists (Routes.remove (allowed_ips (info self)) m). split; [by apply represents_remove|].
    intros k q [Hk _]%routes_remove_lookup. by eapply Hm.
Qed.

Lemma quiet_updated w p self i replace :
  quiet w → heap w !! p = Some self → info_calm i → quiet (updated p self i replace w).
Proof.
  intros [Q1 Q2 Q3 (m & Hr & Hm) Q5 Q6 Q7 Q8 Q9] Hp (K1 & K2 & K3).
  destruct (Q1 _ _ Hp) as [C1 C2 (I1 & I2 & I3)].
  assert (info_calm (merge_info replace i (info self))) as Hi.
  { split_and!; [done| |].
    - intros k. unfold merge_info. simpl. destruct (psk i) eqn:E; simpl; [intros [= <-]; by apply K2|apply I2].
    - simpl. destruct replace; [done|]. by apply Forall_app. }
  assert (dom (<[p := set_info (merge_info replace i (info self)) self]> (heap w)) = dom (heap w)) as Hdom.
  { rewrite dom_insert_L. apply elem_of_dom_2 in Hp. set_solver. }
  split; try done; simpl; rewrite ?Hdom; try done.
  - intros q x. destruct (decide (q = p)) as [->|]; [rewrite lookup_insert_eq; intros [= <-]; by split|].
    rewrite lookup_insert_ne by done. apply Q1.
  - exists (Routes.add (allowed_ips (merge_info replace i (info self))) p
             (if replace then Routes.remove (allowed_ips (info self)) m else m)). split.
    + apply represents_add; [apply Hi|]. destruct replace; [by apply represents_remove|done].
    + intros k q [[-> _]|Hk]%routes_add_lookup; [by eapply elem_of_dom_2|].
      destruct replace; [apply routes_remove_lookup in Hk as [Hk _]|]; by eapply Hm.
Qed.

Lemma quiet_added w i : quiet w → info_calm i → quiet (added i w).
Proof.
  intros [Q1 Q2 Q3 (m & Hr & Hm) Q5 Q6 Q7 Q8 Q9] Hi. set (p := next_peer w).
  assert (∀ q, q ∈ dom (heap w) → q ∈ dom (<[p := PeerOps.new i]> (heap w))) as Hd by (intros q; rewrite dom_insert_L; set_solver).
  assert (p ∈ dom (<[p := PeerOps.new i]> (heap w))) as Hp by (rewrite dom_insert_L; set_solver).
  split; try done; simpl; fold p.
  - intros q x. destruct (decide (q = p)) as [->|]; [rewrite lookup_insert_eq; intros [= <-]; by apply peer_calm_new|].
    rewrite lookup_insert_ne by done. apply Q1.
  - intros pk q. rewrite lookup_insert_Some. intros [[_ <-]|[_ Hq]]; [done|]. eauto.
  - eauto.
  - exists (Routes.add (allowed_ips i) p m). split; [by apply represents_add; [apply Hi|]|].
    intros k q [[-> _]|Hk]%routes_add_lookup; [done|]. eauto.
  - eapply Forall_impl; [exact Q7|]. intros []; simpl; auto.
Qed.

Lemma quiet_cleared w : quiet w → quiet (set_state (mkState ∅ ∅ (Router.clear (router (state w))) (interface_info (state w))) w).
Proof.
  intros []. split; try done; simpl.
  - exists ∅. split; [apply represents_default|]. intros k p Hk. by rewrite lookup_empty in Hk.
Qed.
Lemma update_existing_result p self i replace w :
  heap w !! p = Some self →
  ∃ ret, (update_existing p i replace w).2 = Ok ret ∧ ∀ m, ret = Some m → m = NewPersistentKeepalive p.
Proof.
  intros Hp. unfold update_existing. erewrite bindM_run by (unfold read_peer; rewrite Hp; reflexivity).
  destruct w as [h ? [] ? ? ? ? ? ? ? ? ? ? ? ?]. simpl in Hp.
  destruct replace; unfold bindM, map_state, modM, retM, with_peer; simpl; rewrite Hp; simpl; eexists; (split; [done|]);
    intros m Hm; destruct (bool_decide _ && _); by simplify_eq.
Qed.

(** One event: the state stays in order, and a message is about a cell. *)
Lemma quiet_update event w :
  quiet w → update_typed event →
  let '(w', r) := handle_update event w in
  quiet w' ∧ calm (fun o => ∀ m, o = Some m → event_in (dom (heap w')) m) r.
Proof.
  intros Hw Ht.
  assert (∀ pk p, pubkey_map (state w) !! pk = Some p → ∃ self, heap w !! p = Some self) as Hcell.
  { intros pk p Hp%(qu_keys _ Hw). by apply elem_of_dom in Hp. }
  destruct event as [k|mark|port|i replace|pk|]; cbn [handle_update update_typed] in *.
  - case_bool_decide.
    { split; [by apply (quiet_interface w (set_keys None None))|]. by intros m [= <-]. }
    erewrite bindM_run by reflexivity. erewrite bindM_run by reflexivity. cbn [state set_state].
    assert (quiet (set_state (set_interface_info (set_keys (Some k) (Some (generate_public k)) (interface_info (state w))) (state w)) w)) as Hw1.
    { apply (quiet_interface w (set_keys (Some k) (Some (generate_public k)))); [done|]. by intros ? [= <-]. }
    destruct (pubkey_map (state w) !! generate_public k) as [p|] eqn:Hp.
    + destruct (Hcell _ _ Hp) as [self Hs]. simpl pubkey_map. rewrite Hp.
      erewrite bindM_run by (apply (remove_peer_run _ _ self); exact Hs).
      split; [by eapply quiet_removed|]. by intros m [= <-].
    + simpl pubkey_map. rewrite Hp. split; [exact Hw1|]. by intros m [= <-].
  - split; [by apply (quiet_interface w (set_fwmark mark)); [|apply Hw]|]. by intros m [= <-].
  - split; [by apply (quiet_interface w (set_listen_port port)); [|apply Hw]|]. by intros m [= <-].
  - erewrite bindM_run by reflexivity. destruct (pubkey_map (state w) !! pub_key i) as [p|] eqn:Hp.
    + destruct (Hcell _ _ Hp) as [self Hs]. pose proof (update_existing_run p self i replace w Hs) as E.
      destruct (update_existing_result p self i replace w Hs) as (ret & E2 & Hret).
      destruct (update_existing p i replace w) as [w' r]. simpl in E, E2. subst.
      split; [by eapply quiet_updated|]. intros m ->%Hret. simpl. rewrite dom_insert_L. set_solver.
    + unfold add_peer. erewrite bindM_run by reflexivity. case_bool_decide; [by split|].
      erewrite bindM_run by reflexivity. unfold bindM at 1, liftM at 1.
      destruct (negb _); [|by split]. split; [by apply quiet_added|]. simpl. intros m [= <-]. simpl. rewrite dom_insert_L. set_solver.
  - erewrite bindM_run by reflexivity. unfold bindM at 1, liftM at 1.
    destruct (pubkey_map (state w) !! pk) as [p|] eqn:Hp; [|by split]. destruct (Hcell _ _ Hp) as [self Hs].
    cbn [ok_or]. erewrite bindM_run by (apply (remove_peer_run _ _ self); exact Hs). split; [by eapply quiet_removed|by intros m].
  - split; [by apply quiet_cleared|by intros m].
Qed.

Lemma quiet_set items : ∀ w,
  quiet w → Forall update_typed items → quiet (handle_set items w).1 ∧ is_panic (handle_set items w).2 = false.
Proof.
  induction items as [|item items IH]; intros w Hw Ht; [done|]. apply Forall_cons in Ht as [Hi Ht]. cbn [handle_set].
  pose proof (quiet_update item w Hw Hi) as H. destruct (handle_update item w) as [w' [[m|]| | |]]; destruct H as [H1 H2]; try done.
  - apply IH; [|done]. specialize (H2 m eq_refl). destruct H1. split; try done. apply Forall_app. split; [done|by apply Forall_singleton].
  - by apply IH.
Qed.

(** ** Every reachable state *)

(** The turns of the reactor.  Datagrams have at least one byte, and a poll that
    handles a new private key finds a port it can bind; the rest of the
    conditions are the types of the data and [env_calm]. *)
Inductive quiet_step : World → World → Prop :=
| quiet_step_set items w : Forall update_typed items → quiet_step w (handle_set items w).1
| quiet_step_timer now k w : quiet_step w (set_timer (Timer.fire now k (timer w)) w)
| quiet_step_tunnel packet w : quiet_step w (set_outgoing (outgoing w ++ [packet]) w)
| quiet_step_poll e ingress w :
    env_calm (dom (heap w)) e → (NewPrivateKey ∈ channel w → bindable e (interface_info (state w)) = true) →
    Forall (fun '(_, packet) => is_bytes packet ∧ packet ≠ []) ingress →
    quiet_step w (poll e ingress w).1.

Lemma quiet_new t draws : Forall is_u32 draws → quiet (World_new t draws).
Proof.
  intros Hd. split; try done.
  - exists ∅. split; [apply represents_default|]. intros k p Hk. by rewrite lookup_empty in Hk.
  - exists (zeros 32). apply validator_for_new.
Qed.

Lemma quiet_step_quiet w w' : quiet_step w w' → quiet w → quiet w'.
Proof.
  intros [items w0 Hi|now k w0|packet w0|e ingress w0 He Hbd Hi] Hw.
  - by apply quiet_set.
  - by destruct Hw.
  - by destruct Hw.
  - by apply quiet_poll.
Qed.

(** C6.  When the server panics: in every state it reaches from its start by
    configuration commands, timers, tunnel packets and polls (which could bind
    the port when they handled a new private key), a configuration command does not panic, and a poll, whatever non-empty
    datagrams arrive and whatever is queued, panics only when it handles a new
    private key and the port cannot be bound or its mark not set (`rebind` is
    unwrapped).  Keys have 32 bytes, masks fit, random numbers are in range and
    the clock is after 1970; sockets that cannot be bound at other times are
    included, and so are peers that a stale index keeps alive after their
    removal. *)
Theorem system_panic_cause t draws w :
  Forall is_u32 draws → rtc quiet_step (World_new t draws) w →
  (∀ items, Forall update_typed items → is_panic (handle_set items w).2 = false) ∧
  (∀ e ingress, env_calm (dom (heap w)) e → Forall (fun '(_, packet) => is_bytes packet ∧ packet ≠ []) ingress →
     is_panic (poll e ingress w).2 = true →
     NewPrivateKey ∈ channel w ∧ bindable e (interface_info (state w)) = false).
Proof.
  intros Hd Hw. assert (quiet w) as Hq.
  { pose proof (quiet_new t draws Hd) as H0. revert H0. generalize dependent (World_new t draws).
    induction 1 as [|w0 w1 w2 Hst _ IH]; [done|]. intros H0. by eapply IH, quiet_step_quiet. }
  split; [intros items Hi; by apply quiet_set|]. intros e ingress He Hi Hp.
  assert (¬ (NewPrivateKey ∈ channel w → bindable e (interface_info (state w)) = true)) as Hb.
  { intros Hb. destruct (quiet_poll e ingress w Hq He Hb Hi) as [_ H]. congruence. }
  destruct (decide (NewPrivateKey ∈ channel w)) as [Hin|Hn]; [|tauto]. split; [done|].
  destruct (bindable e _); [|done]. by destruct Hb.
Qed.
End system_total.

(* ------------------------------------------------------------------ *)
(** ** An instance of the theorem *)
Section witnesses.
#[local] Existing Instance refByteOrder.
#[local] Existing Instance refByteOrderLaws.
#[local] Existing Instance refBlake2.
#[local] Existing Instance refBlake2Laws.
#[local] Existing Instance refAead.
#[local] Existing Instance refAeadLaws.
#[local] Existing Instance refSubtle.
#[local] Existing Instance refSubtleLaws.
#[local] Existing Instance refX25519.
#[local] Existing Instance refSnow.
#[local] Existing Instance refSnowLaws.
#[local] Existing Instance refSnowTotal.
#[local] Existing Instance refRips.
#[local] Existing Instance refTreebitmap.
#[local] Existing Instance refTreebitmapLaws.
Import PeerServer Config.

Lemma np_env D : env_calm D sys_env.
Proof. split; try done; by_decide. Qed.

Lemma np_items : Forall update_typed sys_items.
Proof.
  apply Forall_cons; split; [done|]. apply Forall_singleton. split_and!; [done|done|by_decide].
Qed.

Lemma np_ingress : Forall (fun '(_, packet) => is_bytes packet ∧ packet ≠ []) [(demo_addr, 1 :: zeros 147)].
Proof. apply Forall_singleton. split; [by_decide|done]. Qed.

(** A system that refuses to bind any port. *)
Definition refusing_env : Env :=
  mkEnv 5 (secs 1600000000) (zeros 16) (zeros 24) (fun _ => false) true (fun _ => Err "address in use") (fun _ => Ok tt) (fun _ => Pending).

Lemma np_refusing D : env_calm D refusing_env.
Proof. split; try done; by_decide. Qed.

Lemma np_panics : is_panic (poll refusing_env [] sys_set).2 = true.
Proof. vm_cast_no_check (eq_refl true). Qed.

(** After the command that sets the key, the next poll panics when the port is
    refused; after a poll that binds it, the command may be given again. *)
Lemma system_panic_cause_witness :
  is_panic (handle_set sys_items sys_polled).2 = false ∧
  NewPrivateKey ∈ channel sys_set ∧ bindable refusing_env (interface_info (state sys_set)) = false.
Proof.
  assert (Forall is_u32 [7; 8; 9]) as Hd by by_decide.
  pose proof (quiet_step_set sys_items sys_start np_items) as Hset.
  split.
  - refine (proj1 (system_panic_cause 0 [7; 8; 9] sys_polled Hd (rtc_l _ _ _ _ Hset
      (rtc_once _ _ (quiet_step_poll sys_env _ sys_set (np_env _) (fun _ => eq_refl) np_ingress)))) sys_items np_items).
  - refine (proj2 (system_panic_cause 0 [7; 8; 9] sys_set Hd (rtc_once _ _ Hset)) refusing_env [] (np_refusing _) _ np_panics).
    constructor.
Defined.
End witnesses.
