(* ===== verification/Files.v ===== *)
(** * Paths and files

    The parts of `std::path` and `std::fs` that src/interface/config.rs uses,
    and the binding of a Unix socket.  A path is the list of the names from the
    root; the file system is a map from paths to nodes, without links.  A call
    can be refused for reasons of its own ([denied]: permissions, a full disk). *)

From Stdlib Require Import Ascii.
From S2P Require Import Prelude.

Abbreviation path := (list string).

Inductive Node :=
| Dir (mode : Z)
| File (mode : Z) (data : bytes)
| Socket (mode : Z).

Abbreviation Files := (gmap path Node).

(** The calls that change the file system. *)
Inductive Call :=
| CallCreateDir (p : path)
| CallChmod (p : path)
| CallRemove (p : path)
| CallCreate (p : path)
| CallWrite (p : path) (data : bytes)
| CallBind (p : path).

(** What the process finds: its variables, directory and mask, the calls that
    are refused, and how much a refused write still writes. *)
Record Os := mkOs {
  env_var : string → option string;
  cwd : path;
  umask : Z;
  denied : Call → bool;
  partial : nat;
}.

Module Path.
(** `Path::components` of a path without a prefix, the root left out. *)
Fixpoint split_slash (s : string) : list string :=
  match s with
  | EmptyString => [EmptyString]
  | String c s' =>
      if Ascii.eqb c "/"%char then EmptyString :: split_slash s'
      else match split_slash s' with
           | [] => [String c EmptyString]
           | x :: xs => String c x :: xs
           end
  end.
Definition components (s : string) : path := filter (fun c => c ≠ EmptyString ∧ c ≠ ".") (split_slash s).
Definition is_absolute (s : string) : bool := match s with String c _ => Ascii.eqb c "/"%char | EmptyString => false end.

(** `PathBuf::push` and `Path::join`: an absolute argument replaces the path. *)
Definition push (p : path) (s : string) : path := if is_absolute s then components s else p ++ components s.

(** The text before and after the last dot. *)
Fixpoint rsplit_dot (s : string) : option (string * string) :=
  match s with
  | EmptyString => None
  | String c s' =>
      match rsplit_dot s' with
      | Some (before, after) => Some (String c before, after)
      | None => if Ascii.eqb c "."%char then Some (EmptyString, s') else None
      end
  end.

(** `Path::file_stem` of a file name. *)
Definition file_stem (name : string) : string :=
  match rsplit_dot name with
  | Some (EmptyString, _) | None => name
  | Some (before, _) => before
  end.

Definition parent (p : path) : path := take (length p - 1) p.

(** `PathBuf::set_extension`. *)
Definition set_extension (ext : string) (p : path) : path :=
  match last p with
  | None => p
  | Some name =>
      if bool_decide (name = "..") then p
      else parent p ++ [if bool_decide (ext = EmptyString) then file_stem name else file_stem name +:+ "." +:+ ext]
  end.
End Path.

Module Fs.
Section with_os.
Context (o : Os).

Definition is_dir (p : path) (fs : Files) : bool :=
  match p, fs !! p with [], _ | _, Some (Dir _) => true | _, _ => false end.

(** `Path::exists`. *)
Definition exists_ (p : path) (fs : Files) : bool := bool_decide (p = [] ∨ is_Some (fs !! p)).

Definition permitted (c : Call) : M Files unit := liftM (ensure (negb (denied o c)) "permission denied").
Definition put (p : path) (n : Node) : M Files unit := modM <[p := n]>.

(** `create_dir`. *)
Definition create_dir (p : path) : M Files unit :=
  let! _ := permitted (CallCreateDir p) in
  let! present := getM (exists_ p) in
  let! _ := liftM (ensure (negb present) "file exists") in
  let! above := getM (is_dir (Path.parent p)) in
  let! _ := liftM (ensure above "no such directory") in
  put p (Dir (Z.ldiff 511 (umask o))).

Definition with_mode (mode : Z) (n : Node) : Node :=
  match n with Dir _ => Dir mode | File _ d => File mode d | Socket _ => Socket mode end.

(** `set_permissions(p, Permissions::from_mode(mode))`, on a path or on an
    open file. *)
Definition set_permissions (p : path) (mode : Z) : M Files unit :=
  let! _ := permitted (CallChmod p) in
  let! node := getM (lookup p) in
  let! node := liftM (ok_or node "no such file") in
  put p (with_mode mode node).

(** `remove_file`. *)
Definition remove_file (p : path) : M Files unit :=
  let! _ := permitted (CallRemove p) in
  let! node := getM (lookup p) in
  match node with
  | None => errM "no such file"
  | Some (Dir _) => errM "is a directory"
  | Some _ => modM (delete p)
  end.

(** `File::create`: a file that exists is emptied and keeps its mode. *)
Definition create (p : path) : M Files unit :=
  let! _ := permitted (CallCreate p) in
  let! node := getM (lookup p) in
  match node with
  | Some (File mode _) => put p (File mode [])
  | Some _ => errM "not a file"
  | None =>
      let! above := getM (is_dir (Path.parent p)) in
      let! _ := liftM (ensure above "no such directory") in
      put p (File (Z.ldiff 438 (umask o)) [])
  end.

Definition append (p : path) (data : bytes) : M Files unit :=
  let! node := getM (lookup p) in
  match node with
  | Some (File mode d) => put p (File mode (d ++ data))
  | _ => retM tt
  end.

(** `write_all` to an open file; when it fails, a part may be written. *)
Definition write_all (p : path) (data : bytes) : M Files unit :=
  if denied o (CallWrite p data) then
    let! _ := append p (take (partial o) data) in errM "write error"
  else append p data.

(** `UnixListener::bind`: the path must be free. *)
Definition bind (p : path) : M Files unit :=
  let! _ := permitted (CallBind p) in
  let! present := getM (exists_ p) in
  let! _ := liftM (ensure (negb present) "address in use") in
  let! above := getM (is_dir (Path.parent p)) in
  let! _ := liftM (ensure above "no such directory") in
  put p (Socket (Z.ldiff 511 (umask o))).
End with_os.
End Fs.

(* ------------------------------------------------------------------ *)
(** ** What the calls leave alone *)

(** [within P m]: [m] changes the file system at the paths [P] only. *)
Definition within {A} (P : path → Prop) (m : M Files A) : Prop :=
  ∀ fs p, ¬ P p → (m fs).1 !! p = fs !! p.

Section within_rules.
Context (P : path → Prop).

Lemma within_ret {A} (a : A) : within P (retM a).
Proof. done. Qed.
Lemma within_lift {A} (r : res A) : within P (liftM r).
Proof. done. Qed.
Lemma within_err {A} e : within P (errM (A:=A) e).
Proof. done. Qed.
Lemma within_get {A} (f : Files → A) : within P (getM f).
Proof. done. Qed.
Lemma within_bind {A B : Type} (m : M Files A) (k : A → M Files B) :
  within P m → (∀ a, within P (k a)) → within P (bindM m k).
Proof.
  intros Hm Hk fs p Hp. specialize (Hm fs p Hp). unfold bindM. destruct (m fs) as [fs' [a|e|w|]]; try done.
  rewrite (Hk a fs' p Hp). exact Hm.
Qed.
Lemma within_put p n : P p → within P (Fs.put p n).
Proof. intros Hp fs q Hq. apply lookup_insert_ne. by intros ->. Qed.
Lemma within_delete p : P p → within P (modM (delete p)).
Proof. intros Hp fs q Hq. apply lookup_delete_ne. by intros ->. Qed.
End within_rules.

Create HintDb files.
#[export] Hint Resolve within_ret within_lift within_err within_get within_bind within_put within_delete : files.

Ltac within_go :=
  repeat first
    [ progress intros
    | apply within_bind
    | solve [eauto with files]
    | case_match ].

Section within_calls.
Context (o : Os) (P : path → Prop).

Lemma within_permitted c : within P (Fs.permitted o c).
Proof. apply within_lift. Qed.
#[local] Hint Resolve within_permitted : files.

Lemma within_create_dir p : P p → within P (Fs.create_dir o p).
Proof. intros Hp. unfold Fs.create_dir. within_go. Qed.
Lemma within_set_permissions p mode : P p → within P (Fs.set_permissions o p mode).
Proof. intros Hp. unfold Fs.set_permissions. within_go. Qed.
Lemma within_remove_file p : P p → within P (Fs.remove_file o p).
Proof. intros Hp. unfold Fs.remove_file. within_go. Qed.
Lemma within_create p : P p → within P (Fs.create o p).
Proof. intros Hp. unfold Fs.create. within_go. Qed.
Lemma within_append p d : P p → within P (Fs.append p d).
Proof. intros Hp. unfold Fs.append. within_go. Qed.
Lemma within_write_all p d : P p → within P (Fs.write_all o p d).
Proof.
  intros Hp. unfold Fs.write_all. case_match; [|by apply within_append].
  apply within_bind; [by apply within_append|]. intros. apply within_err.
Qed.
Lemma within_fs_bind p : P p → within P (Fs.bind o p).
Proof. intros Hp. unfold Fs.bind. within_go. Qed.
End within_calls.

#[export] Hint Resolve within_create_dir within_set_permissions within_remove_file within_create within_write_all within_fs_bind : files.

(** ** File names *)

(** A name that is one component of a path, as the names of devices are. *)
Definition plain (s : string) : Prop :=
  s ≠ EmptyString ∧ s ≠ "." ∧ s ≠ ".." ∧ Path.split_slash s = [s].

Definition no_dot (s : string) : Prop := Path.rsplit_dot s = None.

Lemma components_plain s : plain s → Path.components s = [s].
Proof.
  intros (H1 & H2 & _ & H4). unfold Path.components. rewrite H4. by rewrite filter_cons_True.
Qed.

Lemma split_slash_length s : s ≠ EmptyString → Path.is_absolute s = true → Path.split_slash s ≠ [s].
Proof.
  destruct s as [|c s]; [done|]. simpl. intros _ ->. by intros [= ? _].
Qed.

Lemma push_plain p s : plain s → Path.push p s = p ++ [s].
Proof.
  intros Hs. unfold Path.push. destruct (Path.is_absolute s) eqn:E.
  - destruct Hs as (H1 & _ & _ & H4). by destruct (split_slash_length s).
  - by rewrite components_plain.
Qed.

Lemma parent_snoc p s : Path.parent (p ++ [s]) = p.
Proof. unfold Path.parent. rewrite length_app. simpl. rewrite Nat.add_sub. by rewrite take_app_length. Qed.

Lemma set_extension_snoc ext p s :
  s ≠ ".." → ext ≠ EmptyString → Path.set_extension ext (p ++ [s]) = p ++ [Path.file_stem s +:+ "." +:+ ext].
Proof.
  intros Hs He. unfold Path.set_extension. rewrite last_snoc, parent_snoc.
  by rewrite !bool_decide_eq_false_2.
Qed.

Lemma file_stem_no_dot s : no_dot s → Path.file_stem s = s.
Proof. unfold no_dot, Path.file_stem. by intros ->. Qed.

Lemma string_app_length (a b : string) : String.length (a +:+ b) = (String.length a + String.length b)%nat.
Proof. induction a as [|c a IH]; simpl; [done|]. by rewrite IH. Qed.

Lemma string_app_inj (a b t : string) : a +:+ t = b +:+ t → a = b.
Proof.
  revert b. induction a as [|c a IH]; intros [|d b]; simpl; [done|..|intros [= -> H]; f_equal; by apply IH].
  all: intros H; exfalso; apply (f_equal String.length) in H; rewrite ?string_app_length in H; simpl in H; rewrite ?string_app_length in H; lia.
Qed.
