(* ===== verification/Service.v ===== *)
(** * The configuration service and its reaper

    `ConfigurationService` of src/interface/config.rs: the file with the name of
    the interface, the socket and its path, its poll, its removal on drop; and
    src/interface/grim_reaper.rs, which ends the service when the socket is
    removed or a signal arrives. *)

From S2P Require Import Prelude Peer World Files.

(** The operations that the notify crate reports for a watched path. *)
Class Notify := {
  Op : Type;
  Op_eq :: EqDecision Op;
  REMOVE : Op;
}.

(** `m.unwrap()`. *)
Definition unwrapM {W A} (m : M W A) : M W A := fun w => let '(w', r) := m w in (w', unwrap_res r).

Inductive Signal := SIGINT | SIGTERM.

(** ** The thread that watches the socket *)
Module GrimReaper.
Section with_notify.
Context {N : Notify}.

(** The thread sleeps, then listens; it is over once it panicked, after it has
    sent its message or without. *)
Inductive thread := Sleeping | Listening | Over (sent : bool).

(** What the thread is given: the watcher at the end of its sleep (made, and
    set on the path), then raw events, or the end of their channel. *)
Inductive input :=
| Wake (watcher watch : bool)
| Event (op : option Op)
| Disconnected.

(** One step of the thread's body.  Every way out of its loop is a panic, which
    drops the sender. *)
Definition step (t : thread) (i : input) : thread :=
  match t, i with
  | Sleeping, Wake watcher watch => if watcher && watch then Listening else Over false
  | Listening, Event (Some op) => if bool_decide (op = REMOVE) then Over true else Listening
  | Listening, Event None | Listening, Disconnected => Over false
  | _, _ => t
  end.

Definition run (t : thread) (inputs : list input) : thread := foldl step t inputs.

(** `rx.poll()`: pending while the sender lives. *)
Definition rx_poll (t : thread) : Rest :=
  match t with
  | Sleeping | Listening => Pending
  | Over true => Ended
  | Over false => Broken
  end.

(** `signal.poll()`: the signals that have arrived on either stream, and the
    rest of the stream. *)
Definition signal_pending (arrived : list Signal) (rest : Rest) : bool :=
  match arrived, rest with [], Pending => true | _, _ => false end.

(** `GrimReaper::poll`: pending, or an error. *)
Definition poll (t : thread) (arrived : list Signal) (rest : Rest) : Rest :=
  match rx_poll t with
  | Pending => if signal_pending arrived rest then Pending else Broken
  | _ => Broken
  end.
End with_notify.
End GrimReaper.

(** ** The service *)
Module Service.
Section with_os.
Context (o : Os).

(** `get_run_path`. *)
Definition get_run_path (fs : Files) : path :=
  if Fs.exists_ ["run"] fs then ["run"] else Path.push ["var"] "run".

(** The path of the socket of an interface, under a run path. *)
Definition socket_path (run : path) (interface_name : string) : path :=
  Path.set_extension "sock" (Path.push (Path.push run "wireguard") interface_name).

(** `chmod`. *)
Definition chmod (p : path) (perms : Z) : M Files unit := Fs.set_permissions o p perms.

(** `get_path`: makes the directory, sets its mode to 0o700, and removes what
    is at the path. *)
Definition get_path (interface_name : string) : M Files path :=
  let! run := getM get_run_path in
  let dir := Path.push run "wireguard" in
  let! present := getM (Fs.exists_ dir) in
  let! _ := (if present : bool then retM tt else Fs.create_dir o dir) in
  let! _ := chmod dir 448 in
  let p := Path.set_extension "sock" (Path.push dir interface_name) in
  let! present := getM (Fs.exists_ p) in
  let! _ := (if present : bool then Fs.remove_file o p else retM tt) in
  retM p.

(** The file named by `WG_TUN_NAME_FILE`.  Its mode is the decimal number 400. *)
Definition name_file (file interface_name : string) : M Files unit :=
  let p := Path.push (cwd o) file in
  let! _ := Fs.create o p in
  let! _ := Fs.set_permissions o p 400 in
  let! _ := Fs.write_all o p (str_bytes interface_name) in
  Fs.write_all o p [10].

(** `ConfigurationService::new`, up to the future of the connections:
    [spawned] is whether the reaper's thread could be started. *)
Definition new (spawned : res unit) (interface_name : string) : M Files path :=
  let! _ := match env_var o "WG_TUN_NAME_FILE" with
            | Some file => name_file file interface_name
            | None => retM tt
            end in
  let! config_path := unwrapM (get_path interface_name) in
  let! _ := unwrapM (Fs.bind o config_path) in
  let! _ := unwrapM (liftM spawned) in
  retM config_path.

(** `Drop::drop`. *)
Definition drop (interface_name : string) : M Files unit :=
  let! run := getM get_run_path in
  let p := socket_path run interface_name in
  let! present := getM (Fs.exists_ p) in
  if present : bool then ignoreM (Fs.remove_file o p) else retM tt.
End with_os.

(** `ConfigurationService::poll`, from what the listener's future and the
    reaper answer. *)
Definition poll (config_server reaper : Rest) : res unit :=
  match config_server with
  | Pending =>
      match reaper with
      | Pending => Ok tt
      | _ => Err "reaper triggered, closing ConfigurationService stream."
      end
  | _ => Err "config_server broken"
  end.
End Service.

(* ------------------------------------------------------------------ *)
(** ** The socket file *)
Section socket.
Context (o : Os).
Import Service.

Definition wireguard_dir (run : path) : path := Path.push run "wireguard".

Lemma wireguard_dir_eq run : wireguard_dir run = run ++ ["wireguard"].
Proof. by apply push_plain. Qed.

Lemma socket_path_eq run name :
  plain name → socket_path run name = run ++ ["wireguard"; Path.file_stem name +:+ ".sock"].
Proof.
  intros Hn. unfold socket_path. fold (wireguard_dir run). rewrite wireguard_dir_eq, push_plain by done.
  rewrite set_extension_snoc; [by rewrite <-app_assoc|apply Hn|done].
Qed.

Lemma parent_socket_path run name : plain name → Path.parent (socket_path run name) = wireguard_dir run.
Proof.
  intros Hn. rewrite socket_path_eq, wireguard_dir_eq by done.
  change (["wireguard"; ?x]) with (["wireguard"] ++ [x]). by rewrite app_assoc, parent_snoc.
Qed.

(** The run path depends on whether there is a `/run`. *)
Lemma run_path_cases fs : get_run_path fs = ["run"] ∨ get_run_path fs = ["var"; "run"].
Proof. unfold get_run_path. case_match; auto. Qed.

Lemma run_path_frame fs fs' : fs' !! ["run"] = fs !! ["run"] → get_run_path fs' = get_run_path fs.
Proof. intros H. unfold get_run_path, Fs.exists_. by rewrite H. Qed.

(** The paths the service may change: its directory and its socket, and the
    file with the name of the interface. *)
Definition service_path (name : string) (p : path) : Prop :=
  ∃ fs, p = wireguard_dir (get_run_path fs) ∨ p = socket_path (get_run_path fs) name.
Definition own (name : string) (p : path) : Prop :=
  (∃ file, env_var o "WG_TUN_NAME_FILE" = Some file ∧ p = Path.push (cwd o) file) ∨ service_path name p.

Lemma within_unwrap {A : Type} (P : path → Prop) (m : M Files A) : within P m → within P (unwrapM m).
Proof. intros H fs p Hp. specialize (H fs p Hp). unfold unwrapM. by destruct (m fs). Qed.
Lemma within_ignore {A : Type} (P : path → Prop) (m : M Files A) : within P m → within P (ignoreM m).
Proof. intros H fs p Hp. specialize (H fs p Hp). unfold ignoreM. by destruct (m fs) as [? []]. Qed.
Lemma within_bind_get {A B : Type} (P : path → Prop) (f : Files → A) (k : A → M Files B) :
  (∀ fs, within P (k (f fs))) → within P (bindM (getM f) k).
Proof. intros H fs. apply (H fs). Qed.
Lemma within_mono {A : Type} (P Q : path → Prop) (m : M Files A) : within P m → (∀ p, P p → Q p) → within Q m.
Proof. intros H Hi fs p Hp. apply H. auto. Qed.

(** What `get_path` answers. *)
Definition path_of (name : string) (p : path) : Prop := ∃ fs, p = socket_path (get_run_path fs) name.

Lemma get_path_Ok name fs fs' p : get_path o name fs = (fs', Ok p) → p = socket_path (get_run_path fs) name.
Proof. unfold get_path. intros. run_ok. done. Qed.

Lemma within_bind_path {B : Type} (P : path → Prop) (name : string) (k : path → M Files B) :
  within P (unwrapM (get_path o name)) → (∀ p, path_of name p → within P (k p)) →
  within P (bindM (unwrapM (get_path o name)) k).
Proof.
  intros Hm Hk fs q Hq. specialize (Hm fs q Hq). unfold bindM, unwrapM in *.
  destruct (get_path o name fs) as [fs' [p|e|w|]] eqn:E; simpl in *; try done.
  rewrite (Hk p); [done| |done]. exists fs. by eapply get_path_Ok.
Qed.

Lemma within_get_path name : within (service_path name) (get_path o name).
Proof.
  unfold get_path, service_path. apply within_bind_get. intros fs. unfold chmod. fold (wireguard_dir (get_run_path fs)).
  fold (socket_path (get_run_path fs) name). within_go.
Qed.

Lemma within_new spawned name : within (own name) (new o spawned name).
Proof.
  unfold new. apply within_bind.
  - destruct (env_var o "WG_TUN_NAME_FILE") as [file|] eqn:E; [|apply within_ret].
    assert (own name (Path.push (cwd o) file)) by (left; eauto). unfold name_file. within_go.
  - intros _. apply within_bind_path; [|intros p Hp].
    + eapply within_unwrap, within_mono; [apply within_get_path|]. intros q Hq. by right.
    + destruct Hp as [fs ->]. apply within_bind; [|intros _].
      { apply within_unwrap, within_fs_bind. right. exists fs. by right. }
      apply within_bind; [apply within_unwrap, within_lift|intros _]. apply within_ret.
Qed.

Lemma within_drop name : within (service_path name) (drop o name).
Proof.
  unfold drop. apply within_bind_get. intros fs. apply within_bind; [apply within_get|]. intros present.
  destruct present; [|apply within_ret]. apply within_ignore, within_remove_file. exists fs. by right.
Qed.

Lemma set_permissions_Ok p mode fs fs' u :
  Fs.set_permissions o p mode fs = (fs', Ok u) → ∃ n, fs !! p = Some n ∧ fs' = <[p := Fs.with_mode mode n]> fs.
Proof. unfold Fs.set_permissions, Fs.permitted, Fs.put. intros. run_ok. eauto. Qed.

Lemma remove_file_Ok p fs fs' u : Fs.remove_file o p fs = (fs', Ok u) → fs' = delete p fs.
Proof. unfold Fs.remove_file, Fs.permitted. intros. run_ok. case_match; [case_match|]; by run_ok. Qed.

Lemma fs_bind_Ok p fs fs' u :
  Fs.bind o p fs = (fs', Ok u) →
  Fs.is_dir (Path.parent p) fs = true ∧ fs' = <[p := Socket (Z.ldiff 511 (umask o))]> fs.
Proof. unfold Fs.bind, Fs.permitted, Fs.put. intros. by run_ok. Qed.

Lemma is_dir_Some p fs : Fs.is_dir p fs = true → p ≠ [] → ∃ mode, fs !! p = Some (Dir mode).
Proof. unfold Fs.is_dir. destruct p as [|x p]; [done|]. destruct (fs !! (x :: p)) as [[]|]; try done. eauto. Qed.

Lemma unwrapM_Ok {A} (m : M Files A) fs fs' a : unwrapM m fs = (fs', Ok a) → m fs = (fs', Ok a).
Proof. unfold unwrapM. by destruct (m fs) as [? []]; intros [= <- <-]. Qed.

(** The paths of the service are different from each other and from `/run`. *)
Lemma dir_not_run fs : wireguard_dir (get_run_path fs) ≠ ["run"].
Proof. rewrite wireguard_dir_eq. by destruct (run_path_cases fs) as [-> | ->]. Qed.
Lemma socket_not_run fs name : plain name → socket_path (get_run_path fs) name ≠ ["run"].
Proof. intros Hn. rewrite socket_path_eq by done. by destruct (run_path_cases fs) as [-> | ->]. Qed.
Lemma run_not_service name : plain name → ¬ service_path name ["run"].
Proof. intros Hn (fs & [H|H]); [by apply (dir_not_run fs)|by apply (socket_not_run fs name)]. Qed.
Lemma socket_not_dir run name : plain name → socket_path run name ≠ wireguard_dir run.
Proof. intros Hn. rewrite socket_path_eq, wireguard_dir_eq by done. by intros ?%app_inv_head. Qed.

Lemma get_path_state name fs fs' p :
  plain name → get_path o name fs = (fs', Ok p) →
  get_run_path fs' = get_run_path fs ∧ fs' !! p = None ∧
  ∃ n, fs' !! wireguard_dir (get_run_path fs) = Some (Fs.with_mode 448 n).
Proof.
  intros Hn Hg. pose proof (get_path_Ok _ _ _ _ Hg) as ->. split.
  { apply run_path_frame. pose proof (within_get_path name fs ["run"]) as Hw. rewrite Hg in Hw. by apply Hw, run_not_service. }
  unfold get_path, chmod in Hg. fold (wireguard_dir (get_run_path fs)) in Hg.
  run_ok. fold (socket_path (get_run_path fs) name) in *.
  pose proof (socket_not_dir (get_run_path fs) name Hn) as Hne.
  match goal with H : Fs.set_permissions _ _ _ _ = _ |- _ => apply set_permissions_Ok in H as (n & Hn1 & ->) end.
  match goal with H : (if ?b then Fs.remove_file _ _ else _) _ = _ |- _ => destruct b eqn:Hex end.
  - match goal with H : Fs.remove_file _ _ _ = _ |- _ => apply remove_file_Ok in H as -> end.
    split; [by rewrite lookup_delete_eq|]. exists n. by rewrite lookup_delete_ne, lookup_insert_eq.
  - run_ok. split; [|exists n; by rewrite lookup_insert_eq].
    apply bool_decide_eq_false in Hex. apply eq_None_not_Some. tauto.
Qed.

(** A service that was made listens on its socket, in a directory only its
    owner can enter. *)
Lemma new_Ok spawned name fs fs' p :
  plain name → new o spawned name fs = (fs', Ok p) →
  p = socket_path (get_run_path fs') name ∧
  fs' !! p = Some (Socket (Z.ldiff 511 (umask o))) ∧
  fs' !! wireguard_dir (get_run_path fs') = Some (Dir 448).
Proof.
  intros Hn Hnew. unfold new in Hnew. run_ok.
  repeat match goal with H : unwrapM _ _ = _ |- _ => apply unwrapM_Ok in H end.
  match goal with H : get_path _ _ _ = _ |- _ =>
    pose proof (get_path_Ok _ _ _ _ H) as ->; apply get_path_state in H as (Hrun & _ & n & Hdir); [|done] end.
  match goal with H : Fs.bind _ _ _ = _ |- _ => apply fs_bind_Ok in H as [Hpar ->] end. run_ok.
  match goal with |- context [<[socket_path (get_run_path ?f) name := ?s]> ?g] => set (run := get_run_path f) in *; set (fs2 := g) in * end.
  rewrite (run_path_frame fs2) by (apply lookup_insert_ne; by apply socket_not_run). rewrite Hrun.
  split; [done|]. split; [by rewrite lookup_insert_eq|].
  rewrite lookup_insert_ne by (by apply socket_not_dir). rewrite parent_socket_path in Hpar by done.
  apply is_dir_Some in Hpar as [m Hm]; [|rewrite wireguard_dir_eq; by intros []%app_nil].
  rewrite Hdir in Hm |- *. by destruct n.
Qed.

(** What `drop` leaves at the path of the socket, when the removal is not
    refused: nothing, or a directory. *)
Lemma drop_gone name fs :
  denied o (CallRemove (socket_path (get_run_path fs) name)) = false →
  match (drop o name fs).1 !! socket_path (get_run_path fs) name with
  | None | Some (Dir _) => True
  | _ => False
  end.
Proof.
  intros Hd. unfold drop. rewrite (bindM_run _ _ _ fs (get_run_path fs)) by done. set (p := socket_path _ _) in *.
  rewrite (bindM_run _ _ _ fs (Fs.exists_ p fs)) by done. unfold Fs.exists_. case_bool_decide as Hex.
  - unfold ignoreM, Fs.remove_file, Fs.permitted. rewrite Hd. cbn. destruct (fs !! p) as [[]|] eqn:E; cbn; rewrite ?E; try done;
      by rewrite lookup_delete_eq.
  - cbn. destruct (fs !! p) eqn:E; [|done]. destruct Hex. by right.
Qed.
End socket.

(** ** Whose socket it is *)
Section names.
Import Service.

(** The socket of an interface: two interfaces use the same socket path
    exactly when their names agree up to the last dot.  Names without a dot do
    not collide; `wg0.1` and `wg0.2` do, and the service of the second removes
    the socket of the first. *)
Lemma socket_path_shared run a b :
  plain a → plain b → (socket_path run a = socket_path run b ↔ Path.file_stem a = Path.file_stem b).
Proof.
  intros Ha Hb. rewrite !socket_path_eq by done. split; [|by intros ->].
  intros H%app_inv_head. injection H as H. by apply string_app_inj in H.
Qed.

(** Two interfaces with one socket. *)
Lemma dotted_names_share run : socket_path run "wg0.1" = socket_path run "wg0.2".
Proof. by apply socket_path_shared. Qed.
Lemma plain_names_differ run a b : plain a → plain b → no_dot a → no_dot b → a ≠ b → socket_path run a ≠ socket_path run b.
Proof. intros Ha Hb Na Nb Hne H%socket_path_shared; [|done..]. by rewrite !file_stem_no_dot in H. Qed.
End names.

(* ------------------------------------------------------------------ *)
(** ** The reaper *)
Section reaper.
Context {N : Notify}.
Import GrimReaper.

Lemma run_over b inputs : run (Over b) inputs = Over b.
Proof. induction inputs as [|i inputs IH]; [done|]. exact IH. Qed.

(** A thread that is over stays over, and the reaper fails from then on. *)
Lemma poll_over t inputs b arrived rest : t = Over b → poll (run t inputs) arrived rest = Broken.
Proof. intros ->. rewrite run_over. by destruct b. Qed.

Lemma poll_signal t s arrived rest : poll t (s :: arrived) rest = Broken.
Proof. unfold poll. by destruct (rx_poll t). Qed.

(** The removal of the socket is noticed whatever was reported before. *)
Lemma listening_remove ops inputs :
  run Listening ((Event ∘ Some <$> ops) ++ Event (Some REMOVE) :: inputs) = Over true.
Proof.
  induction ops as [|op ops IH]; simpl.
  - rewrite bool_decide_true by done. apply run_over.
  - case_bool_decide; [apply run_over|exact IH].
Qed.

(** The thread listens on as long as nothing else but removal is reported. *)
Lemma listening_quiet ops : REMOVE ∉ ops → run Listening (Event ∘ Some <$> ops) = Listening.
Proof.
  induction ops as [|op ops IH]; intros Hn; simpl; [done|]. apply not_elem_of_cons in Hn as [H1 H2].
  rewrite bool_decide_false by congruence. by apply IH.
Qed.
End reaper.
