(* ===== verification/Daemon.v ===== *)
(** * The process

    `Interface::start` of src/interface/mod.rs, which joins the peer server, the
    configuration service and the two directions of the tunnel into one future
    and runs it on the reactor, and src/main.rs around it.  A run is given the
    turns of the reactor: what the spawned futures and threads did since the
    last poll, then what the joined future finds when it is polled. *)

From S2P Require Import Prelude Crates Reference RefSnow AntiReplay Types Text Timestamp Message XChaCha RateLimiter Cookie Router Peer PeerTransport PeerSessions Timer World PeerServer ServerInvariant Config ConfigText System Files Service.

Section daemon.
Context {BO : ByteOrder} {B : Blake2} {SU : Subtle} {A : Aead} {R : Rips} {T : Treebitmap} {X : X25519} {SN : Snow}
        {H : Hex} {N : Notify}.
Import PeerServer.

(** ** Configuration connections *)

(** The future of a connection, with [buf] in its buffer: the commands that are
    complete are decoded and answered in turn.  It ends ([None]) when decoding
    fails. *)
Fixpoint serve (fuel : nat) (e : Env) (iter : list peer_id) (buf : bytes) : M World (option bytes * list bytes) :=
  match fuel with
  | O => liftM Starved
  | S n =>
      match ConfigText.decode buf with
      | (buf, Ok (Some command)) =>
          let! reply := ConfigText.respond e iter command in
          let! '(buf', replies) := serve n e iter buf in
          retM (buf', ConfigText.encode reply [] :: replies)
      | (buf, Ok None) => retM (Some buf, [])
      | (_, Err _) => retM (None, [])
      | (_, Panic p) => liftM (Panic p)
      | (_, Starved) => liftM Starved
      end
  end.

(** ** The state of the reactor *)

(** The file system, the peer server, the connections with their buffers, the
    replies written to them, the thread of the reaper, and which of the two
    futures of the tunnel have resolved. *)
Record Daemon := mkDaemon {
  files : Files;
  server : World;
  conns : gmap nat bytes;
  next_conn : nat;
  replies : list (nat * bytes);
  reaper : GrimReaper.thread;
  write_done : bool;
  read_done : bool;
}.

Definition set_files (v : Files) (d : Daemon) : Daemon :=
  mkDaemon v (server d) (conns d) (next_conn d) (replies d) (reaper d) (write_done d) (read_done d).
Definition set_server (v : World) (d : Daemon) : Daemon :=
  mkDaemon (files d) v (conns d) (next_conn d) (replies d) (reaper d) (write_done d) (read_done d).
Definition set_conns (v : gmap nat bytes) (d : Daemon) : Daemon :=
  mkDaemon (files d) (server d) v (next_conn d) (replies d) (reaper d) (write_done d) (read_done d).
Definition set_next_conn (v : nat) (d : Daemon) : Daemon :=
  mkDaemon (files d) (server d) (conns d) v (replies d) (reaper d) (write_done d) (read_done d).
Definition set_replies (v : list (nat * bytes)) (d : Daemon) : Daemon :=
  mkDaemon (files d) (server d) (conns d) (next_conn d) v (reaper d) (write_done d) (read_done d).
Definition set_reaper (v : GrimReaper.thread) (d : Daemon) : Daemon :=
  mkDaemon (files d) (server d) (conns d) (next_conn d) (replies d) v (write_done d) (read_done d).
Definition set_write_done (v : bool) (d : Daemon) : Daemon :=
  mkDaemon (files d) (server d) (conns d) (next_conn d) (replies d) (reaper d) v (read_done d).
Definition set_read_done (v : bool) (d : Daemon) : Daemon :=
  mkDaemon (files d) (server d) (conns d) (next_conn d) (replies d) (reaper d) (write_done d) v.

Definition on_server {Y} (m : M World Y) : M Daemon Y := fun d =>
  let '(w, r) := m (server d) in (set_server w d, r).

(** What happens between two polls: bytes on a connection (with the order the
    table of peers is iterated in), its end, a timer that runs out, a step of
    the reaper's thread, and another process that changes a file. *)
Inductive Background :=
| Data (c : nat) (chunk : bytes) (iter : list peer_id)
| Hangup (c : nat)
| Fire (t : Instant) (k : nat)
| Watch (i : GrimReaper.input)
| Outside (p : path) (n : option Node).

(** One turn of the reactor. *)
Record Turn := mkTurn {
  background : list Background;
  env : Env;
  ingress : list (Endpoint.t * bytes);
  accepts : nat;
  listener : Rest;
  signals : list Signal;
  signal_rest : Rest;
  writer : Rest;
  raw_packets : list bytes;
  reader : Rest;
}.

(** Bytes on connection [c]. *)
Definition receive (e : Env) (c : nat) (chunk : bytes) (iter : list peer_id) : M Daemon unit :=
  let! buf := getM (fun d => conns d !! c) in
  match buf with
  | None => retM tt
  | Some buf =>
      let! '(buf', rs) := on_server (serve (S (length (buf ++ chunk))) e iter (buf ++ chunk)) in
      let! _ := modM (fun d => set_replies (replies d ++ ((c,.) <$> rs)) d) in
      modM (fun d => set_conns (partial_alter (fun _ => buf') c (conns d)) d)
  end.

Definition happen (e : Env) (b : Background) : M Daemon unit :=
  match b with
  | Data c chunk iter => receive e c chunk iter
  | Hangup c => modM (fun d => set_conns (delete c (conns d)) d)
  | Fire t k => modM (fun d => set_server (set_timer (Timer.fire t k (timer (server d))) (server d)) d)
  | Watch i => modM (fun d => set_reaper (GrimReaper.step (reaper d) i) d)
  | Outside p n => modM (fun d => set_files (partial_alter (fun _ => n) p (files d)) d)
  end.

Fixpoint happen_all (e : Env) (bs : list Background) : M Daemon unit :=
  match bs with
  | [] => retM tt
  | b :: bs' => let! _ := happen e b in happen_all e bs'
  end.

(** ** The joined future *)

(** The listener hands over [n] connections. *)
Fixpoint accept (n : nat) (d : Daemon) : Daemon :=
  match n with
  | O => d
  | S n' => accept n' (set_next_conn (S (next_conn d)) (set_conns (<[next_conn d := []]> (conns d)) d))
  end.

(** `config_server`, the service: its listener, then its reaper. *)
Definition poll_service (t : Turn) : M Daemon unit :=
  let! _ := modM (accept (accepts t)) in
  let! thread := getM reaper in
  liftM (Service.poll (listener t) (GrimReaper.poll thread (signals t) (signal_rest t))).

(** `utun_write_fut`; a future that has resolved is not polled again. *)
Definition poll_write (t : Turn) : M Daemon unit :=
  let! done := getM write_done in
  if done : bool then retM tt
  else match writer t with
       | Pending => retM tt
       | Ended => modM (set_write_done true)
       | Broken => errM "utun write error"
       end.

(** `utun_read_fut`: what the tunnel delivers goes to the peer server. *)
Fixpoint read_packets (raws : list bytes) : M Daemon unit :=
  match raws with
  | [] => retM tt
  | raw :: raws' =>
      let! packet := liftM (UtunPacket.decode raw) in
      let! _ := on_server (modM (fun w => set_outgoing (outgoing w ++ [packet]) w)) in
      read_packets raws'
  end.
Definition poll_read (t : Turn) : M Daemon unit :=
  let! done := getM read_done in
  if done : bool then retM tt
  else
    let! _ := read_packets (raw_packets t) in
    match reader t with
    | Pending => retM tt
    | Ended => modM (set_read_done true)
    | Broken => errM "utun read error"
    end.

(** `peer_server.join(config_server.join(utun_write_fut.join(utun_read_fut)))`:
    an error ends the join at once.  It is pending as long as there is none,
    since neither the server nor the service resolves. *)
Definition poll_joined (t : Turn) : M Daemon unit :=
  let! _ := on_server (poll (env t) (ingress t)) in
  let! _ := poll_service t in
  let! _ := poll_write t in
  poll_read t.

Definition turn (t : Turn) : M Daemon unit :=
  let! _ := happen_all (env t) (background t) in
  poll_joined t.

(** `core.run(fut)`: [None] when the turns given are used up. *)
Fixpoint reactor (turns : list Turn) (d : Daemon) : Daemon * option (res unit) :=
  match turns with
  | [] => (d, None)
  | t :: turns' =>
      match turn t d with
      | (d', Ok _) => reactor turns' d'
      | (d', r) => (d', Some r)
      end
  end.

(** ** Start and end *)

(** What the calls of `start` answer. *)
Record Boot := mkBoot {
  os_start : Os;
  os_end : Os;
  core_new : res unit;
  interval_new : res unit;
  connect : string → res unit;
  device_name : string → res string;
  spawned : res unit;
  boot_time : Instant;
  draws : list Z;
}.

Inductive Status :=
| Running (d : Daemon)
| Returned (r : res unit).

Definition Daemon_new (b : Boot) (fs : Files) : Daemon :=
  mkDaemon fs (World_new (boot_time b) (draws b)) ∅ 0 [] GrimReaper.Sleeping false false.

(** The steps of `start` before the service. *)
Definition open_device (b : Boot) (name : string) : res string :=
  let? _ := core_new b in
  let? _ := interval_new b in
  let? _ := connect b name in
  device_name b name.

(** The end of `start`: the error of the reactor is dropped, and with the joined
    future the service; a panic drops it too, and goes on.  A server that still
    waits for random numbers has not ended. *)
Definition finish (b : Boot) (interface_name : string) (d : Daemon) (r : res unit) : Files * Status :=
  let fs := (Service.drop (os_end b) interface_name (files d)).1 in
  match r with
  | Panic p => (fs, Returned (Panic p))
  | Ok _ | Err _ => (fs, Returned (Ok tt))
  | Starved => (files d, Returned Starved)
  end.

(** `Interface::new(name).start()`. *)
Definition start (b : Boot) (name : string) (turns : list Turn) (fs : Files) : Files * Status :=
  match open_device b name with
  | Ok interface_name =>
      match Service.new (os_start b) (spawned b) interface_name fs with
      | (fs', Ok _) =>
          match reactor turns (Daemon_new b fs') with
          | (d, None) => (files d, Running d)
          | (d, Some r) => finish b interface_name d r
          end
      | (fs', Err e) => (fs', Returned (Err e))
      | (fs', Panic p) => (fs', Returned (Panic p))
      | (fs', Starved) => (fs', Returned Starved)
      end
  | Err e => (fs, Returned (Err e))
  | Panic p => (fs, Returned (Panic p))
  | Starved => (fs, Returned Starved)
  end.

(** ** src/main.rs *)

Record Opt := mkOpt { debug : bool; foreground : bool; interface : string; output : option string }.

(** The logger, the user, and the result of the daemonize crate. *)
Record Machine := mkMachine { logger : res unit; is_root : bool; daemonized : res unit }.

Inductive Process := Exited (code : Z) | Alive.

(** `warning`: whether the program quits. *)
Definition warning (o : Os) : bool :=
  match env_var o "WG_I_PREFER_BUGGY_USERSPACE_TO_POLISHED_KMOD" with
  | Some val => negb (bool_decide (val = "1"))
  | None => true
  end.

Definition daemonize (m : Machine) : res unit :=
  let? _ := ensure (is_root m) "This must be run as root to initialize the tunnel." in
  daemonized m.

(** The exit status of a panic is 101. *)
Definition main (b : Boot) (m : Machine) (opt : Opt) (turns : list Turn) (fs : Files) : Files * Process :=
  if warning (os_start b) then (fs, Exited 1)
  else
    match unwrap_res (logger m) with
    | Ok _ =>
        match (if foreground opt then Ok tt else daemonize m) with
        | Ok _ =>
            match start b (interface opt) turns fs with
            | (fs', Returned (Panic _)) => (fs', Exited 101)
            | (fs', Running _) | (fs', Returned Starved) => (fs', Alive)
            | (fs', Returned _) => (fs', Exited 0)
            end
        | Err _ => (fs, Exited 1)
        | _ => (fs, Exited 101)
        end
    | _ => (fs, Exited 101)
    end.

(* ------------------------------------------------------------------ *)
(** ** Fuel of a connection *)

Lemma decode_shrinks buf buf' command :
  ConfigText.decode buf = (buf', Ok (Some command)) → (length buf' < length buf)%nat.
Proof.
  intros Hd. pose proof Hd as Hd'. apply decode_rest in Hd as [rest ->]; try done.
  unfold ConfigText.decode in Hd'. destruct (negb (is_utf8 buf)); [done|].
  destruct (split_blank buf) as [[blob after]|] eqn:E; [|done]. apply split_blank_app in E.
  destruct (ConfigText.parse_lines (split_on LF blob)) as [[|[cmd v] items]|e|p|]; try done.
  injection Hd' as Hbuf _. rewrite <-Hbuf, length_drop, E, length_app. simpl. lia.
Qed.

(** The fuel of [receive] is enough: more changes nothing. *)
Lemma serve_fuel n e iter : ∀ m buf,
  (length buf < n)%nat → (n ≤ m)%nat → serve m e iter buf = serve n e iter buf.
Proof.
  induction n as [|n IH]; intros m buf Hn Hm; [lia|]. destruct m as [|m]; [lia|]. cbn [serve].
  destruct (ConfigText.decode buf) as [buf' [[command|]| | |]] eqn:E; try done.
  apply decode_shrinks in E. rewrite (IH m) by lia. done.
Qed.

(** ** The files of a run *)

Definition outside (b : Background) : option path := match b with Outside p _ => Some p | _ => None end.

(** The paths that other processes change in the course of a run. *)
Definition touched (turns : list Turn) : list path := turns ≫= fun t => omap outside (background t).

Section one_path.
Context (p : path) (v : option Node).

Definition at_path (d : Daemon) : Prop := files d !! p = v.

Lemma keeps_on_server {Y} (m : M World Y) : keeps at_path (on_server m).
Proof. intros d Hd. unfold on_server. by destruct (m (server d)). Qed.

Lemma keeps_same (f : Daemon → Daemon) : (∀ d, files (f d) = files d) → keeps at_path (modM f).
Proof. intros Hf d Hd. unfold at_path. simpl. by rewrite Hf. Qed.

Lemma keeps_happen e b : outside b ≠ Some p → keeps at_path (happen e b).
Proof.
  intros Hb. destruct b as [c chunk iter|c|t k|i|q n]; simpl; try by apply keeps_same.
  - unfold receive. apply keeps_bind; [apply keeps_get|]. intros [buf|]; [|apply keeps_ret].
    apply keeps_bind; [apply keeps_on_server|]. intros [buf' rs]. apply keeps_bind; [by apply keeps_same|]. intros _.
    by apply keeps_same.
  - intros d Hd. unfold at_path in *. simpl. rewrite lookup_partial_alter_ne; [done|]. intros ->. by destruct Hb.
Qed.

Lemma keeps_happen_all e bs : p ∉ omap outside bs → keeps at_path (happen_all e bs).
Proof.
  induction bs as [|b bs IH]; intros Hp; simpl; [apply keeps_ret|].
  apply keeps_bind; [apply keeps_happen|intros _; apply IH]; intros Hin; apply Hp; simpl; rewrite ?Hin; [|case_match]; set_solver.
Qed.

Lemma accept_files n : ∀ d, files (accept n d) = files d.
Proof. induction n as [|n IH]; intros d; simpl; [done|]. by rewrite IH. Qed.

Lemma keeps_read_packets raws : keeps at_path (read_packets raws).
Proof.
  induction raws as [|raw raws IH]; simpl; [apply keeps_ret|]. apply keeps_bind; [apply keeps_lift|]. intros packet.
  apply keeps_bind; [apply keeps_on_server|]. by intros _.
Qed.

Lemma keeps_turn t : p ∉ omap outside (background t) → keeps at_path (turn t).
Proof.
  intros Hp. unfold turn, poll_joined, poll_service, poll_write, poll_read.
  repeat (apply keeps_bind; [|intros ?]);
    first [by apply keeps_happen_all | apply keeps_on_server | apply keeps_same; intros; by rewrite ?accept_files
          | apply keeps_get | apply keeps_lift | idtac].
  - case_match; [apply keeps_ret|]. case_match; [apply keeps_ret|by apply keeps_same|apply keeps_err].
  - case_match; [apply keeps_ret|]. apply keeps_bind; [apply keeps_read_packets|intros _].
    case_match; [apply keeps_ret|by apply keeps_same|apply keeps_err].
Qed.

Lemma reactor_files turns : ∀ d, p ∉ touched turns → at_path d → at_path (reactor turns d).1.
Proof.
  induction turns as [|t turns IH]; intros d Hp Hd; simpl; [done|].
  apply not_elem_of_app in Hp as [Hp Hp']. pose proof (keeps_turn t Hp d Hd) as Ht.
  destruct (turn t d) as [d' [u|e|w|]]; try done. by apply IH.
Qed.
End one_path.

Definition gone (fs : Files) (p : path) : Prop :=
  match fs !! p with None | Some (Dir _) => True | _ => False end.

Lemma finish_spec b iname d r fs' st :
  plain iname → finish b iname d r = (fs', st) →
  (∀ p, ¬ service_path iname p → fs' !! p = files d !! p) ∧
  ∃ r', st = Returned r' ∧
    (r' ≠ Starved → let p := Service.socket_path (Service.get_run_path fs') iname in
     denied (os_end b) (CallRemove p) = false → gone fs' p).
Proof.
  intros Hn. unfold finish. set (fs1 := (Service.drop _ _ _).1).
  assert (∀ p, ¬ service_path iname p → fs1 !! p = files d !! p) as Hw by (intros; by apply within_drop).
  assert (Service.get_run_path fs1 = Service.get_run_path (files d)) as Hrun.
  { apply run_path_frame. by apply Hw, run_not_service. }
  destruct r; intros [= <- <-]; (split; [done|]); eexists; (split; [done|]); intros Hr; cbv zeta; try done;
    rewrite Hrun; intros Hd; by apply (drop_gone (os_end b) iname (files d)).
Qed.

(** The parts of a run. *)
Lemma start_inv b name turns fs fs' st iname :
  open_device b name = Ok iname → start b name turns fs = (fs', st) →
  (∃ fs1 r, Service.new (os_start b) (spawned b) iname fs = (fs1, r) ∧ is_ok r = false ∧ fs' = fs1 ∧ ∃ r', st = Returned r' ∧ is_ok r' = false) ∨
  ∃ fs1 p d r, Service.new (os_start b) (spawned b) iname fs = (fs1, Ok p) ∧ reactor turns (Daemon_new b fs1) = (d, r) ∧
    match r with None => fs' = files d ∧ st = Running d | Some r => finish b iname d r = (fs', st) end.
Proof.
  intros Hopen. unfold start. rewrite Hopen.
  destruct (Service.new (os_start b) (spawned b) iname fs) as [fs1 [p|e|w|]].
  - destruct (reactor turns (Daemon_new b fs1)) as [d [r|]] eqn:E; intros Hst; right; exists fs1, p, d; eexists;
      (split; [done|]); (split; [done|]); [done|]. by injection Hst as <- <-.
  - intros [= <- <-]. left. eauto 8.
  - intros [= <- <-]. left. eauto 8.
  - intros [= <- <-]. left. eauto 8.
Qed.

(** C9.  The socket of the interface: as long as `start` runs, the socket is
    at its path, in a directory of mode 0o700, unless another process changed
    that; when `start` returns, no socket or file is left there, provided the
    file system lets it be removed.  Of all other paths, `start` changes only
    the file for the interface's name. *)
Theorem socket_lifecycle b name turns fs fs' st iname :
  open_device b name = Ok iname → plain iname → start b name turns fs = (fs', st) →
  (∀ p, ¬ own (os_start b) iname p → p ∉ touched turns → fs' !! p = fs !! p) ∧
  let dir := wireguard_dir (Service.get_run_path fs') in
  let p := Service.socket_path (Service.get_run_path fs') iname in
  match st with
  | Running _ =>
      ["run"] ∉ touched turns → dir ∉ touched turns → p ∉ touched turns →
      fs' !! dir = Some (Dir 448) ∧ fs' !! p = Some (Socket (Z.ldiff 511 (umask (os_start b))))
  | Returned (Ok _) => denied (os_end b) (CallRemove p) = false → gone fs' p
  | Returned _ => True
  end.
Proof.
  intros Hopen Hn Hst. apply (start_inv _ _ _ _ _ _ _ Hopen) in Hst as [(fs1 & r & Hnew & _ & -> & r' & -> & Hr')|(fs1 & p & d & r & Hnew & Hd & Hst)].
  { split; [|by destruct r']. intros p Hp _. pose proof (within_new (os_start b) (spawned b) iname fs p Hp) as Hw. by rewrite Hnew in Hw. }
  assert (∀ p, ¬ own (os_start b) iname p → p ∉ touched turns → files d !! p = fs !! p) as Hframe.
  { intros q Hq Ht. pose proof (within_new (os_start b) (spawned b) iname fs q Hq) as Hw. rewrite Hnew in Hw. simpl in Hw.
    pose proof (reactor_files q (fs !! q) turns (Daemon_new b fs1) Ht) as Hr. rewrite Hd in Hr. by apply Hr. }
  destruct r as [r|].
  - apply finish_spec in Hst as [Hfs (r' & -> & Hgone)]; [|done]. split.
    + intros q Hq Ht. rewrite Hfs; [by apply Hframe|]. intros Hs. apply Hq. by right.
    + cbv zeta. destruct r'; try done. by apply Hgone.
  - destruct Hst as [-> ->]. split; [done|]. cbv zeta. intros Hr Hdir Hp.
    assert (∀ q, q ∉ touched turns → files d !! q = fs1 !! q) as Hsame.
    { intros q Hq. pose proof (reactor_files q (fs1 !! q) turns (Daemon_new b fs1) Hq) as Hq'. rewrite Hd in Hq'. by apply Hq'. }
    rewrite !Hsame by done. rewrite (run_path_frame fs1) by (by apply Hsame).
    apply new_Ok in Hnew as (-> & H1 & H2); done.
Qed.

(* ------------------------------------------------------------------ *)
(** ** What ends a run *)

Definition watched (b : Background) : option GrimReaper.input := match b with Watch i => Some i | _ => None end.

(** The thread of the reaper after what happened before the poll. *)
Definition reaper_after (t : Turn) (d : Daemon) : GrimReaper.thread :=
  GrimReaper.run (reaper d) (omap watched (background t)).

(** A signal has arrived, or the reaper's thread has ended: it saw the socket
    removed, or failed. *)
Definition requested (t : Turn) (d : Daemon) : Prop :=
  signals t ≠ [] ∨ GrimReaper.rx_poll (reaper_after t d) ≠ Pending.

Section one_thread.
Context (v : GrimReaper.thread).

Definition has_reaper (d : Daemon) : Prop := reaper d = v.

Lemma keeps_reaper_same (f : Daemon → Daemon) : (∀ d, reaper (f d) = reaper d) → keeps has_reaper (modM f).
Proof. intros Hf d Hd. unfold has_reaper. simpl. by rewrite Hf. Qed.
Lemma keeps_reaper_server {Y} (m : M World Y) : keeps has_reaper (on_server m).
Proof. intros d Hd. unfold on_server. by destruct (m (server d)). Qed.
Lemma keeps_reaper_happen e b : watched b = None → keeps has_reaper (happen e b).
Proof.
  intros Hb. destruct b as [c chunk iter|c|t k|i|q n]; try done; simpl; try by apply keeps_reaper_same.
  unfold receive. apply keeps_bind; [apply keeps_get|]. intros [buf|]; [|apply keeps_ret].
  apply keeps_bind; [apply keeps_reaper_server|]. intros [buf' rs].
  apply keeps_bind; [by apply keeps_reaper_same|]. intros _. by apply keeps_reaper_same.
Qed.
End one_thread.

Lemma happen_all_reaper e bs : ∀ d d' u,
  happen_all e bs d = (d', Ok u) → reaper d' = GrimReaper.run (reaper d) (omap watched bs).
Proof.
  induction bs as [|b bs IH]; intros d d' u; simpl; [by intros [= <- _]|].
  intros (d1 & [] & Hb & Hbs)%bindM_Ok. rewrite (IH _ _ _ Hbs). destruct (watched b) as [i|] eqn:E.
  - destruct b; try done. injection E as ->. by injection Hb as <-.
  - pose proof (keeps_reaper_happen (reaper d) e b E d eq_refl) as Hr. rewrite Hb in Hr. by rewrite Hr.
Qed.

Lemma accept_reaper n : ∀ d, reaper (accept n d) = reaper d.
Proof. induction n as [|n IH]; intros d; simpl; [done|]. by rewrite IH. Qed.

(** A turn in which the end was requested is the last one. *)
Lemma turn_requested t d : requested t d → is_ok (turn t d).2 = false.
Proof.
  intros Hreq. destruct (turn t d) as [d' [u|e|p|]] eqn:E; try done. exfalso.
  apply bindM_Ok in E as (d1 & [] & Hbg & E). apply happen_all_reaper in Hbg.
  apply bindM_Ok in E as (d2 & [] & Hpoll & E).
  assert (reaper d2 = reaper_after t d) as Hr.
  { unfold on_server in Hpoll. destruct (poll (env t) (ingress t) (server d1)). injection Hpoll as <- _. exact Hbg. }
  apply bindM_Ok in E as (d3 & [] & Hs & _). unfold poll_service in Hs. run_ok.
  rewrite accept_reaper, Hr in *.
  match goal with H : Service.poll _ _ = _ |- _ => unfold Service.poll, GrimReaper.poll in H; destruct (listener t); try done end.
  destruct Hreq as [Hs|Hs]; destruct (GrimReaper.rx_poll (reaper_after t d)); try done. by destruct (signals t).
Qed.

Lemma reactor_snoc turns t : ∀ d d1,
  reactor turns d = (d1, None) →
  reactor (turns ++ [t]) d = match turn t d1 with (d', Ok _) => (d', None) | (d', r) => (d', Some r) end.
Proof.
  induction turns as [|t0 turns IH]; intros d d1; simpl; [by intros [= ->]|].
  destruct (turn t0 d) as [d' [u|e|p|]]; try done. apply IH.
Qed.

(** C10.  Shutdown: when a signal arrives, or the thread that watches the socket
    ends (it saw the socket removed, or the watch failed), the next turn of a
    running interface is the last: `start` returns, or its panic goes on, and
    no socket is left unless its removal is refused. *)
Theorem shutdown b name turns fs fs1 d iname t :
  open_device b name = Ok iname → plain iname → start b name turns fs = (fs1, Running d) → requested t d →
  ∃ fs2 r, start b name (turns ++ [t]) fs = (fs2, Returned r) ∧
    (r ≠ Starved → let p := Service.socket_path (Service.get_run_path fs2) iname in
     denied (os_end b) (CallRemove p) = false → gone fs2 p).
Proof.
  intros Hopen Hn Hst Hreq.
  apply (start_inv _ _ _ _ _ _ _ Hopen) in Hst as [(? & ? & _ & _ & _ & ? & ? & _)|(f1 & p & d0 & r & Hnew & Hd & Hst)]; [done|].
  destruct r as [r|].
  { apply finish_spec in Hst as (_ & ? & ? & _); done. }
  destruct Hst as [_ [= <-]]. unfold start. rewrite Hopen, Hnew, (reactor_snoc _ _ _ _ Hd).
  pose proof (turn_requested _ _ Hreq) as Hturn. destruct (turn t d) as [d' r]. simpl in Hturn.
  destruct (finish b iname d' r) as [fs2 st] eqn:E. pose proof (finish_spec _ _ _ _ _ _ Hn E) as (_ & r' & -> & Hgone).
  exists fs2, r'. split; [|exact Hgone]. by destruct r.
Qed.

(** [steady m]: [m] does not return an error. *)
Definition steady {W Y} (m : M W Y) : Prop := ∀ w, is_err (m w).2 = false.

Lemma steady_bind {W Y Y'} (m : M W Y) (k : Y → M W Y') : steady m → (∀ y, steady (k y)) → steady (bindM m k).
Proof. intros Hm Hk w. specialize (Hm w). unfold bindM. destruct (m w) as [w' [y|e|p|]]; try done. apply Hk. Qed.
Lemma steady_ignore {W Y} (m : M W Y) : steady (ignoreM m).
Proof. intros w. unfold ignoreM. by destruct (m w) as [w' []]. Qed.
Lemma steady_each {Y} (handler : Y → M World unit) xs : steady (each handler xs).
Proof. induction xs as [|x xs IH]; simpl; [done|]. apply steady_bind; [apply steady_ignore|by intros _]. Qed.
Lemma steady_server {Y} (m : M World Y) : steady m → steady (on_server m).
Proof. intros Hm d. specialize (Hm (server d)). unfold on_server. by destruct (m (server d)). Qed.

(** The server ends only with one of its streams: no handler's error ends it. *)
Lemma steady_poll e ing : (∀ s, rest e s = Pending) → steady (poll e ing).
Proof.
  intros Hr. assert (∀ s name, steady (settle e s name)) as Hs by (intros s name w; unfold settle; by rewrite Hr).
  unfold poll, poll_channel, poll_timer, poll_ingress, poll_egress, poll_handshake.
  repeat (apply steady_bind; [|intros ?]); try first [done | apply steady_each | apply Hs].
  - case_match; [|done]. apply steady_bind; [apply steady_each|intros _; apply Hs].
  - case_match; [done|]. case_match. apply steady_bind; [done|intros _]. apply steady_ignore.
Qed.

Lemma steady_handle_set items : steady (Config.handle_set items).
Proof.
  induction items as [|item items IH]; intros w; simpl; [done|].
  destruct (Config.handle_update item w) as [w' [[msg|]|e|p|]]; try done; apply IH.
Qed.

Lemma steady_serve n e iter : ∀ buf, steady (serve n e iter buf).
Proof.
  induction n as [|n IH]; intros buf; simpl; [done|].
  destruct (ConfigText.decode buf) as [buf' [[command|]|er|p|]]; try done. apply steady_bind.
  - destruct command; [apply steady_handle_set|done].
  - intros reply. apply steady_bind; [apply IH|]. by intros [].
Qed.

Lemma steady_happen_all e bs : steady (happen_all e bs).
Proof.
  induction bs as [|b bs IH]; simpl; [done|]. apply steady_bind; [|by intros _].
  destruct b; try done. simpl. unfold receive. apply steady_bind; [done|]. intros [buf|]; [|done].
  apply steady_bind; [apply steady_server, steady_serve|]. intros []. by apply steady_bind.
Qed.

Lemma read_packets_err raws : ∀ d,
  is_err (read_packets raws d).2 = true → Exists (fun raw => is_err (UtunPacket.decode raw) = true) raws.
Proof.
  induction raws as [|raw raws IH]; intros d; simpl; [done|]. unfold bindM at 1, liftM.
  destruct (UtunPacket.decode raw) as [packet|e|p|] eqn:E; try done.
  - intros Hr. right. apply (IH _ Hr).
  - intros _. left. by rewrite E.
Qed.

(** What can end a run with an error. *)
Inductive cause (t : Turn) (d : Daemon) : Prop :=
| cause_stream s : rest (env t) s ≠ Pending → cause t d
| cause_listener : listener t ≠ Pending → cause t d
| cause_requested : requested t d → cause t d
| cause_signal_stream : signal_rest t ≠ Pending → cause t d
| cause_writer : writer t = Broken → cause t d
| cause_reader : reader t = Broken → cause t d
| cause_packet : Exists (fun raw => is_err (UtunPacket.decode raw) = true) (raw_packets t) → cause t d.

Lemma bindM_is_err {W Y Y'} (m : M W Y) (k : Y → M W Y') w :
  is_err (bindM m k w).2 = true →
  is_err (m w).2 = true ∨ ∃ w' y, m w = (w', Ok y) ∧ is_err (k y w').2 = true.
Proof. unfold bindM. destruct (m w) as [w' [y|e|p|]]; eauto. Qed.

(** C26.  Nothing else ends the process: a turn ends in an error only when a
    stream of the server, the listener or the signals ended or failed, a signal
    arrived, the reaper's thread ended, or the tunnel failed or delivered a
    packet that is not an IP packet.  No configuration command, datagram,
    handshake, timer or packet that a handler rejects does. *)
Theorem turn_ends_with_cause t d : is_err (turn t d).2 = true → cause t d.
Proof.
  intros [Hb|(d1 & [] & Hbg & Hp)]%bindM_is_err; [by rewrite steady_happen_all in Hb|]. apply happen_all_reaper in Hbg.
  apply bindM_is_err in Hp as [Hp|(d2 & [] & Hpoll & Hp)].
  { destruct (decide (Forall (fun s => rest (env t) s = Pending) [ConfigStream; TimerStream; IngressStream; OutgoingStream])) as [Hall|Hall].
    - rewrite steady_server in Hp; [done|]. apply steady_poll. rewrite Forall_forall in Hall. intros s. apply Hall. destruct s; set_solver.
    - apply not_Forall_Exists in Hall; [|intros ?; apply _]. apply Exists_exists in Hall as (s & _ & Hs). by apply (cause_stream _ _ s). }
  assert (reaper d2 = reaper_after t d) as Hr.
  { unfold on_server in Hpoll. destruct (poll (env t) (ingress t) (server d1)). injection Hpoll as <- _. exact Hbg. }
  apply bindM_is_err in Hp as [Hp|(d3 & [] & _ & Hp)].
  { unfold poll_service, bindM, modM, getM, liftM in Hp. cbv beta iota in Hp. rewrite accept_reaper, Hr in Hp.
    unfold Service.poll, GrimReaper.poll in Hp. destruct (listener t) eqn:El; [|by apply cause_listener; rewrite El..].
    destruct (GrimReaper.rx_poll (reaper_after t d)) eqn:Ex; [|by apply cause_requested; right; rewrite Ex..].
    destruct (signals t) eqn:Es; [|by apply cause_requested; left; rewrite Es].
    destruct (signal_rest t) eqn:Et; [done|by apply cause_signal_stream; rewrite Et..]. }
  apply bindM_is_err in Hp as [Hp|(d4 & [] & _ & Hp)].
  { unfold poll_write, bindM, getM in Hp. cbv beta iota in Hp. destruct (write_done d3); [done|].
    destruct (writer t) eqn:Ew; try done. by apply cause_writer. }
  unfold poll_read in Hp. apply bindM_is_err in Hp as [Hp|(d5 & fin & _ & Hp)]; [done|]. destruct fin; [done|].
  apply bindM_is_err in Hp as [Hp|(d6 & [] & _ & Hp)]; [by eapply cause_packet, read_packets_err|].
  destruct (reader t) eqn:Er; try done. by apply cause_reader.
Qed.

(** ** The exit status *)

(** Whether `main` gets to starting the interface. *)
Definition cleared (b : Boot) (m : Machine) (opt : Opt) : Prop :=
  warning (os_start b) = false ∧ is_ok (logger m) = true ∧ (foreground opt = true ∨ is_ok (daemonize m) = true).

(** The command line: the interface is started only when the variable of
    the warning is set to 1, and in the foreground or as a daemon of the
    superuser.  A process that is refused exits with 1 and has changed no file.
    The status is 0 when `start` returned, also when it returned an error.  The
    options for debugging and output change nothing. *)
Lemma main_exit_status b m opt turns fs fs' code :
  main b m opt turns fs = (fs', Exited code) →
  (code = 1 ∧ fs' = fs ∧ (warning (os_start b) = true ∨ foreground opt = false ∧ is_err (daemonize m) = true)) ∨
  (code = 0 ∧ cleared b m opt ∧ ∃ r, start b (interface opt) turns fs = (fs', Returned r) ∧ (is_ok r || is_err r) = true) ∨
  (code = 101 ∧ warning (os_start b) = false).
Proof.
  unfold main, cleared. destruct (warning (os_start b)); [intros [= <- <-]; by left; auto|].
  destruct (logger m) as [u|e|p|]; simpl; try by intros [= <- <-]; auto.
  assert (is_ok (if foreground opt then Ok tt else daemonize m) = true →
          foreground opt = true ∨ is_ok (daemonize m) = true) as Hok by (destruct (foreground opt); auto).
  destruct (if foreground opt then Ok tt else daemonize m) as [u'|e|p|] eqn:E; try by intros [= <- <-]; auto.
  - destruct (start b (interface opt) turns fs) as [fs1 [d|[r|e|p|]]] eqn:Est; intros [= <- <-];
      [right; left; eauto 10|right; left; eauto 10|by auto].
  - intros [= <- <-]. left. split; [done|]. split; [done|]. right. destruct (foreground opt); [done|]. by rewrite E.
Qed.

Lemma main_ignores_options b m dbg dbg' fg name out out' turns fs :
  main b m (mkOpt dbg fg name out) turns fs = main b m (mkOpt dbg' fg name out') turns fs.
Proof. done. Qed.
End daemon.

(* ------------------------------------------------------------------ *)
(** ** A run takes the steps of the system *)
Section refinement.
Context {BO : ByteOrder} {BOL : ByteOrderLaws BO} {B : Blake2} {SU : Subtle} {A : Aead} {R : Rips} {T : Treebitmap}
        {TL : TreebitmapLaws T} {X : X25519} {SN : Snow} {H : Hex} {N : Notify}.
Import PeerServer.

(** The masks of the commands fit their addresses, each where it is decoded. *)
Definition command_fits (command : Command) : Prop :=
  match command with Command_Set _ items => Forall masks_fit items | Command_Get _ => True end.

Fixpoint serve_fits (fuel : nat) (e : Env) (iter : list peer_id) (buf : bytes) (w : World) : Prop :=
  match fuel, ConfigText.decode buf with
  | S n, (buf', Ok (Some command)) =>
      command_fits command ∧
      match ConfigText.respond e iter command w with (w', Ok _) => serve_fits n e iter buf' w' | _ => True end
  | _, _ => True
  end.

Definition happen_fits (e : Env) (b : Background) (d : Daemon) : Prop :=
  match b with
  | Data c chunk iter =>
      match conns d !! c with
      | Some buf => serve_fits (S (length (buf ++ chunk))) e iter (buf ++ chunk) (server d)
      | None => True
      end
  | _ => True
  end.

Fixpoint happen_all_fits (e : Env) (bs : list Background) (d : Daemon) : Prop :=
  match bs with
  | [] => True
  | b :: bs' =>
      happen_fits e b d ∧ match happen e b d with (d', Ok _) => happen_all_fits e bs' d' | _ => True end
  end.

Fixpoint turns_fit (turns : list Turn) (d : Daemon) : Prop :=
  match turns with
  | [] => True
  | t :: turns' =>
      happen_all_fits (env t) (background t) d ∧ match turn t d with (d', Ok _) => turns_fit turns' d' | _ => True end
  end.

(** [simulated P m]: from a state in [P], what [m] does to the server is a
    sequence of steps of the system. *)
Definition simulated {Y} (P : Daemon → Prop) (m : M Daemon Y) : Prop :=
  ∀ d, P d → rtc system_step (server d) (server (m d).1).

Lemma simulated_bind {Y Y'} (P Q : Daemon → Prop) (m : M Daemon Y) (k : Y → M Daemon Y') :
  simulated P m → (∀ d d' y, P d → m d = (d', Ok y) → Q d') → (∀ y, simulated Q (k y)) → simulated P (bindM m k).
Proof.
  intros Hm HQ Hk d Hd. specialize (Hm d Hd). unfold bindM. destruct (m d) as [d' [y|e|p|]] eqn:E; try done.
  etrans; [exact Hm|]. eapply Hk, HQ; done.
Qed.
Lemma simulated_free {Y Y'} P (m : M Daemon Y) (k : Y → M Daemon Y') :
  simulated P m → (∀ y, simulated (fun _ => True) (k y)) → simulated P (bindM m k).
Proof. intros Hm Hk. by apply (simulated_bind P (fun _ => True)). Qed.
Lemma simulated_mod P (f : Daemon → Daemon) : (∀ d, server (f d) = server d) → simulated P (modM f).
Proof. intros Hf d _. simpl. by rewrite Hf. Qed.
Lemma simulated_lift {Y} P (r : res Y) : simulated P (liftM r).
Proof. intros d _. constructor. Qed.
Lemma simulated_get {Y} P (f : Daemon → Y) : simulated P (getM f).
Proof. intros d _. constructor. Qed.
Lemma simulated_server {Y} (P : Daemon → Prop) (m : M World Y) :
  (∀ d, P d → rtc system_step (server d) (m (server d)).1) → simulated P (on_server m).
Proof. intros Hm d Hd. specialize (Hm d Hd). unfold on_server. by destruct (m (server d)). Qed.

Lemma serve_steps n e iter : ∀ buf w, serve_fits n e iter buf w → rtc system_step w (serve n e iter buf w).1.
Proof.
  induction n as [|n IH]; intros buf w Hok; [constructor|]. cbn [serve serve_fits] in *.
  destruct (ConfigText.decode buf) as [buf' [[command|]|er|p|]]; try reflexivity. destruct Hok as [Hc Hrest].
  assert (rtc system_step w (ConfigText.respond e iter command w).1) as Hstep.
  { destruct command as [v items|v]; [|constructor]. apply rtc_once. by apply (step_set items w). }
  unfold bindM at 1. destruct (ConfigText.respond e iter command w) as [w' [reply|er|p|]]; try done.
  etrans; [exact Hstep|]. specialize (IH _ _ Hrest). unfold bindM. by destruct (serve n e iter buf' w') as [w'' [[]|er|p|]].
Qed.

Lemma happen_steps e b : simulated (happen_fits e b) (happen e b).
Proof.
  destruct b as [c chunk iter|c|t k|i|q n]; simpl; try by apply simulated_mod.
  - intros d Hok. unfold receive. change (happen_fits e (Data c chunk iter) d) with
      (match conns d !! c with Some buf => serve_fits (S (length (buf ++ chunk))) e iter (buf ++ chunk) (server d) | None => True end) in Hok.
    unfold bindM at 1, getM. destruct (conns d !! c) as [buf|]; [|constructor].
    apply (simulated_free (eq d)); [|intros []; apply simulated_free; intros; by apply simulated_mod|done].
    apply simulated_server. intros d' <-. by apply serve_steps.
  - intros d _. apply rtc_once. simpl. constructor.
Qed.

Lemma happen_all_steps e bs : simulated (happen_all_fits e bs) (happen_all e bs).
Proof.
  induction bs as [|b bs IH]; [apply simulated_lift|]. cbn [happen_all].
  eapply (simulated_bind _ (happen_all_fits e bs)); [|intros d d' y [_ Hr] E; by rewrite E in Hr|intros _; exact IH].
  intros d [Hd _]. by apply happen_steps.
Qed.

Lemma accept_server n : ∀ d, server (accept n d) = server d.
Proof. induction n as [|n IH]; intros d; simpl; [done|]. by rewrite IH. Qed.

Lemma read_packets_steps raws : simulated (fun _ => True) (read_packets raws).
Proof.
  induction raws as [|raw raws IH]; [apply simulated_lift|]. cbn [read_packets].
  apply simulated_free; [apply simulated_lift|]. intros packet. apply simulated_free; [|by intros _].
  apply simulated_server. intros d _. apply rtc_once. simpl. constructor.
Qed.

Lemma turn_steps t : simulated (happen_all_fits (env t) (background t)) (turn t).
Proof.
  apply simulated_free; [apply happen_all_steps|intros _].
  apply simulated_free; [|intros _].
  { apply simulated_server. intros d _. apply rtc_once, step_poll. }
  apply simulated_free; [|intros _].
  { apply simulated_free; [apply simulated_mod, accept_server|]. intros _.
    apply simulated_free; [apply simulated_get|]. intros thread. apply simulated_lift. }
  apply simulated_free; [|intros _].
  - apply simulated_free; [apply simulated_get|]. intros fin. case_match; [apply simulated_lift|].
    case_match; [apply simulated_lift|by apply simulated_mod|apply simulated_lift].
  - apply simulated_free; [apply simulated_get|]. intros fin. case_match; [apply simulated_lift|].
    apply simulated_free; [apply read_packets_steps|intros _].
    case_match; [apply simulated_lift|by apply simulated_mod|apply simulated_lift].
Qed.

Lemma reactor_steps turns : ∀ d, turns_fit turns d → rtc system_step (server d) (server (reactor turns d).1).
Proof.
  induction turns as [|t turns IH]; intros d Hok; [constructor|]. cbn [reactor turns_fit] in *.
  destruct Hok as [Ht Hrest]. pose proof (turn_steps t d Ht) as Hs. destruct (turn t d) as [d' [u|e|p|]]; try done.
  etrans; [exact Hs|]. by apply IH.
Qed.

(** C8.  The process refines the system: whatever the turns of the reactor
    bring (bytes on the configuration socket, timers, datagrams, packets from
    the tunnel, signals, answers of the operating system), as long as the masks
    in the commands fit their addresses, the server of a started interface takes
    steps of the system only, so its state, also when the run ends, has a
    consistent configuration. *)
Theorem process_refines_system b fs turns d r :
  turns_fit turns (Daemon_new b fs) → reactor turns (Daemon_new b fs) = (d, r) →
  system_reachable (boot_time b) (draws b) (server d) ∧ config_ok (server d).
Proof.
  intros Hok Hr. pose proof (reactor_steps turns _ Hok) as Hs. rewrite Hr in Hs. split; [exact Hs|].
  exact (config_ok_steps _ _ Hs (config_ok_new _ _)).
Qed.
End refinement.

(* ------------------------------------------------------------------ *)
(** ** Instances of the theorems *)

(** The operations of notify as its flags. *)
Definition refNotify : Notify := {| Op := Z; REMOVE := 4 |}.

Section witnesses.
#[local] Existing Instance refByteOrder.
#[local] Existing Instance refByteOrderLaws.
#[local] Existing Instance refBlake2.
#[local] Existing Instance refAead.
#[local] Existing Instance refSubtle.
#[local] Existing Instance refX25519.
#[local] Existing Instance refSnow.
#[local] Existing Instance refRips.
#[local] Existing Instance refTreebitmap.
#[local] Existing Instance refTreebitmapLaws.
#[local] Existing Instance refHex.
#[local] Existing Instance refNotify.

Definition demo_os : Os :=
  mkOs (fun v => if bool_decide (v = "WG_I_PREFER_BUGGY_USERSPACE_TO_POLISHED_KMOD") then Some "1" else None)
       ["root"] 18 (fun _ => false) 0.
Definition demo_boot : Boot :=
  mkBoot demo_os demo_os (Ok tt) (Ok tt) (fun _ => Ok tt) (fun _ => Ok "wg0") (Ok tt) 0 [7; 8; 9].
Definition demo_files : Files := {[ ["run"] := Dir 493; ["etc"] := Dir 493 ]}.

(** A connection, then a command and a datagram, then a signal. *)
Definition demo_turn (bs : list Background) (n : nat) (sig : list Signal) : Turn :=
  mkTurn bs sys_env [(demo_addr, [1; 0; 0])] n Pending sig Pending Pending [] Pending.
Definition demo_turns : list Turn :=
  [demo_turn [Watch (GrimReaper.Wake true true)] 1 [];
   demo_turn [Data 0 (str_bytes "get=1" ++ [LF; LF]) []; Watch (GrimReaper.Event (Some 1))] 0 []].

Definition is_running (st : Status) : bool := match st with Running _ => true | _ => false end.
Definition daemon_of (b : Boot) (st : Status) : Daemon := match st with Running d => d | _ => Daemon_new b ∅ end.

Lemma running_get (b : Boot) (x : Files * Status) : is_running x.2 = true → x = (x.1, Running (daemon_of b x.2)).
Proof. by destruct x as [fs []]. Qed.

Definition demo_run : Files * Status := start demo_boot "wg0" demo_turns demo_files.
Definition demo_daemon : Daemon := daemon_of demo_boot demo_run.2.
Lemma demo_running : demo_run = (demo_run.1, Running demo_daemon).
Proof. apply running_get. vm_cast_no_check (eq_refl true). Qed.
Lemma demo_plain : plain "wg0".
Proof. by repeat split. Qed.

Lemma socket_lifecycle_witness :
  demo_run.1 !! Service.socket_path (Service.get_run_path demo_run.1) "wg0" = Some (Socket 493).
Proof.
  refine (proj2 (proj2 (socket_lifecycle demo_boot "wg0" demo_turns demo_files _ _ "wg0" eq_refl demo_plain demo_running) _ _ _));
    apply not_elem_of_nil.
Defined.

Lemma shutdown_witness :
  ∃ fs2 r, start demo_boot "wg0" (demo_turns ++ [demo_turn [] 0 [SIGTERM]]) demo_files = (fs2, Returned r).
Proof.
  destruct (shutdown demo_boot "wg0" demo_turns demo_files _ demo_daemon "wg0" (demo_turn [] 0 [SIGTERM]) eq_refl demo_plain demo_running)
    as (fs2 & r & Hst & _); [by left|].
  exists fs2, r. exact Hst.
Defined.

Lemma turn_ends_with_cause_witness : cause (demo_turn [] 0 [SIGTERM]) (Daemon_new demo_boot demo_files).
Proof. apply turn_ends_with_cause. vm_cast_no_check (eq_refl true). Defined.

(** A command that sets a key and adds a peer with 10.0.0.0/8. *)
Definition demo_set : bytes :=
  unlines [str_bytes "set=1"; str_bytes "private_key=" ++ hex_chars (replicate 32 7);
           str_bytes "public_key=" ++ hex_chars (replicate 32 17); str_bytes "allowed_ip=10.0.0.0/8"] ++ [LF].
Definition set_turns : list Turn := [demo_turn [] 1 []; demo_turn [Data 0 demo_set []] 0 []].

Lemma set_turns_fit : turns_fit set_turns (Daemon_new demo_boot demo_files).
Proof. split; [vm_compute; done|]. vm_compute. repeat split; repeat constructor; discriminate. Qed.

Lemma process_refines_system_witness :
  ∃ d r, reactor set_turns (Daemon_new demo_boot demo_files) = (d, r) ∧ config_ok (server d) ∧
         size (pubkey_map (state (server d))) = 1%nat.
Proof.
  eexists _, _. split; [apply surjective_pairing|]. split; [|vm_cast_no_check (eq_refl 1%nat)].
  exact (proj2 (process_refines_system demo_boot demo_files set_turns _ _ set_turns_fit (surjective_pairing _))).
Defined.
End witnesses.
