(* ===== verification/ProcessTotal.v ===== *)
(** * Panics of the process

    Which inputs of a running interface panic: text on the configuration socket
    that the codec cannot take, masks that do not fit, packets of the tunnel
    without a header, empty datagrams, and a port that cannot be bound when a
    private key is set.  Everything else is handled or rejected. *)

From S2P Require Import Prelude Crates Reference RefSnow AntiReplay Types Text Timestamp Message XChaCha RateLimiter Cookie Router Peer PeerTransport PeerSessions PeerTotal Timer World PeerServer ServerInvariant Config ConfigText System NoPanic Files Service Daemon.

(* ------------------------------------------------------------------ *)
(** ** The parsers of std *)





(* ------------------------------------------------------------------ *)
(** ** The text of a connection *)
Section text.
Context {H : Hex} {HL : HexLaws H}.
Import ConfigText.











Definition has_equals (line : bytes) : bool := bool_decide (EQUALS ∈ line).






(** Text of at most one command: it is UTF-8, each line of a command that is
    complete has a `=`, its masks fit, and no second command is complete. *)
Definition sole_command (buf : bytes) : Prop :=
  is_utf8 buf = true ∧
  match split_blank buf with
  | Some (blob, rest) => forallb has_equals (split_on LF blob) = true ∧ split_blank (LF :: rest) = None
  | None => True
  end ∧
  match (decode buf).2 with Ok (Some (Command_Set _ evs)) => Forall masks_fit evs | _ => True end.

#[export] Instance sole_command_dec buf : Decision (sole_command buf).
Proof. unfold sole_command. repeat apply and_dec; repeat case_match; apply _. Defined.



End text.

(* ------------------------------------------------------------------ *)
(** ** The process *)
Section process.
Context {BO : ByteOrder} {BOL : ByteOrderLaws BO} {B : Blake2} {BL : Blake2Laws B} {S : Subtle} {SUL : SubtleLaws S}
        {A : Aead} {AL : AeadLaws A} {R : Rips} {T : Treebitmap} {TL : TreebitmapLaws T} {X : X25519}
        {SN : Snow} {SL : SnowLaws SN} {ST : SnowTotal SN} {H : Hex} {HL : HexLaws H} {N : Notify}.
Import PeerServer Config.





(** The text a connection has sent and not used up, with what arrives now. *)
Definition happen_calm (b : Background) (d : Daemon) : Prop :=
  match b with
  | Data c chunk _ => match conns d !! c with Some buf => sole_command (buf ++ chunk) | None => True end
  | _ => True
  end.

Fixpoint happen_all_calm (e : Env) (bs : list Background) (d : Daemon) : Prop :=
  match bs with
  | [] => True
  | b :: bs' => happen_calm b d ∧ match happen e b d with (d', Ok _) => happen_all_calm e bs' d' | _ => True end
  end.

#[export] Instance happen_calm_dec b d : Decision (happen_calm b d).
Proof. destruct b; simpl; try apply _. case_match; apply _. Defined.
#[export] Instance happen_all_calm_dec e bs : ∀ d, Decision (happen_all_calm e bs d).
Proof.
  induction bs as [|b bs IH]; intros d; simpl; [apply _|]. apply and_dec; [apply _|].
  destruct (happen e b d) as [d' []]; [apply IH|apply _..].
Defined.















(** The conditions on the text are needed: what the codec panics on ends the
    run. *)
Lemma receive_panics e c chunk iter d buf :
  conns d !! c = Some buf → is_panic (ConfigText.decode (buf ++ chunk)).2 = true →
  is_panic (happen e (Data c chunk iter) d).2 = true.
Proof.
  intros Hc Hp. simpl. unfold receive, bindM, getM, on_server. rewrite Hc. cbn [serve].
  by destruct (ConfigText.decode (buf ++ chunk)) as [buf' []].
Qed.
End process.

(* ------------------------------------------------------------------ *)
(** ** An instance *)
Section witnesses.
#[local] Existing Instance refByteOrder.
#[local] Existing Instance refByteOrderLaws.
#[local] Existing Instance refBlake2.
#[local] Existing Instance refBlake2Laws.
#[local] Existing Instance refAead.
#[local] Existing Instance refAeadLaws.
#[local] Existing Instance refSubtle.
#[local] Existing Instance refSubtleLaws.
#[local] Existing Instance refX25519.
#[local] Existing Instance refSnow.
#[local] Existing Instance refSnowLaws.
#[local] Existing Instance refSnowTotal.
#[local] Existing Instance refRips.
#[local] Existing Instance refTreebitmap.
#[local] Existing Instance refTreebitmapLaws.
#[local] Existing Instance refHex.
#[local] Existing Instance refHexLaws.
#[local] Existing Instance refNotify.
Import ConfigText.








End witnesses.
