(* ===== verification/Crossing.v ===== *)
(** * From one process to another

    Two processes (`Interface::start` of src/interface/mod.rs) between which the
    datagrams of the servers travel: bytes read from the tunnel device of the
    one come out at the tunnel device of the other. *)

From S2P Require Import Prelude Crates Reference RefSnow AntiReplay Types Text Timestamp Message XChaCha RateLimiter Cookie Router Peer PeerTransport PeerSessions PeerHandshake Timer World PeerServer ServerInvariant ServerBehaviour EndToEnd Config ConfigText System Files Service Daemon.

Section crossing.
Context {BO : ByteOrder} {BOL : ByteOrderLaws BO} {B : Blake2} {BL : Blake2Laws B} {A : Aead}
        {S : Subtle} {SSL : SubtleLaws S} {X : X25519} {R : Rips} {T : Treebitmap}
        {SN : Snow} {SL : SnowLaws SN} {SC : SnowChannel SN} {IK : SnowIK SN SC X} {H : Hex} {N : Notify}.
Import PeerOps PeerServer.

(** A turn in which only the network and the tunnel device have something. *)
Definition traffic (e : Env) (arrived : list (Endpoint.t * bytes)) (raws : list bytes) : Turn :=
  mkTurn [] e arrived 0 Pending [] Pending Pending raws Pending.

(** The reaper has not ended and the tunnel is still read. *)
Definition reading_tunnel (d : Daemon) : Prop := GrimReaper.rx_poll (reaper d) = Pending ∧ read_done d = false.

Definition add_outgoing (packets : list UtunPacket.t) (w : World) : World := set_outgoing (outgoing w ++ packets) w.

Lemma read_packets_run raws packets : ∀ d,
  Forall2 (fun raw packet => UtunPacket.decode raw = Ok packet) raws packets →
  read_packets raws d = (set_server (add_outgoing packets (server d)) d, Ok tt).
Proof.
  intros d Hall. revert d. induction Hall as [|raw packet raws packets Hd _ IH]; intros d; cbn [read_packets].
  - unfold add_outgoing. rewrite app_nil_r. by destruct d as [? [] ? ? ? ? ? ?].
  - rewrite Hd. do 2 erewrite bindM_run by reflexivity. rewrite IH. unfold add_outgoing, set_server. simpl. by rewrite <-app_assoc.
Qed.

(** Such a turn is the poll of the server, then the packets of the device. *)
Lemma traffic_turn e arrived raws packets d w :
  reading_tunnel d → poll e arrived (server d) = (w, Ok tt) →
  Forall2 (fun raw packet => UtunPacket.decode raw = Ok packet) raws packets →
  turn (traffic e arrived raws) d = (set_server (add_outgoing packets w) d, Ok tt).
Proof.
  intros [Hr Hd] Hp Hraws. unfold turn. erewrite bindM_run by reflexivity. unfold poll_joined.
  erewrite bindM_run by (unfold on_server; simpl; rewrite Hp; reflexivity).
  erewrite bindM_run by (unfold poll_service, bindM, modM, getM, liftM; simpl; unfold Service.poll, GrimReaper.poll; simpl; rewrite Hr; reflexivity).
  erewrite bindM_run by (unfold poll_write, bindM, getM; simpl; by destruct (write_done d)).
  unfold poll_read. erewrite bindM_run by reflexivity. simpl. rewrite Hd.
  by erewrite bindM_run by (apply read_packets_run; exact Hraws).
Qed.

Lemma add_none w : add_outgoing [] w = w.
Proof. unfold add_outgoing. rewrite app_nil_r. by destruct w. Qed.

(** A server at rest with no packet is polled for nothing. *)
Lemma poll_idle e w : resting e w → outgoing w = [] → poll e [] w = (w, Ok tt).
Proof.
  intros Hr Ho. rewrite poll_resting by done. destruct Hr as [_ _ Hh _ _ Hr]. erewrite bindM_run by reflexivity.
  erewrite bindM_run by (by apply settle_run). erewrite bindM_run.
  2: { unfold poll_egress, bindM, getM, modM. rewrite Ho. cbn [each]. unfold retM. by apply settle_run. }
  assert (set_outgoing [] w = w) as -> by (destruct w; simpl in *; by subst). unfold poll_handshake, bindM, getM. by rewrite Hh.
Qed.

Lemma decode_payload raw packet : UtunPacket.decode raw = Ok packet → UtunPacket.payload packet = drop 4 raw.
Proof.
  unfold UtunPacket.decode, index_get. destruct (raw !! 4%nat) eqn:E; [|done]. apply lookup_lt_Some in E.
  rewrite slice_from_Ok by lia. simpl. repeat case_match; intros [= <-]; done.
Qed.

(** C1.  End to end: bytes that one process reads from its tunnel device, when
    it has no session with the peer they are for, come out at the tunnel device
    of the other process, without their header and otherwise unchanged.  Five
    turns of the two reactors do it: the packet is read; an initiation is sent;
    the other process answers; the packet that waited is sent; it is delivered.
    Each of the three turns that send does send exactly one datagram. *)
Theorem tunnel_end_to_end eA0 eA eB eA' eB' dA dB pA pB PA PB privA privB k iA iB ep addrA addrA' addrB raw packet :
  reading_tunnel dA → reading_tunnel dB → UtunPacket.decode raw = Ok packet →
  resting eA0 (server dA) → outgoing (server dA) = [] →
  ready_site eA (add_outgoing [packet] (server dA)) pA PA privA (generate_public privB) k iA →
  caller eA (add_outgoing [packet] (server dA)) pA PA (generate_public privB) ep packet →
  ready_site eB (server dB) pB PB privB (generate_public privA) k iB →
  callee (server dB) pB PB (generate_public privA) (wall eA) packet →
  length k = 32%nat → ip_framed (drop 4 raw) → Z.of_nat (length (drop 4 raw)) ≤ MAX_CONTENT_SIZE - 16 →
  now eA ≤ now eA' → now eB ≤ now eB' → now eB' - now eB < REJECT_AFTER_TIME →
  (∀ s, rest eA' s = Pending) → (∀ s, rest eB' s = Pending) → tunnel_open eB' = true →
  ∃ init resp out dA0 dA1 dB1 dA2 dB2,
    turn (traffic eA0 [] [raw]) dA = (dA0, Ok tt) ∧ wire (server dA0) = wire (server dA) ∧
    turn (traffic eA [] []) dA0 = (dA1, Ok tt) ∧ wire (server dA1) = wire (server dA) ++ [(ep, init)] ∧
    turn (traffic eB [(addrA, init)] []) dB = (dB1, Ok tt) ∧ wire (server dB1) = wire (server dB) ++ [(addrA, resp)] ∧
    turn (traffic eA' [(addrB, resp)] []) dA1 = (dA2, Ok tt) ∧ wire (server dA2) = wire (server dA1) ++ [(addrB, out)] ∧
    turn (traffic eB' [(addrA', out)] []) dB1 = (dB2, Ok tt) ∧ tunnel (server dB2) = tunnel (server dB) ++ [drop 4 raw].
Proof.
  intros HdA HdB Hraw Hidle Ho HA HcA HB HcB Hk Hip Hlen HtA HtB Ht HrA HrB Hopen.
  rewrite <-(decode_payload _ _ Hraw) in *.
  assert (UtunPacket.payload packet ≠ []) as Hne.
  { rewrite (decode_payload _ _ Hraw). unfold UtunPacket.decode, index_get in Hraw. destruct (raw !! 4%nat) eqn:E; [|done].
    apply lookup_lt_Some in E. intros Hnil%(f_equal length). rewrite length_drop in Hnil. simpl in Hnil. lia. }
  destruct (servers_end_to_end eA eB eA' eB' _ _ pA pB PA PB privA privB k iA iB ep addrA addrA' addrB packet
    HA HcA HB HcB Hk Hne Hip Hlen HtA HtB Ht HrA HrB Hopen)
    as (init & resp & out & wA1 & wB1 & wA2 & wB2 & E1 & W1 & E2 & W2 & E3 & W3 & E4 & W4).
  exists init, resp, out, (set_server (add_outgoing [packet] (server dA)) dA), (set_server wA1 dA), (set_server wB1 dB),
    (set_server wA2 dA), (set_server wB2 dB).
  split_and!; try done.
  - apply traffic_turn; [done|by apply poll_idle|]. by repeat constructor.
  - erewrite (traffic_turn eA [] [] []); [by rewrite add_none|done|exact E1|constructor].
  - erewrite (traffic_turn eB _ [] []); [by rewrite add_none|done|exact E2|constructor].
  - erewrite (traffic_turn eA' _ [] []); [by rewrite add_none|done|exact E3|constructor].
  - erewrite (traffic_turn eB' _ [] []); [by rewrite add_none|done|exact E4|constructor].
Qed.
End crossing.

(* ------------------------------------------------------------------ *)
(** ** An instance *)
Section witnesses.
#[local] Existing Instance refByteOrder.
#[local] Existing Instance refByteOrderLaws.
#[local] Existing Instance refBlake2.
#[local] Existing Instance refBlake2Laws.
#[local] Existing Instance refAead.
#[local] Existing Instance refSubtle.
#[local] Existing Instance refSubtleLaws.
#[local] Existing Instance refX25519.
#[local] Existing Instance refSnow.
#[local] Existing Instance refRips.
#[local] Existing Instance refTreebitmap.
#[local] Existing Instance refHex.
#[local] Existing Instance refNotify.
Import PeerOps PeerServer.

(** The servers of [e2e_A] and [e2e_B] in their processes; a packet with its
    header is read. *)
Definition cr_daemon (w : World) : Daemon := set_server w (Daemon_new demo_boot demo_files).
Definition cr_A : Daemon := cr_daemon (e2e_world 3 7 167772162 11 []).
Definition cr_B : Daemon := cr_daemon e2e_B.
Definition cr_raw : bytes := [0; 0; 8; 0] ++ demo_packet.

Lemma tunnel_end_to_end_witness :
  ∃ init resp out dA0 dA1 dB1 dA2 dB2,
    turn (traffic (sv_env 4) [] [cr_raw]) cr_A = (dA0, Ok tt) ∧ turn (traffic (sv_env 5) [] []) dA0 = (dA1, Ok tt) ∧
    turn (traffic (sv_env 6) [(demo_addr, init)] []) cr_B = (dB1, Ok tt) ∧
    turn (traffic (sv_env 7) [(demo_addr, resp)] []) dA1 = (dA2, Ok tt) ∧
    turn (traffic (sv_env 8) [(demo_addr, out)] []) dB1 = (dB2, Ok tt) ∧
    tunnel (server dB2) = tunnel (server cr_B) ++ [demo_packet].
Proof.
  destruct (tunnel_end_to_end (sv_env 4) (sv_env 5) (sv_env 6) (sv_env 7) (sv_env 8) cr_A cr_B 0 0 (e2e_peer 7) (e2e_peer 3)
    (e2e_key 3) (e2e_key 7) (zeros 32) 11 12 demo_addr demo_addr demo_addr demo_addr cr_raw e2e_packet
    ltac:(done) ltac:(done) eq_refl ltac:(by split) eq_refl ltac:(apply e2e_ready; by_decide) e2e_caller
    ltac:(apply e2e_ready; by_decide) e2e_callee eq_refl demo_framed ltac:(by_decide) ltac:(by_decide) ltac:(by_decide)
    ltac:(by_decide) (fun _ => eq_refl) (fun _ => eq_refl) eq_refl)
    as (init & resp & out & dA0 & dA1 & dB1 & dA2 & dB2 & H0 & _ & H1 & _ & H2 & _ & H3 & _ & H4 & H5).
  exists init, resp, out, dA0, dA1, dB1, dA2, dB2. exact (conj H0 (conj H1 (conj H2 (conj H3 (conj H4 H5))))).
Defined.
End witnesses.
