(* ===== verification/Findings.v ===== *)
(** * Behaviour that looks unintended

    Facts about the model that show the code doing something other than what it
    seems to mean: general statements where the behaviour is general, and runs
    of the model on the reference crates where one input shows it.  None of
    them is used by the theorems of the other files. *)

From S2P Require Import Prelude Crates Reference RefSnow AntiReplay Types Text Timestamp Message XChaCha RateLimiter Cookie Router Peer PeerTransport PeerSessions PeerHandshake Timer World PeerServer ServerInvariant ServerBehaviour Config ConfigText System.

(* ------------------------------------------------------------------ *)
(** ** Over every crate *)
Section general.
Context {BO : ByteOrder} {B : Blake2} {S : Subtle} {A : Aead} {R : Rips} {T : Treebitmap} {SN : Snow}.
Import PeerOps PeerServer.

(** An empty datagram makes the server panic: `packet[0]`. *)
Lemma empty_datagram_panics e addr w :
  ∃ msg, handle_ingress_packet e addr [] w = (w, Panic msg).
Proof. eexists. reflexivity. Qed.

(** A response that is refused, for whatever reason, has destroyed the
    handshake that waited for it. *)
Lemma refused_response_drops_handshake now addr packet self :
  let '(self', r) := process_incoming_handshake_response now addr packet self in
  is_ok r = false → next (sessions self') = None.
Proof.
  unfold process_incoming_handshake_response, bindM, getM, modM, liftM. simpl.
  destruct (next (sessions self)) as [s|]; [|done]. simpl.
  destruct (Response.noise_bytes packet); try done.
  destruct (snow_read_message _ _ _) as [n [?|?|?|]]; try done.
  destruct (SessionOps.into_transport_mode _); try done. destruct (Response.sender_index packet); try done.
Qed.

(** The length of an IPv6 packet wraps around for the last 40 payload lengths. *)
Lemma ipv6_length_wraps p :
  65496 ≤ ipv6_payload_length p < 65536 → IpPacket.length (IpPacket.V6 p) = ipv6_payload_length p - 65496.
Proof.
  intros H. unfold IpPacket.length, wrap16. rewrite <-(Z.mod_small (ipv6_payload_length p - 65496) 65536) by lia.
  replace (40 + ipv6_payload_length p) with (ipv6_payload_length p - 65496 + 1 * 65536) by lia.
  apply Z_mod_plus_full.
Qed.

(** Clearing the private key reaches the server and has no effect there. *)
Lemma clear_private_key_ignored e w : handle_incoming_event e ClearPrivateKey w = (w, Ok tt).
Proof. reflexivity. Qed.

(** A port that cannot be bound ends the process when it is bound because of a
    new private key, and is an ordinary error otherwise. *)
Lemma private_key_bind_panics e w pub key err :
  udp w = None → port w = None →
  if_pub_key (interface_info (state w)) = Some pub → if_private_key (interface_info (state w)) = Some key →
  (∀ port, os_bind e port = Err err) →
  is_panic (handle_incoming_event e NewPrivateKey w).2 = true ∧
  ∀ port, is_err (handle_incoming_event e (NewListenPort port) w).2 = true.
Proof.
  intros Hu Hn Hp Hk Hb. unfold handle_incoming_event, rebind, bindM, getM, modM, liftM.
  rewrite Hp. simpl. rewrite Hu. simpl.
  repeat (rewrite ?Hk, ?Hb, ?Hn; simpl). done.
Qed.

(** An error of the receiving stream ends the poll, and with it the server,
    when no handler panicked: the tunnel packets that wait are not looked at. *)
Lemma ingress_error_ends_poll e ingress w w1 w2 w3 u :
  poll_channel e w = (w1, Ok tt) → poll_timer e w1 = (w2, Ok tt) → udp w2 = Some u →
  each (fun '(addr, packet) => handle_ingress_packet e addr packet) ingress w2 = (w3, Ok tt) →
  rest e IngressStream = Broken →
  poll e ingress w = (w3, Err "incoming udp stream error").
Proof.
  intros H1 H2 Hu H3 Hb. unfold poll. rewrite (bindM_run _ _ _ _ _ H1), (bindM_run _ _ _ _ _ H2).
  unfold poll_ingress, bindM, getM. rewrite Hu. simpl. rewrite H3. unfold settle. by rewrite Hb.
Qed.

End general.

(* ------------------------------------------------------------------ *)
(** ** Runs on the reference crates *)
Section runs.
#[local] Existing Instance refByteOrder.
#[local] Existing Instance refBlake2.
#[local] Existing Instance refAead.
#[local] Existing Instance refSubtle.
#[local] Existing Instance refX25519.
#[local] Existing Instance refSnow.
#[local] Existing Instance refRips.
#[local] Existing Instance refTreebitmap.
#[local] Existing Instance refHex.
Import PeerServer Config.

(** The header says 40 bytes, 21 were decrypted: the 19 that follow in the
    buffer are delivered with them. *)
Definition long_packet : bytes := [69; 0; 0; 40] ++ zeros 16 ++ [99].
Lemma trim_delivers_buffer :
  PeerOps.trim_packet (long_packet ++ zeros 32) (length long_packet) = Ok (long_packet ++ zeros 19).
Proof. reflexivity. Qed.

(** Two peers, of which the second has taken over 10.0.0.0/8 from the first. *)
Definition moved_info (k : Z) (ips : list (IpAddr * Z)) : PeerInfo := {|
  pub_key := replicate 32 k; psk := None; endpoint := Some demo_addr; allowed_ips := ips; keepalive := None |}.
Definition net10 : IpAddr * Z := (IpV4 167772160, 8).
Definition net11 : IpAddr * Z := (IpV4 184549376, 8).
Definition moved : World :=
  (handle_set [Ev_UpdatePeer (moved_info 1 [net10]) false; Ev_UpdatePeer (moved_info 2 [net10]) false] sys_start).1.
Definition route_of (w : World) : option peer_id := Router.get_peer_from_ip (router (state w)) (IpV4 167772161).

(** Removing the first peer takes the route away that is the second's. *)
Lemma removal_takes_route :
  route_of moved = Some 1%nat ∧ route_of (handle_set [Ev_RemovePeer (replicate 32 1)] moved).1 = None.
Proof. split; vm_compute; reflexivity. Qed.

(** Adding another network to the first peer takes the route back. *)
Lemma update_takes_route_back :
  route_of (handle_set [Ev_UpdatePeer (moved_info 1 [net11]) false] moved).1 = Some 0%nat.
Proof. vm_compute. reflexivity. Qed.

(** A mask of 200 bits is accepted for an IPv4 address. *)
Lemma oversized_mask_accepted : ConfigText.parse_allowed_ip (str_bytes "10.0.0.0/200") = Ok (IpV4 167772160, 200).
Proof. vm_compute. reflexivity. Qed.

(** The reply to a command that succeeded repeats its line and ends in four
    newlines. *)
Lemma errno_repeated :
  ConfigText.encode errno0 [] = str_bytes "errno=0" ++ [LF] ++ str_bytes "errno=0" ++ [LF; LF; LF; LF].
Proof. reflexivity. Qed.

(** The keepalive interval is changed from 25 to 30 seconds when the timer has
    run out and its message waits in the channel: the event is handled first,
    cancels a timer that is over and sets a new one, and then the message sets
    another.  Two timers send keepalives from then on. *)
Definition ka_info (k : Z) : PeerInfo := {|
  pub_key := iv_key; psk := None; endpoint := Some demo_addr; allowed_ips := []; keepalive := Some k |}.
Definition ka_env (t : Instant) : Env :=
  mkEnv t (secs 1600000000) (zeros 16) (zeros 24) (fun _ => true) true (fun _ => Ok tt) (fun _ => Ok tt) (fun _ => Pending).
Definition ka_started : World :=
  (poll (ka_env 0) [] (set_channel [NewPeer 0] (set_heap {[ 0%nat := set_info (ka_info 25) iv_peer ]} iv_world))).1.
Definition ka_change (w : World) : World := (handle_set [Ev_UpdatePeer (ka_info 30) false] w).1.
Definition ka_fire (w : World) : World := set_timer (Timer.fire (secs 26) 1 (timer w)) w.
Definition persistent_timers (w : World) : list Timer.delay :=
  filter (fun d => Timer.message d = PersistentKeepAlive 0 ∧ Timer.canceled (timer w) !! Timer.flag d = Some false)
         (Timer.delays (timer w)).
Lemma persistent_timer_doubled :
  length (persistent_timers ka_started) = 1%nat ∧
  length (persistent_timers (poll (ka_env (secs 20)) [] (ka_change ka_started)).1) = 1%nat ∧
  length (persistent_timers (poll (ka_env (secs 26)) [] (ka_change (ka_fire ka_started))).1) = 2%nat.
Proof. split_and!; vm_compute; reflexivity. Qed.

(** The cookie reply to an initiation is sealed with bytes 84 to 100 of the
    packet, and the initiator, which remembers the MAC1 at 116, cannot open it;
    one sealed with that MAC1 would be opened. *)
Definition cookie_reply_for (mac1 : res bytes) : res unit :=
  let? mac1 := mac1 in
  let? reply := (Validator.generate_reply 20 (zeros 16) (zeros 24) 5 mac1 (ip_octets (Endpoint.ip demo_addr))
                   (Validator.new (generate_public hs_privB))).2 in
  (Generator.consume_reply 30 reply (cookie hs_A1.1)).2.
Lemma initiation_cookie_reply_unopened :
  is_err (cookie_reply_for (Initiation.mac1 hs_init)) = true ∧
  is_ok (cookie_reply_for (slice 116 132 hs_init)) = true.
Proof. split; vm_compute; reflexivity. Qed.

(** A packet arrives 170 seconds after the handshake and a new one is due: the
    packet reaches the tunnel when the initiation can be sent, and is dropped
    when the last one was sent less than REKEY-TIMEOUT ago. *)
Definition late_world (initialized : Instant) : World :=
  set_heap {[ 0%nat := set_timers (set_handshake_initialized (Timestamp.now initialized)
                         (set_handshake_completed (Timestamp.now 0) (timers iv_peer))) iv_peer ]} iv_world.
Lemma refused_rekey_drops_packet :
  length (tunnel (handle_ingress_packet (iv_env (secs 170)) demo_addr demo_out (late_world 0)).1) = 1%nat ∧
  tunnel (handle_ingress_packet (iv_env (secs 170)) demo_addr demo_out (late_world (secs 169))).1 = [].
Proof. split; vm_compute; reflexivity. Qed.

(** Of three initiations that arrive together one is handled; nothing wakes the
    server for the others. *)
Lemma one_handshake_per_poll :
  length (handshakes (poll (iv_env 5) (replicate 3 (demo_addr, 1 :: zeros 147)) iv_world).1) = 2%nat.
Proof. vm_compute. reflexivity. Qed.

(** The sender counts the sealed payload, the receiver the whole packet. *)
Lemma byte_counters_differ :
  tx_bytes demo_sent.1 = 48 ∧
  rx_bytes (PeerOps.handle_incoming_transport 5 demo_addr demo_out (demo_peer toy_b Current 6 5 0)).1 = 64.
Proof. split; vm_compute; reflexivity. Qed.
End runs.
