(* ===== verification/RefChaCha.v ===== *)
(** * ChaCha20-Poly1305

    The construction of RFC 8439 as an instance of the interface of the crate
    chacha20-poly1305-aead, which src/xchacha20poly1305.rs calls.  It satisfies
    the laws of [AeadLaws], and with it the test vectors of the source can be
    run on the model. *)

From S2P Require Import Prelude Crates Reference XChaCha.

Module ChaCha.
(** 2.3: the block function. *)
Definition double (s : list Z) : list Z := HChaChaSpec.diagonal_round (HChaChaSpec.column_round s).
Definition block (key nonce : bytes) (counter : Z) : bytes :=
  let s := HChaChaSpec.sigma ++ HChaChaSpec.words 8 key ++ [wrap32 counter] ++ HChaChaSpec.words 3 nonce in
  let s' := Nat.iter 10 double s in
  mjoin (le_split 4 <$> zip_with wadd s' s).

(** 2.4: the key stream from block [counter] on, as long as [input]. *)
Fixpoint stream (blocks : nat) (key nonce : bytes) (counter : Z) : bytes :=
  match blocks with
  | O => []
  | S n => block key nonce counter ++ stream n key nonce (counter + 1)
  end.
Definition xor_stream (key nonce : bytes) (counter : Z) (input : bytes) : bytes :=
  zip_with Z.lxor input (stream (length input / 64 + 1) key nonce counter).

(** 2.5: Poly1305. *)
Definition P : Z := 2 ^ 130 - 5.
Definition CLAMP : Z := 21267647620597763993911028882763415551.
Fixpoint chunks (fuel : nat) (b : bytes) : list bytes :=
  match fuel, b with
  | S n, _ :: _ => take 16 b :: chunks n (drop 16 b)
  | _, _ => []
  end.
Definition poly1305 (key msg : bytes) : bytes :=
  let r := Z.land (le_combine (take 16 key)) CLAMP in
  let s := le_combine (drop 16 key) in
  let a := foldl (fun a c => (a + le_combine (c ++ [1])) * r mod P) 0 (chunks (length msg) msg) in
  le_split 16 ((a + s) mod 2 ^ 128).

(** 2.8: the AEAD. *)
Definition pad16 (b : bytes) : bytes := zeros ((16 - length b mod 16) mod 16).
Definition tag (key nonce aad ct : bytes) : bytes :=
  poly1305 (take 32 (block key nonce 0))
    (aad ++ pad16 aad ++ ct ++ pad16 ct ++ le_split 8 (Z.of_nat (length aad)) ++ le_split 8 (Z.of_nat (length ct))).
Definition encrypt (key nonce aad pt : bytes) : res (bytes * bytes) :=
  let ct := xor_stream key nonce 1 pt in Ok (ct, tag key nonce aad ct).
Definition decrypt (key nonce aad ct t : bytes) : res bytes :=
  if bool_decide (t = tag key nonce aad ct) then Ok (xor_stream key nonce 1 ct) else Err "authentication failed".
End ChaCha.

Definition rfcAead : Aead := {| aead_encrypt := ChaCha.encrypt; aead_decrypt := ChaCha.decrypt |}.

(* ------------------------------------------------------------------ *)
(** ** The laws *)
Section laws.
Import ChaCha.

Lemma length_quarter_round a b c d s : length (HChaChaSpec.quarter_round a b c d s) = length s.
Proof. unfold HChaChaSpec.quarter_round. by rewrite !length_insert. Qed.

Lemma length_double s : length (double s) = length s.
Proof. unfold double, HChaChaSpec.diagonal_round, HChaChaSpec.column_round. by rewrite !length_quarter_round. Qed.

Lemma length_block key nonce counter : length (block key nonce counter) = 64%nat.
Proof.
  unfold block. set (s := _ ++ _). assert (length s = 16%nat) as Hs by done. clearbody s.
  assert (∀ n, length (Nat.iter n double s) = 16%nat) as Hi.
  { induction n as [|n IH]; [exact Hs|]. rewrite Nat.iter_succ, length_double. exact IH. }
  specialize (Hi 10%nat). generalize dependent (Nat.iter 10 double s).
  intros s' Hs'. assert (length (zip_with wadd s' s) = 16%nat) as Hz by (rewrite length_zip_with; lia).
  generalize dependent (zip_with wadd s' s). intros l Hl. change 64%nat with (4 * 16)%nat. rewrite <-Hl. clear.
  induction l as [|x l IH]; [done|]. cbn [fmap list_fmap]. change (mjoin (?a :: ?b)) with (a ++ mjoin b).
  rewrite length_app, length_le_split, IH. simpl. lia.
Qed.

Lemma length_stream n key nonce : ∀ counter, length (stream n key nonce counter) = (64 * n)%nat.
Proof. induction n as [|n IH]; intros counter; [done|]. cbn [stream]. rewrite length_app, length_block, IH. lia. Qed.

Lemma stream_covers key nonce counter (input : bytes) :
  (length input ≤ length (stream (length input / 64 + 1) key nonce counter))%nat.
Proof. rewrite length_stream. pose proof (Nat.div_mod_eq (length input) 64). pose proof (Nat.mod_upper_bound (length input) 64). lia. Qed.

Lemma length_xor_stream key nonce counter input : length (xor_stream key nonce counter input) = length input.
Proof. unfold xor_stream. rewrite length_zip_with. pose proof (stream_covers key nonce counter input). lia. Qed.

Lemma xor_twice (a k : bytes) : (length a ≤ length k)%nat → zip_with Z.lxor (zip_with Z.lxor a k) k = a.
Proof.
  revert k. induction a as [|x a IH]; intros [|y k] H; simpl in *; try done; try lia.
  rewrite IH by lia. f_equal. by rewrite Z.lxor_assoc, Z.lxor_nilpotent, Z.lxor_0_r.
Qed.

Lemma xor_stream_twice key nonce counter input :
  xor_stream key nonce counter (xor_stream key nonce counter input) = input.
Proof.
  unfold xor_stream at 1. rewrite length_xor_stream. unfold xor_stream. apply xor_twice, stream_covers.
Qed.

#[export] Instance rfcAeadLaws : AeadLaws rfcAead.
Proof.
  split.
  - intros k n aad pt _ _. do 2 eexists. split; [reflexivity|]. split; [apply length_xor_stream|]. apply length_le_split.
  - intros k n aad pt ct t [= <- <-]. simpl. unfold decrypt. rewrite bool_decide_eq_true_2 by done.
    by rewrite xor_stream_twice.
  - intros k n aad ct t _ _. simpl. unfold decrypt. case_bool_decide; [left|by right].
    eexists. split; [reflexivity|]. apply length_xor_stream.
Qed.
End laws.
