(* ===== verification/Tests.v ===== *)
(** * The unit tests of the source, run on the model

    The tests of src/xchacha20poly1305.rs, src/ratelimiter.rs and
    src/anti_replay.rs as programs over the modelled operations: a failed
    assertion or an `unwrap` of an error is a [Panic]. *)

From S2P Require Import Prelude Crates Reference RefSnow AntiReplay Types Text Timestamp XChaCha RateLimiter ConfigText RefChaCha.
From S2P Require Import Peer.

Module Tests.
#[local] Existing Instance refByteOrder.
#[local] Existing Instance rfcAead.

Definition assert (b : bool) : res unit := if b then Ok tt else Panic "assertion failed".

(** `hex::decode(s).unwrap()`. *)
Definition hex (s : string) : res bytes := unwrap (hex_read (str_bytes s)).

(** `wireguard_go_vectors`, one of its cases. *)
Definition vector (nonce key pt ct : string) : res unit :=
  let? nonce := hex nonce in let? key := hex key in let? pt := hex pt in let? ct := hex ct in
  let? '(buf, tag) := unwrap_res (XChaCha.encrypt key nonce pt [] (zeros (length pt))) in
  let? _ := assert (bool_decide (buf ++ tag = ct)) in
  let? buf := unwrap_res (XChaCha.decrypt key nonce (take (length pt) ct) [] tag buf) in
  assert (bool_decide (buf = pt)).

Definition wireguard_go_vectors : res unit :=
  let? _ := vector "000000000000000000000000000000000000000000000000"
    "0000000000000000000000000000000000000000000000000000000000000000"
    "00000000000000000000000000000000000000000000000000000000000000000000000000000000000000000000000000000000000000000000000000000000"
    "789e9689e5208d7fd9e1f3c5b5341f48ef18a13e418998addadd97a3693a987f8e82ecd5c1433bfed1af49750c0f1ff29c4174a05b119aa3a9e8333812e0c0feb1299c5949d895ee01dbf50f8395dd84" in
  let? _ := vector "0f0f0f0f0f0f0f0f0f0f0f0f0f0f0f0f0f0f0f0f0f0f0f0f"
    "0f0f0f0f0f0f0f0f0f0f0f0f0f0f0f0f0f0f0f0f0f0f0f0f0f0f0f0f0f0f0f0f"
    "0f0f0f0f0f0f0f0f0f0f0f0f0f0f0f0f0f0f0f0f"
    "e1a046aa7f71e2af8b80b6408b2fd8d3a350278cde79c94d9efaa475e1339b3dd490127b" in
  vector "d9a8213e8a697508805c2c171ad54487ead9e3e02d82d5bc"
    "979196dbd78526f2f584f7534db3f5824d8ccfa858ca7e09bdd3656ecd36033c"
    "43cc6d624e451bbed952c3e071dc6c03392ce11eb14316a94b2fdc98b22fedea"
    "53c1e8bef2dbb8f2505ec010a7afe21d5a8e6dd8f987e4ea1a2ed5dfbc844ea400db34496fd2153526c6e87c36694200".

(** `sanity`. *)
Definition sanity : res unit :=
  let key := replicate 32 1 in
  let nonce := replicate 24 2 in
  let aad := replicate 16 3 in
  let input := str_bytes "Readings fluxuated momentarily. It appeared to be a ship, but then it vanished." in
  let? '(enc, tag) := unwrap_res (XChaCha.encrypt key nonce input aad (zeros (length input))) in
  let? dec := unwrap_res (XChaCha.decrypt key nonce enc aad tag (zeros (length input))) in
  assert (bool_decide (input = dec)).

(** `test_ratelimiter`, on a clock that moves by [step] with every call: the
    answers expected, and the time waited before. *)
Definition limiter_ips : list IpAddr :=
  [IpV4 2130706433; IpV4 3232235777; IpV4 2896626179; IpV4 1642593495; IpV4 4167130023; IpV4 3167807791; IpV4
   1745008563; IpV4 1216425592; IpV6 42540766414390830568948465903729639425; IpV6
   326670792377846988459760971123034170864; IpV6 237719366575403124696110147213834736892; IpV6
   218634486433522346389818377071155988760; IpV6 311199365716880143630243635802213340229; IpV6
   83815772523880624242616929411312026820].

Definition limiter_expected : list (bool * Duration) :=
  replicate 5 (true, 0) ++
  [(false, 0); (true, RateLimiter.PACKET_COST); (false, 0); (true, 2 * RateLimiter.PACKET_COST); (true, 0); (false, 0)].

Fixpoint limiter_round (step : Duration) (allowed : bool) (ips : list IpAddr) (t : Instant) (rl : RateLimiter.t)
  : res (Instant * RateLimiter.t) :=
  match ips with
  | [] => Ok (t, rl)
  | ip :: ips' =>
      let '(rl, r) := RateLimiter.allow t t ip rl in
      let? _ := assert (bool_decide (r = allowed)) in
      limiter_round step allowed ips' (t + step) rl
  end.

Fixpoint limiter_rounds (step : Duration) (items : list (bool * Duration)) (t : Instant) (rl : RateLimiter.t) : res unit :=
  match items with
  | [] => Ok tt
  | (allowed, wait) :: items' =>
      let? '(t, rl) := limiter_round step allowed limiter_ips (t + wait) rl in
      limiter_rounds step items' t rl
  end.

Definition test_ratelimiter (step : Duration) : res unit :=
  limiter_rounds step limiter_expected 0 RateLimiter.new.

(** `anti_replay`. *)
Fixpoint for_each {W X} (l : list X) (body : X → M W unit) : M W unit :=
  match l with [] => retM tt | x :: l' => let! _ := body x in for_each l' body end.

Definition updated (i : Z) : M AntiReplay.t unit := fun ar => let '(ar', r) := AntiReplay.update i ar in (ar', unwrap_res r).
Definition refused (i : Z) : M AntiReplay.t unit := fun ar =>
  (ar, let? c := AntiReplay.check ar i in assert (negb c)).
Definition not_updated (i : Z) : M AntiReplay.t unit := fun ar =>
  let '(ar', r) := AntiReplay.update i ar in (ar', assert (is_err r)).

(** The numbers from [lo] to [hi], [hi] left out. *)
Definition range (lo hi : Z) : list Z := seqZ lo (hi - lo).

Definition anti_replay : M AntiReplay.t unit :=
  let W := AntiReplay.WINDOW_SIZE in
  let next := 2 ^ 64 - 1 in
  let! _ := for_each (range 0 20000) updated in
  let! _ := for_each (reverse (range 0 20000)) refused in
  let! _ := updated 65536 in
  let! _ := for_each (range (65536 - W) 65535) updated in
  let! _ := for_each (range (65536 - 10 * W) 65535) refused in
  let! _ := updated 66000 in
  let! _ := for_each (range 65537 66000) updated in
  let! _ := for_each (range 65537 66000) not_updated in
  let! _ := updated next in
  let! _ := refused next in
  let! _ := for_each (range (next - W) next) updated in
  for_each (range (next - 20 * W) next) refused.

(** The loops of the benchmarks, with [n] iterations: `seq` grows by [step], or
    the same number comes again. *)
Fixpoint bench_skips (n : nat) (step seq : Z) : M AntiReplay.t unit :=
  match n with
  | O => retM tt
  | S n' => let! _ := updated seq in bench_skips n' step (seq + step)
  end.
Definition bench_anti_replay_sequential (n : nat) : M AntiReplay.t unit := bench_skips n 1 0.
Definition bench_anti_replay_large_skip (n : nat) : M AntiReplay.t unit := bench_skips n 30000 0.
Definition bench_anti_replay_old (n : nat) : M AntiReplay.t unit :=
  let! _ := updated 12345 in
  let! _ := updated 11234 in
  for_each (replicate n 11234) not_updated.
End Tests.

(* ------------------------------------------------------------------ *)
(** ** They pass *)
Section pass.
Import Tests.

Lemma sanity_passes : is_ok sanity = true.
Proof. vm_cast_no_check (eq_refl true). Qed.
Lemma wireguard_go_vectors_pass : is_ok wireguard_go_vectors = true.
Proof. vm_cast_no_check (eq_refl true). Qed.

(** The rate limiter's test passes when the clock moves between its calls, but
    not on one that stands still: a full bucket then pays for one packet less. *)
Lemma test_ratelimiter_passes : is_ok (test_ratelimiter 1) && is_ok (test_ratelimiter 1000) && is_panic (test_ratelimiter 0) = true.
Proof. vm_cast_no_check (eq_refl true). Qed.

(** ** The test of the anti-replay window, through the abstract window *)
Import AntiReplay.

(** The window that stands for [ar]: the highest number, and the numbers seen. *)
Definition window (ar : t) (h : Z) (X : Z → Prop) : Prop :=
  ∃ w, refines ar w ∧ Window.highest w = h ∧ ∀ k, k ∈ Window.seen w ↔ X k.

Lemma fresh_iff w k :
  Window.fresh w k = true ↔ Window.highest w < k ∨ Window.highest w - k ≤ WINDOW_SIZE ∧ k ∉ Window.seen w.
Proof.
  unfold Window.fresh. rewrite orb_true_iff, andb_true_iff, Z.ltb_lt, Z.leb_le, negb_true_iff, bool_decide_eq_false. done.
Qed.

(** A number that is new and not too old. *)
Lemma updated_ok ar h X i :
  window ar h X → is_u64 i → h < i ∨ h - i ≤ WINDOW_SIZE ∧ ¬ X i →
  ∃ ar', updated i ar = (ar', Ok tt) ∧ window ar' (Z.max h i) (fun k => k = i ∨ X k).
Proof.
  intros (w & Hr & Hh & HX) Hi Hf. assert (Window.fresh w i = true) as Hfr by (apply fresh_iff; rewrite Hh, HX; exact Hf).
  destruct (refines_step ar w i Hr Hi) as [Hr' Hres]. unfold Window.update in *. rewrite Hfr in *.
  unfold updated. destruct (update i ar) as [ar' r]. simpl in *. subst r. exists ar'. split; [done|].
  exists (Window.accept w i). split; [done|]. split; [by rewrite <-Hh|]. intros k. simpl. rewrite <-HX. set_solver.
Qed.

(** A number that is too old, or was seen. *)
Lemma stale_not_fresh w k : Window.highest w - k > WINDOW_SIZE ∨ k ∈ Window.seen w ∧ k ≤ Window.highest w → Window.fresh w k = false.
Proof.
  intros Hk. apply not_true_is_false. rewrite fresh_iff. change WINDOW_SIZE with 2016 in *. intuition lia.
Qed.

Definition stale (h : Z) (X : Z → Prop) (k : Z) : Prop := is_u64 k ∧ k ≤ h ∧ (h - k > WINDOW_SIZE ∨ X k).

Lemma stale_fresh ar h X k : window ar h X → stale h X k → ∃ w, refines ar w ∧ Window.fresh w k = false.
Proof.
  intros (w & Hr & <- & HX) (_ & Hle & Hk). exists w. split; [done|]. apply stale_not_fresh. rewrite HX. tauto.
Qed.

Lemma refused_ok ar h X k : window ar h X → stale h X k → refused k ar = (ar, Ok tt).
Proof.
  intros Hw Hk. destruct (stale_fresh _ _ _ _ Hw Hk) as (w & Hr & Hf). unfold refused.
  by rewrite (refines_check _ w), Hf by (done || apply Hk).
Qed.

Lemma refused_all ar h X l : window ar h X → Forall (stale h X) l → for_each l refused ar = (ar, Ok tt).
Proof.
  intros Hw. induction 1 as [|k l Hk _ IH]; [done|]. cbn [for_each]. by erewrite bindM_run by (by eapply refused_ok).
Qed.

Lemma not_updated_all ar h X l : window ar h X → Forall (stale h X) l → for_each l not_updated ar = (ar, Ok tt).
Proof.
  intros Hw. induction 1 as [|k l Hk _ IH]; [done|]. cbn [for_each]. erewrite bindM_run; [exact IH|].
  destruct (stale_fresh _ _ _ _ Hw Hk) as (w & Hr & Hf). unfold not_updated, update.
  by rewrite (refines_check _ w), Hf by (done || apply Hk).
Qed.

Lemma window_ext ar h h' (X Y : Z → Prop) : window ar h X → h = h' → (∀ k, X k ↔ Y k) → window ar h' Y.
Proof. intros (w & Hr & Hh & HX) <- HY. exists w. split; [done|]. split; [done|]. intros k. by rewrite HX. Qed.

(** The benchmarks can run until the counter is at its end. *)
Lemma bench_skips_ok n step : ∀ seq ar h (X : Z → Prop),
  window ar h X → 0 < step → 0 ≤ h ≤ seq → ¬ X seq → seq + step * (Z.of_nat n - 1) < 2 ^ 64 → (∀ k, X k → k ≤ h) →
  (bench_skips n step seq ar).2 = Ok tt.
Proof.
  induction n as [|n IH]; intros seq ar h X Hw Hs Hh Hn Hlt HX; [done|]. cbn [bench_skips].
  destruct (updated_ok ar h X seq Hw) as (ar' & E & Hw'); [unfold is_u64; nia| |].
  { destruct (Z.eq_dec h seq) as [->|]; [right|left; lia]. split; [change WINDOW_SIZE with 2016; lia|done]. }
  erewrite bindM_run by exact E.
  apply (IH (seq + step) ar' (Z.max h seq) (fun k => k = seq ∨ X k)); [done|done|lia| |nia|].
  - intros [?|Hk%HX]; lia.
  - intros k [->|Hk%HX]; lia.
Qed.

Lemma bench_passes n :
  Z.of_nat n * 30000 ≤ 2 ^ 64 →
  (bench_anti_replay_sequential n new).2 = Ok tt ∧ (bench_anti_replay_large_skip n new).2 = Ok tt ∧
  (bench_anti_replay_old n new).2 = Ok tt.
Proof.
  intros Hn. assert (window new 0 (fun _ => False)) as Hw.
  { exists Window.new. split; [apply refines_new|]. split; [done|]. intros k. simpl. set_solver. }
  split_and!.
  - apply (bench_skips_ok n 1 0 new 0 (fun _ => False)); [done|lia|lia|tauto|lia|tauto].
  - apply (bench_skips_ok n 30000 0 new 0 (fun _ => False)); [done|lia|lia|tauto|lia|tauto].
  - unfold bench_anti_replay_old.
    destruct (updated_ok new 0 _ 12345 Hw) as (ar1 & E1 & Hw1); [done|by left|]. erewrite bindM_run by exact E1.
    destruct (updated_ok ar1 _ _ 11234 Hw1) as (ar2 & E2 & Hw2); [done|right; split; [done|by intros [?|?]]|]. erewrite bindM_run by exact E2.
    erewrite not_updated_all; [done|exact Hw2|]. apply Forall_replicate. split; [done|]. split; [done|]. right. by left.
Qed.

(** A range above the highest number, and a range inside the window. *)
Lemma updated_range n lo : ∀ ar h X,
  window ar h X → 0 ≤ lo → lo + Z.of_nat n ≤ 2 ^ 64 →
  (h < lo ∨ lo + Z.of_nat n ≤ h ∧ h - lo ≤ WINDOW_SIZE ∧ ∀ k, lo ≤ k < lo + Z.of_nat n → ¬ X k) →
  ∃ ar', for_each (seqZ lo (Z.of_nat n)) updated ar = (ar', Ok tt) ∧
    window ar' (if decide (n = 0%nat) then h else Z.max h (lo + Z.of_nat n - 1)) (fun k => lo ≤ k < lo + Z.of_nat n ∨ X k).
Proof.
  revert lo. induction n as [|n IH]; intros lo ar h X Hw Hlo Hhi Hf.
  { exists ar. split; [done|]. eapply window_ext; [exact Hw|done|]. intros k. split; [tauto|]. intros [?|?]; [lia|done]. }
  destruct (updated_ok ar h X lo Hw) as (ar1 & H1 & Hw1); [unfold is_u64; lia| |].
  { destruct Hf as [?|(? & ? & Hn)]; [by left|right]. split; [done|]. apply Hn. lia. }
  destruct (IH (lo + 1) ar1 (Z.max h lo) _ Hw1) as (ar' & H2 & Hw2); [lia|lia| |].
  { destruct Hf as [?|(? & ? & Hn)]; [left; lia|right]. split_and!; [lia|lia|]. intros k Hk [->|HX]; [lia|]. apply (Hn k); [lia|done]. }
  exists ar'. split.
  - rewrite seqZ_cons by lia. cbn [for_each]. erewrite bindM_run by exact H1.
    replace (Z.pred (Z.of_nat (S n))) with (Z.of_nat n) by lia. exact H2.
  - eapply window_ext; [exact Hw2| |].
    + destruct n; simpl decide; simpl; lia.
    + intros k. split; [intros [?|[->|?]]; [left; lia|left; lia|by right]|].
      intros [?|?]; [|by right; right]. destruct (decide (k = lo)) as [->|]; [by right; left|left; lia].
Qed.

Lemma updated_range_run lo hi ar h X :
  window ar h X → 0 ≤ lo < hi → hi ≤ 2 ^ 64 →
  (h < lo ∨ hi ≤ h ∧ h - lo ≤ WINDOW_SIZE ∧ ∀ k, lo ≤ k < hi → ¬ X k) →
  ∃ ar', for_each (range lo hi) updated ar = (ar', Ok tt) ∧ window ar' (Z.max h (hi - 1)) (fun k => lo ≤ k < hi ∨ X k).
Proof.
  intros Hw Hlo Hhi Hf. unfold range. destruct (updated_range (Z.to_nat (hi - lo)) lo ar h X Hw) as (ar' & Hrun & Hw');
    rewrite ?Z2Nat.id in * by lia; replace (lo + (hi - lo)) with hi in * by lia; try lia; [done|].
  exists ar'. split; [done|]. rewrite decide_False in Hw' by lia. exact Hw'.
Qed.

Lemma range_stale lo hi h X : 0 ≤ lo → hi ≤ h + 1 → h < 2 ^ 64 → (∀ k, lo ≤ k < hi → h - k > WINDOW_SIZE ∨ X k) → Forall (stale h X) (range lo hi).
Proof.
  intros Hlo Hhi Hh HX. apply Forall_forall. intros k [Hk1 Hk2]%elem_of_seqZ. unfold stale, is_u64.
  split; [lia|]. split; [lia|]. apply HX. lia.
Qed.

(** Zero is the first number. *)
Lemma updated_from_zero hi ar :
  window ar 0 (fun _ => False) → 1 < hi ≤ 2 ^ 64 →
  ∃ ar', for_each (range 0 hi) updated ar = (ar', Ok tt) ∧ window ar' (hi - 1) (fun k => 0 ≤ k < hi).
Proof.
  intros Hw Hhi. destruct (updated_ok ar 0 _ 0 Hw) as (ar1 & H1 & Hw1); [unfold is_u64; lia|right; split; [change WINDOW_SIZE with 2016; lia|tauto]|].
  destruct (updated_range_run 1 hi ar1 _ _ Hw1) as (ar2 & H2 & Hw2); [lia|lia|left; lia|].
  exists ar2. split.
  - unfold range in *. rewrite seqZ_cons by lia. cbn [for_each]. erewrite bindM_run by exact H1.
    replace (Z.succ 0) with 1 by lia. replace (Z.pred (hi - 0)) with (hi - 1) by lia. exact H2.
  - eapply window_ext; [exact Hw2|lia|]. intros k. split; [intros [?|[->|[]]]; lia|]. intros Hk.
    destruct (decide (k = 0)) as [->|]; [by right; left|left; lia].
Qed.

(** Every assertion of the test holds, and no update of it fails. *)
Lemma anti_replay_passes : (anti_replay new).2 = Ok tt.
Proof.
  assert (window new 0 (fun _ => False)) as W0.
  { exists Window.new. split; [apply refines_new|]. split; [done|]. intros k. simpl. set_solver. }
  assert (WINDOW_SIZE = 2016) as HW by done.
  destruct (updated_from_zero 20000 new W0) as (ar1 & R1 & W1); [lia|].
  destruct (updated_ok ar1 _ _ 65536 W1) as (ar2 & R2 & W2); [unfold is_u64; lia|left; lia|].
  destruct (updated_range_run (65536 - WINDOW_SIZE) 65535 ar2 _ _ W2) as (ar3 & R3 & W3); [lia|lia|right; split_and!; lia|].
  destruct (updated_ok ar3 _ _ 66000 W3) as (ar4 & R4 & W4); [unfold is_u64; lia|left; lia|].
  destruct (updated_range_run 65537 66000 ar4 _ _ W4) as (ar5 & R5 & W5); [lia|lia|right; split_and!; lia|].
  destruct (updated_ok ar5 _ _ (2 ^ 64 - 1) W5) as (ar6 & R6 & W6); [unfold is_u64; lia|left; lia|].
  destruct (updated_range_run (2 ^ 64 - 1 - WINDOW_SIZE) (2 ^ 64 - 1) ar6 _ _ W6) as (ar7 & R7 & W7); [lia|lia|right; split_and!; lia|].
  unfold anti_replay. cbv zeta. erewrite bindM_run by exact R1.
  erewrite bindM_run by (eapply refused_all; [exact W1|]; apply Forall_reverse, range_stale; lia).
  erewrite bindM_run by exact R2. erewrite bindM_run by exact R3.
  erewrite bindM_run by (eapply refused_all; [exact W3|]; apply range_stale; lia).
  erewrite bindM_run by exact R4. erewrite bindM_run by exact R5.
  erewrite bindM_run by (eapply not_updated_all; [exact W5|]; apply range_stale; lia).
  erewrite bindM_run by exact R6.
  erewrite bindM_run by (eapply refused_ok; [exact W6|]; unfold stale, is_u64; lia).
  erewrite bindM_run by exact R7.
  by erewrite refused_all; [|exact W7|apply range_stale; lia].
Qed.

(** The unit tests of the source hold of the model: the test vectors of
    wireguard-go for XChaCha20-Poly1305, over ChaCha20-Poly1305 as RFC 8439
    defines it; the bursts of the rate limiter, on a clock that moves by a
    nanosecond with every call; and the runs of the anti-replay window up to
    the largest 64-bit number. *)
Lemma source_tests_pass :
  is_ok wireguard_go_vectors = true ∧ is_ok sanity = true ∧ is_ok (test_ratelimiter 1) = true ∧ (anti_replay new).2 = Ok tt.
Proof.
  pose proof test_ratelimiter_passes as [[H _]%andb_prop _]%andb_prop.
  split; [exact wireguard_go_vectors_pass|]. split; [exact sanity_passes|]. split; [exact H|exact anti_replay_passes].
Qed.
End pass.
